(* ===== verification/_CoqProject ===== *)
-Q . S2P
Prelude.v
GoStrings.v
GoTime.v
Contracts.v
Metrics.v
Ulid.v
Verdict.v
Money.v
Predicates.v
Base64.v
Signing.v
AuthzVerify.v
Runtime.v
Config.v
Engine.v
Samples.v
EngineProps.v
Hold.v
HoldStore.v
Pg.v
HoldPg.v
Budget.v
Counter.v
Reserver.v
Spend.v
Window.v
BudgetSafety.v
BudgetMem.v
BudgetPg.v
ReconcilePg.v
BudgetPgMem.v
RateLimit.v
Sha2.v
RedisKv.v
Auth.v
AuthProps.v
AuthMem.v
AuthRedis.v
AuthPg.v
Keygen.v
AuthPgProps.v
AuthPgMem.v
AuditLog.v
AuditProps.v
AuditMem.v
AuditPg.v
AuditPgProps.v
AuditWriter.v
PolicyLoad.v
PolicyFile.v
Policyctl.v
SchemaErrors.v
PolicyctlProps.v
PolicyPg.v
PolicyPgProps.v
BundleProv.v
BundleRun.v
DryRun.v
PolicyMem.v
BundleMem.v
PolicyPgMem.v
Idempotency.v
ControlTypes.v
KeyStores.v
Server.v
Telemetry.v
AuditPgMem.v
ServerCtl.v
ServerProps.v
Settle.v
ServerCtlProps.v
Boot.v
BootProps.v
Router.v
ServerMem.v
SettleMem.v
CommandsMem.v
RouterMem.v
ServerCtlMem.v
KeysPgMem.v
