(* ===== verification/Prelude.v ===== *)
(** A verification development for [authorize-svc], the service that decides
    whether an agent may spend money.

    * The program

    A request reaches the service over HTTP, is authenticated, rate limited
    and handed to the engine.  The engine resolves the organisation's active
    policy, evaluates the local predicates, combines their outcomes into
    APPROVE, DENY or REVIEW, reserves money for a budget only if everything
    else approves, and signs the decision.  Every decision is appended to a
    hash-chained log; a hold placed for an approval is later captured, voided
    or expired.  The control plane publishes the policies the engine reads.

    * Files and sources

    All sources are under [src/services/authorize-svc/internal/], but for the
    wire types of [src/contracts/gen/go/contractsv1/types.go] and the commands
    of [src/services/authorize-svc/cmd/].

    - [Prelude], [GoStrings], [GoTime], [Base64]: results, worlds, 64-bit
      integers, and the parts of Go's [strconv], [strings], [fmt], [time] and
      [encoding/base64] the program uses.  [Runtime] is the clock and the
      random source as an interface over the world.
    - [Contracts]: the wire types.
    - [Ulid]: [ulid/ulid.go].
    - [Verdict]: [engine/verdict.go].  [Money], [Predicates]:
      [engine/predicate.go], [predicates.go], [construct.go].
    - [Engine], [EngineProps]: [engine/engine.go], [engine/authorize.go].
    - [Signing]: [signing/].  [Sha2] is an executable SHA-256.
    - [Hold], [HoldStore]: [hold/hold.go]: the lifecycle, its in-memory store,
      and the [Store] interface with what it promises.
    - [Pg]: what the Postgres stores share: faults of a statement, and what a
      text or jsonb column accepts.
    - [HoldPg]: [hold/postgres.go]: each call as a thread of SQL statements on
      the rows of [budget_reservations]; interleavings, faults, and the
      refinement of the in-memory store by a call that runs alone.
    - [Budget]: [budget/budget.go].  [Counter]: [budget/counter.go],
      [budget/redis.go].  [Reserver]: [budget/reserver.go],
      [budget/reconcile.go].  [BudgetSafety]: their threads, interleaved, over
      any counter and ledger that keep their promises.  [BudgetMem]: the
      subsystem assembled in memory.  [Spend]: what a ledger counts against a
      counter.  [Window]: which instants share a window.  [BudgetPg]: the
      subsystem as deployed, over Redis and Postgres, a call or a statement a
      step, a sweep in its two halves, with lost answers and expiring keys; a
      step says what it gives back twice.  [ReconcilePg]: its reconciler
      over time.  [BudgetPgMem]: concrete runs.
    - [Settle]: a payment from its decision to its settlement: the hold behind
      an obligation, the deadline it states, and what capture and void answer,
      over the subsystem in memory and over Postgres.  [SettleMem]: the service
      with it, and concrete payments.
    - [RateLimit]: [ratelimit/].
    - [RedisKv]: the string commands of a Redis server, and parts of a world
      behind lenses, shared by the caches.
    - [Auth], [AuthProps], [AuthMem]: [auth/auth.go], [auth/memory.go],
      [auth/admin.go].  [AuthRedis]: [auth/redis.go].  [AuthPg], [AuthPgProps],
      [AuthPgMem]: [auth/postgres.go], a statement per method.
    - [AuditLog], [AuditProps], [AuditMem]: [audit/audit.go],
      [audit/crypto.go], [audit/memory.go].  [AuditWriter]: [audit/writer.go],
      its calls and its worker as threads over the channel, the lock and the
      wait groups.
    - [AuditPg], [AuditPgProps], [AuditPgMem]: [audit/postgres.go]: each append
      as a transaction of one statement a step, under its advisory lock, on the
      rows of [decisions]; faults, interleavings, and the reads.
    - [PolicyLoad]: [policy/policy.go].  [PolicyFile]: where a boot policy comes
      from, and what the shipped one decides.  [Policyctl], [PolicyctlProps]:
      [policyctl/], without Postgres.  [SchemaErrors]: how a refused policy is
      reported.  [BundleProv]: [bundle/].  [BundleRun]: the bundle cache and its
      refresher as threads.  [DryRun]: the simulator, over either store.
      [PolicyMem], [BundleMem]: their examples.
    - [PolicyPg], [PolicyPgProps], [PolicyPgMem]: [policyctl/postgres.go], a
      statement per store call on the three tables, and the calls of
      [service.go] over it as threads of store calls.
    - [Idempotency]: [idempotency/idempotency.go], the [IdempotencyStore]
      interface of [server/server.go] and its two implementations.
    - [Server]: the decision plane of [server/]: [problem.go], [middleware.go],
      [authorize.go], [holds.go], [decisions.go] and the routes of [server.go].
      A handler is a function of the request's context and the request to an
      optional response ([None] is a panic).  [ServerProps]: its properties.
      [ServerMem]: the service assembled in memory, with its witnesses.
    - [ControlTypes], [ServerCtl]: the control plane of [server/]:
      [policies.go], [keys_admin.go], [provision.go], [keys.go], the health
      endpoint, and which routes are mounted.  [KeyStores]: what it relies on
      of a key store, and that both stores of [auth/] give it.
      [ServerCtlProps]: its properties.  [ServerCtlMem]: it assembled in memory,
      with its witnesses.  [KeysPgMem]: over Postgres and Redis.
    - [Router], [RouterMem]: the mux of [server.go]: which path reaches which
      endpoint, and what answers without credentials.
    - [Metrics]: [metrics/metrics.go].  [Telemetry]: access lines, panics and
      spans of [middleware.go] and [trace.go], and the exporter of [tracing/].
    - [Config]: [config/config.go], the level of [logging/], and
      [store/store.go].
    - [Boot], [BootProps]: [cmd/authorize-svc/main.go] and the builders of
      [server/]: from the environment to a serving process, or the exit.
      [AuthzVerify], [Keygen]: the commands [authz-verify] and [authz-keygen].
      [CommandsMem]: their examples.
    - [Samples]: concrete instances of the interfaces for the witnesses.

    * How code is modelled

    A pure function is a Rocq function.  A function that returns an error
    returns [result].  A method that reads a clock or calls a store is an
    [io W A]: a function of the world [W] to a result and the new world, so an
    early return keeps the effects made before it.  [int] and [int64] are [Z]
    with [wrap64] where the code can overflow; instants are nanoseconds, and
    time differences saturate as Go's do.  Strings are byte strings.  A map is
    a [gmap]; where the code ranges over a map, the order is an argument.

    Code that is not in the repository is a parameter.  [Ed25519], [Sha256],
    [Jcs], [Aead], [PolicySchema], [BigRat] and [Unicode] are classes of
    operations, and the documented facts the code relies on are the classes
    [Ed25519Laws], [Sha256Laws], [JcsLaws] and [AeadLaws].  The decoders
    [RequestDecoder], [ControlDecoder], [PolicyDecoder] and [VerifyDecoder] stand
    for [encoding/json], [SchemaValidator] for the schema library, and a
    [Platform] and a [Driver] for the servers a process connects to.  The files named
    [...Mem] and [Samples] instantiate each of them.

    Components meet at interfaces.  The engine takes any [BudgetReserver] that
    meets [ReserverSpec], which [BudgetMem] proves of the budget subsystem.
    The server meets the subsystem at a reserver and a lifecycle that meet
    [BudgetSpec], in memory and over Postgres.
    The reserver takes any [Counter] that meets [CounterSpec] (the in-memory
    counter does) and any [HoldStore] that meets [HoldStoreSpec].  The
    authenticator takes any nonce store that meets [NonceStoreSpec]; the
    in-memory and the Redis one do.  The server takes any idempotency cache that
    meets [IdempotencySpec]; both caches do.  The control plane takes any key store
    that meets [KeyReads] and [KeyAdminSpec], whose calls may fail after they
    acted; the stores in memory and over Postgres do.  It takes any policy
    service that meets [PolicyServiceSpec].

    * What the theorems show

    - Decisions: an approval means what it says ([Authorize_approves_iff]), the
      budget is touched only for it ([Authorize_spends_only_when_held]), a
      shadow request is the pure evaluation, errors come from the two sources
      the code has, and the explanation names the deciding rule.  The verdict
      algebra is characterised, monotone and never approves an unavailable
      check that does not fail open.
    - Budgets: under every interleaving of requests, captures, voids, reads and
      sweeps whose calls are atomic, held and captured spend never exceeds a
      window's limit, for amounts the counter is exact for ([no_oversell]); as
      deployed, with refused calls, lost answers and expiring keys, it exceeds it
      by at most what a run gives back twice, that is, by holds whose insertion
      was answered with an error after it committed and by rows settled between
      the halves of a sweep, and without these never
      ([deployed_never_oversells]; both overruns are Examples of [BudgetPgMem]); a
      crashed caller's budget comes back ([reconciler_returns_budget]); conversions to cents are exact in
      range and wrap outside it.
    - Payments, from [/v1/authorize] to capture or void: a hold settles by the
      deadline its caller was told, and stays as it was settled
      ([approved_payment_settles]).
    - Holds: the lifecycle is a monotone state machine, and no hold is released
      twice; over Postgres the same under every interleaving of statements, but
      for the race of a sweep's two halves that an Example records.  A Postgres
      call answers after at most five statements, whatever races with it.
    - Authentication: only a signed request is accepted, a replay is refused
      but around the one instant where the nonce is forgotten and the timestamp
      is about to be too old, minted keys work, revoked keys do not.
      Over Postgres a key at most becomes revoked and stays so
      ([pg_key_lifecycle]).
    - Rate limits: the ceilings hold for every sequence of calls, and Redis
      decides as memory does.
    - Audit: chains are append-only, linked, and determined by their last hash;
      paging is complete.  The asynchronous writer loses nothing, keeps the
      order of its queue, hands each record to the store once, and drains; a
      flush and the first close return only when it has.  Over Postgres the chains hold under every
      interleaving and failure ([pg_log_integrity]), appends do not deadlock,
      and reads answer as the in-memory log does.
    - Policies: versions are immutable, content-addressed and signed; what
      passes validation compiles, and what does not is reported in full
      ([Validate_reports_all]); a dry run foretells what the version decides
      ([preview_predicts]); the bundle cache serves the last known good and
      converges within a pass of its refresher ([refresher_converges]); the
      shipped policy decides as stated ([default_policy_decides]).
      Over Postgres this holds under every interleaving of the service's calls
      ([pg_policies_sound]), and the store answers as the in-memory one; Examples
      record the edits and rollbacks that such interleavings undo, and the
      bundle that a slow load puts back.
    - Signatures: receipts verify after key rotations, and the command agrees
      with the service ([verify_command_agrees]).
    - The process: it serves exactly when its configuration is usable
      ([boot_serves_iff]), with settings in range and wired as configured
      ([booted_settings]), and every decision it answers verifies with what it
      publishes ([booted_decisions_verify]); a minted key works; a key's text
      reads back.
    - The service end to end: every response is well formed, a path reaches its
      endpoint and no other ([dispatch_spec]), no handler but the public ones
      runs before authentication and rate limiting ([unauthenticated_surface]),
      answers are logged once, counters count, a request spends only as a held
      approval, a retry gets the decision already made, every fresh decision is
      audited once and reads back with its proof, and cursors resume a listing.
    - The control plane: keys change only for their owner or with the platform
      token, an issued secret works, a revoked key is refused from the answer
      on (or, where a lookup in flight writes the active record to the cache
      after the eviction, once that entry expires), and an activated version is the one the decision plane serves.

    Examples record where the code does not do what its comments say, as
    overflow in [toCents], the rebuild race, and lazy expiry.

    * Bounds and fuel

    Loops are structural over their lists where the code ranges over data.
    Decimal and base-32 digits, trimming, calendar search and following the
    cursors of a listing carry a fuel computed from the argument's size, with
    lemmas that it is enough, so no theorem is conditional on fuel.  The retry
    of a Postgres call that lost a race is a step of a thread, not fuel.

    * What is not modelled

    The text of JSON bodies and of SQL (statements are written as functions of
    the rows), the HTTP listener and signal delivery (their outcomes are inputs
    of [Boot.shutdown]), the passing of time between ticks (a run is its number
    of ticks, a timeout an error of the call), log lines other than the access
    line and the panic's, and the SDK behind the trace exporter.  The
    manifest's components say so one by one. *)

From Stdlib Require Export ZArith QArith_base Lia Ascii Sorting.Sorted.
From stdpp Require Export base gmap sets list strings numbers option tactics.

#[global] Open Scope Z_scope.
#[global] Set Default Proof Using "Type".
#[global] Set Warnings "-clear-no-such-hyp,-register-all".

(** * Results of fallible code *)

(** A Go function that returns [(T, error)] returns [result E T]. *)
Inductive result (E A : Type) : Type :=
| Ok (a : A)
| Err (e : E).
Arguments Ok {E A} a.
Arguments Err {E A} e.

#[export] Instance result_eq_dec `{EqDecision E, EqDecision A} : EqDecision (result E A).
Proof. intros x y. unfold Decision. decide equality; apply decide; apply _. Defined.

#[export] Instance result_ret {E} : MRet (result E) := fun A => Ok.
#[export] Instance result_bind {E} : MBind (result E) := fun A B f m =>
  match m with Ok a => f a | Err e => Err e end.
#[export] Instance result_fmap {E} : FMap (result E) := fun A B f m =>
  match m with Ok a => Ok (f a) | Err e => Err e end.

Definition is_ok {E A} (r : result E A) : bool :=
  match r with Ok _ => true | Err _ => false end.

Lemma result_bind_ok {E A B} (f : A -> result E B) (m : result E A) b :
  m ≫= f = Ok b <-> exists a, m = Ok a /\ f a = Ok b.
Proof.
  destruct m as [a|e]; cbn; split.
  - intros H. by exists a.
  - by intros (? & [= ->] & H).
  - done.
  - by intros (? & ? & _).
Qed.

(** * Code that reads and updates a store

    A method that takes a pointer receiver, or calls a store behind an
    interface, is a function of the world [W] that returns its results and the
    new world.  An early [return] on an error keeps the effects made so far. *)
Definition io (W A : Type) : Type := W -> A * W.

#[export] Instance io_ret {W} : MRet (io W) := fun A a w => (a, w).
#[export] Instance io_bind {W} : MBind (io W) := fun A B f m w =>
  let '(a, w') := m w in f a w'.

(** * Machine integers

    Go's [int] and [int64] are 64-bit two's complement: the arithmetic of the
    code is the arithmetic of [Z] followed by [wrap64]. *)
Definition two63 : Z := 9223372036854775808.
Definition two64 : Z := 18446744073709551616.
Definition min_int64 : Z := - two63.
Definition max_int64 : Z := two63 - 1.
Definition in_int64 (z : Z) : bool := (min_int64 <=? z) && (z <=? max_int64).
Definition wrap64 (z : Z) : Z := (z + two63) mod two64 - two63.

Definition add64 (a b : Z) : Z := wrap64 (a + b).
Definition sub64 (a b : Z) : Z := wrap64 (a - b).
Definition mul64 (a b : Z) : Z := wrap64 (a * b).

Ltac unfold_int64 :=
  unfold in_int64, add64, sub64, mul64, wrap64, min_int64, max_int64, two63, two64 in *.

Lemma in_int64_spec z : in_int64 z = true <-> - 2 ^ 63 <= z < 2 ^ 63.
Proof. unfold_int64. lia. Qed.

Lemma wrap64_small z : in_int64 z = true -> wrap64 z = z.
Proof. unfold_int64. intros H. rewrite Z.mod_small; lia. Qed.

Lemma wrap64_range z : in_int64 (wrap64 z) = true.
Proof.
  unfold_int64.
  pose proof (Z.mod_pos_bound (z + 9223372036854775808) 18446744073709551616 ltac:(lia)). lia.
Qed.

Lemma wrap64_idemp z : wrap64 (wrap64 z) = wrap64 z.
Proof. apply wrap64_small, wrap64_range. Qed.

(** * Bytes *)

Definition byte_val (c : Ascii.ascii) : Z := Z.of_N (Ascii.N_of_ascii c).
Definition chr (z : Z) : Ascii.ascii := Ascii.ascii_of_N (Z.to_N z).

#[global] Arguments byte_val : simpl never.
#[global] Arguments chr : simpl never.
#[global] Arguments Ascii.eqb : simpl never.

Lemma byte_val_range c : 0 <= byte_val c < 256.
Proof.
  unfold byte_val. pose proof (Ascii.N_ascii_bounded c). lia.
Qed.

Lemma byte_val_chr z : 0 <= z < 256 -> byte_val (chr z) = z.
Proof.
  intros H. unfold byte_val, chr. rewrite Ascii.N_ascii_embedding; lia.
Qed.

Lemma chr_byte_val c : chr (byte_val c) = c.
Proof. unfold byte_val, chr. rewrite N2Z.id. apply Ascii.ascii_N_embedding. Qed.

Lemma byte_val_inj c d : byte_val c = byte_val d -> c = d.
Proof. intros H. rewrite <- (chr_byte_val c), <- (chr_byte_val d). by rewrite H. Qed.

(** * String concatenation *)

Lemma str_app_nil s : "" +:+ s = s.
Proof. reflexivity. Qed.

Lemma str_app_cons a p s : String a p +:+ s = String a (p +:+ s).
Proof. reflexivity. Qed.

Lemma str_app_nil_r s : s +:+ "" = s.
Proof. induction s as [|a s IH]; [done|]. by rewrite str_app_cons, IH. Qed.

Lemma str_app_assoc (a b c : string) : a +:+ (b +:+ c) = (a +:+ b) +:+ c.
Proof. induction a as [|x a IH]; [done|]. by rewrite !str_app_cons, IH. Qed.

Lemma str_app_length (a b : string) :
  String.length (a +:+ b) = (String.length a + String.length b)%nat.
Proof. induction a as [|x a IH]; [done|]. rewrite str_app_cons. cbn. by rewrite IH. Qed.

(** * Sequences of transitions *)

(** Reflexive transitive closure, the reachable states of a step relation. *)
Inductive reachable {A} (init : A -> Prop) (step : A -> A -> Prop) : A -> Prop :=
| reach_init a : init a -> reachable init step a
| reach_step a b : reachable init step a -> step a b -> reachable init step b.

Lemma reachable_invariant {A} (init : A -> Prop) (step : A -> A -> Prop) (P : A -> Prop) :
  (forall a, init a -> P a) ->
  (forall a b, P a -> step a b -> P b) ->
  forall a, reachable init step a -> P a.
Proof. intros Hi Hs a Hr. induction Hr; eauto. Qed.

(** * Lists *)

(** First element satisfying a boolean test, with early return. *)
Fixpoint find_first {A} (p : A -> bool) (l : list A) : option A :=
  match l with
  | [] => None
  | x :: l => if p x then Some x else find_first p l
  end.

Lemma find_first_some {A} (p : A -> bool) l x :
  find_first p l = Some x ->
  exists l1 l2, l = l1 ++ x :: l2 /\ p x = true /\ Forall (fun y => p y = false) l1.
Proof.
  induction l as [|y l IH]; cbn; [done|].
  destruct (p y) eqn:Hy.
  - intros [= ->]. exists [], l. auto.
  - intros (l1 & l2 & -> & Hx & Hall)%IH. exists (y :: l1), l2. split_and!; auto.
Qed.

Lemma find_first_none {A} (p : A -> bool) l :
  find_first p l = None <-> Forall (fun y => p y = false) l.
Proof.
  induction l as [|y l IH]; cbn; [by split|].
  rewrite Forall_cons_iff, <- IH. destruct (p y); intuition congruence.
Qed.

Fixpoint sum_Z (l : list Z) : Z :=
  match l with
  | [] => 0
  | z :: l => z + sum_Z l
  end.

Lemma sum_Z_app l1 l2 : sum_Z (l1 ++ l2) = sum_Z l1 + sum_Z l2.
Proof. induction l1; cbn; lia. Qed.

Lemma sum_Z_perm l1 l2 : l1 ≡ₚ l2 -> sum_Z l1 = sum_Z l2.
Proof. induction 1; cbn in *; lia. Qed.

Lemma sum_Z_nonneg l : Forall (fun z => 0 <= z) l -> 0 <= sum_Z l.
Proof. induction 1; cbn in *; lia. Qed.

(** The sum of a function over the values of a map. *)
Definition map_sum `{Countable K} {A} (f : A -> Z) (m : gmap K A) : Z := sum_Z (f <$> (map_to_list m).*2).

Lemma map_sum_empty `{Countable K} {A} (f : A -> Z) : map_sum f (∅ : gmap K A) = 0.
Proof. unfold map_sum. by rewrite map_to_list_empty. Qed.

Lemma map_sum_delete `{Countable K} {A} (f : A -> Z) (m : gmap K A) k x : m !! k = Some x -> map_sum f m = f x + map_sum f (delete k m).
Proof.
  intros Hk. unfold map_sum. pose proof (map_to_list_delete m k x Hk) as Hp.
  assert (Hq : f <$> (map_to_list m).*2 ≡ₚ f <$> ((k, x) :: map_to_list (delete k m)).*2) by (by rewrite Hp).
  by rewrite (sum_Z_perm _ _ Hq).
Qed.

Lemma map_sum_insert_new `{Countable K} {A} (f : A -> Z) (m : gmap K A) k x : m !! k = None -> map_sum f (<[k := x]> m) = f x + map_sum f m.
Proof.
  intros Hk. rewrite (map_sum_delete f _ k x) by apply lookup_insert_eq. by rewrite delete_insert_id.
Qed.

Lemma map_sum_nonneg `{Countable K} {A} (f : A -> Z) (m : gmap K A) : map_Forall (fun _ x => 0 <= f x) m -> 0 <= map_sum f m.
Proof.
  intros Hm. unfold map_sum. apply sum_Z_nonneg. rewrite !Forall_fmap. apply map_Forall_to_list in Hm.
  eapply list.Forall_impl; [exact Hm|]. by intros [k x].
Qed.

(** Pointwise smaller over the same keys. *)
Lemma map_sum_mono `{Countable K} {A} (f : A -> Z) (m m' : gmap K A) :
  dom m' = dom m -> (forall k x, m !! k = Some x -> exists x', m' !! k = Some x' /\ f x' <= f x) ->
  map_sum f m' <= map_sum f m.
Proof.
  revert m'. induction m as [|k x m Hk IH] using map_ind; intros m' Hd Hle.
  - apply dom_empty_inv_L in Hd as ->. by rewrite map_sum_empty.
  - destruct (Hle k x) as (x' & Hx' & Hf); [apply lookup_insert_eq|].
    rewrite map_sum_insert_new, (map_sum_delete f m' k x') by done.
    assert (map_sum f (delete k m') <= map_sum f m); [|lia]. apply IH.
    + rewrite dom_delete_L, Hd, dom_insert_L. apply not_elem_of_dom in Hk. set_solver.
    + intros k2 x2 Hk2. assert (k2 <> k) by congruence.
      destruct (Hle k2 x2) as (y & Hy & Hf2); [by rewrite lookup_insert_ne|]. exists y. by rewrite lookup_delete_ne.
Qed.

(** The same, when the values at some distinct keys drop to zero. *)
Lemma map_sum_drop `{Countable K} {A} (f : A -> Z) (l : list (K * A)) (m m' : gmap K A) :
  dom m' = dom m -> (forall k x, m !! k = Some x -> exists x', m' !! k = Some x' /\ f x' <= f x) ->
  NoDup l.*1 -> (forall k x, (k, x) ∈ l -> m !! k = Some x /\ exists x', m' !! k = Some x' /\ f x' <= 0) ->
  map_sum f m' + sum_Z (f <$> l.*2) <= map_sum f m.
Proof.
  revert m m'. induction l as [|[k x] l IH]; intros m m' Hd Hle Hnd Hl; cbn.
  - rewrite Z.add_0_r. by apply map_sum_mono.
  - cbn in Hnd. apply list.NoDup_cons in Hnd as [Hnk Hnd].
    destruct (Hl k x) as (Hk & x' & Hk' & Hx'); [by left|].
    rewrite (map_sum_delete f m k x), (map_sum_delete f m' k x') by done.
    assert (map_sum f (delete k m') + sum_Z (f <$> l.*2) <= map_sum f (delete k m)); [|lia]. apply IH; [| |done|].
    + by rewrite !dom_delete_L, Hd.
    + intros k2 x2 [Hne Hk2]%lookup_delete_Some. destruct (Hle k2 x2 Hk2) as (y & Hy & Hf).
      exists y. by rewrite lookup_delete_ne.
    + intros k2 x2 Hin. assert (k2 <> k) by (intros ->; apply Hnk; by apply (list_elem_of_fmap_2 fst) in Hin).
      destruct (Hl k2 x2) as (Hk2 & y & Hy & Hf); [by right|]. rewrite !lookup_delete_ne by done. eauto.
Qed.

(** Sorting, for [sort.Slice] with a total order and [ORDER BY]. *)
Fixpoint insert_by {A} (le : A -> A -> bool) (x : A) (l : list A) : list A :=
  match l with
  | [] => [x]
  | y :: l' => if le x y then x :: l else y :: insert_by le x l'
  end.

Definition sort_by {A} (le : A -> A -> bool) (l : list A) : list A := foldr (insert_by le) [] l.

Lemma insert_by_perm {A} (le : A -> A -> bool) x l : insert_by le x l ≡ₚ x :: l.
Proof.
  induction l as [|y l IH]; cbn; [done|]. destruct (le x y); [done|]. rewrite IH. apply Permutation_swap.
Qed.

Lemma sort_by_perm {A} (le : A -> A -> bool) l : sort_by le l ≡ₚ l.
Proof. induction l as [|x l IH]; cbn; [done|]. by rewrite insert_by_perm, IH. Qed.

Lemma sort_by_elem {A} (le : A -> A -> bool) x l : x ∈ sort_by le l <-> x ∈ l.
Proof. by rewrite sort_by_perm. Qed.

Section sorted.
Context {A : Type} (le : A -> A -> bool).
Context (le_total : forall x y, le x y = true \/ le y x = true).
Context (le_trans : forall x y z, le x y = true -> le y z = true -> le x z = true).

Let R (x y : A) : Prop := le x y = true.

Lemma insert_by_sorted x l : StronglySorted R l -> StronglySorted R (insert_by le x l).
Proof using le_total le_trans.
  induction 1 as [|y l Hl IH Hy]; cbn; [by repeat constructor|].
  destruct (le x y) eqn:E.
  - constructor; [by constructor|]. constructor; [done|].
    apply (list.Forall_impl _ _ _ Hy). intros z Hz. eapply le_trans; eauto.
  - constructor; [done|]. rewrite insert_by_perm. constructor; [|done].
    destruct (le_total x y); unfold R; congruence.
Qed.

Lemma sort_by_sorted l : StronglySorted R (sort_by le l).
Proof using le_total le_trans. induction l; cbn; [constructor|]. by apply insert_by_sorted. Qed.
End sorted.

(** Go's [<] and [<=] on strings: bytewise lexicographic. *)
Definition str_ltb (s t : string) : bool := String.ltb s t.
Definition str_leb (s t : string) : bool := String.leb s t.

Lemma ascii_compare_val a b : Ascii.compare a b = Z.compare (byte_val a) (byte_val b).
Proof. unfold Ascii.compare, byte_val. by rewrite N2Z.inj_compare. Qed.

Lemma str_leb_trans s t u : str_leb s t = true -> str_leb t u = true -> str_leb s u = true.
Proof.
  unfold str_leb, String.leb. revert t u.
  induction s as [|a s IH]; intros [|b t] [|c u]; cbn; try done.
  rewrite !ascii_compare_val.
  destruct (Z.compare_spec (byte_val a) (byte_val b)), (Z.compare_spec (byte_val b) (byte_val c)),
    (Z.compare_spec (byte_val a) (byte_val c)); try done; try lia. apply IH.
Qed.

Lemma str_leb_total s t : str_leb s t = true \/ str_leb t s = true.
Proof. apply String.leb_total. Qed.

(** Membership test of the code's [contains] loops. *)
Definition mem_str (v : string) (l : list string) : bool := existsb (String.eqb v) l.

#[global] Arguments mem_str : simpl never.

Lemma mem_str_spec v l : mem_str v l = true <-> v ∈ l.
Proof.
  unfold mem_str. rewrite existsb_exists, list_elem_of_In.
  split.
  - intros (x & Hin & Heq). apply String.eqb_eq in Heq. by subst.
  - intros H. exists v. split; [done | apply String.eqb_refl].
Qed.

(** * Automation *)

Create HintDb go discriminated.
Create Rewrite HintDb go.
#[export] Hint Rewrite @Z.eqb_eq @Z.eqb_neq Z.leb_le Z.leb_gt Z.ltb_lt Z.ltb_ge
  andb_true_iff orb_true_iff andb_false_iff orb_false_iff negb_true_iff negb_false_iff
  String.eqb_eq String.eqb_neq bool_decide_eq_true bool_decide_eq_false : go.
#[export] Hint Resolve wrap64_range : go.

(** Linear arithmetic with division and remainder by constants. *)
Ltac zlia := Z.div_mod_to_equations; lia.

(** Reflect the boolean tests of the code in the context and the goal. *)
Ltac breflect := autorewrite with go in *.

(** Split every [match] and [if] of the goal, simplifying as it goes. *)
Ltac cases := repeat (case_match; simplify_eq/=; try done).
