(* ===== verification/GoStrings.v ===== *)
(** The part of Go's [strconv], [strings], [unicode/utf8] and [fmt] that the
    program uses on strings.  A Go string is a sequence of bytes; here a
    [string] is a sequence of 8-bit [ascii]s.  The one table that is a
    parameter is [is_print], Go's [strconv.IsPrint] above U+00FF (Unicode
    data): it only selects which runes a [%q] verb escapes. *)

From S2P Require Import Prelude.

(** * Decimal integers *)

Definition digit_char (d : Z) : Ascii.ascii := chr (48 + d).

(** The value of a decimal digit byte. *)
Definition digit_val (c : Ascii.ascii) : option Z :=
  let z := byte_val c in
  if (48 <=? z) && (z <=? 57) then Some (z - 48) else None.

Definition is_digit (c : Ascii.ascii) : bool :=
  match digit_val c with Some _ => true | None => false end.

Fixpoint parse_digits (acc : Z) (s : string) : option Z :=
  match s with
  | EmptyString => Some acc
  | String c s =>
    match digit_val c with
    | Some d => parse_digits (10 * acc + d) s
    | None => None
    end
  end.

(** Least significant digit first onto [acc]; the fuel bounds the number of
    digits. *)
Fixpoint digits_onto (fuel : nat) (z : Z) (acc : string) : string :=
  match fuel with
  | O => acc
  | S fuel =>
    let acc' := String (digit_char (z mod 10)) acc in
    if z <? 10 then acc' else digits_onto fuel (z / 10) acc'
  end.

(** Decimal rendering of a natural number; [log2 z + 1] digits are enough. *)
Definition fmt_nat (z : Z) : string :=
  digits_onto (S (Z.to_nat (Z.log2 z))) z EmptyString.

(** [strconv.FormatInt(z, 10)] and [%d]. *)
Definition FormatInt (z : Z) : string :=
  if z <? 0 then "-" +:+ fmt_nat (- z) else fmt_nat z.

(** [strconv.ParseInt(s, 10, 64)]: an optional sign, at least one digit,
    digits only, and a value in range.  Every error is [None]. *)
Definition ParseInt (s : string) : option Z :=
  let '(neg, body) :=
    match s with
    | String "+" s => (false, s)
    | String "-" s => (true, s)
    | _ => (false, s)
    end%char in
  match body with
  | EmptyString => None
  | _ =>
    match parse_digits 0 body with
    | Some n =>
      let z := if (neg : bool) then - n else n in
      if in_int64 z then Some z else None
    | None => None
    end
  end.

(** Left padding with ['0'] up to a width, as [%02d] does for a magnitude. *)
Fixpoint zeros (n : nat) : string :=
  match n with O => EmptyString | S n => String "0" (zeros n) end.

Definition pad (w : nat) (s : string) : string :=
  zeros (w - String.length s) +:+ s.

(** [fmt]'s [%0wd]: the width counts the sign, and zeros follow it. *)
Definition fmt_0d (w : nat) (z : Z) : string :=
  if z <? 0 then "-" +:+ pad (pred w) (fmt_nat (- z)) else pad w (fmt_nat z).

(** * Splitting and prefixes *)

(** [strings.HasPrefix(s, p)] and the rest after the prefix. *)
Fixpoint strip_prefix (p s : string) : option string :=
  match p, s with
  | EmptyString, _ => Some s
  | String a p, String b s => if Ascii.eqb a b then strip_prefix p s else None
  | String _ _, EmptyString => None
  end.

Definition HasPrefix (s p : string) : bool :=
  match strip_prefix p s with Some _ => true | None => false end.

(** [strings.Cut(s, c)] for a one-byte separator: before, after, found. *)
Fixpoint Cut (c : Ascii.ascii) (s : string) : string * string * bool :=
  match s with
  | EmptyString => (EmptyString, EmptyString, false)
  | String a s' =>
    if Ascii.eqb a c then (EmptyString, s', true)
    else let '(b, r, found) := Cut c s' in (String a b, r, found)
  end.

Fixpoint str_all (p : Ascii.ascii -> bool) (s : string) : bool :=
  match s with
  | EmptyString => true
  | String c s => p c && str_all p s
  end.

(** ASCII upper-casing ([strings.ToUpper] on ASCII) and case folding. *)
Definition upper (c : Ascii.ascii) : Ascii.ascii :=
  let z := byte_val c in
  if (97 <=? z) && (z <=? 122) then chr (z - 32) else c.

Definition lower (c : Ascii.ascii) : Ascii.ascii :=
  let z := byte_val c in
  if (65 <=? z) && (z <=? 90) then chr (z + 32) else c.

Fixpoint str_map (f : Ascii.ascii -> Ascii.ascii) (s : string) : string :=
  match s with
  | EmptyString => EmptyString
  | String c s => String (f c) (str_map f s)
  end.

(** * Hexadecimal *)

Definition hex_char (d : Z) : Ascii.ascii :=
  if d <? 10 then chr (48 + d) else chr (87 + d).

Definition hex_val (c : Ascii.ascii) : option Z :=
  let z := byte_val c in
  if (48 <=? z) && (z <=? 57) then Some (z - 48)
  else if (97 <=? z) && (z <=? 102) then Some (z - 87)
  else if (65 <=? z) && (z <=? 70) then Some (z - 55)
  else None.

(** [hex.EncodeToString] (lower case). *)
Fixpoint hex_encode (s : string) : string :=
  match s with
  | EmptyString => EmptyString
  | String c s =>
    String (hex_char (byte_val c / 16)) (String (hex_char (byte_val c mod 16)) (hex_encode s))
  end.

(** [hex.DecodeString]: an even number of hex digits of either case. *)
Fixpoint hex_decode (s : string) : option string :=
  match s with
  | EmptyString => Some EmptyString
  | String a (String b s) =>
    match hex_val a, hex_val b, hex_decode s with
    | Some x, Some y, Some r => Some (String (chr (16 * x + y)) r)
    | _, _, _ => None
    end
  | String _ EmptyString => None
  end.

(** * UTF-8 ([utf8.DecodeRuneInString]) *)

Definition in_range (lo hi : Z) (z : Z) : bool := (lo <=? z) && (z <=? hi).
Definition is_cont (z : Z) : bool := in_range 128 191 z.

(** The first rune of a byte sequence and its width; [None] for an invalid or
    truncated encoding (Go's [(RuneError, 1)]) and for the empty string. *)
Definition decode_rune (s : string) : option (Z * nat) :=
  match s with
  | EmptyString => None
  | String c0 s1 =>
    let b0 := byte_val c0 in
    if b0 <? 128 then Some (b0, 1%nat) else
    match s1 with
    | EmptyString => None
    | String c1 s2 =>
      let b1 := byte_val c1 in
      if in_range 194 223 b0 then
        if is_cont b1 then Some ((b0 - 192) * 64 + (b1 - 128), 2%nat) else None
      else match s2 with
      | EmptyString => None
      | String c2 s3 =>
        let b2 := byte_val c2 in
        if in_range 224 239 b0 then
          let ok1 := if b0 =? 224 then in_range 160 191 b1
                     else if b0 =? 237 then in_range 128 159 b1 else is_cont b1 in
          if ok1 && is_cont b2
          then Some ((b0 - 224) * 4096 + (b1 - 128) * 64 + (b2 - 128), 3%nat) else None
        else match s3 with
        | EmptyString => None
        | String c3 _ =>
          let b3 := byte_val c3 in
          let ok1 := if b0 =? 240 then in_range 144 191 b1
                     else if b0 =? 244 then in_range 128 143 b1 else is_cont b1 in
          if in_range 240 244 b0 && ok1 && is_cont b2 && is_cont b3
          then Some ((b0 - 240) * 262144 + (b1 - 128) * 4096 + (b2 - 128) * 64 + (b3 - 128), 4%nat)
          else None
        end
      end
    end
  end.

(** [encoding/json] writes every byte of an invalid encoding as U+FFFD; the
    fuel is the length of the input. *)
Fixpoint to_valid_go (fuel : nat) (s : string) : string :=
  match fuel with
  | O => EmptyString
  | S fuel =>
    match s with
    | EmptyString => EmptyString
    | String c s' =>
      match decode_rune s with
      | Some (_, w) => String.substring 0 w s +:+ to_valid_go fuel (String.substring w (String.length s - w) s)
      | None => String (chr 239) (String (chr 191) (String (chr 189) (to_valid_go fuel s')))
      end
    end
  end.

Definition to_valid (s : string) : string := to_valid_go (String.length s) s.

(** * [%q]: [strconv.Quote] *)

(** The Unicode table behind [strconv.IsPrint], for runes above U+00FF. *)
Class Unicode := { is_print : Z -> bool }.

Definition is_print_rune `{Unicode} (r : Z) : bool :=
  if r <=? 255 then
    in_range 32 126 r || (in_range 161 255 r && negb (r =? 173))
  else is_print r.

Definition dquote : Ascii.ascii := chr 34.
Definition backslash : Ascii.ascii := chr 92.

(** The [n] low hexadecimal digits of a rune. *)
Fixpoint hex_digits (n : nat) (r : Z) (acc : string) : string :=
  match n with
  | O => acc
  | S n => hex_digits n (r / 16) (String (hex_char (r mod 16)) acc)
  end.

Definition esc (c : Ascii.ascii) (s : string) : string := String backslash (String c s).

(** [strconv.appendEscapedRune] for a validly encoded rune [r] whose bytes are
    [raw]. *)
Definition quote_rune `{Unicode} (r : Z) (raw : string) : string :=
  if (r =? 34) || (r =? 92) then esc (chr r) ""
  else if is_print_rune r then raw
  else if r =? 7 then esc "a" ""
  else if r =? 8 then esc "b" ""
  else if r =? 12 then esc "f" ""
  else if r =? 10 then esc "n" ""
  else if r =? 13 then esc "r" ""
  else if r =? 9 then esc "t" ""
  else if r =? 11 then esc "v" ""
  else if (r <? 32) || (r =? 127) then esc "x" (hex_digits 2 r "")
  else if r <? 65536 then esc "u" (hex_digits 4 r "")
  else esc "U" (hex_digits 8 r "").

Fixpoint quote_go `{Unicode} (fuel : nat) (s : string) : string :=
  match fuel with
  | O => EmptyString
  | S fuel =>
    match s with
    | EmptyString => EmptyString
    | String c s' =>
      match decode_rune s with
      | Some (r, w) =>
        quote_rune r (String.substring 0 w s) +:+
        quote_go fuel (String.substring w (String.length s - w) s)
      | None => esc "x" (hex_digits 2 (byte_val c) "") +:+ quote_go fuel s'
      end
    end
  end.

Definition Quote `{Unicode} (s : string) : string :=
  String dquote (quote_go (String.length s) s) +:+ String dquote "".

(** * Lemmas *)

Lemma digit_val_char d : 0 <= d <= 9 -> digit_val (digit_char d) = Some d.
Proof.
  intros H. unfold digit_val, digit_char. rewrite byte_val_chr by lia.
  rewrite (proj2 (andb_true_iff _ _)) by (split; apply Z.leb_le; lia).
  f_equal; lia.
Qed.

Lemma parse_digits_onto fuel z acc :
  0 <= z < 10 ^ Z.of_nat fuel -> (0 < fuel)%nat ->
  parse_digits 0 (digits_onto fuel z acc) = parse_digits z acc.
Proof.
  revert z acc. induction fuel as [|fuel IH]; intros z acc Hz Hf; [lia|].
  cbn [digits_onto]. destruct (Z.ltb_spec z 10) as [Hlt|Hge].
  - cbn [parse_digits]. rewrite digit_val_char by (rewrite Z.mod_small; lia).
    rewrite Z.mod_small by lia. f_equal; lia.
  - assert (Hpow : 10 ^ Z.of_nat (S fuel) = 10 * 10 ^ Z.of_nat fuel)
      by (rewrite Nat2Z.inj_succ, Z.pow_succ_r; lia).
    assert (0 < fuel)%nat by (destruct fuel; [cbn in Hz; lia | lia]).
    pose proof (Z.mod_pos_bound z 10 ltac:(lia)).
    pose proof (Z.div_mod z 10 ltac:(lia)).
    rewrite IH by first [split; [apply Z.div_pos; lia | apply Z.div_lt_upper_bound; lia] | lia].
    cbn [parse_digits]. rewrite digit_val_char by lia. f_equal; lia.
Qed.

Lemma fuel_enough z : 0 <= z -> z < 10 ^ Z.of_nat (S (Z.to_nat (Z.log2 z))).
Proof.
  intros Hz. rewrite Nat2Z.inj_succ, Z2Nat.id by apply Z.log2_nonneg.
  destruct (Z.eq_dec z 0) as [->|]; [reflexivity|].
  pose proof (Z.log2_spec z ltac:(lia)) as [_ H].
  eapply Z.lt_le_trans; [exact H|]. apply Z.pow_le_mono_l. lia.
Qed.

(** Printing and reading back a natural number. *)
Lemma parse_fmt_nat z : 0 <= z -> parse_digits 0 (fmt_nat z) = Some z.
Proof.
  intros Hz. unfold fmt_nat. rewrite parse_digits_onto; [done| |lia].
  split; [done | by apply fuel_enough].
Qed.

Lemma digits_onto_first fuel z acc :
  (0 < fuel)%nat -> 0 <= z ->
  exists d s, digits_onto fuel z acc = String (digit_char d) s /\ 0 <= d <= 9.
Proof.
  revert z acc. induction fuel as [|fuel IH]; intros z acc Hf Hz; [lia|].
  cbn [digits_onto]. pose proof (Z.mod_pos_bound z 10 ltac:(lia)).
  destruct (Z.ltb_spec z 10); [eexists _, _; split; [done|lia]|].
  destruct fuel; [eexists _, _; split; [done|lia]|].
  apply IH; [lia|]. apply Z.div_pos; lia.
Qed.

Lemma fmt_nat_first z :
  0 <= z -> exists d s, fmt_nat z = String (digit_char d) s /\ 0 <= d <= 9.
Proof. intros. apply digits_onto_first; [lia|done]. Qed.

Lemma digit_char_not_sign d :
  0 <= d <= 9 -> digit_char d <> "+"%char /\ digit_char d <> "-"%char.
Proof.
  intros Hd. split; intros H; apply (f_equal byte_val) in H;
    unfold digit_char in H; rewrite byte_val_chr in H by lia;
    [change (byte_val "+") with 43 in H | change (byte_val "-") with 45 in H]; lia.
Qed.

(** Reading a string that starts with neither sign. *)
Lemma ParseInt_unsigned c s :
  c <> "+"%char -> c <> "-"%char ->
  ParseInt (String c s) =
  match parse_digits 0 (String c s) with
  | Some n => if in_int64 n then Some n else None
  | None => None
  end.
Proof.
  intros Hp Hm. unfold ParseInt.
  destruct c as [[] [] [] [] [] [] [] []]; try reflexivity; congruence.
Qed.

Lemma ParseInt_minus c s :
  ParseInt ("-" +:+ String c s) =
  match parse_digits 0 (String c s) with
  | Some n => if in_int64 (- n) then Some (- n) else None
  | None => None
  end.
Proof. reflexivity. Qed.

(** [ParseInt] reads back what [FormatInt] prints, for every int64. *)
Lemma ParseInt_FormatInt z : in_int64 z = true -> ParseInt (FormatInt z) = Some z.
Proof.
  intros Hz. unfold FormatInt. destruct (Z.ltb_spec z 0) as [Hneg|Hpos].
  - pose proof (parse_fmt_nat (- z) ltac:(lia)) as Hp.
    destruct (fmt_nat_first (- z) ltac:(lia)) as (d & s & Heq & Hd).
    rewrite Heq in *. by rewrite ParseInt_minus, Hp, Z.opp_involutive, Hz.
  - pose proof (parse_fmt_nat z Hpos) as Hp.
    destruct (fmt_nat_first z Hpos) as (d & s & Heq & Hd).
    rewrite Heq in *. destruct (digit_char_not_sign d Hd).
    rewrite ParseInt_unsigned, Hp, Hz by done. done.
Qed.

Lemma fmt_nat_inj a b : 0 <= a -> 0 <= b -> fmt_nat a = fmt_nat b -> a = b.
Proof.
  intros Ha Hb H. pose proof (parse_fmt_nat a Ha) as H1.
  rewrite H, (parse_fmt_nat b Hb) in H1. congruence.
Qed.

Lemma hex_val_char d : 0 <= d < 16 -> hex_val (hex_char d) = Some d.
Proof.
  intros H. assert (d ∈ seqZ 0 16) as Hin by (apply elem_of_seqZ; lia).
  repeat (apply elem_of_cons in Hin as [->|Hin]; [reflexivity|]). by apply elem_of_nil in Hin.
Qed.

(** [hex.DecodeString] inverts [hex.EncodeToString]. *)
Lemma hex_decode_encode s : hex_decode (hex_encode s) = Some s.
Proof.
  induction s as [|c s IH]; [done|]. cbn [hex_encode hex_decode].
  pose proof (byte_val_range c). pose proof (Z.div_mod (byte_val c) 16 ltac:(lia)).
  pose proof (Z.mod_pos_bound (byte_val c) 16 ltac:(lia)).
  rewrite !hex_val_char by first [split; [apply Z.div_pos; lia | apply Z.div_lt_upper_bound; lia] | lia].
  rewrite IH. replace (16 * (byte_val c / 16) + byte_val c mod 16) with (byte_val c) by lia.
  by rewrite chr_byte_val.
Qed.

Lemma hex_encode_inj s t : hex_encode s = hex_encode t -> s = t.
Proof.
  intros H. apply (f_equal hex_decode) in H. rewrite !hex_decode_encode in H. congruence.
Qed.

Lemma hex_encode_length s : String.length (hex_encode s) = (2 * String.length s)%nat.
Proof. induction s as [|c s IH]; cbn [hex_encode String.length]; lia. Qed.

Lemma strip_prefix_app p s : strip_prefix p (p +:+ s) = Some s.
Proof. induction p as [|a p IH]; [done|]. rewrite str_app_cons. cbn. by rewrite Ascii.eqb_refl. Qed.

Lemma strip_prefix_spec p s r : strip_prefix p s = Some r <-> s = p +:+ r.
Proof.
  split; [|intros ->; apply strip_prefix_app].
  revert s. induction p as [|a p IH]; intros s; cbn; [by intros [= ->]|].
  destruct s as [|b s]; [done|].
  destruct (Ascii.eqb_spec a b) as [->|]; [|done]. intros H%IH. by rewrite str_app_cons, <- H.
Qed.

Lemma HasPrefix_spec s p : HasPrefix s p = true <-> exists r, s = p +:+ r.
Proof.
  unfold HasPrefix. destruct (strip_prefix p s) as [r|] eqn:E.
  - apply strip_prefix_spec in E. split; [by exists r|done].
  - split; [done|]. intros (r & ->). by rewrite strip_prefix_app in E.
Qed.

(** No byte of the string is [c]. *)
Definition no_char (c : Ascii.ascii) (s : string) : bool := str_all (fun a => negb (Ascii.eqb a c)) s.

Lemma Cut_found c b r : no_char c b = true -> Cut c (b +:+ String c r) = (b, r, true).
Proof.
  induction b as [|a b IH]; [rewrite str_app_nil; cbn; by rewrite Ascii.eqb_refl|].
  rewrite str_app_cons. cbn. intros [Ha Hb]%andb_true_iff. apply negb_true_iff in Ha. rewrite Ha, IH by done. done.
Qed.

(** Splitting at the first occurrence of a character. *)
Lemma str_app_char_inj c a b r s :
  no_char c a = true -> no_char c b = true -> a +:+ String c r = b +:+ String c s -> a = b /\ r = s.
Proof.
  intros Ha Hb E. pose proof (Cut_found c a r Ha) as H1. rewrite E, (Cut_found c b s Hb) in H1. by injection H1 as -> ->.
Qed.

Lemma Cut_none c s : no_char c s = true -> Cut c s = (s, EmptyString, false).
Proof.
  induction s as [|a s IH]; cbn; [done|].
  intros [Ha Hs]%andb_true_iff. apply negb_true_iff in Ha. rewrite Ha, IH by done. done.
Qed.

Lemma str_all_app p s t : str_all p (s +:+ t) = str_all p s && str_all p t.
Proof. induction s as [|c s IH]; [done|]. rewrite str_app_cons. cbn. by rewrite IH, andb_assoc. Qed.

Lemma digits_onto_all fuel z acc :
  0 <= z -> str_all is_digit acc = true -> str_all is_digit (digits_onto fuel z acc) = true.
Proof.
  revert z acc. induction fuel as [|fuel IH]; intros z acc Hz Hacc; [done|].
  pose proof (Z.mod_pos_bound z 10 ltac:(lia)).
  assert (Hd : is_digit (digit_char (z mod 10)) = true)
    by (unfold is_digit; rewrite digit_val_char by lia; done).
  cbn [digits_onto]. destruct (z <? 10); [cbn; by rewrite Hd|].
  apply IH; [apply Z.div_pos; lia|]. cbn. by rewrite Hd.
Qed.

Lemma fmt_nat_digits z : 0 <= z -> str_all is_digit (fmt_nat z) = true.
Proof. intros. by apply digits_onto_all. Qed.

Lemma str_all_impl (p q : Ascii.ascii -> bool) s :
  (forall c, p c = true -> q c = true) -> str_all p s = true -> str_all q s = true.
Proof.
  intros Hpq. induction s as [|c s IH]; cbn; [done|].
  rewrite !andb_true_iff. naive_solver.
Qed.

(** A separator that is not a digit does not occur in a decimal number. *)
Lemma digits_no_char c s : is_digit c = false -> str_all is_digit s = true -> no_char c s = true.
Proof.
  intros Hc. apply str_all_impl. intros a Ha. apply negb_true_iff, Ascii.eqb_neq. congruence.
Qed.

#[export] Hint Resolve fmt_nat_digits parse_fmt_nat : go.
