(* ===== verification/GoTime.v ===== *)
(** Go's [time] package as the program uses it: instants, durations, the
    proleptic Gregorian calendar, and the RFC 3339 layouts.

    An instant is a number of nanoseconds since the Unix epoch, always in UTC
    (every use in the program calls [.UTC()] or compares instants).  A duration
    is an int64 number of nanoseconds; [Sub] saturates as Go's does. *)

From S2P Require Import Prelude GoStrings.

Abbreviation time := Z (only parsing).
Abbreviation duration := Z (only parsing).

Definition nanos : Z := 1000000000.
Definition Second : duration := nanos.
Definition Minute : duration := 60 * Second.
Definition Hour : duration := 60 * Minute.

(** The zero [time.Time], January 1 of year 1. *)
Definition zero_time : time := -62135596800 * nanos.
Definition IsZero (t : time) : bool := t =? zero_time.
Definition Before (t u : time) : bool := t <? u.
Definition After (t u : time) : bool := u <? t.
Definition Add (t : time) (d : duration) : time := t + d.

(** [t.Sub(u)]: the difference, or the extreme duration when it overflows. *)
Definition Sub (t u : time) : duration :=
  if in_int64 (t - u) then t - u
  else if t <? u then min_int64 else max_int64.

Definition Unix (t : time) : Z := t / nanos.
Definition of_unix (secs : Z) : time := secs * nanos.

(** * The calendar *)

Record civil := { c_year : Z; c_month : Z; c_day : Z }.

(** Days since 1970-01-01, for a date of the proleptic Gregorian calendar. *)
Definition days_from_civil (c : civil) : Z :=
  let y := if c_month c <=? 2 then c_year c - 1 else c_year c in
  let mp := if c_month c <=? 2 then c_month c + 9 else c_month c - 3 in
  let era := y / 400 in
  let yoe := y mod 400 in
  let doy := (153 * mp + 2) / 5 + c_day c - 1 in
  let doe := yoe * 365 + yoe / 4 - yoe / 100 + doy in
  era * 146097 + doe - 719468.

(** Year of an era (from March) and day of that year, for a day of the era:
    centuries, then four-year cycles, then years, the last of each being the
    one that holds the leap day. *)
Definition year_of_era (doe : Z) : Z * Z :=
  let c := Z.min 3 (doe / 36524) in
  let d1 := doe - 36524 * c in
  let n4 := d1 / 1461 in
  let d2 := d1 - 1461 * n4 in
  let n1 := Z.min 3 (d2 / 365) in
  (100 * c + 4 * n4 + n1, d2 - 365 * n1).

(** Month and day of a day of a year counted from March. *)
Definition month_day (doy : Z) : Z * Z :=
  let mp := (5 * doy + 2) / 153 in
  (if mp <? 10 then mp + 3 else mp - 9, doy - (153 * mp + 2) / 5 + 1).

Definition civil_of_doe (doe : Z) : civil :=
  let '(yoe, doy) := year_of_era doe in
  let '(m, d) := month_day doy in
  {| c_year := if m <=? 2 then yoe + 1 else yoe; c_month := m; c_day := d |}.

Definition civil_from_days (days : Z) : civil :=
  let z := days + 719468 in
  let c := civil_of_doe (z mod 146097) in
  {| c_year := c_year c + 400 * (z / 146097); c_month := c_month c; c_day := c_day c |}.

Definition is_leap (y : Z) : bool :=
  (y mod 4 =? 0) && (negb (y mod 100 =? 0) || (y mod 400 =? 0)).

#[global] Arguments is_leap : simpl never.

Definition days_in (m y : Z) : Z :=
  if m =? 2 then (if is_leap y then 29 else 28)
  else if (m =? 4) || (m =? 6) || (m =? 9) || (m =? 11) then 30 else 31.

Definition day_of (t : time) : Z := Unix t / 86400.
Definition date_of (t : time) : civil := civil_from_days (day_of t).
Definition sec_of_day (t : time) : Z := Unix t mod 86400.
Definition hour_of (t : time) : Z := sec_of_day t / 3600.
Definition minute_of (t : time) : Z := sec_of_day t mod 3600 / 60.
Definition second_of (t : time) : Z := sec_of_day t mod 60.
(** [t.Weekday()], Sunday = 0; 1970-01-01 was a Thursday. *)
Definition weekday (t : time) : Z := (day_of t + 4) mod 7.

Definition weekday_name (w : Z) : string :=
  if w =? 0 then "Sunday" else if w =? 1 then "Monday" else if w =? 2 then "Tuesday"
  else if w =? 3 then "Wednesday" else if w =? 4 then "Thursday"
  else if w =? 5 then "Friday" else "Saturday".

(** * Layouts *)

Definition pad2 (z : Z) : string := pad 2 (fmt_nat z).
Definition fmt_year (y : Z) : string :=
  if y <? 0 then "-" +:+ pad 4 (fmt_nat (- y)) else pad 4 (fmt_nat y).

(** [t.Format("2006-01")], [t.Format("2006-01-02")], [t.Format("15:04")]. *)
Definition format_month (t : time) : string :=
  let c := date_of t in fmt_year (c_year c) +:+ "-" +:+ pad2 (c_month c).
Definition format_date (t : time) : string :=
  format_month t +:+ "-" +:+ pad2 (c_day (date_of t)).
Definition format_hm (t : time) : string :=
  pad2 (hour_of t) +:+ ":" +:+ pad2 (minute_of t).

(** [t.UTC().Format(time.RFC3339)]. *)
Definition format_rfc3339 (t : time) : string :=
  format_date t +:+ "T" +:+ format_hm t +:+ ":" +:+ pad2 (second_of t) +:+ "Z".

(** The pieces [time.Parse] reads: a fixed two-digit number, a one- or
    two-digit number, a four-digit year, one literal byte. *)
Definition get2 (s : string) : option (Z * string) :=
  match s with
  | String a (String b r) =>
    match digit_val a, digit_val b with
    | Some x, Some y => Some (10 * x + y, r)
    | _, _ => None
    end
  | _ => None
  end.

Definition get12 (s : string) : option (Z * string) :=
  match s with
  | String a r =>
    match digit_val a, get2 s with
    | Some _, Some p => Some p
    | Some x, None => Some (x, r)
    | None, _ => None
    end
  | EmptyString => None
  end.

Definition get4 (s : string) : option (Z * string) :=
  '(hi, s) ← get2 s; '(lo, s) ← get2 s; Some (100 * hi + lo, s).

Definition skip (c : Ascii.ascii) (s : string) : option string :=
  match s with
  | String a r => if Ascii.eqb a c then Some r else None
  | EmptyString => None
  end.

(** Leading digits of a string and the rest. *)
Fixpoint span_digits (s : string) : string * string :=
  match s with
  | String a r => if is_digit a then let '(d, t) := span_digits r in (String a d, t) else (EmptyString, s)
  | EmptyString => (EmptyString, EmptyString)
  end.

(** Value of at most nine leading fraction digits, scaled to nanoseconds. *)
Fixpoint frac_nanos (n : nat) (s : string) : Z :=
  match n with
  | O => 0
  | S n =>
    match s with
    | String a r => match digit_val a with
                    | Some d => d * 10 ^ Z.of_nat n + frac_nanos n r
                    | None => 0
                    end
    | EmptyString => 0
    end
  end.

(** A fraction of a second after [.] or [,], when a digit follows. *)
Definition get_frac (s : string) : Z * string :=
  match s with
  | String a (String d _ as r) =>
    if (Ascii.eqb a "."%char || Ascii.eqb a ","%char) && is_digit d
    then let '(ds, t) := span_digits r in (frac_nanos 9 ds, t)
    else (0, s)
  | _ => (0, s)
  end.

(** [Z] or [±hh:mm], in seconds east of UTC. *)
Definition get_zone (s : string) : option (Z * string) :=
  match s with
  | String sign r =>
    if Ascii.eqb sign "Z"%char then Some (0, r) else
    '(hh, r) ← get2 r; r ← skip ":"%char r; '(mm, r) ← get2 r;
    if (hh <=? 24) && (mm <=? 60) then
      let off := (hh * 60 + mm) * 60 in
      if Ascii.eqb sign "+"%char then Some (off, r)
      else if Ascii.eqb sign "-"%char then Some (- off, r) else None
    else None
  | EmptyString => None
  end.

(** [time.Parse(time.RFC3339, s)], as an instant. *)
Definition parse_rfc3339 (s : string) : option time :=
  '(year, s) ← get4 s; s ← skip "-"%char s;
  '(month, s) ← get2 s; guard (1 <= month <= 12);; s ← skip "-"%char s;
  '(day, s) ← get2 s; s ← skip "T"%char s;
  '(hour, s) ← get12 s; guard (hour < 24);; s ← skip ":"%char s;
  '(mnt, s) ← get2 s; guard (mnt < 60);; s ← skip ":"%char s;
  '(sec, s) ← get2 s; guard (sec < 60);;
  let '(ns, s) := get_frac s in
  '(off, s) ← get_zone s;
  guard (s = EmptyString);;
  guard (1 <= day <= days_in month year);;
  let days := days_from_civil {| c_year := year; c_month := month; c_day := day |} in
  Some ((days * 86400 + hour * 3600 + mnt * 60 + sec - off) * nanos + ns).

(** * [Duration.String] *)

(** Drop trailing zeros of the [prec] low decimal digits of [v]; the fraction
    is printed with its leading dot, or not at all when it is zero. *)
Fixpoint fmt_frac (prec : nat) (v : Z) (print : bool) (acc : string) : string * Z :=
  match prec with
  | O => (if print then String "." acc else acc, v)
  | S prec =>
    let digit := v mod 10 in
    let print := print || negb (digit =? 0) in
    fmt_frac prec (v / 10) print (if print then String (digit_char digit) acc else acc)
  end.

Definition duration_string (d : duration) : string :=
  let u := Z.abs d in
  let body :=
    if u =? 0 then "0s"
    else if u <? Second then
      let '(prec, unit) :=
        if u <? 1000 then (0%nat, "ns")
        else if u <? 1000000 then (3%nat, String (chr 194) (String (chr 181) "s"))
        else (6%nat, "ms") in
      let '(frac, v) := fmt_frac prec u false unit in fmt_nat v +:+ frac
    else
      let '(frac, v) := fmt_frac 9 u false "s" in
      let s := fmt_nat (v mod 60) +:+ frac in
      let m := v / 60 in
      if m =? 0 then s
      else
        let s := fmt_nat (m mod 60) +:+ "m" +:+ s in
        let h := m / 60 in
        if h =? 0 then s else fmt_nat h +:+ "h" +:+ s in
  if d <? 0 then "-" +:+ body else body.

(** [int(d.Seconds())]: truncation to whole seconds (exact while the float64
    [Seconds] keeps nanoseconds apart, below 2^22 seconds). *)
Definition whole_seconds (d : duration) : Z := Z.quot d nanos.

Example duration_string_15m : duration_string (15 * Minute) = "15m0s".
Proof. reflexivity. Qed.
Example duration_string_ms : duration_string 1500000 = "1.5ms".
Proof. reflexivity. Qed.
Example format_epoch : format_rfc3339 (1767225599 * nanos) = "2025-12-31T23:59:59Z".
Proof. reflexivity. Qed.
Example parse_offset :
  parse_rfc3339 "2024-02-29T12:30:05.25+02:00" = Some (1709202605 * nanos + 250000000).
Proof. reflexivity. Qed.
Example parse_bad_day : parse_rfc3339 "2023-02-29T12:30:05Z" = None.
Proof. reflexivity. Qed.

(** * The calendar is a bijection with days *)

Lemma year_of_era_spec doe :
  0 <= doe < 146097 ->
  let '(yoe, doy) := year_of_era doe in
  0 <= yoe < 400 /\ 0 <= doy <= 365 /\
  yoe * 365 + yoe / 4 - yoe / 100 + doy = doe /\
  (doy = 365 -> is_leap (yoe + 1) = true).
Proof.
  intros H. unfold year_of_era.
  remember (Z.min 3 (doe / 36524)) as c eqn:Ec. assert (0 <= c <= 3) as Hc by zlia.
  remember (doe - 36524 * c) as d1 eqn:Ed1.
  assert (0 <= d1 <= 36523 \/ d1 = 36524 /\ c = 3) as Hd1 by zlia.
  remember (d1 / 1461) as n4 eqn:En4. assert (0 <= n4 <= 24) as Hn4 by zlia.
  remember (d1 - 1461 * n4) as d2 eqn:Ed2. assert (0 <= d2 <= 1460) as Hd2 by zlia.
  remember (Z.min 3 (d2 / 365)) as n1 eqn:En1. assert (0 <= n1 <= 3) as Hn1 by zlia.
  remember (d2 - 365 * n1) as doy eqn:Edoy. assert (0 <= doy <= 365) as Hdoy by zlia.
  assert ((100 * c + 4 * n4 + n1) / 4 = 25 * c + n4) as -> by zlia.
  assert ((100 * c + 4 * n4 + n1) / 100 = c) as -> by zlia.
  split_and!; [zlia..|]. intros Hlast.
  assert (n1 = 3 /\ d2 = 1460) as [Hn Hd] by zlia.
  assert (n4 <= 23 \/ n4 = 24 /\ c = 3) as Hcase by zlia.
  unfold is_leap. rewrite Hn.
  destruct Hcase as [?|[-> ->]]; [|reflexivity].
  assert ((100 * c + 4 * n4 + 3 + 1) mod 4 = 0) as -> by zlia.
  assert ((100 * c + 4 * n4 + 3 + 1) mod 100 <> 0) as Hne by zlia.
  apply Z.eqb_neq in Hne. by rewrite Hne.
Qed.

Lemma month_day_spec doy :
  0 <= doy <= 365 ->
  let '(m, d) := month_day doy in
  1 <= m <= 12 /\ 1 <= d <= 31 /\
  (153 * (if m <=? 2 then m + 9 else m - 3) + 2) / 5 + d - 1 = doy.
Proof.
  intros H. unfold month_day.
  remember ((5 * doy + 2) / 153) as mp eqn:Emp. assert (0 <= mp <= 11) by zlia.
  destruct (Z.ltb_spec mp 10).
  - destruct (Z.leb_spec (mp + 3) 2); [zlia|].
    replace (mp + 3 - 3) with mp by zlia. zlia.
  - destruct (Z.leb_spec (mp - 9) 2); [|zlia].
    replace (mp - 9 + 9) with mp by zlia. zlia.
Qed.

#[local] Ltac eval_consts :=
  repeat match goal with
  | |- context [?a + 3] => let v := eval vm_compute in (a + 3) in change (a + 3) with v
  | |- context [?a - 9] => let v := eval vm_compute in (a - 9) in change (a - 9) with v
  end.

(** Length of the months, day by day of the March year: every date produced is
    a real date, and February 29 only comes from day 365. *)
Lemma month_day_valid y doy :
  0 <= doy <= 365 -> (doy = 365 -> is_leap (y + 1) = true) ->
  let '(m, d) := month_day doy in
  d <= days_in m (if m <=? 2 then y + 1 else y).
Proof.
  intros H Hleap. unfold month_day, days_in.
  remember ((5 * doy + 2) / 153) as mp eqn:Emp. assert (0 <= mp <= 11) as Hmp by zlia.
  assert (mp = 0 \/ mp = 1 \/ mp = 2 \/ mp = 3 \/ mp = 4 \/ mp = 5 \/ mp = 6 \/ mp = 7 \/
          mp = 8 \/ mp = 9 \/ mp = 10 \/ mp = 11) as Hcases by zlia.
  destruct (decide (doy = 365)) as [->|Hne].
  - change ((5 * 365 + 2) / 153) with 11 in Emp. rewrite Emp. eval_consts. cbn.
    rewrite Hleap by done. zlia.
  - destruct Hcases as [E|[E|[E|[E|[E|[E|[E|[E|[E|[E|[E|E]]]]]]]]]]]; rewrite E; eval_consts; cbn;
      try zlia; destruct (is_leap _); zlia.
Qed.

Lemma days_from_civil_shift y m d q :
  days_from_civil {| c_year := y + 400 * q; c_month := m; c_day := d |} =
  days_from_civil {| c_year := y; c_month := m; c_day := d |} + q * 146097.
Proof.
  unfold days_from_civil; cbn [c_year c_month c_day].
  destruct (m <=? 2); [replace (y + 400 * q - 1) with (y - 1 + q * 400) by zlia
                      | replace (y + 400 * q) with (y + q * 400) by zlia];
    rewrite Z.div_add, Z.mod_add by zlia; zlia.
Qed.

Lemma civil_of_doe_spec doe :
  0 <= doe < 146097 ->
  let c := civil_of_doe doe in
  days_from_civil c = doe - 719468 /\ 1 <= c_month c <= 12 /\
  1 <= c_day c <= days_in (c_month c) (c_year c).
Proof.
  intros H. unfold civil_of_doe.
  pose proof (year_of_era_spec doe H) as Hy. destruct (year_of_era doe) as [yoe doy].
  destruct Hy as (Hyoe & Hdoy & Hdoe & Hleap).
  pose proof (month_day_spec doy Hdoy) as Hm.
  pose proof (month_day_valid yoe doy Hdoy Hleap) as Hv.
  destruct (month_day doy) as [m d]. destruct Hm as (Hm & Hd & Hback).
  cbn [c_year c_month c_day]. split_and!; try zlia.
  unfold days_from_civil; cbn [c_year c_month c_day].
  destruct (Z.leb_spec m 2);
    [replace (yoe + 1 - 1) with yoe by zlia|];
    rewrite Z.div_small, Z.mod_small by zlia; zlia.
Qed.

(** Converting a day to a date and back is the identity, and the date is a
    valid one. *)
Lemma civil_from_days_spec days :
  let c := civil_from_days days in
  days_from_civil c = days /\ 1 <= c_month c <= 12 /\
  1 <= c_day c <= days_in (c_month c) (c_year c).
Proof.
  unfold civil_from_days.
  pose proof (civil_of_doe_spec ((days + 719468) mod 146097) ltac:(apply Z.mod_pos_bound; lia)) as H.
  destruct (civil_of_doe _) as [y m d]. cbn [c_year c_month c_day] in *.
  destruct H as (Hdays & Hm & Hd). split_and!; try zlia.
  - rewrite days_from_civil_shift, Hdays. zlia.
  - unfold days_in, is_leap in *.
    replace (y + 400 * ((days + 719468) / 146097)) with (y + ((days + 719468) / 146097) * 400) by zlia.
    rewrite Z.mod_add by zlia.
    replace (y + (days + 719468) / 146097 * 400) with (y + ((days + 719468) / 146097 * 4) * 100) by zlia.
    rewrite Z.mod_add by zlia.
    replace (y + (days + 719468) / 146097 * 4 * 100) with (y + ((days + 719468) / 146097 * 100) * 4) by zlia.
    rewrite Z.mod_add by zlia. zlia.
Qed.

(** * Reading back what is printed *)

Lemma digits_onto_fuel f1 f2 z acc :
  0 <= z < 10 ^ Z.of_nat f1 -> z < 10 ^ Z.of_nat f2 -> (0 < f1)%nat -> (0 < f2)%nat ->
  digits_onto f1 z acc = digits_onto f2 z acc.
Proof.
  revert f2 z acc. induction f1 as [|f1 IH]; intros f2 z acc H1 H2 Hf1 Hf2; [lia|].
  destruct f2 as [|f2]; [lia|]. cbn [digits_onto]. destruct (Z.ltb_spec z 10); [done|].
  rewrite Nat2Z.inj_succ, Z.pow_succ_r in H1, H2 by lia.
  assert (f1 <> 0%nat) by (intros ->; cbn in H1; lia).
  assert (f2 <> 0%nat) by (intros ->; cbn in H2; lia).
  apply IH; try lia; [split; [apply Z.div_pos; lia|]|]; apply Z.div_lt_upper_bound; lia.
Qed.

Lemma fmt_nat_fuel f z :
  0 <= z < 10 ^ Z.of_nat f -> (0 < f)%nat -> fmt_nat z = digits_onto f z "".
Proof.
  intros Hz Hf. apply digits_onto_fuel; [split; [lia|apply fuel_enough; lia]|lia|lia|lia].
Qed.

Definition two (z : Z) (r : string) : string :=
  String (digit_char (z / 10)) (String (digit_char (z mod 10)) r).

Lemma pad2_two z r : 0 <= z < 100 -> pad2 z +:+ r = two z r.
Proof.
  intros Hz. unfold pad2, two. rewrite (fmt_nat_fuel 2) by (cbn; lia). cbn [digits_onto].
  destruct (Z.ltb_spec z 10).
  - change (String (digit_char 0) (String (digit_char (z mod 10)) r) =
            String (digit_char (z / 10)) (String (digit_char (z mod 10)) r)).
    by rewrite Z.div_small by lia.
  - destruct (Z.ltb_spec (z / 10) 10); [|zlia]. rewrite (Z.mod_small (z / 10)) by zlia. done.
Qed.

Lemma fmt_year_two y r :
  0 <= y <= 9999 -> fmt_year y +:+ r = two (y / 100) (two (y mod 100) r).
Proof.
  intros Hy. unfold fmt_year. destruct (Z.ltb_spec y 0); [lia|].
  rewrite (fmt_nat_fuel 4) by (cbn; lia). unfold two. cbn [digits_onto].
  assert (y mod 100 mod 10 = y mod 10) as -> by zlia.
  assert (y mod 100 / 10 = y / 10 mod 10) as -> by zlia.
  assert (y / 100 mod 10 = y / 10 / 10 mod 10) as -> by zlia.
  assert (y / 100 / 10 = y / 10 / 10 / 10 mod 10) as -> by zlia.
  destruct (Z.ltb_spec y 10); [|destruct (Z.ltb_spec (y / 10) 10);
    [|destruct (Z.ltb_spec (y / 10 / 10) 10); [|destruct (Z.ltb_spec (y / 10 / 10 / 10) 10); [done|zlia]]]].
  - assert (y / 10 = 0) as -> by zlia. reflexivity.
  - assert (y / 10 / 10 = 0) as -> by zlia. reflexivity.
  - assert (y / 10 / 10 / 10 = 0) as -> by zlia. reflexivity.
Qed.

Lemma get2_two z r : 0 <= z < 100 -> get2 (two z r) = Some (z, r).
Proof.
  intros Hz. unfold two, get2. rewrite !digit_val_char by zlia. do 2 f_equal. zlia.
Qed.

Lemma get12_two z r : 0 <= z < 100 -> get12 (two z r) = Some (z, r).
Proof.
  intros Hz. unfold get12. rewrite (get2_two z r Hz). unfold two.
  by rewrite digit_val_char by zlia.
Qed.

Lemma get4_two y r : 0 <= y <= 9999 -> get4 (two (y / 100) (two (y mod 100) r)) = Some (y, r).
Proof.
  intros Hy. unfold get4. rewrite get2_two by zlia. cbn [mbind option_bind].
  rewrite get2_two by zlia. cbn [mbind option_bind]. do 2 f_equal. zlia.
Qed.

Lemma skip_hit c r : skip c (String c r) = Some r.
Proof. cbn. by rewrite Ascii.eqb_refl. Qed.

Lemma time_of_day_spec t :
  0 <= hour_of t < 24 /\ 0 <= minute_of t < 60 /\ 0 <= second_of t < 60 /\
  hour_of t * 3600 + minute_of t * 60 + second_of t = sec_of_day t.
Proof.
  unfold hour_of, minute_of, second_of. set (s := sec_of_day t).
  assert (0 <= s < 86400) by (apply Z.mod_pos_bound; lia). zlia.
Qed.

Lemma format_rfc3339_shape t :
  0 <= c_year (date_of t) <= 9999 ->
  let c := date_of t in
  format_rfc3339 t =
  two (c_year c / 100) (two (c_year c mod 100) (String "-" (two (c_month c) (String "-"
    (two (c_day c) (String "T" (two (hour_of t) (String ":" (two (minute_of t) (String ":"
      (two (second_of t) "Z"))))))))))).
Proof.
  intros Hy. cbn zeta. pose proof (time_of_day_spec t) as (Hh & Hm & Hs & _).
  pose proof (civil_from_days_spec (day_of t)) as (_ & Hmo & Hd). fold (date_of t) in *.
  assert (c_day (date_of t) <= 31) as Hd31.
  { revert Hd. unfold days_in. repeat case_match; lia. }
  unfold format_rfc3339, format_date, format_month, format_hm. cbn zeta.
  rewrite <- !str_app_assoc, fmt_year_two by lia.
  rewrite !pad2_two by lia. by rewrite !str_app_cons, !str_app_nil.
Qed.

(** One field of the layout. *)
#[local] Ltac read_next :=
  cbn [mbind option_bind];
  first [ rewrite get4_two by lia | rewrite get12_two by lia | rewrite get2_two by lia
        | rewrite skip_hit | rewrite option_guard_True by lia ].

(** [time.Parse(time.RFC3339, t.Format(time.RFC3339))] is [t] truncated to the
    second, for the years the layout can print. *)
Lemma parse_format_rfc3339 t :
  0 <= c_year (date_of t) <= 9999 ->
  parse_rfc3339 (format_rfc3339 t) = Some (Unix t * nanos).
Proof.
  intros Hy. rewrite (format_rfc3339_shape t Hy). cbn zeta.
  pose proof (time_of_day_spec t) as (Hh & Hm & Hs & Hsum).
  pose proof (civil_from_days_spec (day_of t)) as (Hback & Hmo & Hd). fold (date_of t) in *.
  assert (c_day (date_of t) <= 31) as Hd31.
  { revert Hd. unfold days_in. repeat case_match; lia. }
  unfold parse_rfc3339. repeat read_next. cbn [mbind option_bind].
  change (get_frac "Z") with (0, "Z"). cbn iota beta.
  change (get_zone "Z") with (Some (0, "")). cbn [mbind option_bind].
  rewrite option_guard_True by done. cbn [mbind option_bind].
  rewrite option_guard_True by lia. cbn [mbind option_bind].
  destruct (date_of t) as [y m d]. cbn [c_year c_month c_day] in *. rewrite Hback.
  f_equal. rewrite Z.sub_0_r, Z.add_0_r. f_equal. unfold sec_of_day, day_of in *. zlia.
Qed.
