(* ===== verification/Contracts.v ===== *)
(** The wire types of the [/v1] contract ([contracts/gen/go/contractsv1/types.go]):
    the request, the decision and its explanation, obligations, signature, and
    the RFC 7807 problem body.  Record fields carry a short prefix because Go
    field names repeat across structs. *)

From S2P Require Import Prelude.

(** A value of Go's [interface{}] as [encoding/json] produces it.  Object
    members are in document order; a Go [map] is a [gmap]. *)
Inductive json : Type :=
| JNull
| JBool (b : bool)
| JNum (q : Q)
| JStr (s : string)
| JArr (l : list json)
| JObj (l : list (string * json)).

Definition jint (z : Z) : json := JNum (inject_Z z).
Definition jstrs (l : list string) : json := JArr (JStr <$> l).

Abbreviation jmap := (gmap string json).

Definition MonetaryAmount := string.
Definition CurrencyCode := string.

(** [Verdict], [PredicateType] and [TargetType] are string types in Go and are
    compared as strings. *)
Definition VerdictApprove : string := "APPROVE".
Definition VerdictDeny : string := "DENY".
Definition VerdictReview : string := "REVIEW".

(** Outcome of one predicate in an explanation. *)
Inductive PredicateResult := ResultSatisfied | ResultDenied | ResultReview | ResultUnavailable.

#[export] Instance PredicateResult_eq_dec : EqDecision PredicateResult.
Proof. solve_decision. Defined.

Definition PredicateResult_str (r : PredicateResult) : string :=
  match r with
  | ResultSatisfied => "SATISFIED"
  | ResultDenied => "DENIED"
  | ResultReview => "REVIEW"
  | ResultUnavailable => "UNAVAILABLE"
  end.

Definition TypePerTransactionLimit : string := "per_transaction_limit".
Definition TypeVendorAllowlist : string := "vendor_allowlist".
Definition TypeVendorBlocklist : string := "vendor_blocklist".
Definition TypeAgentPermission : string := "agent_permission".
Definition TypeTimeWindow : string := "time_window".
Definition TypeJurisdictionCurrency : string := "jurisdiction_currency".
Definition TypeRollingBudget : string := "rolling_budget".
Definition TypeSanctionsScreen : string := "sanctions_screen".
Definition TypeVendorRisk : string := "vendor_risk".

Definition TargetVendor : string := "vendor".
Definition TargetAccount : string := "account".
Definition TargetAddress : string := "address".
Definition TargetInternal : string := "internal".
Definition TargetUnknown : string := "unknown".

Record Target := { tgt_Type : string; tgt_ID : string }.

Record Counter := {
  ctr_ID : string;
  ctr_Window : string;
  ctr_WindowKey : string;
  ctr_SpendToDate : MonetaryAmount;
  ctr_Limit : MonetaryAmount;
  ctr_Currency : CurrencyCode
}.

Record CounterSnapshot := { snap_AsOf : string; snap_Counters : list Counter }.

Record AuthorizeRequest := {
  req_AgentID : string;
  req_Action : string;
  req_Amount : MonetaryAmount;
  req_Currency : CurrencyCode;
  req_Target : Target;
  req_Jurisdiction : string;
  req_Context : jmap;
  req_IdempotencyKey : string;
  req_EvaluatedAt : string;
  req_CounterSnapshot : option CounterSnapshot
}.

Record MatchedRule := {
  mr_RuleID : string;
  mr_Type : string;
  mr_Result : PredicateResult;
  mr_Detail : string;
  mr_Evidence : jmap
}.

(** A nil and an empty slice of matched rules are told apart only where the
    code normalises them, so one [list] stands for both. *)
Record Explanation := { exp_Summary : string; exp_MatchedRules : list MatchedRule }.

Definition ObligationCaptureWithin : string := "capture_within".

Record Obligation := { ob_Type : string; ob_Detail : string; ob_Params : jmap }.

Record Signature := {
  sig_Algorithm : string;
  sig_KeyID : string;
  sig_Value : string;
  sig_Canonicalization : string
}.

Record Decision := {
  dec_DecisionID : string;
  dec_Verdict : string;
  dec_PolicyVersionHash : string;
  dec_Explanation : Explanation;
  dec_Obligations : list Obligation;
  dec_LatencyMs : Z;
  dec_EvaluatedAt : string;
  dec_Signature : Signature;
  dec_Shadow : bool;
  dec_RecordHash : string;
  dec_SignatureVerified : option bool
}.

Record ValidationItem := { vi_Pointer : string; vi_Detail : string }.

Record Problem := {
  prob_Type : string;
  prob_Title : string;
  prob_Status : Z;
  prob_Detail : string;
  prob_Instance : string;
  prob_Code : string;
  prob_Errors : list ValidationItem
}.

Definition empty_signature : Signature :=
  {| sig_Algorithm := ""; sig_KeyID := ""; sig_Value := ""; sig_Canonicalization := "" |}.

(** Copies of a decision with one field replaced, as the code assigns it. *)
Definition set_Shadow (b : bool) (d : Decision) : Decision :=
  {| dec_DecisionID := dec_DecisionID d; dec_Verdict := dec_Verdict d;
     dec_PolicyVersionHash := dec_PolicyVersionHash d; dec_Explanation := dec_Explanation d;
     dec_Obligations := dec_Obligations d; dec_LatencyMs := dec_LatencyMs d;
     dec_EvaluatedAt := dec_EvaluatedAt d; dec_Signature := dec_Signature d;
     dec_Shadow := b; dec_RecordHash := dec_RecordHash d;
     dec_SignatureVerified := dec_SignatureVerified d |}.

Definition set_Obligations (o : list Obligation) (d : Decision) : Decision :=
  {| dec_DecisionID := dec_DecisionID d; dec_Verdict := dec_Verdict d;
     dec_PolicyVersionHash := dec_PolicyVersionHash d; dec_Explanation := dec_Explanation d;
     dec_Obligations := o; dec_LatencyMs := dec_LatencyMs d;
     dec_EvaluatedAt := dec_EvaluatedAt d; dec_Signature := dec_Signature d;
     dec_Shadow := dec_Shadow d; dec_RecordHash := dec_RecordHash d;
     dec_SignatureVerified := dec_SignatureVerified d |}.

Definition set_Signature (s : Signature) (d : Decision) : Decision :=
  {| dec_DecisionID := dec_DecisionID d; dec_Verdict := dec_Verdict d;
     dec_PolicyVersionHash := dec_PolicyVersionHash d; dec_Explanation := dec_Explanation d;
     dec_Obligations := dec_Obligations d; dec_LatencyMs := dec_LatencyMs d;
     dec_EvaluatedAt := dec_EvaluatedAt d; dec_Signature := s;
     dec_Shadow := dec_Shadow d; dec_RecordHash := dec_RecordHash d;
     dec_SignatureVerified := dec_SignatureVerified d |}.

Definition set_LatencyMs (z : Z) (d : Decision) : Decision :=
  {| dec_DecisionID := dec_DecisionID d; dec_Verdict := dec_Verdict d;
     dec_PolicyVersionHash := dec_PolicyVersionHash d; dec_Explanation := dec_Explanation d;
     dec_Obligations := dec_Obligations d; dec_LatencyMs := z;
     dec_EvaluatedAt := dec_EvaluatedAt d; dec_Signature := dec_Signature d;
     dec_Shadow := dec_Shadow d; dec_RecordHash := dec_RecordHash d;
     dec_SignatureVerified := dec_SignatureVerified d |}.
