(* ===== verification/Metrics.v ===== *)
(** The metrics registry ([internal/metrics]): counters by verdict, the latency
    histogram, and their text exposition.

    A [float64] of this component always holds a whole number: latencies are
    whole milliseconds and the sum adds them.  It is the integer it holds, and
    [f64] is the rounding to 53 significant bits of every operation. *)

From S2P Require Import Prelude GoStrings Contracts.

(** * Whole numbers as [float64] *)

Definition half_even (n d : Z) : Z :=
  let q := n / d in let r := n mod d in
  if 2 * r <? d then q else if d <? 2 * r then q + 1 else if Z.even q then q else q + 1.

(** The nearest [float64] to a whole number, ties to even. *)
Definition f64 (z : Z) : Z :=
  let a := Z.abs z in
  if a <? 2 ^ 53 then z
  else let k := 2 ^ (Z.log2 a - 52) in Z.sgn z * (half_even a k * k).

Definition f64_add (a b : Z) : Z := f64 (a + b).

(** The fewest decimal digits that read back: of the decimals with [n] digits
    around [a], the nearer that rounds to it.  17 digits are always enough. *)
Fixpoint shortest_go (fuel : nat) (a e n : Z) : Z * Z :=
  let k := 10 ^ Z.max 0 (e - n) in
  let lo := a / k in
  let reads c := f64 (c * k) =? a in
  match fuel with
  | O => (a, 0)
  | S fuel =>
    match reads lo, reads (lo + 1) with
    | true, true => (if a - lo * k <=? (lo + 1) * k - a then lo else lo + 1, Z.max 0 (e - n))
    | true, false => (lo, Z.max 0 (e - n))
    | false, true => (lo + 1, Z.max 0 (e - n))
    | false, false => shortest_go fuel a e (n + 1)
    end
  end.

Definition dec_digits (z : Z) : Z := Z.of_nat (String.length (fmt_nat z)).

(** Drop trailing zeros of the digits, counting them. *)
Fixpoint strip_zeros (fuel : nat) (d k : Z) : Z * Z :=
  match fuel with
  | O => (d, k)
  | S fuel => if (d mod 10 =? 0) && negb (d =? 0) then strip_zeros fuel (d / 10) (k + 1) else (d, k)
  end.

(** [%g] of a whole number: an exponent from the seventh digit on. *)
Definition format_g (z : Z) : string :=
  let a := Z.abs z in
  let '(d, k) := shortest_go 18 a (dec_digits a) 1 in
  let '(d, k) := strip_zeros 400 d k in
  let x := dec_digits d + k - 1 in
  let body :=
    if x <? 6 then fmt_nat (d * 10 ^ k)
    else match fmt_nat d with
         | String c "" => String c "e+" +:+ pad 2 (fmt_nat x)
         | String c s => String c ("." +:+ s +:+ "e+" +:+ pad 2 (fmt_nat x))
         | EmptyString => ""
         end in
  if z <? 0 then "-" +:+ body else body.

Example g_examples : map format_g [0; 5; 1000; 999999; 1000000; 1234567; -20; 2 ^ 60] =
  ["0"; "5"; "1000"; "999999"; "1e+06"; "1.234567e+06"; "-20"; "1.152921504606847e+18"].
Proof. vm_compute. reflexivity. Qed.

(** * The registry *)

Definition latencyBucketsMs : list Z := [1; 2; 5; 10; 20; 50; 100; 200; 500; 1000].

Record Metrics := {
  version : string;
  decisions : gmap string Z;
  rateLimited : Z;
  buckets : list Z;
  bucketHits : list Z;
  latencySum : Z;
  latencyN : Z
}.

Definition New (version : string) : Metrics :=
  {| version := version; decisions := ∅; rateLimited := 0; buckets := latencyBucketsMs; bucketHits := repeat 0 (length latencyBucketsMs);
     latencySum := 0; latencyN := 0 |}.

(** The loop over the bounds: every bucket whose bound is not below [v]. *)
Fixpoint observe (v : Z) (bounds hits : list Z) : list Z :=
  match bounds, hits with
  | ub :: bounds, h :: hits => (if v <=? ub then add64 h 1 else h) :: observe v bounds hits
  | _, _ => hits
  end.

Definition RecordDecision (verdict : string) (latencyMs : Z) (m : Metrics) : Metrics :=
  let verdict := if String.eqb verdict "" then "UNKNOWN" else verdict in
  let v := f64 latencyMs in
  {| version := version m; decisions := <[verdict := add64 (default 0 (decisions m !! verdict)) 1]> (decisions m); rateLimited := rateLimited m;
     buckets := buckets m; bucketHits := observe v (buckets m) (bucketHits m); latencySum := f64_add (latencySum m) v; latencyN := add64 (latencyN m) 1 |}.

Definition RecordRateLimited (m : Metrics) : Metrics :=
  {| version := version m; decisions := decisions m; rateLimited := add64 (rateLimited m) 1; buckets := buckets m; bucketHits := bucketHits m;
     latencySum := latencySum m; latencyN := latencyN m |}.

(** * The exposition *)

Section text.
Context `{Unicode}.

Definition decision_lines (m : Metrics) : list string :=
  map (fun v => "authz_decisions_total{verdict=" +:+ Quote v +:+ "} " +:+ FormatInt (default 0 (decisions m !! v)))
    (sort_by str_leb (map_to_list (decisions m)).*1).

Fixpoint bucket_lines (bounds hits : list Z) : list string :=
  match bounds, hits with
  | ub :: bounds, h :: hits =>
    ("authz_decision_latency_ms_bucket{le=" +:+ String dquote (format_g ub +:+ String dquote ("} " +:+ FormatInt h))) :: bucket_lines bounds hits
  | _, _ => []
  end.

Definition text_lines (m : Metrics) : list string :=
  [ "# HELP authz_build_info Build metadata.";
    "# TYPE authz_build_info gauge";
    "authz_build_info{version=" +:+ Quote (version m) +:+ "} 1";
    "# HELP authz_decisions_total Decisions produced, by verdict.";
    "# TYPE authz_decisions_total counter" ] ++
  decision_lines m ++
  [ "# HELP authz_rate_limited_total Requests rejected by the rate limiter.";
    "# TYPE authz_rate_limited_total counter";
    "authz_rate_limited_total " +:+ FormatInt (rateLimited m);
    "# HELP authz_decision_latency_ms Decision evaluation latency in milliseconds.";
    "# TYPE authz_decision_latency_ms histogram" ] ++
  bucket_lines (buckets m) (bucketHits m) ++
  [ "authz_decision_latency_ms_bucket{le=" +:+ String dquote ("+Inf" +:+ String dquote ("} " +:+ FormatInt (latencyN m)));
    "authz_decision_latency_ms_sum " +:+ format_g (latencySum m);
    "authz_decision_latency_ms_count " +:+ FormatInt (latencyN m) ].

Definition WriteText (m : Metrics) : string := foldr (fun l s => l +:+ String (chr 10) s) "" (text_lines m).
End text.

(** * What it counts *)

Inductive event := EDecision (verdict : string) (latencyMs : Z) | ERateLimited.

Definition record (e : event) (m : Metrics) : Metrics :=
  match e with EDecision v l => RecordDecision v l m | ERateLimited => RecordRateLimited m end.

Definition after (version : string) (es : list event) : Metrics := foldl (fun m e => record e m) (New version) es.

Definition label_of (e : event) : option string :=
  match e with EDecision v _ => Some (if String.eqb v "" then "UNKNOWN" else v) | ERateLimited => None end.

Definition latency_of (e : event) : option Z := match e with EDecision _ l => Some l | ERateLimited => None end.

(** How many of a list satisfy a test. *)
Definition count {A} (p : A -> bool) (l : list A) : Z := Z.of_nat (length (filter (fun x => p x = true) l)).

Lemma count_snoc {A} (p : A -> bool) l x : count p (l ++ [x]) = count p l + (if p x then 1 else 0).
Proof. unfold count. rewrite list.filter_app, length_app, filter_cons, filter_nil. destruct (p x); [rewrite decide_True by done|rewrite decide_False by done]; cbn; lia. Qed.

Lemma count_range {A} (p : A -> bool) l : 0 <= count p l <= Z.of_nat (length l).
Proof. unfold count. pose proof (length_filter (fun x => p x = true) l). lia. Qed.

Lemma count_mono {A} (p q : A -> bool) l : (forall x, p x = true -> q x = true) -> count p l <= count q l.
Proof.
  intros Hpq. induction l as [|x l IH]; [done|]. unfold count in *. rewrite !filter_cons. destruct (p x) eqn:Ep.
  - rewrite (Hpq x Ep), !decide_True by done. cbn. lia.
  - rewrite decide_False by done. destruct (q x); [rewrite decide_True by done; cbn; lia|by rewrite decide_False].
Qed.

Lemma inc_small n : 0 <= n < 2 ^ 63 - 1 -> add64 n 1 = n + 1.
Proof. intros Hn. unfold add64. apply wrap64_small. unfold in_int64, min_int64, max_int64, two63. lia. Qed.

Lemma f64_small z : Z.abs z < 2 ^ 53 -> f64 z = z.
Proof. intros Hz. unfold f64. by rewrite (proj2 (Z.ltb_lt _ _)). Qed.

(** Counts of latencies per bound. *)
Definition hits_of (bounds ls : list Z) : list Z := map (fun ub => count (fun l => l <=? ub) ls) bounds.

Lemma observe_hits v bounds ls :
  Z.of_nat (length ls) < 2 ^ 63 - 1 -> observe v bounds (hits_of bounds ls) = hits_of bounds (ls ++ [v]).
Proof.
  intros Hl. unfold hits_of. induction bounds as [|ub bounds IH]; [done|]. cbn [map observe]. rewrite IH, count_snoc. f_equal.
  pose proof (count_range (fun l => l <=? ub) ls). destruct (v <=? ub); [apply inc_small; lia|lia].
Qed.

Definition sum_abs (ls : list Z) : Z := foldr (fun l s => Z.abs l + s) 0 ls.
Definition sum (ls : list Z) : Z := foldr Z.add 0 ls.

Lemma sums_snoc ls x : sum_abs (ls ++ [x]) = sum_abs ls + Z.abs x /\ sum (ls ++ [x]) = sum ls + x.
Proof. induction ls as [|y ls [IH1 IH2]]; unfold sum_abs, sum in *; cbn [app foldr] in *; [split; lia|]. rewrite IH1, IH2. split; lia. Qed.

Lemma sum_bound ls : Z.abs (sum ls) <= sum_abs ls.
Proof. unfold sum, sum_abs. induction ls as [|y ls IH]; cbn [foldr]; lia. Qed.

Lemma sum_abs_app ls ls' : sum_abs ls <= sum_abs (ls ++ ls').
Proof.
  unfold sum_abs. induction ls as [|y ls IH]; cbn [foldr app]; [|lia]. induction ls' as [|y ls' IH]; cbn [foldr]; lia.
Qed.

Lemma hits_sorted bounds ls n :
  StronglySorted Z.le bounds -> n = Z.of_nat (length ls) -> StronglySorted Z.le (hits_of bounds ls ++ [n]).
Proof.
  intros Hs ->. induction Hs as [|ub bounds Hs IH Hub]; [by repeat constructor|]. cbn. constructor; [done|].
  apply Forall_app. split; [|constructor; [apply count_range|constructor]]. unfold hits_of. apply Forall_map. eapply list.Forall_impl; [exact Hub|].
  intros ub' Hle. apply count_mono. intros l. lia.
Qed.

(** Each event is one of the label or not. *)
Definition has_label (v : string) (e : event) : bool := bool_decide (label_of e = Some v).
Definition is_limited (e : event) : bool := match e with ERateLimited => true | _ => false end.

Definition counted (v : string) (es : list event) : option Z :=
  let n := count (has_label v) es in if n =? 0 then None else Some n.

Record agrees (ver : string) (es : list event) (m : Metrics) : Prop := {
  ag_version : version m = ver;
  ag_decisions v : decisions m !! v = counted v es;
  ag_limited : rateLimited m = count is_limited es;
  ag_buckets : buckets m = latencyBucketsMs;
  ag_hits : bucketHits m = hits_of latencyBucketsMs (omap latency_of es);
  ag_sum : latencySum m = sum (omap latency_of es);
  ag_n : latencyN m = Z.of_nat (length (omap latency_of es))
}.

Lemma omap_length {A B} (f : A -> option B) l : (length (omap f l) <= length l)%nat.
Proof. induction l as [|x l IH]; [done|]. cbn. destruct (f x); cbn; lia. Qed.

Lemma default_counted v es : default 0 (counted v es) = count (has_label v) es.
Proof. unfold counted. destruct (Z.eqb_spec (count (has_label v) es) 0) as [->|]; done. Qed.

Lemma counted_snoc v es e :
  counted v (es ++ [e]) = if has_label v e then Some (count (has_label v) es + 1) else counted v es.
Proof.
  unfold counted. rewrite count_snoc. pose proof (count_range (has_label v) es). destruct (has_label v e); [|by rewrite Z.add_0_r].
  rewrite (proj2 (Z.eqb_neq _ _)) by lia. done.
Qed.

Lemma record_agrees ver es e m :
  Z.of_nat (length es) < 2 ^ 63 - 1 -> sum_abs (omap latency_of (es ++ [e])) < 2 ^ 53 -> agrees ver es m -> agrees ver (es ++ [e]) (record e m).
Proof.
  intros Hn Hs [A1 A2 A3 A4 A5 A6 A7]. pose proof (omap_length latency_of es) as Hlen. rewrite omap_app in Hs. destruct e as [v l|]; cbn [record omap list_omap latency_of] in *.
  - destruct (sums_snoc (omap latency_of es) l) as [Ha Hsum]. rewrite Ha in Hs. pose proof (sum_bound (omap latency_of es)) as Hb.
    assert (Hfl : f64 l = l) by (apply f64_small; lia). unfold RecordDecision. rewrite Hfl.
    split; cbn [version decisions rateLimited buckets bucketHits latencySum latencyN]; rewrite ?omap_app; cbn [omap list_omap latency_of]; [done| |rewrite count_snoc; cbn; lia|done| | |].
    + intros u. rewrite counted_snoc. set (w := if String.eqb v "" then "UNKNOWN" else v). change (has_label u (EDecision v l)) with (bool_decide (Some w = Some u)).
      destruct (decide (w = u)) as [<-|Hne].
      * rewrite lookup_insert_eq, bool_decide_true by done. rewrite A2, default_counted. f_equal. apply inc_small. pose proof (count_range (has_label w) es). lia.
      * rewrite lookup_insert_ne, bool_decide_false by (done || congruence). apply A2.
    + rewrite A4, A5. apply observe_hits. lia.
    + rewrite A6, Hsum. unfold f64_add. apply f64_small. lia.
    + rewrite A7, length_app. cbn. rewrite inc_small by lia. lia.
  - split; cbn [version decisions rateLimited buckets bucketHits latencySum latencyN RecordRateLimited]; rewrite ?omap_app; cbn [omap list_omap latency_of]; rewrite ?app_nil_r; try done.
    + intros u. rewrite counted_snoc. apply A2.
    + rewrite A3, count_snoc. cbn. apply inc_small. pose proof (count_range is_limited es). lia.
Qed.

(** The registry counts.  After any decisions and refusals in any order,
    fewer than 2^63 and with latencies that add up below 2^53 ms: the counter of
    a verdict is the number of decisions with it, no verdict without a decision
    has one, and an empty verdict counts as UNKNOWN; the histogram's buckets are
    the numbers of latencies within their bounds, so they never decrease up to
    the total; the sum and the count are exact. *)
Theorem metrics_count ver es (Hn : Z.of_nat (length es) < 2 ^ 63) (Hs : sum_abs (omap latency_of es) < 2 ^ 53) :
  let m := after ver es in
  (forall v, decisions m !! v = counted v es) /\ rateLimited m = count is_limited es /\
  bucketHits m = hits_of latencyBucketsMs (omap latency_of es) /\ StronglySorted Z.le (bucketHits m ++ [latencyN m]) /\
  latencySum m = sum (omap latency_of es) /\ latencyN m = Z.of_nat (length (omap latency_of es)).
Proof.
  assert (Hag : agrees ver es (after ver es)).
  { unfold after. induction es as [|e es IH] using rev_ind; [by split|]. rewrite foldl_app. cbn [foldl]. rewrite length_app in Hn. cbn in Hn.
    apply record_agrees; [lia|done|]. apply IH; [lia|]. rewrite omap_app in Hs. pose proof (sum_abs_app (omap latency_of es) (omap latency_of [e])). lia. }
  destruct Hag as [_ A2 A3 _ A5 A6 A7]. cbn zeta. split_and!; [done..| |done|done].
  rewrite A5. apply hits_sorted; [|done]. unfold latencyBucketsMs. repeat (constructor; [|repeat (constructor; [lia|]); constructor]). constructor.
Qed.

Definition busy : list event := [EDecision "APPROVE" 3; ERateLimited; EDecision "DENY" 1; EDecision "" 700; EDecision "APPROVE" 2000].

Lemma metrics_count_witness :
  decisions (after "v1" busy) !! "APPROVE" = Some 2 /\ bucketHits (after "v1" busy) = [1; 1; 2; 2; 2; 2; 2; 2; 2; 3] /\
  rateLimited (after "v1" busy) = count is_limited busy.
Proof.
  split; [vm_compute; reflexivity|]. split; [vm_compute; reflexivity|].
  exact (proj1 (proj2 (metrics_count "v1" busy eq_refl eq_refl))).
Defined.
