(* ===== verification/Ulid.v ===== *)
(** Decision ids ([internal/ulid]): a 48-bit millisecond timestamp and 80 bits
    of entropy rendered as 26 Crockford base-32 characters.  [encode] keeps the
    source's bit operations; the theorems say that it is the 26-digit
    big-endian base-32 numeral of the 128-bit value, so ids match the contract's
    pattern, are injective, and sort by creation time. *)

From S2P Require Import Prelude.

Definition crockford : string := "0123456789ABCDEFGHJKMNPQRSTVWXYZ".

(** [crockford[i]]. *)
Definition crock (i : Z) : Ascii.ascii :=
  match String.get (Z.to_nat i) crockford with Some c => c | None => "0"%char end.

(** [b[i]] of a [[16]byte]. *)
Definition at_ (b : list Z) (i : nat) : Z := nth i b 0.

(** The 5-bit groups, in the order and with the masks of the source. *)
Definition groups (b : list Z) : list Z :=
  [ Z.shiftr (Z.land (at_ b 0) 224) 5;
    Z.land (at_ b 0) 31;
    Z.shiftr (Z.land (at_ b 1) 248) 3;
    Z.lor (Z.shiftl (Z.land (at_ b 1) 7) 2) (Z.shiftr (Z.land (at_ b 2) 192) 6);
    Z.shiftr (Z.land (at_ b 2) 62) 1;
    Z.lor (Z.shiftl (Z.land (at_ b 2) 1) 4) (Z.shiftr (Z.land (at_ b 3) 240) 4);
    Z.lor (Z.shiftl (Z.land (at_ b 3) 15) 1) (Z.shiftr (Z.land (at_ b 4) 128) 7);
    Z.shiftr (Z.land (at_ b 4) 124) 2;
    Z.lor (Z.shiftl (Z.land (at_ b 4) 3) 3) (Z.shiftr (Z.land (at_ b 5) 224) 5);
    Z.land (at_ b 5) 31;
    Z.shiftr (Z.land (at_ b 6) 248) 3;
    Z.lor (Z.shiftl (Z.land (at_ b 6) 7) 2) (Z.shiftr (Z.land (at_ b 7) 192) 6);
    Z.shiftr (Z.land (at_ b 7) 62) 1;
    Z.lor (Z.shiftl (Z.land (at_ b 7) 1) 4) (Z.shiftr (Z.land (at_ b 8) 240) 4);
    Z.lor (Z.shiftl (Z.land (at_ b 8) 15) 1) (Z.shiftr (Z.land (at_ b 9) 128) 7);
    Z.shiftr (Z.land (at_ b 9) 124) 2;
    Z.lor (Z.shiftl (Z.land (at_ b 9) 3) 3) (Z.shiftr (Z.land (at_ b 10) 224) 5);
    Z.land (at_ b 10) 31;
    Z.shiftr (Z.land (at_ b 11) 248) 3;
    Z.lor (Z.shiftl (Z.land (at_ b 11) 7) 2) (Z.shiftr (Z.land (at_ b 12) 192) 6);
    Z.shiftr (Z.land (at_ b 12) 62) 1;
    Z.lor (Z.shiftl (Z.land (at_ b 12) 1) 4) (Z.shiftr (Z.land (at_ b 13) 240) 4);
    Z.lor (Z.shiftl (Z.land (at_ b 13) 15) 1) (Z.shiftr (Z.land (at_ b 14) 128) 7);
    Z.shiftr (Z.land (at_ b 14) 124) 2;
    Z.lor (Z.shiftl (Z.land (at_ b 14) 3) 3) (Z.shiftr (Z.land (at_ b 15) 224) 5);
    Z.land (at_ b 15) 31 ].

Fixpoint string_of (l : list Ascii.ascii) : string :=
  match l with
  | [] => EmptyString
  | c :: l => String c (string_of l)
  end.

Definition encode (b : list Z) : string := string_of (crock <$> groups b).

(** The six timestamp bytes of [New]: [byte(ms >> 40)], ..., [byte(ms)]. *)
Definition time_bytes (ms : Z) : list Z :=
  [ Z.land (Z.shiftr ms 40) 255; Z.land (Z.shiftr ms 32) 255; Z.land (Z.shiftr ms 24) 255;
    Z.land (Z.shiftr ms 16) 255; Z.land (Z.shiftr ms 8) 255; Z.land ms 255 ].

(** [ulid.New], with the clock reading and the ten random bytes as inputs. *)
Definition New (ms : Z) (entropy : list Z) : string := encode (time_bytes ms ++ entropy).

(** * The 128-bit value of an id *)

(** The number whose big-endian digits in [base] are [l]. *)
Definition num (base : Z) (l : list Z) : Z := foldl (fun acc d => acc * base + d) 0 l.

Definition in_base (base : Z) (l : list Z) : Prop := Forall (fun d => 0 <= d < base) l.

Definition ulid_bytes (b : list Z) : Prop := length b = 16%nat /\ in_base 256 b.

(** The contract's id pattern: 26 characters of the alphabet
    ([^[0-9A-HJKMNP-TV-Z]{26}$]). *)
Definition is_crockford (c : Ascii.ascii) : bool :=
  let z := byte_val c in
  ((48 <=? z) && (z <=? 57)) || ((65 <=? z) && (z <=? 72)) || (z =? 74) || (z =? 75) ||
  (z =? 77) || (z =? 78) || ((80 <=? z) && (z <=? 84)) || ((86 <=? z) && (z <=? 90)).

Definition reULID (s : string) : bool :=
  (String.length s =? 26)%nat && forallb is_crockford (String.list_ascii_of_string s).

Lemma num_snoc base l d : num base (l ++ [d]) = num base l * base + d.
Proof. unfold num. by rewrite foldl_app. Qed.

Lemma num_app base l1 l2 : num base (l1 ++ l2) = num base l1 * base ^ Z.of_nat (length l2) + num base l2.
Proof.
  induction l2 as [|d l2 IH] using rev_ind.
  - rewrite app_nil_r. cbn. lia.
  - rewrite app_assoc, !num_snoc, IH, length_app, Nat2Z.inj_add, Z.pow_add_r by lia.
    change (base ^ Z.of_nat (length [d])) with (base ^ 1). rewrite Z.pow_1_r. lia.
Qed.

Lemma num_bound base l : 0 < base -> in_base base l -> 0 <= num base l < base ^ Z.of_nat (length l).
Proof.
  intros Hb. induction l as [|d l IH] using rev_ind; intros Hl; [done|].
  apply Forall_app in Hl as [Hl Hd]. apply Forall_cons_iff in Hd as [Hd _]. specialize (IH Hl).
  rewrite num_snoc, length_app, Nat2Z.inj_add, Z.pow_add_r by lia.
  change (base ^ Z.of_nat (length [d])) with (base ^ 1). rewrite Z.pow_1_r.
  nia.
Qed.

(** ** Masks and shifts as division and remainder *)

Lemma lor_shiftl x y k : 0 <= k -> 0 <= y < 2 ^ k -> Z.lor (Z.shiftl x k) y = x * 2 ^ k + y.
Proof.
  intros Hk Hy. rewrite <- Z.shiftl_mul_pow2 by done.
  rewrite <- (Z.add_lor_land (Z.shiftl x k) y).
  assert (Z.land (Z.shiftl x k) y = 0) as ->; [|lia].
  apply Z.bits_inj'. intros n Hn. rewrite Z.land_spec, Z.bits_0.
  destruct (Z.lt_ge_cases n k) as [Hlt|Hge].
  - by rewrite Z.shiftl_spec_low.
  - rewrite <- (Z.mod_small y (2 ^ k)) by done.
    rewrite Z.mod_pow2_bits_high by lia. apply andb_false_r.
Qed.

(** A run of [n] mask bits starting at bit [k] selects [b / 2^k mod 2^n]. *)
Lemma mask_shift b k n m :
  0 <= k -> 0 <= n -> m = Z.shiftl (Z.ones n) k -> Z.shiftr (Z.land b m) k = b / 2 ^ k mod 2 ^ n.
Proof.
  intros Hk Hn ->. rewrite Z.shiftr_land, Z.shiftr_shiftl_l, Z.sub_diag, Z.shiftl_0_r by lia.
  by rewrite Z.land_ones, Z.shiftr_div_pow2 by lia.
Qed.

Lemma mask_low b n m : 0 <= n -> m = Z.ones n -> Z.land b m = b mod 2 ^ n.
Proof. intros Hn ->. by apply Z.land_ones. Qed.

(** Five bytes and their eight characters hold the same number. *)
Definition block (b1 b2 b3 b4 b5 : Z) : list Z :=
  [ Z.shiftr (Z.land b1 248) 3;
    Z.lor (Z.shiftl (Z.land b1 7) 2) (Z.shiftr (Z.land b2 192) 6);
    Z.shiftr (Z.land b2 62) 1;
    Z.lor (Z.shiftl (Z.land b2 1) 4) (Z.shiftr (Z.land b3 240) 4);
    Z.lor (Z.shiftl (Z.land b3 15) 1) (Z.shiftr (Z.land b4 128) 7);
    Z.shiftr (Z.land b4 124) 2;
    Z.lor (Z.shiftl (Z.land b4 3) 3) (Z.shiftr (Z.land b5 224) 5);
    Z.land b5 31 ].

Lemma block_arith b1 b2 b3 b4 b5 :
  in_base 256 [b1; b2; b3; b4; b5] ->
  block b1 b2 b3 b4 b5 =
  [ b1 / 8; b1 mod 8 * 4 + b2 / 64; b2 / 2 mod 32; b2 mod 2 * 16 + b3 / 16;
    b3 mod 16 * 2 + b4 / 128; b4 / 4 mod 32; b4 mod 4 * 8 + b5 / 32; b5 mod 32 ].
Proof.
  intros H. repeat (apply Forall_cons_iff in H as [? H]). unfold block.
  rewrite (mask_shift b1 3 5 248), (mask_low b1 3 7), (mask_shift b2 6 2 192),
    (mask_shift b2 1 5 62), (mask_low b2 1 1), (mask_shift b3 4 4 240), (mask_low b3 4 15),
    (mask_shift b4 7 1 128), (mask_shift b4 2 5 124), (mask_low b4 2 3),
    (mask_shift b5 5 3 224), (mask_low b5 5 31) by first [lia | reflexivity].
  rewrite !lor_shiftl by first [lia | apply Z.mod_pos_bound; lia].
  repeat f_equal; cbn -[Z.div Z.modulo]; rewrite ?Z.mod_small by zlia; zlia.
Qed.

Lemma block_spec b1 b2 b3 b4 b5 :
  in_base 256 [b1; b2; b3; b4; b5] ->
  in_base 32 (block b1 b2 b3 b4 b5) /\
  num 32 (block b1 b2 b3 b4 b5) = num 256 [b1; b2; b3; b4; b5].
Proof.
  intros H. rewrite (block_arith _ _ _ _ _ H).
  repeat (apply Forall_cons_iff in H as [? H]). split.
  - repeat constructor; zlia.
  - unfold num. cbn -[Z.div Z.modulo Z.mul Z.add]. zlia.
Qed.

(** The 26 groups are the top byte in two characters, then three blocks. *)
Lemma groups_blocks b0 b1 b2 b3 b4 b5 b6 b7 b8 b9 b10 b11 b12 b13 b14 b15 :
  groups [b0; b1; b2; b3; b4; b5; b6; b7; b8; b9; b10; b11; b12; b13; b14; b15] =
  [Z.shiftr (Z.land b0 224) 5; Z.land b0 31] ++ block b1 b2 b3 b4 b5 ++
  block b6 b7 b8 b9 b10 ++ block b11 b12 b13 b14 b15.
Proof. reflexivity. Qed.

Lemma groups_spec b :
  ulid_bytes b -> length (groups b) = 26%nat /\ in_base 32 (groups b) /\ num 32 (groups b) = num 256 b.
Proof.
  intros [Hlen Hb]. split; [reflexivity|].
  do 16 (destruct b as [|? b]; [discriminate Hlen|]). destruct b; [|discriminate Hlen].
  rewrite groups_blocks. clear Hlen.
  match type of Hb with in_base _ [?x0;?x1;?x2;?x3;?x4;?x5;?x6;?x7;?x8;?x9;?x10;?x11;?x12;?x13;?x14;?x15] =>
    change [x0;x1;x2;x3;x4;x5;x6;x7;x8;x9;x10;x11;x12;x13;x14;x15] with
      ([x0] ++ [x1;x2;x3;x4;x5] ++ [x6;x7;x8;x9;x10] ++ [x11;x12;x13;x14;x15]) in Hb |- *
  end.
  apply Forall_app in Hb as [H0 Hb]. apply Forall_app in Hb as [H1 Hb]. apply Forall_app in Hb as [H2 H3].
  apply block_spec in H1 as [I1 N1]. apply block_spec in H2 as [I2 N2]. apply block_spec in H3 as [I3 N3].
  apply Forall_cons_iff in H0 as [H0 _].
  rewrite (mask_shift _ 5 3 224), (mask_low _ 5 31) by first [lia | reflexivity].
  split.
  - repeat apply Forall_app_2; try done. repeat constructor; zlia.
  - rewrite !num_app, N1, N2, N3.
    repeat match goal with
    | |- context [?a ^ Z.of_nat ?n] =>
      let v := eval vm_compute in (a ^ Z.of_nat n) in change (a ^ Z.of_nat n) with v
    end.
    match goal with |- num 32 [?x; ?y] * ?p + ?r = num 256 [?z] * ?q + ?r' =>
      change ((x * 32 + y) * p + r = z * q + r') end. zlia.
Qed.

Lemma crock_compare i j :
  0 <= i < 32 -> 0 <= j < 32 -> Ascii.compare (crock i) (crock j) = (i ?= j).
Proof.
  intros Hi Hj.
  assert (forallb (fun p => match Ascii.compare (crock p.1) (crock p.2), p.1 ?= p.2 with
                            | Eq, Eq | Lt, Lt | Gt, Gt => true | _, _ => false end)
    (list_prod (seqZ 0 32) (seqZ 0 32)) = true) as H by (vm_compute; reflexivity).
  rewrite forallb_forall in H. specialize (H (i, j)). cbn [fst snd] in H.
  assert (In (i, j) (list_prod (seqZ 0 32) (seqZ 0 32))) as Hin
    by (apply in_prod; apply list_elem_of_In, elem_of_seqZ; lia).
  specialize (H Hin). repeat case_match; congruence.
Qed.

Lemma crock_in_alphabet i : 0 <= i < 32 -> is_crockford (crock i) = true.
Proof.
  intros Hi. assert (forallb (fun i => is_crockford (crock i)) (seqZ 0 32) = true) as H
    by (vm_compute; reflexivity).
  rewrite forallb_forall in H. apply H, list_elem_of_In, elem_of_seqZ. lia.
Qed.

Lemma num_cons base d l : num base (d :: l) = d * base ^ Z.of_nat (length l) + num base l.
Proof. exact (num_app base [d] l). Qed.

(** Lexicographic order of equally long numerals is the order of the numbers. *)
Lemma compare_digits l1 l2 :
  length l1 = length l2 -> in_base 32 l1 -> in_base 32 l2 ->
  String.compare (string_of (crock <$> l1)) (string_of (crock <$> l2)) = (num 32 l1 ?= num 32 l2).
Proof.
  revert l2. induction l1 as [|d1 l1 IH]; intros [|d2 l2] Hlen H1 H2; try discriminate Hlen; [done|].
  injection Hlen as Hlen. apply Forall_cons_iff in H1 as [Hd1 H1]. apply Forall_cons_iff in H2 as [Hd2 H2].
  pose proof (num_bound 32 l1 ltac:(lia) H1) as B1. pose proof (num_bound 32 l2 ltac:(lia) H2) as B2.
  cbn [fmap list_fmap string_of String.compare]. rewrite crock_compare by done.
  rewrite !num_cons, Hlen. rewrite Hlen in B1. set (P := 32 ^ Z.of_nat (length l2)) in *.
  destruct (Z.compare_spec d1 d2) as [->|Hlt|Hgt].
  - rewrite (IH l2 Hlen H1 H2). by rewrite Z.add_compare_mono_l.
  - symmetry. apply Z.compare_lt_iff. nia.
  - symmetry. apply Z.compare_gt_iff. nia.
Qed.

Lemma encode_compare b1 b2 :
  ulid_bytes b1 -> ulid_bytes b2 -> String.compare (encode b1) (encode b2) = (num 256 b1 ?= num 256 b2).
Proof.
  intros H1 H2. destruct (groups_spec b1 H1) as (L1 & I1 & <-).
  destruct (groups_spec b2 H2) as (L2 & I2 & <-). apply compare_digits; congruence.
Qed.

Lemma num_inj base l1 l2 :
  0 < base -> length l1 = length l2 -> in_base base l1 -> in_base base l2 ->
  num base l1 = num base l2 -> l1 = l2.
Proof.
  intros Hb. revert l2. induction l1 as [|d1 l1 IH]; intros [|d2 l2] Hlen H1 H2 Heq; try discriminate Hlen; [done|].
  injection Hlen as Hlen. apply Forall_cons_iff in H1 as [Hd1 H1]. apply Forall_cons_iff in H2 as [Hd2 H2].
  pose proof (num_bound base l1 Hb H1) as B1. pose proof (num_bound base l2 Hb H2) as B2.
  rewrite !num_cons, Hlen in Heq. rewrite Hlen in B1. assert (d1 = d2) as -> by nia. f_equal. apply IH; auto. lia.
Qed.

Lemma time_bytes_spec ms : in_base 256 (time_bytes ms) /\ num 256 (time_bytes ms) = ms mod 2 ^ 48.
Proof.
  unfold time_bytes. rewrite !(mask_low _ 8 255) by first [lia | reflexivity].
  rewrite !Z.shiftr_div_pow2 by lia. split.
  - repeat constructor; zlia.
  - unfold num. cbn -[Z.div Z.modulo Z.mul Z.add].
    assert (ms / 2 ^ 40 = ms / 2 ^ 32 / 256) as -> by (rewrite Z.div_div by lia; reflexivity).
    assert (ms / 2 ^ 32 = ms / 2 ^ 24 / 256) as -> by (rewrite Z.div_div by lia; reflexivity).
    assert (ms / 2 ^ 24 = ms / 2 ^ 16 / 256) as -> by (rewrite Z.div_div by lia; reflexivity).
    assert (ms / 2 ^ 16 = ms / 2 ^ 8 / 256) as -> by (rewrite Z.div_div by lia; reflexivity).
    zlia.
Qed.

Lemma New_bytes ms entropy :
  length entropy = 10%nat -> in_base 256 entropy -> ulid_bytes (time_bytes ms ++ entropy).
Proof.
  intros Hlen He. split; [by rewrite length_app, Hlen|].
  apply Forall_app_2; [apply time_bytes_spec | done].
Qed.

Lemma encode_pattern b : ulid_bytes b -> reULID (encode b) = true.
Proof.
  intros Hb. destruct (groups_spec b Hb) as (L & I & _). unfold reULID, encode.
  apply andb_true_iff. split; [reflexivity|].
  apply forallb_forall. intros c Hc. revert I Hc. generalize (groups b). clear.
  induction l as [|d l IH]; intros I Hc; [done|]. apply Forall_cons_iff in I as [Hd I].
  destruct Hc as [<-|Hc]; [by apply crock_in_alphabet | by apply IH].
Qed.

(** * Properties *)

(** [encode] is injective on 16-byte values: distinct (timestamp, entropy)
    pairs get distinct ids. *)
Theorem encode_injective b1 b2 :
  ulid_bytes b1 -> ulid_bytes b2 -> b1 <> b2 -> encode b1 <> encode b2.
Proof.
  intros H1 H2 Hne Heq. apply Hne. pose proof (encode_compare b1 b2 H1 H2) as Hc.
  rewrite Heq, encode_compare, Z.compare_refl in Hc by done.
  symmetry in Hc. apply Z.compare_eq in Hc.
  destruct H1 as [L1 I1], H2 as [L2 I2]. eapply (num_inj 256); eauto; [lia | congruence].
Qed.

(** an id minted at an earlier millisecond sorts strictly before a later
    one, whatever the entropy, and both match the contract's id pattern. *)
Theorem New_sorted_by_time ms1 ms2 e1 e2 :
  0 <= ms1 < ms2 -> ms2 < 2 ^ 48 ->
  length e1 = 10%nat -> in_base 256 e1 -> length e2 = 10%nat -> in_base 256 e2 ->
  String.compare (New ms1 e1) (New ms2 e2) = Lt /\
  reULID (New ms1 e1) = true /\ reULID (New ms2 e2) = true.
Proof.
  intros H1 H2 L1 I1 L2 I2.
  pose proof (New_bytes ms1 e1 L1 I1) as B1. pose proof (New_bytes ms2 e2 L2 I2) as B2.
  split_and!; [|by apply encode_pattern..].
  unfold New. rewrite encode_compare by done. apply Z.compare_lt_iff.
  destruct (time_bytes_spec ms1) as [_ T1]. destruct (time_bytes_spec ms2) as [_ T2].
  rewrite !num_app, T1, T2, L1, L2, !Z.mod_small by lia.
  pose proof (num_bound 256 e1 ltac:(lia) I1) as N1. pose proof (num_bound 256 e2 ltac:(lia) I2) as N2.
  rewrite L1 in N1. rewrite L2 in N2. nia.
Qed.

Lemma encode_injective_witness : encode (repeat 255 16) <> encode (254 :: repeat 255 15).
Proof.
  apply (encode_injective (repeat 255 16) (254 :: repeat 255 15));
    [split; [reflexivity | repeat constructor; lia] .. | discriminate].
Defined.

Lemma New_sorted_by_time_witness :
  String.compare (New 1 (repeat 255 10)) (New 2 (repeat 0 10)) = Lt /\
  reULID (New 1 (repeat 255 10)) = true /\ reULID (New 2 (repeat 0 10)) = true.
Proof.
  apply (New_sorted_by_time 1 2); try lia; try reflexivity; repeat constructor; lia.
Defined.
