(* ===== verification/Verdict.v ===== *)
(** The verdict combination algebra ([internal/engine/verdict.go]).

    [Outcome] and [FailMode] are string types in Go; the last constructor of
    each stands for every other string, because the source has a branch (or a
    fall-through) for it. *)

From S2P Require Import Prelude.

Inductive Verdict := Approve | Deny | Review.

Inductive Outcome := Satisfied | Denied | Flagged | Unavailable | OutcomeOther (s : string).

Inductive FailMode := FailClosedReview | FailClosedDeny | FailOpen | FailModeOther (s : string).

#[export] Instance Verdict_eq_dec : EqDecision Verdict.
Proof. solve_decision. Defined.
#[export] Instance Outcome_eq_dec : EqDecision Outcome.
Proof. solve_decision. Defined.
#[export] Instance FailMode_eq_dec : EqDecision FailMode.
Proof. solve_decision. Defined.

(** One predicate's contribution ([engine.PredicateResult]). *)
Record PredResult := {
  pr_RuleID : string;
  pr_Enriched : bool;
  pr_Outcome : Outcome;
  pr_FailMode : FailMode
}.

Definition effectiveOutcome (r : PredResult) : Outcome :=
  match pr_Outcome r with
  | Unavailable =>
    match pr_FailMode r with
    | FailClosedDeny => Denied
    | FailOpen => Satisfied
    | FailClosedReview => Flagged
    | FailModeOther _ => Flagged
    end
  | o => o
  end.

(** The loop of [Combine], with [sawFlag] as its accumulator. *)
Fixpoint combine_loop (sawFlag : bool) (results : list PredResult) : Verdict :=
  match results with
  | [] => if sawFlag then Review else Approve
  | r :: rest =>
    match effectiveOutcome r with
    | Denied => Deny
    | Flagged => combine_loop true rest
    | _ => combine_loop sawFlag rest
    end
  end.

Definition Combine (results : list PredResult) : Verdict :=
  match results with
  | [] => Deny
  | _ => combine_loop false results
  end.

(** * Specification: the most severe effective outcome *)

(** Verdicts ordered by severity. *)
Definition severity (v : Verdict) : nat :=
  match v with Approve => 0 | Review => 1 | Deny => 2 end%nat.

Definition join (v w : Verdict) : Verdict := if (severity v <=? severity w)%nat then w else v.

#[global] Arguments join : simpl never.

(** What one result asks for on its own. *)
Definition verdict_of (r : PredResult) : Verdict :=
  match effectiveOutcome r with Denied => Deny | Flagged => Review | _ => Approve end.

(** Deny by default, otherwise the join of what the results ask for. *)
Definition combine_spec (results : list PredResult) : Verdict :=
  match results with
  | [] => Deny
  | _ => foldr (fun r => join (verdict_of r)) Approve results
  end.

#[export] Instance join_comm : Comm eq join.
Proof. intros [] []; reflexivity. Qed.
#[export] Instance join_assoc : Assoc eq join.
Proof. intros [] [] []; reflexivity. Qed.
#[export] Instance join_left_id : LeftId eq Approve join.
Proof. intros []; reflexivity. Qed.
#[export] Instance join_right_id : RightId eq Approve join.
Proof. intros []; reflexivity. Qed.
#[export] Instance join_idemp : IdemP eq join.
Proof. intros []; reflexivity. Qed.

Lemma join_deny_l v : join Deny v = Deny.
Proof. by destruct v. Qed.

Lemma severity_join v w : severity (join v w) = Nat.max (severity v) (severity w).
Proof. by destruct v, w. Qed.

Lemma combine_loop_spec b rs :
  combine_loop b rs =
  join (if b then Review else Approve) (foldr (fun r => join (verdict_of r)) Approve rs).
Proof.
  revert b. induction rs as [|r rs IH]; intros b; cbn; [by destruct b|].
  unfold verdict_of at 1. destruct (effectiveOutcome r) eqn:E; rewrite ?IH, ?(left_id Approve join); try done;
    generalize (foldr (fun r => join (verdict_of r)) Approve rs) as v; intros v; by destruct b, v.
Qed.

Lemma Combine_cons r rs : Combine (r :: rs) = join (verdict_of r) (foldr (fun r => join (verdict_of r)) Approve rs).
Proof. unfold Combine. rewrite combine_loop_spec. apply (left_id Approve join). Qed.

Lemma Combine_spec rs : Combine rs = combine_spec rs.
Proof. destruct rs as [|r rs]; [done|]. by rewrite Combine_cons. Qed.

Lemma foldr_join_app l1 l2 :
  foldr (fun r => join (verdict_of r)) Approve (l1 ++ l2) =
  join (foldr (fun r => join (verdict_of r)) Approve l1) (foldr (fun r => join (verdict_of r)) Approve l2).
Proof. induction l1 as [|r l1 IH]; cbn; [by rewrite (left_id Approve join)|]. by rewrite IH, (assoc join). Qed.

Lemma foldr_join_perm l1 l2 :
  l1 ≡ₚ l2 ->
  foldr (fun r => join (verdict_of r)) Approve l1 = foldr (fun r => join (verdict_of r)) Approve l2.
Proof.
  induction 1 as [|x l1 l2 _ IH|x y l|l1 l2 l3 _ IH1 _ IH2]; cbn; [done|by rewrite IH| |congruence].
  by rewrite !(assoc join), (comm join (verdict_of y)).
Qed.

#[export] Instance Combine_perm : Proper ((≡ₚ) ==> eq) Combine.
Proof.
  intros rs1 rs2 Hp. rewrite !Combine_spec.
  destruct rs1 as [|r1 rs1]; [apply Permutation_nil in Hp as ->; done|].
  destruct rs2 as [|r2 rs2]; [symmetry in Hp; by apply Permutation_nil in Hp|].
  apply (foldr_join_perm _ _ Hp).
Qed.

Lemma foldr_join_approve rs :
  foldr (fun r => join (verdict_of r)) Approve rs = Approve <-> Forall (fun r => verdict_of r = Approve) rs.
Proof.
  induction rs as [|r rs IH]; cbn; [by split|]. rewrite Forall_cons_iff, <- IH.
  destruct (verdict_of r), (foldr _ _ rs); unfold join; cbn; intuition congruence.
Qed.

Lemma foldr_join_deny rs :
  foldr (fun r => join (verdict_of r)) Approve rs = Deny <-> Exists (fun r => verdict_of r = Deny) rs.
Proof.
  induction rs as [|r rs IH]; cbn; [rewrite Exists_nil; split; [done|tauto]|].
  rewrite Exists_cons, <- IH. destruct (verdict_of r), (foldr _ _ rs); unfold join; cbn; intuition congruence.
Qed.

Lemma Combine_approve rs : Combine rs = Approve <-> rs <> [] /\ Forall (fun r => verdict_of r = Approve) rs.
Proof.
  rewrite Combine_spec. destruct rs as [|r rs]; [split; [done | tauto]|].
  unfold combine_spec. rewrite foldr_join_approve. intuition congruence.
Qed.

Lemma Combine_deny rs : Combine rs = Deny <-> rs = [] \/ Exists (fun r => verdict_of r = Deny) rs.
Proof.
  rewrite Combine_spec. destruct rs as [|r rs]; [tauto|].
  unfold combine_spec. rewrite foldr_join_deny. intuition congruence.
Qed.

(** Appending to a nonempty set of results joins the verdicts. *)
Lemma Combine_app rs1 rs2 :
  rs1 <> [] -> rs2 <> [] -> Combine (rs1 ++ rs2) = join (Combine rs1) (Combine rs2).
Proof.
  intros H1 H2. destruct rs1 as [|r1 rs1]; [done|]. destruct rs2 as [|r2 rs2]; [done|].
  rewrite !Combine_spec. apply (foldr_join_app (r1 :: rs1) (r2 :: rs2)).
Qed.

(** * Properties *)

(** [Combine] is deny-by-default and otherwise the most severe effective
    outcome: DENY exactly when the set is empty or some result effectively
    denies, REVIEW exactly when none denies and some flags, APPROVE exactly when
    it is nonempty and nothing denies or flags. *)
Theorem Combine_precedence rs :
  (Combine rs = Deny <-> rs = [] \/ Exists (fun r => effectiveOutcome r = Denied) rs) /\
  (Combine rs = Review <->
     Forall (fun r => effectiveOutcome r <> Denied) rs /\ Exists (fun r => effectiveOutcome r = Flagged) rs) /\
  (Combine rs = Approve <->
     rs <> [] /\ Forall (fun r => effectiveOutcome r <> Denied /\ effectiveOutcome r <> Flagged) rs).
Proof.
  assert (Hd : forall r, verdict_of r = Deny <-> effectiveOutcome r = Denied)
    by (intros r; unfold verdict_of; destruct (effectiveOutcome r); intuition congruence).
  assert (Ha : forall r, verdict_of r = Approve <-> effectiveOutcome r <> Denied /\ effectiveOutcome r <> Flagged)
    by (intros r; unfold verdict_of; destruct (effectiveOutcome r); intuition congruence).
  assert (HD : Combine rs = Deny <-> rs = [] \/ Exists (fun r => effectiveOutcome r = Denied) rs)
    by (rewrite Combine_deny; do 2 f_equiv; intros r; apply Hd).
  assert (HA : Combine rs = Approve <->
     rs <> [] /\ Forall (fun r => effectiveOutcome r <> Denied /\ effectiveOutcome r <> Flagged) rs)
    by (rewrite Combine_approve; do 2 f_equiv; intros r; apply Ha).
  split; [exact HD | split; [|exact HA]]. split.
  - intros HR. split.
    + apply Forall_Exists_neg. intros HE. assert (Combine rs = Deny) by (apply HD; by right). congruence.
    + apply dec_stable. intros HN%Forall_Exists_neg.
      assert (Combine rs = Approve); [|congruence]. apply HA. split; [by intros -> |].
      apply list.Forall_and. split; [|done]. apply Forall_Exists_neg. intros HE.
      assert (Combine rs = Deny) by (apply HD; by right). congruence.
  - intros [HF HE]. destruct (Combine rs) eqn:E in |- *; [|exfalso|done].
    + apply HA in E as [_ E]. exfalso. apply list.Forall_and in E as [_ E].
      by apply Forall_Exists_neg in E.
    + apply HD in E as [->|E]; [by apply Exists_nil in HE | by apply Forall_Exists_neg in HF].
Qed.

Lemma Combine_severity_upper rs r :
  r ∈ rs -> (severity (verdict_of r) <= severity (Combine rs))%nat.
Proof.
  intros Hin. rewrite Combine_spec. destruct rs as [|r0 rs]; [by apply not_elem_of_nil in Hin|].
  unfold combine_spec. revert Hin. generalize (r0 :: rs). clear. intros l.
  induction 1 as [x l|x y l _ IH]; cbn [foldr]; rewrite severity_join; lia.
Qed.

Lemma Combine_severity_attained rs :
  rs <> [] -> Combine rs = Approve \/ exists r, r ∈ rs /\ verdict_of r = Combine rs.
Proof.
  rewrite Combine_spec. destruct rs as [|r0 rs]; [done|]. intros _. unfold combine_spec.
  generalize (r0 :: rs). clear. induction l as [|r l [IH|(r' & Hin & IH)]]; cbn [foldr]; [by left| |].
  - right. exists r. split; [left|]. by rewrite IH, (right_id Approve join).
  - unfold join. case_match.
    + right. exists r'. split; [by right | done].
    + right. exists r. split; [left | done].
Qed.

(** the verdict only depends on which effective outcomes occur, not on their
    order or number, and more of them never relax it: if every effective outcome
    of a nonempty [rs1] occurs in [rs2], [rs2] is at least as severe. *)
Theorem Combine_set_monotone rs1 rs2 :
  rs1 <> [] ->
  (forall o, o ∈ (effectiveOutcome <$> rs1) -> o ∈ (effectiveOutcome <$> rs2)) ->
  (severity (Combine rs1) <= severity (Combine rs2))%nat /\
  ((forall o, o ∈ (effectiveOutcome <$> rs2) -> o ∈ (effectiveOutcome <$> rs1)) -> Combine rs1 = Combine rs2).
Proof.
  assert (Hle : forall l1 l2, l1 <> [] ->
    (forall o, o ∈ (effectiveOutcome <$> l1) -> o ∈ (effectiveOutcome <$> l2)) ->
    (severity (Combine l1) <= severity (Combine l2))%nat).
  { intros l1 l2 Hne Hsub. destruct (Combine_severity_attained l1 Hne) as [->|(r & Hin & <-)]; [cbn; lia|].
    destruct (list_elem_of_fmap_1 _ _ _ (Hsub _ (list_elem_of_fmap_2 effectiveOutcome _ _ Hin))) as (r' & Heq & Hin').
    replace (verdict_of r) with (verdict_of r') by (unfold verdict_of; by rewrite Heq).
    by apply Combine_severity_upper. }
  intros Hne Hsub. split; [by apply Hle|]. intros Hsub'.
  assert (rs2 <> []) as Hne2.
  { intros ->. destruct rs1 as [|r rs1]; [done|]. specialize (Hsub (effectiveOutcome r)).
    apply not_elem_of_nil in Hsub; [done|]. left. }
  pose proof (Hle _ _ Hne Hsub). pose proof (Hle _ _ Hne2 Hsub').
  destruct (Combine rs1), (Combine rs2); cbn in *; lia || done.
Qed.

(** a predicate that could not complete never turns into an approval unless
    its fail mode is the explicit opt-in [FailOpen]. *)
Theorem Unavailable_never_approves rs r :
  r ∈ rs -> pr_Outcome r = Unavailable -> pr_FailMode r <> FailOpen -> Combine rs <> Approve.
Proof.
  intros Hin Hu Hf Ha. apply Combine_approve in Ha as [_ Ha].
  rewrite Forall_forall in Ha. specialize (Ha r (proj1 (list_elem_of_In _ _) Hin)).
  unfold verdict_of, effectiveOutcome in Ha. rewrite Hu in Ha. by destruct (pr_FailMode r).
Qed.

Definition mk_result (o : Outcome) (f : FailMode) : PredResult :=
  {| pr_RuleID := "r"; pr_Enriched := false; pr_Outcome := o; pr_FailMode := f |}.

(** An outcome outside the four constants is neither a deny nor a flag, so on
    its own it is approved, although the algebra's text says "all Satisfied". *)
Example Combine_unknown_outcome : Combine [mk_result (OutcomeOther "ERROR") (FailModeOther "")] = Approve.
Proof. reflexivity. Qed.

Lemma Combine_set_monotone_witness :
  (severity (Combine [mk_result Flagged FailOpen]) <=
   severity (Combine [mk_result Satisfied FailOpen; mk_result Unavailable FailClosedReview]))%nat.
Proof.
  apply (Combine_set_monotone [mk_result Flagged FailOpen]
           [mk_result Satisfied FailOpen; mk_result Unavailable FailClosedReview]); [discriminate|].
  intros o Ho. apply list_elem_of_singleton in Ho as ->. right. left.
Defined.

Lemma Unavailable_never_approves_witness :
  Combine [mk_result Satisfied FailOpen; mk_result Unavailable (FailModeOther "")] <> Approve.
Proof.
  apply (Unavailable_never_approves _ (mk_result Unavailable (FailModeOther "")));
    [right; left | reflexivity | discriminate].
Defined.
