(* ===== verification/Money.v ===== *)
(** Monetary amounts as exact values: the contract's canonical decimal grammar
    ([reMoney], [internal/server/authorize.go]) and the engine's exact rational
    reading of it ([parseMoney], [internal/engine/predicate.go]).

    [parseMoney] is Go's [big.Rat.SetString], which accepts more than the
    contract's grammar (fractions, exponents, base prefixes).  The grammar the
    contract fixes is modelled; what [SetString] returns on any other string is
    the parameter [rat_other]. *)

From S2P Require Import Prelude GoStrings.

Class BigRat := { rat_other : string -> option Q }.

(** An optional leading minus sign. *)
Definition split_sign (s : string) : bool * string :=
  match strip_prefix "-" s with
  | Some r => (true, r)
  | None => (false, s)
  end.

(** A zero, or a digit string that does not start with zero. *)
Definition canonical_int (s : string) : bool :=
  match s with
  | EmptyString => false
  | String c r => is_digit c && str_all is_digit r && (negb (Ascii.eqb c "0"%char) || String.eqb r "")
  end.

(** The regular expression [reMoney]: an optional sign, a canonical integer, and
    optionally a point and at least one digit. *)
Definition reMoney (s : string) : bool :=
  let '(_, r) := split_sign s in
  let '(ip, fp, dot) := Cut "."%char r in
  canonical_int ip && (if (dot : bool) then negb (String.eqb fp "") && str_all is_digit fp else true).

Definition digits_value (s : string) : Z :=
  match parse_digits 0 s with Some z => z | None => 0 end.

(** The value of a canonical decimal: its digits over a power of ten. *)
Definition decimal_value (s : string) : Q :=
  let '(neg, r) := split_sign s in
  let '(ip, fp, _) := Cut "."%char r in
  let n := digits_value (ip +:+ fp) in
  Qmake (if (neg : bool) then - n else n) (Pos.of_nat (10 ^ String.length fp)).

Definition parseMoney `{BigRat} (s : string) : option Q :=
  if reMoney s then Some (decimal_value s) else rat_other s.

(** [x.Cmp(y) > 0]. *)
Definition rat_gt (x y : Q) : bool :=
  match Qcompare x y with Gt => true | _ => false end.

Lemma rat_gt_spec x y : rat_gt x y = true <-> (y < x)%Q.
Proof. unfold rat_gt. rewrite Qgt_alt. by destruct (x ?= y)%Q. Qed.

Example money_a : decimal_value "-12.50" = (-1250 # 100)%Q.
Proof. reflexivity. Qed.
Example money_b : reMoney "007" = false /\ reMoney "1." = false /\ reMoney "-0.5" = true.
Proof. repeat split; reflexivity. Qed.

(** ** Reading the fields of a canonical decimal *)

Lemma parse_digits_total acc s : str_all is_digit s = true -> is_Some (parse_digits acc s).
Proof.
  revert acc. induction s as [|c s IH]; intros acc; cbn; [by eexists|].
  intros [Hc Hs]%andb_true_iff. unfold is_digit in Hc. destruct (digit_val c); [|done]. by apply IH.
Qed.

Lemma digit_val_range c d : digit_val c = Some d -> 0 <= d <= 9.
Proof. unfold digit_val. case_match; [|done]. intros [= <-]. breflect. lia. Qed.

Lemma parse_digits_acc acc s z :
  parse_digits 0 s = Some z -> parse_digits acc s = Some (acc * 10 ^ Z.of_nat (String.length s) + z).
Proof.
  revert acc z. induction s as [|c s IH]; intros acc z; cbn [parse_digits].
  - intros [= <-]. cbn. f_equal. lia.
  - destruct (digit_val c) as [d|] eqn:Ed; [|done].
    destruct (parse_digits 0 s) as [z0|] eqn:E0.
    + rewrite !(IH _ z0 eq_refl). intros [= <-]. f_equal.
      cbn [String.length]. rewrite Nat2Z.inj_succ, Z.pow_succ_r by lia. lia.
    + assert (Hn : forall a, parse_digits a s = None).
      { clear -E0. revert E0. generalize 0. induction s as [|c s IH]; intros b; cbn; [done|].
        destruct (digit_val c) as [d|]; [|done]. intros H a. by apply (IH _ H). }
      by rewrite Hn.
Qed.

Lemma parse_digits_nonneg acc s z : 0 <= acc -> parse_digits acc s = Some z -> acc <= z.
Proof.
  revert acc. induction s as [|c s IH]; intros acc Hacc; cbn; [intros [= ->]; lia|].
  destruct (digit_val c) as [d|] eqn:E; [|done]. apply digit_val_range in E.
  intros H%IH; lia.
Qed.

Lemma parse_digits_bound s z : parse_digits 0 s = Some z -> 0 <= z < 10 ^ Z.of_nat (String.length s).
Proof.
  revert z. induction s as [|c s IH]; intros z; [intros [= <-]; cbn; lia|].
  cbn [parse_digits String.length]. destruct (digit_val c) as [d|] eqn:E; [|done]. apply digit_val_range in E.
  intros H. assert (str_all is_digit s = true) as Hs.
  { clear -H. revert H. generalize (10 * 0 + d). induction s as [|c s IH]; intros a; cbn; [done|].
    unfold is_digit. destruct (digit_val c); [|done]. apply IH. }
  destruct (parse_digits_total 0 s Hs) as [z0 E0]. specialize (IH z0 E0).
  rewrite (parse_digits_acc _ _ _ E0) in H. injection H as <-.
  rewrite Nat2Z.inj_succ, Z.pow_succ_r by lia. nia.
Qed.

Lemma digits_value_app a b :
  str_all is_digit a = true -> str_all is_digit b = true ->
  digits_value (a +:+ b) = digits_value a * 10 ^ Z.of_nat (String.length b) + digits_value b.
Proof.
  intros Ha Hb. destruct (parse_digits_total 0 a Ha) as [x Ex]. destruct (parse_digits_total 0 b Hb) as [y Ey].
  assert (parse_digits 0 (a +:+ b) = parse_digits x b) as H.
  { clear -Ex. revert Ex. generalize 0. induction a as [|c a IH]; intros acc; [by intros [= ->]|].
    rewrite str_app_cons. cbn. destruct (digit_val c); [|done]. apply IH. }
  unfold digits_value. by rewrite H, Ex, Ey, (parse_digits_acc _ _ _ Ey).
Qed.
