(* ===== verification/Predicates.v ===== *)
(** The predicate interface and the six local predicate types
    ([internal/engine/predicate.go], [predicates.go], [construct.go]).

    A Go struct that embeds [base] is a record whose first field is a [base].
    The [Predicate] interface is the record of its four methods; a predicate
    value stored in the interface is built by the [as_...] coercions.  Evidence
    maps are [gmap]s of JSON values. *)

From S2P Require Import Prelude GoStrings GoTime Money Contracts Verdict.

Record Input := {
  in_AgentID : string;
  in_Action : string;
  in_AmountRaw : string;
  in_Amount : option Q;
  in_Currency : string;
  in_Target : Target;
  in_Jurisdiction : string;
  in_EvaluatedAt : time;
  in_Context : jmap
}.

Record Result := {
  res_Outcome : Outcome;
  res_Reason : string;
  res_Evidence : jmap
}.

Record Predicate := {
  RuleID : string;
  Type_ : string;
  AppliesTo : string -> bool;
  Evaluate : Input -> Result
}.

Record base := { base_ID : string; base_Agents : list string }.

(** The [contains] loop of the package. *)
Definition contains (l : list string) (v : string) : bool := mem_str v l.

Definition containsInt (l : list Z) (v : Z) : bool := existsb (Z.eqb v) l.

(** [base.AppliesTo]: no agent scope, or the agent is listed. *)
Definition base_AppliesTo (b : base) (agentID : string) : bool :=
  match base_Agents b with
  | [] => true
  | _ => contains (base_Agents b) agentID
  end.

Definition satisfied (reason : string) (ev : jmap) : Result :=
  {| res_Outcome := Satisfied; res_Reason := reason; res_Evidence := ev |}.
Definition denied (reason : string) (ev : jmap) : Result :=
  {| res_Outcome := Denied; res_Reason := reason; res_Evidence := ev |}.
Definition flagged (reason : string) (ev : jmap) : Result :=
  {| res_Outcome := Flagged; res_Reason := reason; res_Evidence := ev |}.

Section predicates.
Context `{BigRat} `{Unicode}.

(** ** per_transaction_limit *)

Record PerTransactionLimit := {
  ptl_base : base;
  ptl_MaxRaw : string;
  ptl_Currency : string
}.

Definition PerTransactionLimit_Evaluate (p : PerTransactionLimit) (i : Input) : Result :=
  match parseMoney (ptl_MaxRaw p) with
  | None =>
    flagged "per-transaction limit is misconfigured (unparseable amount)"
            {[ "limit" := JStr (ptl_MaxRaw p) ]}
  | Some max =>
    if negb (String.eqb (ptl_Currency p) "") && negb (String.eqb (ptl_Currency p) (in_Currency i)) then
      flagged ("limit is in " +:+ ptl_Currency p +:+ " but transaction is in " +:+ in_Currency i +:+ "; cannot compare")
              {[ "limit_currency" := JStr (ptl_Currency p); "txn_currency" := JStr (in_Currency i) ]}
    else
      match in_Amount i with
      | None => flagged "transaction amount is unparseable" {[ "amount" := JStr (in_AmountRaw i) ]}
      | Some amount =>
        let ev : jmap := {[ "amount" := JStr (in_AmountRaw i); "limit" := JStr (ptl_MaxRaw p);
                            "currency" := JStr (in_Currency i) ]} in
        if rat_gt amount max then
          denied ("amount=" +:+ in_AmountRaw i +:+ " exceeds per-transaction limit=" +:+ ptl_MaxRaw p +:+ " " +:+ in_Currency i) ev
        else
          satisfied ("amount=" +:+ in_AmountRaw i +:+ " within per-transaction limit=" +:+ ptl_MaxRaw p +:+ " " +:+ in_Currency i) ev
      end
  end.

(** ** vendor_allowlist and vendor_blocklist *)

Record VendorAllowlist := { va_base : base; va_Vendors : list string }.

Definition VendorAllowlist_Evaluate (p : VendorAllowlist) (i : Input) : Result :=
  let t := in_Target i in
  if negb (String.eqb (tgt_Type t) TargetVendor) then
    satisfied "target is not a vendor; allowlist not applicable" {[ "target_type" := JStr (tgt_Type t) ]}
  else
    let ev : jmap := {[ "vendor" := JStr (tgt_ID t) ]} in
    if contains (va_Vendors p) (tgt_ID t)
    then satisfied ("vendor " +:+ Quote (tgt_ID t) +:+ " is allowlisted") ev
    else denied ("vendor " +:+ Quote (tgt_ID t) +:+ " is not on the allowlist") ev.

Record VendorBlocklist := { vb_base : base; vb_Vendors : list string }.

Definition VendorBlocklist_Evaluate (p : VendorBlocklist) (i : Input) : Result :=
  let t := in_Target i in
  if negb (String.eqb (tgt_Type t) TargetVendor) then
    satisfied "target is not a vendor; blocklist not applicable" {[ "target_type" := JStr (tgt_Type t) ]}
  else
    let ev : jmap := {[ "vendor" := JStr (tgt_ID t) ]} in
    if contains (vb_Vendors p) (tgt_ID t)
    then denied ("vendor " +:+ Quote (tgt_ID t) +:+ " is blocklisted") ev
    else satisfied ("vendor " +:+ Quote (tgt_ID t) +:+ " is not blocklisted") ev.

(** ** agent_permission *)

Record AgentPermission := {
  ap_base : base;
  ap_AllowedActions : list string;
  ap_AllowedTargets : list string
}.

Definition nonempty {A} (l : list A) : bool := match l with [] => false | _ => true end.

Definition AgentPermission_Evaluate (p : AgentPermission) (i : Input) : Result :=
  let target := tgt_ID (in_Target i) in
  if nonempty (ap_AllowedActions p) && negb (contains (ap_AllowedActions p) (in_Action i)) then
    denied ("agent " +:+ Quote (in_AgentID i) +:+ " may not perform action " +:+ Quote (in_Action i))
           {[ "action" := JStr (in_Action i); "allowed_actions" := jstrs (ap_AllowedActions p) ]}
  else if nonempty (ap_AllowedTargets p) && negb (contains (ap_AllowedTargets p) target) then
    denied ("agent " +:+ Quote (in_AgentID i) +:+ " may not act on target " +:+ Quote target)
           {[ "target" := JStr target; "allowed_targets" := jstrs (ap_AllowedTargets p) ]}
  else
    satisfied ("agent " +:+ Quote (in_AgentID i) +:+ " is permitted action " +:+ Quote (in_Action i) +:+ " on target " +:+ Quote target)
              {[ "action" := JStr (in_Action i); "target" := JStr target ]}.

(** ** time_window *)

Record TimeWindow := {
  tw_base : base;
  tw_StartMinute : Z;
  tw_EndMinute : Z;
  tw_Weekdays : list Z
}.

Definition withinWindow (minute start end_ : Z) : bool :=
  if start =? end_ then true
  else if start <? end_ then (start <=? minute) && (minute <? end_)
  else (start <=? minute) || (minute <? end_).

(** [fmt.Sprintf("%02d:%02d", m/60, m%60)], with Go's truncated division. *)
Definition fmt_minute (m : Z) : string :=
  fmt_0d 2 (Z.quot m 60) +:+ ":" +:+ fmt_0d 2 (Z.rem m 60).

Definition minute_of_day (t : time) : Z := hour_of t * 60 + minute_of t.

Definition TimeWindow_Evaluate (p : TimeWindow) (i : Input) : Result :=
  let t := in_EvaluatedAt i in
  let ev : jmap :=
    {[ "evaluated_at" := JStr (format_hm t);
       "window" := JStr (fmt_minute (tw_StartMinute p) +:+ "-" +:+ fmt_minute (tw_EndMinute p));
       "weekday" := JStr (weekday_name (weekday t)) ]} in
  if nonempty (tw_Weekdays p) && negb (containsInt (tw_Weekdays p) (weekday t)) then
    denied (weekday_name (weekday t) +:+ " is outside the allowed weekdays") ev
  else if negb (withinWindow (minute_of_day t) (tw_StartMinute p) (tw_EndMinute p)) then
    denied (format_hm t +:+ " is outside the allowed time window") ev
  else
    satisfied (format_hm t +:+ " is within the allowed time window") ev.

(** ** jurisdiction_currency *)

Record JurisdictionCurrency := { jc_base : base; jc_Allowed : gmap string (list string) }.

Definition JurisdictionCurrency_Evaluate (p : JurisdictionCurrency) (i : Input) : Result :=
  let j := in_Jurisdiction i in
  let unconstrained :=
    satisfied "jurisdiction is unconstrained" {[ "jurisdiction" := JStr j; "currency" := JStr (in_Currency i) ]} in
  match jc_Allowed p !! j with
  | None => unconstrained
  | Some allowed =>
    if String.eqb j "" then unconstrained
    else
      let ev : jmap := {[ "jurisdiction" := JStr j; "currency" := JStr (in_Currency i); "allowed" := jstrs allowed ]} in
      if contains allowed (in_Currency i)
      then satisfied ("currency " +:+ in_Currency i +:+ " is permitted in " +:+ j) ev
      else denied ("currency " +:+ in_Currency i +:+ " is not permitted in " +:+ j) ev
  end.

(** ** Constructors ([construct.go]) and the interface values they become *)

Definition pack (b : base) (ty : string) (ev : Input -> Result) : Predicate :=
  {| RuleID := base_ID b; Type_ := ty; AppliesTo := base_AppliesTo b; Evaluate := ev |}.

Definition mk_base (id : string) (agents : list string) : base :=
  {| base_ID := id; base_Agents := agents |}.

Definition NewPerTransactionLimit (id : string) (agents : list string) (maxRaw currency : string) : PerTransactionLimit :=
  {| ptl_base := mk_base id agents; ptl_MaxRaw := maxRaw; ptl_Currency := currency |}.
Definition NewVendorAllowlist (id : string) (agents vendors : list string) : VendorAllowlist :=
  {| va_base := mk_base id agents; va_Vendors := vendors |}.
Definition NewVendorBlocklist (id : string) (agents vendors : list string) : VendorBlocklist :=
  {| vb_base := mk_base id agents; vb_Vendors := vendors |}.
Definition NewAgentPermission (id : string) (agents actions targets : list string) : AgentPermission :=
  {| ap_base := mk_base id agents; ap_AllowedActions := actions; ap_AllowedTargets := targets |}.
Definition NewTimeWindow (id : string) (agents : list string) (s e : Z) (weekdays : list Z) : TimeWindow :=
  {| tw_base := mk_base id agents; tw_StartMinute := s; tw_EndMinute := e; tw_Weekdays := weekdays |}.
Definition NewJurisdictionCurrency (id : string) (agents : list string) (allowed : gmap string (list string)) : JurisdictionCurrency :=
  {| jc_base := mk_base id agents; jc_Allowed := allowed |}.

Definition as_PerTransactionLimit (p : PerTransactionLimit) : Predicate :=
  pack (ptl_base p) TypePerTransactionLimit (PerTransactionLimit_Evaluate p).
Definition as_VendorAllowlist (p : VendorAllowlist) : Predicate :=
  pack (va_base p) TypeVendorAllowlist (VendorAllowlist_Evaluate p).
Definition as_VendorBlocklist (p : VendorBlocklist) : Predicate :=
  pack (vb_base p) TypeVendorBlocklist (VendorBlocklist_Evaluate p).
Definition as_AgentPermission (p : AgentPermission) : Predicate :=
  pack (ap_base p) TypeAgentPermission (AgentPermission_Evaluate p).
Definition as_TimeWindow (p : TimeWindow) : Predicate :=
  pack (tw_base p) TypeTimeWindow (TimeWindow_Evaluate p).
Definition as_JurisdictionCurrency (p : JurisdictionCurrency) : Predicate :=
  pack (jc_base p) TypeJurisdictionCurrency (JurisdictionCurrency_Evaluate p).
End predicates.

(** The six types a policy can hold ([LocalPredicateTypes] of the loader). *)
Inductive local_predicate `{BigRat} `{Unicode} : Predicate -> Prop :=
| local_ptl p : local_predicate (as_PerTransactionLimit p)
| local_va p : local_predicate (as_VendorAllowlist p)
| local_vb p : local_predicate (as_VendorBlocklist p)
| local_ap p : local_predicate (as_AgentPermission p)
| local_tw p : local_predicate (as_TimeWindow p)
| local_jc p : local_predicate (as_JurisdictionCurrency p).

(** * Lemmas *)

Lemma base_AppliesTo_spec b a :
  base_AppliesTo b a = true <-> base_Agents b = [] \/ a ∈ base_Agents b.
Proof.
  unfold base_AppliesTo, contains. destruct (base_Agents b) as [|x l] eqn:E; [tauto|].
  rewrite mem_str_spec. intuition congruence.
Qed.

Lemma nonempty_spec {A} (l : list A) : nonempty l = true <-> l <> [].
Proof. destruct l; cbn; intuition congruence. Qed.

Lemma minute_of_day_range t : 0 <= minute_of_day t < 1440.
Proof.
  pose proof (time_of_day_spec t) as Ht. unfold minute_of_day. lia.
Qed.

(** The six local predicate types decide on their own: none of them is ever
    unavailable or returns an outcome outside the algebra. *)
Lemma local_outcome `{BigRat} `{Unicode} p i :
  local_predicate p ->
  res_Outcome (Evaluate p i) = Satisfied \/ res_Outcome (Evaluate p i) = Denied \/
  res_Outcome (Evaluate p i) = Flagged.
Proof.
  intros []; cbn;
    unfold PerTransactionLimit_Evaluate, VendorAllowlist_Evaluate, VendorBlocklist_Evaluate,
      AgentPermission_Evaluate, TimeWindow_Evaluate, JurisdictionCurrency_Evaluate;
    repeat case_match; cbn; tauto.
Qed.

(** * Properties *)

(** A time window is a half-open arc of the day's circle: for minutes of the
    day, a minute is inside [start, end) — spanning midnight when [end] precedes
    [start] — exactly when its distance forward from [start] is less than the
    arc's length, with equal bounds meaning the whole day.  A window and the
    window with its bounds exchanged partition the day. *)
Theorem withinWindow_arc minute start end_
  (Hm : 0 <= minute < 1440) (Hs : 0 <= start < 1440) (He : 0 <= end_ < 1440) :
  (withinWindow minute start end_ = true <->
     start = end_ \/ (minute - start) mod 1440 < (end_ - start) mod 1440) /\
  (start <> end_ -> withinWindow minute end_ start = negb (withinWindow minute start end_)).
Proof.
  split.
  - unfold withinWindow. cases; breflect; zlia.
  - intros Hne. unfold withinWindow. cases; breflect; lia.
Qed.

Lemma withinWindow_arc_witness :
  withinWindow 30 1320 360 = true /\ withinWindow 30 360 1320 = false.
Proof.
  split.
  - apply (withinWindow_arc 30 1320 360); [lia..|]. right. reflexivity.
  - rewrite (proj2 (withinWindow_arc 30 1320 360 ltac:(lia) ltac:(lia) ltac:(lia)) ltac:(discriminate)).
    reflexivity.
Defined.

(** [per_transaction_limit] denies exactly the amounts above the limit: the
    limit parses, is in the transaction's currency or in none, and the exact
    value of the amount exceeds it.  Every other doubt (unparseable limit or
    amount, currencies that differ) is flagged, and it is satisfied exactly when
    both parse in a comparable currency and the amount is at most the limit. *)
Theorem PerTransactionLimit_spec `{BigRat} p i :
  let comparable := ptl_Currency p = "" \/ ptl_Currency p = in_Currency i in
  (res_Outcome (PerTransactionLimit_Evaluate p i) = Denied <->
     exists a m, parseMoney (ptl_MaxRaw p) = Some m /\ in_Amount i = Some a /\ comparable /\ (m < a)%Q) /\
  (res_Outcome (PerTransactionLimit_Evaluate p i) = Satisfied <->
     exists a m, parseMoney (ptl_MaxRaw p) = Some m /\ in_Amount i = Some a /\ comparable /\ (a <= m)%Q) /\
  (res_Outcome (PerTransactionLimit_Evaluate p i) = Flagged <->
     parseMoney (ptl_MaxRaw p) = None \/ in_Amount i = None \/ ~ comparable).
Proof.
  intros comparable. unfold PerTransactionLimit_Evaluate.
  assert (Hc : negb (String.eqb (ptl_Currency p) "") && negb (String.eqb (ptl_Currency p) (in_Currency i)) = true
               <-> ~ comparable) by (unfold comparable; breflect; tauto).
  destruct (parseMoney (ptl_MaxRaw p)) as [m|]; [|cbn; naive_solver].
  destruct (negb _ && negb _).
  { assert (~ comparable) by tauto. cbn. naive_solver. }
  assert (comparable) by (apply dec_stable; intros Hn; apply Hc in Hn; discriminate).
  destruct (in_Amount i) as [a|]; [|cbn; naive_solver].
  destruct (rat_gt a m) eqn:E; cbn.
  - apply rat_gt_spec in E. assert (~ (a <= m)%Q) by (by apply Qlt_not_le). naive_solver.
  - assert ((a <= m)%Q) by (apply Qnot_lt_le; rewrite <- rat_gt_spec; congruence).
    assert (~ (m < a)%Q) by (by apply Qle_not_lt). naive_solver.
Qed.

(** On a vendor target the allowlist and the blocklist are complementary:
    with the same vendor list exactly one of them is satisfied and the other
    denies, by membership of the vendor; on any other target both are
    satisfied. *)
Theorem vendor_lists_complementary `{Unicode} b1 b2 vendors i :
  let allow := res_Outcome (VendorAllowlist_Evaluate {| va_base := b1; va_Vendors := vendors |} i) in
  let block := res_Outcome (VendorBlocklist_Evaluate {| vb_base := b2; vb_Vendors := vendors |} i) in
  if decide (tgt_Type (in_Target i) = TargetVendor)
  then if decide (tgt_ID (in_Target i) ∈ vendors)
       then allow = Satisfied /\ block = Denied
       else allow = Denied /\ block = Satisfied
  else allow = Satisfied /\ block = Satisfied.
Proof.
  unfold VendorAllowlist_Evaluate, VendorBlocklist_Evaluate, contains; cbn.
  destruct (decide (tgt_Type (in_Target i) = TargetVendor)) as [->|Hn]; cbn.
  - pose proof (mem_str_spec (tgt_ID (in_Target i)) vendors) as Hm.
    case_decide; destruct (mem_str _ _); cbn; naive_solver.
  - apply String.eqb_neq in Hn. by rewrite Hn.
Qed.
