(* ===== verification/Base64.v ===== *)
(** [encoding/base64.RawURLEncoding] as the program uses it: base64url without
    padding.  Decoding skips carriage returns and newlines and does not insist
    on zero trailing bits, as Go's non-strict decoder does not. *)

From S2P Require Import Prelude GoStrings.

(** A value of 0..63 as a character of the URL-safe alphabet. *)
Definition b64_char (d : Z) : Ascii.ascii :=
  if d <? 26 then chr (65 + d)
  else if d <? 52 then chr (97 + (d - 26))
  else if d <? 62 then chr (48 + (d - 52))
  else if d =? 62 then "-"%char else "_"%char.

Definition b64_val (c : Ascii.ascii) : option Z :=
  let z := byte_val c in
  if in_range 65 90 z then Some (z - 65)
  else if in_range 97 122 z then Some (z - 97 + 26)
  else if in_range 48 57 z then Some (z - 48 + 52)
  else if z =? 45 then Some 62
  else if z =? 95 then Some 63 else None.

Fixpoint EncodeToString (s : string) : string :=
  match s with
  | String a (String b (String c r)) =>
    let n := byte_val a * 65536 + byte_val b * 256 + byte_val c in
    String (b64_char (n / 262144)) (String (b64_char (n / 4096 mod 64))
      (String (b64_char (n / 64 mod 64)) (String (b64_char (n mod 64)) (EncodeToString r))))
  | String a (String b EmptyString) =>
    let n := byte_val a * 65536 + byte_val b * 256 in
    String (b64_char (n / 262144)) (String (b64_char (n / 4096 mod 64))
      (String (b64_char (n / 64 mod 64)) EmptyString))
  | String a EmptyString =>
    let n := byte_val a * 65536 in
    String (b64_char (n / 262144)) (String (b64_char (n / 4096 mod 64)) EmptyString)
  | EmptyString => EmptyString
  end.

Fixpoint decode_quads (s : string) : option string :=
  match s with
  | String a (String b (String c (String d r))) =>
    w ← b64_val a; x ← b64_val b; y ← b64_val c; z ← b64_val d; t ← decode_quads r;
    let n := w * 262144 + x * 4096 + y * 64 + z in
    Some (String (chr (n / 65536)) (String (chr (n / 256 mod 256)) (String (chr (n mod 256)) t)))
  | String a (String b (String c EmptyString)) =>
    w ← b64_val a; x ← b64_val b; y ← b64_val c;
    let n := w * 262144 + x * 4096 + y * 64 in
    Some (String (chr (n / 65536)) (String (chr (n / 256 mod 256)) EmptyString))
  | String a (String b EmptyString) =>
    w ← b64_val a; x ← b64_val b;
    let n := w * 262144 + x * 4096 in
    Some (String (chr (n / 65536)) EmptyString)
  | String _ EmptyString => None
  | EmptyString => Some EmptyString
  end.

Definition is_newline (c : Ascii.ascii) : bool := (byte_val c =? 10) || (byte_val c =? 13).

Fixpoint drop_newlines (s : string) : string :=
  match s with
  | EmptyString => EmptyString
  | String c r => if is_newline c then drop_newlines r else String c (drop_newlines r)
  end.

Definition DecodeString (s : string) : option string := decode_quads (drop_newlines s).

(** * Round trip *)

Lemma b64_val_char d : 0 <= d < 64 -> b64_val (b64_char d) = Some d.
Proof.
  intros Hd. unfold b64_char, b64_val, in_range.
  destruct (d <? 26) eqn:E1; [|destruct (d <? 52) eqn:E2; [|destruct (d <? 62) eqn:E3]].
  1-3: rewrite byte_val_chr by lia; repeat (case_match; breflect; try lia); f_equal; lia.
  destruct (d =? 62) eqn:E4; breflect; [by rewrite E4|]. by assert (d = 63) as -> by lia.
Qed.

Lemma b64_char_not_newline d : 0 <= d < 64 -> is_newline (b64_char d) = false.
Proof.
  intros Hd. unfold b64_char, is_newline. repeat case_match; breflect; rewrite ?byte_val_chr by lia; try done; lia.
Qed.

(** Strings by blocks of three bytes, as the encoder reads them. *)
Lemma blocks_ind (P : string -> Prop) :
  P EmptyString -> (forall a, P (String a EmptyString)) -> (forall a b, P (String a (String b EmptyString))) ->
  (forall a b c r, P r -> P (String a (String b (String c r)))) ->
  forall s, P s.
Proof.
  intros H0 H1 H2 H3. fix F 1. intros [|a [|b [|c r]]]; [apply H0|apply H1|apply H2|apply H3, F].
Qed.

Ltac byte_ranges :=
  repeat match goal with
  | c : Ascii.ascii |- _ => lazymatch goal with H : 0 <= byte_val c < 256 |- _ => fail | _ => pose proof (byte_val_range c) end
  end.

Lemma drop_newlines_encode s : drop_newlines (EncodeToString s) = EncodeToString s.
Proof.
  induction s using blocks_ind; cbn [EncodeToString drop_newlines]; [done|..]; byte_ranges;
    rewrite !b64_char_not_newline by zlia; congruence.
Qed.

Lemma chr_eq z c : z = byte_val c -> chr z = c.
Proof. intros ->. apply chr_byte_val. Qed.

Lemma decode_quads_encode s : decode_quads (EncodeToString s) = Some s.
Proof.
  induction s as [|a|a b|a b c r IH] using blocks_ind; cbn [EncodeToString decode_quads]; [done|..];
    byte_ranges; rewrite !b64_val_char by zlia; cbn [mbind option_bind]; rewrite ?IH; cbn [mbind option_bind].
  - by rewrite (chr_eq _ a) by zlia.
  - by rewrite (chr_eq _ a), (chr_eq _ b) by zlia.
  - by rewrite (chr_eq _ a), (chr_eq _ b), (chr_eq _ c) by zlia.
Qed.

Lemma DecodeString_EncodeToString s : DecodeString (EncodeToString s) = Some s.
Proof. unfold DecodeString. by rewrite drop_newlines_encode, decode_quads_encode. Qed.

Lemma EncodeToString_inj s t : EncodeToString s = EncodeToString t -> s = t.
Proof.
  intros H. assert (Some s = Some t) as [= ->]; [|done].
  by rewrite <- !DecodeString_EncodeToString, H.
Qed.

Example b64_a : EncodeToString "any" = "YW55" /\ EncodeToString "an" = "YW4" /\ DecodeString "YQ" = Some "a".
Proof. repeat split; reflexivity. Qed.
