(* ===== verification/Signing.v ===== *)
(** Decision signing ([internal/signing]): the signed view of a decision and its
    canonical bytes ([canonical.go]), the Ed25519 signer and verifier
    ([signer.go]) and the keyring with its published key set ([keyring.go]).

    Ed25519 and SHA-256 are the classes [Ed25519] and [Sha256], with the
    documented facts the code relies on as separate classes; a private key is
    its bytes.  [jcs.Transform] is third-party: [canon] is what it makes of the
    text [encoding/json] gives a value. *)

From S2P Require Import Prelude GoStrings Base64 Contracts.

Class Ed25519 := {
  NewKeyFromSeed : string -> string;
  Public : string -> string;
  ed_Sign : string -> string -> string;
  ed_Verify : string -> string -> string -> bool
}.

(** RFC 8032: signatures of a key verify under its public key, 32 bytes long. *)
Class Ed25519Laws `{Ed25519} := {
  sign_verifies seed msg :
    ed_Verify (Public (NewKeyFromSeed seed)) msg (ed_Sign (NewKeyFromSeed seed) msg) = true;
  public_size seed : String.length (Public (NewKeyFromSeed seed)) = 32%nat
}.

Class Sha256 := { sha256 : string -> string }.

(** FIPS 180-4: a digest has 32 bytes. *)
Class Sha256Laws `{Sha256} := { sha256_size s : String.length (sha256 s) = 32%nat }.

Class Jcs := { canon : json -> option string }.

(** RFC 8785 output is JSON of the same value: it tells the values of a member
    apart. *)
Class JcsLaws `{Jcs} := {
  canon_member k s t l l' c :
    canon (JObj ((k, JStr s) :: l)) = Some c -> canon (JObj ((k, JStr t) :: l')) = Some c ->
    k ∉ l.*1 -> k ∉ l'.*1 -> to_valid s = s -> to_valid t = t -> s = t
}.

Definition PublicKeySize : nat := 32.
Definition SeedSize : nat := 32.

Definition Canonicalization : string := "ti-decision-canon/1".
Definition Algorithm : string := "Ed25519".

(** * JSON of the signed view *)

(** [encoding/json] replaces invalid UTF-8 in strings. *)
Definition jstr (s : string) : json := JStr (to_valid s).

Fixpoint jvalid (j : json) : json :=
  match j with
  | JStr s => jstr s
  | JArr l => JArr (map jvalid l)
  | JObj l => JObj (map (fun p => (to_valid p.1, jvalid p.2)) l)
  | _ => j
  end.

(** A Go map: its members sorted by key. *)
Definition jobj (m : jmap) : json :=
  jvalid (JObj (sort_by (fun a b => str_leb a.1 b.1) (map_to_list m))).

(** A member that [omitempty] drops when its value is a nil or empty map. *)
Definition omit_map (k : string) (m : jmap) : list (string * json) :=
  if decide (m = ∅) then [] else [(k, jobj m)].

Definition omit_str (k s : string) : list (string * json) :=
  if String.eqb s "" then [] else [(k, jstr s)].

Definition MatchedRule_json (m : MatchedRule) : json :=
  JObj ([ ("rule_id", jstr (mr_RuleID m)); ("type", jstr (mr_Type m));
          ("result", JStr (PredicateResult_str (mr_Result m))); ("detail", jstr (mr_Detail m)) ]
        ++ omit_map "evidence" (mr_Evidence m)).

Definition Explanation_json (e : Explanation) : json :=
  JObj [ ("summary", jstr (exp_Summary e)); ("matched_rules", JArr (MatchedRule_json <$> exp_MatchedRules e)) ].

Definition Obligation_json (o : Obligation) : json :=
  JObj ([ ("type", jstr (ob_Type o)) ] ++ omit_str "detail" (ob_Detail o) ++ omit_map "params" (ob_Params o)).

(** [signedView]: the allowlisted fields, none omitted when empty. *)
Definition signedView (d : Decision) : json :=
  JObj [ ("decision_id", jstr (dec_DecisionID d));
         ("verdict", jstr (dec_Verdict d));
         ("policy_version_hash", jstr (dec_PolicyVersionHash d));
         ("explanation", Explanation_json (dec_Explanation d));
         ("obligations", JArr (Obligation_json <$> dec_Obligations d));
         ("evaluated_at", jstr (dec_EvaluatedAt d));
         ("shadow", JBool (dec_Shadow d)) ].

(** The error a signing function returns, one constructor per return site. *)
Inductive sign_error :=
| ErrInvalidSignature
| UnsupportedAlgorithm (alg : string)
| UnsupportedCanonicalization (c : string)
| BadSignatureEncoding
| BadPublicKeySize (n : nat)
| Canonicalize
| BadSeedSize (n : nat)
| KeyIDPresent (id : string)
| NoActiveKey
| UnknownKeyID (id : string)
| NotEd25519 (kty crv : string)
| BadJWKEncoding
| BadJWKSize (n : nat).

Section signing.
Context `{Ed25519} `{Jcs}.

Definition CanonicalMessage (d : Decision) : result sign_error string :=
  match canon (signedView d) with
  | Some msg => Ok msg
  | None => Err Canonicalize
  end.

(** * Signing and verifying ([signer.go]) *)

Record Signer := { sgn_keyID : string; sgn_priv : string }.

Definition SignDetached (s : Signer) (canonicalization msg : string) : Signature :=
  {| sig_Algorithm := Algorithm; sig_KeyID := sgn_keyID s;
     sig_Value := EncodeToString (ed_Sign (sgn_priv s) msg);
     sig_Canonicalization := canonicalization |}.

(** [Sign] writes [d.Signature] in place: it returns the updated decision. *)
Definition Sign (s : Signer) (d : Decision) : result sign_error Decision :=
  msg ← CanonicalMessage d;
  Ok (set_Signature
        {| sig_Algorithm := Algorithm; sig_KeyID := sgn_keyID s;
           sig_Value := EncodeToString (ed_Sign (sgn_priv s) msg);
           sig_Canonicalization := Canonicalization |} d).

Definition VerifyDetached (pub msg : string) (sig : Signature) : result sign_error unit :=
  if negb (String.eqb (sig_Algorithm sig) Algorithm) then Err (UnsupportedAlgorithm (sig_Algorithm sig))
  else match DecodeString (sig_Value sig) with
  | None => Err BadSignatureEncoding
  | Some raw =>
    if negb (String.length pub =? PublicKeySize)%nat then Err (BadPublicKeySize (String.length pub))
    else if negb (ed_Verify pub msg raw) then Err ErrInvalidSignature
    else Ok tt
  end.

Definition Verify (d : Decision) (pub : string) : result sign_error unit :=
  let sg := dec_Signature d in
  if negb (String.eqb (sig_Algorithm sg) Algorithm) then Err (UnsupportedAlgorithm (sig_Algorithm sg))
  else if negb (String.eqb (sig_Canonicalization sg) Canonicalization) then
    Err (UnsupportedCanonicalization (sig_Canonicalization sg))
  else match DecodeString (sig_Value sg) with
  | None => Err BadSignatureEncoding
  | Some raw =>
    if negb (String.length pub =? PublicKeySize)%nat then Err (BadPublicKeySize (String.length pub))
    else
      msg ← CanonicalMessage d;
      if negb (ed_Verify pub msg raw) then Err ErrInvalidSignature else Ok tt
  end.

(** * The keyring ([keyring.go]) *)

Definition StatusActive : string := "active".
Definition StatusRetiring : string := "retiring".

Record keyEntry := { ke_id : string; ke_pub : string; ke_priv : option string; ke_status : string }.

Record Keyring := { kr_active : string; kr_keys : gmap string keyEntry }.

Definition NewKeyring : Keyring := {| kr_active := ""; kr_keys := ∅ |}.

Definition install_active (id priv : string) (k : Keyring) : Keyring :=
  {| kr_active := id;
     kr_keys := <[id := {| ke_id := id; ke_pub := Public priv; ke_priv := Some priv; ke_status := StatusActive |}]> (kr_keys k) |}.

Definition SetActive (id seed : string) (k : Keyring) : result sign_error Keyring :=
  if negb (String.length seed =? SeedSize)%nat then Err (BadSeedSize (String.length seed))
  else Ok (install_active id (NewKeyFromSeed seed) k).

Definition AddRetiring (id pub : string) (k : Keyring) : result sign_error Keyring :=
  if negb (String.length pub =? PublicKeySize)%nat then Err (BadPublicKeySize (String.length pub))
  else match kr_keys k !! id with
  | Some _ => Err (KeyIDPresent id)
  | None =>
    Ok {| kr_active := kr_active k;
          kr_keys := <[id := {| ke_id := id; ke_pub := pub; ke_priv := None; ke_status := StatusRetiring |}]> (kr_keys k) |}
  end.

(** The first 12 characters. *)
Definition deriveKeyID `{Sha256} (pub : string) : string :=
  "azn-sign-" +:+ String.substring 0 12 (EncodeToString (sha256 pub)).

(** [ed25519.GenerateKey] draws a seed from the random source. *)
Definition GenerateActive `{Sha256} (seed : string) (k : Keyring) : string * Keyring :=
  let priv := NewKeyFromSeed seed in
  let id := deriveKeyID (Public priv) in
  (id, install_active id priv k).

Definition Keyring_Signer (k : Keyring) : result sign_error Signer :=
  match kr_keys k !! kr_active k with
  | Some {| ke_id := id; ke_priv := Some priv |} => Ok {| sgn_keyID := id; sgn_priv := priv |}
  | _ => Err NoActiveKey
  end.

Definition PublicKey (k : Keyring) (id : string) : option string := ke_pub <$> kr_keys k !! id.

Definition VerifyDecision (k : Keyring) (d : Decision) : result sign_error unit :=
  match PublicKey k (sig_KeyID (dec_Signature d)) with
  | None => Err (UnknownKeyID (sig_KeyID (dec_Signature d)))
  | Some pub => Verify d pub
  end.

Definition Keyring_VerifyDetached (k : Keyring) (msg : string) (sig : Signature) : result sign_error unit :=
  match PublicKey k (sig_KeyID sig) with
  | None => Err (UnknownKeyID (sig_KeyID sig))
  | Some pub => VerifyDetached pub msg sig
  end.

Record JWK := { jwk_Kty : string; jwk_Crv : string; jwk_Kid : string; jwk_X : string; jwk_Use : string; jwk_Status : string }.

(** The comparison of [JWKS]: active keys first, then by id. *)
Definition key_le (a b : keyEntry * string) : bool :=
  let '(ea, ia) := a in let '(eb, ib) := b in
  let aa := String.eqb (ke_status ea) StatusActive in
  let ab := String.eqb (ke_status eb) StatusActive in
  if xorb aa ab then aa else str_leb ia ib.

Definition JWK_of (e : keyEntry) : JWK :=
  {| jwk_Kty := "OKP"; jwk_Crv := "Ed25519"; jwk_Kid := ke_id e; jwk_X := EncodeToString (ke_pub e);
     jwk_Use := "sig"; jwk_Status := ke_status e |}.

Definition JWKS (k : Keyring) : list JWK :=
  (fun p => JWK_of p.1) <$> sort_by key_le ((fun p => (p.2, p.1)) <$> map_to_list (kr_keys k)).

Definition PublicKeyFromJWK (j : JWK) : result sign_error string :=
  if negb (String.eqb (jwk_Kty j) "OKP") || negb (String.eqb (jwk_Crv j) "Ed25519") then Err (NotEd25519 (jwk_Kty j) (jwk_Crv j))
  else match DecodeString (jwk_X j) with
  | None => Err BadJWKEncoding
  | Some raw =>
    if negb (String.length raw =? PublicKeySize)%nat then Err (BadJWKSize (String.length raw)) else Ok raw
  end.

(** * The keyring's invariant *)

Definition entry_wf (id : string) (e : keyEntry) : Prop :=
  ke_id e = id /\ String.length (ke_pub e) = PublicKeySize /\
  (forall priv, ke_priv e = Some priv -> exists seed, priv = NewKeyFromSeed seed /\ ke_pub e = Public priv).

Definition Keyring_wf (k : Keyring) : Prop := map_Forall entry_wf (kr_keys k).

(** One rotation, labelled with the key id it installs. *)
Inductive kr_step `{Sha256} : string -> Keyring -> Keyring -> Prop :=
| kr_SetActive id seed k k' : SetActive id seed k = Ok k' -> kr_step id k k'
| kr_AddRetiring id pub k k' : AddRetiring id pub k = Ok k' -> kr_step id k k'
| kr_GenerateActive seed k id k' : GenerateActive seed k = (id, k') -> kr_step id k k'.

Definition rotates `{Sha256} (k k' : Keyring) : Prop := exists id, kr_step id k k'.
Definition rotates_keeping `{Sha256} (kid : string) (k k' : Keyring) : Prop := exists id, id <> kid /\ kr_step id k k'.

Context `{!Ed25519Laws}.

Lemma install_active_wf id seed k : Keyring_wf k -> Keyring_wf (install_active id (NewKeyFromSeed seed) k).
Proof using Type*.
  intros Hk. apply map_Forall_insert_2; [|done]. unfold entry_wf; cbn.
  split_and!; [done | apply public_size |]. intros priv [= <-]. by exists seed.
Qed.

Lemma kr_step_wf `{Sha256} id k k' : Keyring_wf k -> kr_step id k k' -> Keyring_wf k'.
Proof using Type*.
  intros Hk Hs. destruct Hs as [id seed k k' Hs|id pub k k' Hs|seed k id k' Hs].
  - unfold SetActive in Hs. cases. by apply install_active_wf.
  - unfold AddRetiring in Hs. destruct (negb _) eqn:E; [done|]. destruct (kr_keys k !! id); [done|].
    injection Hs as <-. apply map_Forall_insert_2; [|done]. breflect. apply Nat.eqb_eq in E.
    by split_and!.
  - injection Hs as <- <-. by apply install_active_wf.
Qed.

Lemma kr_step_other `{Sha256} id kid k k' : kr_step id k k' -> id <> kid -> kr_keys k' !! kid = kr_keys k !! kid.
Proof using Type.
  intros Hs Hne. destruct Hs as [id seed k k' Hs|id pub k k' Hs|seed k id k' Hs].
  - unfold SetActive in Hs. cases. by apply lookup_insert_ne.
  - unfold AddRetiring in Hs. cases. by apply lookup_insert_ne.
  - injection Hs as <- <-. by apply lookup_insert_ne.
Qed.

Lemma reachable_keyring_wf `{Sha256} k : reachable (eq NewKeyring) rotates k -> Keyring_wf k.
Proof using Type*.
  apply reachable_invariant; [intros ? <-; apply map_Forall_empty|].
  intros a b Ha [id Hs]. by eapply kr_step_wf.
Qed.

Lemma Signer_spec k s :
  Keyring_wf k -> Keyring_Signer k = Ok s ->
  exists seed, sgn_priv s = NewKeyFromSeed seed /\
               PublicKey k (sgn_keyID s) = Some (Public (NewKeyFromSeed seed)).
Proof using Type.
  intros Hk. unfold Keyring_Signer, PublicKey. destruct (kr_keys k !! kr_active k) as [e|] eqn:E; [|done].
  destruct (Hk _ _ E) as (Hid & _ & Hp). destruct e as [id pub [priv|] st]; [|done]. cbn in *.
  intros [= <-]. cbn. subst id. destruct (Hp _ eq_refl) as (seed & -> & Hpub). exists seed. split; [done|].
  rewrite E. cbn. by rewrite Hpub.
Qed.

Lemma Verify_signed s d d' pub :
  Sign s d = Ok d' -> String.length pub = PublicKeySize ->
  (forall msg, ed_Verify pub msg (ed_Sign (sgn_priv s) msg) = true) ->
  forall d2, signedView d2 = signedView d -> dec_Signature d2 = dec_Signature d' -> Verify d2 pub = Ok tt.
Proof using Type.
  intros Hs Hl Hv d2 Hview Hsig. unfold Sign in Hs. apply result_bind_ok in Hs as (msg & Hm & [= <-]).
  unfold Verify. rewrite Hsig. cbn -[String.eqb EncodeToString DecodeString]. rewrite !String.eqb_refl.
  rewrite DecodeString_EncodeToString, Hl. cbn -[ed_Verify].
  unfold CanonicalMessage in *. rewrite Hview. destruct (canon (signedView d)) as [m|]; [|done].
  injection Hm as ->. cbn. by rewrite Hv.
Qed.
End signing.

(** * Properties *)

(** A receipt keeps verifying.  The decision a keyring's signer signs
    verifies under that keyring after any later rotations that do not reuse its
    key id, also when fields outside the signed view (latency, record hash)
    have changed since; and signing fails only when canonicalization does. *)
Theorem receipts_survive_rotation `{Ed25519Laws} `{Jcs} `{Sha256} k s d d' k'
  (Hk : reachable (eq NewKeyring) rotates k)
  (Hs : Keyring_Signer k = Ok s)
  (Hd : Sign s d = Ok d')
  (Hrot : rtc (rotates_keeping (sgn_keyID s)) k k') :
  forall d2, signedView d2 = signedView d' -> dec_Signature d2 = dec_Signature d' -> VerifyDecision k' d2 = Ok tt.
Proof.
  apply reachable_keyring_wf in Hk. destruct (Signer_spec _ _ Hk Hs) as (seed & Hpriv & Hpub).
  assert (Hpub' : PublicKey k' (sgn_keyID s) = Some (Public (NewKeyFromSeed seed))).
  { rewrite <- Hpub. clear -Hrot. induction Hrot as [|a b c [id [Hne Hstep]] _ IH]; [done|].
    rewrite IH. unfold PublicKey. by rewrite (kr_step_other _ _ _ _ Hstep Hne). }
  intros d2 Hv Hsig. pose proof Hd as Hd0. unfold Sign in Hd0. apply result_bind_ok in Hd0 as (msg & Hm & [= Hd']).
  unfold VerifyDecision. rewrite Hsig, <- Hd' at 1. cbn. rewrite Hpub'.
  apply (Verify_signed s d d'); [done | apply public_size | | by rewrite Hv, <- Hd' | done].
  intros m. rewrite Hpriv. apply sign_verifies.
Qed.

(** ** The published key set *)

Lemma key_le_total x y : key_le x y = true \/ key_le y x = true.
Proof.
  destruct x as [ex ix], y as [ey iy]. unfold key_le. rewrite (xorb_comm (String.eqb (ke_status ey) StatusActive)).
  destruct (String.eqb (ke_status ex) StatusActive), (String.eqb (ke_status ey) StatusActive); cbn; auto using str_leb_total.
Qed.

Lemma key_le_trans x y z : key_le x y = true -> key_le y z = true -> key_le x z = true.
Proof.
  destruct x as [ex ix], y as [ey iy], z as [ez iz]. unfold key_le.
  destruct (String.eqb (ke_status ex) StatusActive), (String.eqb (ke_status ey) StatusActive),
    (String.eqb (ke_status ez) StatusActive); cbn; try done; apply str_leb_trans.
Qed.

Lemma JWKS_elem k j : j ∈ JWKS k <-> exists id e, kr_keys k !! id = Some e /\ j = JWK_of e.
Proof.
  unfold JWKS. rewrite list_elem_of_fmap. split.
  - intros (p & -> & Hp). rewrite sort_by_elem, list_elem_of_fmap in Hp.
    destruct Hp as ([id e] & -> & Hin%elem_of_map_to_list). by exists id, e.
  - intros (id & e & Hin & ->). exists (e, id). split; [done|].
    rewrite sort_by_elem, list_elem_of_fmap. exists (id, e). split; [done|]. by apply elem_of_map_to_list.
Qed.

Lemma JWKS_kids `{Ed25519} k : Keyring_wf k -> jwk_Kid <$> JWKS k ≡ₚ (map_to_list (kr_keys k)).*1.
Proof.
  intros Hk. unfold JWKS. rewrite sort_by_perm, <- !list_fmap_compose.
  assert (Forall (fun p => ke_id p.2 = p.1) (map_to_list (kr_keys k))) as HF.
  { apply list.Forall_forall. intros [id e] Hin%elem_of_map_to_list. by destruct (Hk _ _ Hin). }
  induction HF as [|p l Hp _ IH]; cbn; [done|]. rewrite Hp. by constructor.
Qed.

Lemma PublicKeyFromJWK_of e :
  String.length (ke_pub e) = PublicKeySize -> PublicKeyFromJWK (JWK_of e) = Ok (ke_pub e).
Proof.
  intros Hl. unfold PublicKeyFromJWK, JWK_of. cbn -[DecodeString EncodeToString].
  by rewrite DecodeString_EncodeToString, Hl.
Qed.

Lemma StronglySorted_fmap_impl {A B} (f : A -> B) (R : A -> A -> Prop) (S : B -> B -> Prop) l :
  (forall x y, R x y -> S (f x) (f y)) -> StronglySorted R l -> StronglySorted S (f <$> l).
Proof.
  intros HRS. induction 1 as [|x l _ IH Hx]; cbn; constructor; [done|].
  rewrite Forall_fmap. by eapply list.Forall_impl; [|intros y Hy; apply HRS].
Qed.

(** The published key set is complete and usable: for a reachable keyring,
    a key id resolves to a public key exactly when the set lists a JWK under
    that id that parses back to it, every id is listed once, and active keys
    come before the others. *)
Theorem JWKS_publishes_keyring `{Ed25519Laws} `{Sha256} k
  (Hk : reachable (eq NewKeyring) rotates k) :
  (forall id pub, PublicKey k id = Some pub <-> exists j, j ∈ JWKS k /\ jwk_Kid j = id /\ PublicKeyFromJWK j = Ok pub) /\
  NoDup (jwk_Kid <$> JWKS k) /\
  StronglySorted (fun a b => jwk_Status b = StatusActive -> jwk_Status a = StatusActive) (JWKS k).
Proof.
  apply reachable_keyring_wf in Hk. split; [|split].
  - intros id pub. unfold PublicKey. rewrite fmap_Some. split.
    + intros (e & He & ->). destruct (Hk _ _ He) as (Hid & Hl & _). exists (JWK_of e).
      rewrite JWKS_elem. split_and!; [by exists id, e | done | by apply PublicKeyFromJWK_of].
    + intros (j & Hj & Hkid & Hp). apply JWKS_elem in Hj as (id' & e & He & ->).
      destruct (Hk _ _ He) as (Hid & Hl & _). rewrite PublicKeyFromJWK_of in Hp by done.
      injection Hp as <-. exists e. cbn in Hkid. by rewrite <- Hkid, Hid.
  - rewrite JWKS_kids by done. apply NoDup_fst_map_to_list.
  - unfold JWKS. eapply StronglySorted_fmap_impl; [|apply (sort_by_sorted key_le); [apply key_le_total | apply key_le_trans]].
    intros [ex ix] [ey iy]. unfold key_le, JWK_of. cbn [fst jwk_Status].
    destruct (String.eqb_spec (ke_status ex) StatusActive) as [->|]; [done|].
    destruct (String.eqb_spec (ke_status ey) StatusActive); cbn; done.
Qed.

(** ** A concrete scheme the hypotheses hold of *)

(** A toy scheme: a seed is its own key pair and a signature is the key and the
    message.  It satisfies the laws (not unforgeability, which nothing here
    assumes). *)
#[local] Instance toy_ed25519 : Ed25519 :=
  {| NewKeyFromSeed seed := seed;
     Public priv := String.substring 0 32 (priv +:+ "................................");
     ed_Sign priv msg := String.substring 0 32 (priv +:+ "................................") +:+ msg;
     ed_Verify pub msg sig := String.eqb sig (pub +:+ msg) |}.

Lemma substring_prefix_length n s t :
  (n <= String.length t)%nat -> String.length (String.substring 0 n (s +:+ t)) = n.
Proof.
  revert n. induction s as [|c s IH]; intros n Hn.
  - rewrite str_app_nil. revert n Hn. induction t as [|c t IH]; intros [|n] Hn; cbn in *; try done; [lia|]. rewrite IH; lia.
  - rewrite str_app_cons. destruct n; cbn; [done|]. rewrite IH; lia.
Qed.

#[local] Instance toy_laws : Ed25519Laws.
Proof. split; intros; cbn -[String.substring]; [apply String.eqb_refl | by apply substring_prefix_length]. Defined.

#[local] Instance toy_sha : Sha256 := {| sha256 s := s |}.
#[local] Instance toy_jcs : Jcs :=
  {| canon j := match j with JObj ((_, JStr id) :: _) => Some id | _ => None end |}.

Definition seed_a : string := "0123456789abcdef0123456789abcdef".
Definition ring_a : Keyring := install_active "k1" seed_a NewKeyring.
Definition ring_b : Keyring := install_active "k2" "ABCDEFGHABCDEFGHABCDEFGHABCDEFGH" ring_a.

Lemma ring_a_reachable : reachable (eq NewKeyring) rotates ring_a.
Proof.
  eapply reach_step; [by apply reach_init|]. exists "k1". by apply (kr_SetActive "k1" seed_a).
Qed.

Definition sample_decision : Decision :=
  {| dec_DecisionID := "01J"; dec_Verdict := VerdictApprove; dec_PolicyVersionHash := "h";
     dec_Explanation := {| exp_Summary := ""; exp_MatchedRules := [] |}; dec_Obligations := [];
     dec_LatencyMs := 0; dec_EvaluatedAt := "2026-01-02T03:04:05Z"; dec_Signature := empty_signature;
     dec_Shadow := false; dec_RecordHash := ""; dec_SignatureVerified := None |}.

Definition sample_signed : Decision :=
  match Sign {| sgn_keyID := "k1"; sgn_priv := seed_a |} sample_decision with Ok d => d | Err _ => sample_decision end.

(** Rotated to a second key and stamped with a latency, the receipt verifies. *)
Lemma receipts_survive_rotation_witness : VerifyDecision ring_b (set_LatencyMs 7 sample_signed) = Ok tt.
Proof.
  apply (receipts_survive_rotation ring_a {| sgn_keyID := "k1"; sgn_priv := seed_a |} sample_decision sample_signed ring_b);
    [exact ring_a_reachable | reflexivity | reflexivity | | reflexivity | reflexivity].
  apply rtc_once. exists "k2". split; [discriminate|]. by apply (kr_SetActive "k2" "ABCDEFGHABCDEFGHABCDEFGHABCDEFGH").
Defined.

Lemma JWKS_publishes_keyring_witness : NoDup (jwk_Kid <$> JWKS ring_a) /\ length (JWKS ring_a) = 1%nat.
Proof. split; [apply (JWKS_publishes_keyring ring_a ring_a_reachable) | reflexivity]. Defined.

(** Installing a new active key does not demote the old one: both are published
    as active, although the ring is documented as one active signer plus
    retiring keys. *)
Example rotation_leaves_two_active : jwk_Status <$> JWKS ring_b = [StatusActive; StatusActive].
Proof. reflexivity. Qed.
