(* ===== verification/AuthzVerify.v ===== *)
(** The command that checks a decision's signature ([cmd/authz-verify]): where
    it takes the key from, and what it answers.  Files, the standard input and
    the HTTP response are what the reads return; decoding their JSON is a
    parameter. *)

From S2P Require Import Prelude GoStrings Contracts Base64 Signing.

(** [json.Unmarshal] on a whole text, and [json.NewDecoder(...).Decode], which
    stops after the first value. *)
Class VerifyDecoder := {
  parse_decision : string -> option Decision;
  parse_jwks : string -> option (list JWK);
  decode_jwks : string -> option (list JWK)
}.

Inductive verify_error :=
| ReadDecision (msg : string)
| ParseDecision
| DecodePubkey
| PubkeySize (n : nat)
| ReadJwks (msg : string)
| FetchJwks (msg : string)
| JwksStatus (code : Z)
| ParseJwks
| NoKeySource
| NoSuchKey (id : string)
| KeyError (e : sign_error).

(** What the process finds outside. *)
Record outside := {
  stdin : result string string;
  file_at : string -> result string string;
  http_get : string -> result string (Z * string)
}.

Section verify.
Context `{Ed25519} `{Jcs} `{VerifyDecoder} (out : outside).

Definition loadDecision (path : string) : result verify_error Decision :=
  match (if String.eqb path "-" then stdin out else file_at out path) with
  | Err msg => Err (ReadDecision msg)
  | Ok raw => match parse_decision raw with Some d => Ok d | None => Err ParseDecision end
  end.

Definition key_set (jwksPath jwksURL : string) : result verify_error (list JWK) :=
  if negb (String.eqb jwksPath "") then
    match file_at out jwksPath with
    | Err msg => Err (ReadJwks msg)
    | Ok b => match parse_jwks b with Some set => Ok set | None => Err ParseJwks end
    end
  else if negb (String.eqb jwksURL "") then
    match http_get out jwksURL with
    | Err msg => Err (FetchJwks msg)
    | Ok (code, b) =>
      if negb (code =? 200) then Err (JwksStatus code) else match decode_jwks b with Some set => Ok set | None => Err ParseJwks end
    end
  else Err NoKeySource.

Definition as_verify {A} (r : result sign_error A) : result verify_error A := match r with Ok a => Ok a | Err e => Err (KeyError e) end.

Definition resolveKey (keyID jwksPath jwksURL pubKeyB64 : string) : result verify_error string :=
  if negb (String.eqb pubKeyB64 "") then
    match DecodeString pubKeyB64 with
    | None => Err DecodePubkey
    | Some raw => if negb (String.length raw =? PublicKeySize)%nat then Err (PubkeySize (String.length raw)) else Ok raw
    end
  else
    set ← key_set jwksPath jwksURL;
    match find_first (fun j => String.eqb (jwk_Kid j) keyID) set with
    | Some j => as_verify (PublicKeyFromJWK j)
    | None => Err (NoSuchKey keyID)
    end.

Definition run (decisionPath jwksPath jwksURL pubKeyB64 : string) : result verify_error unit :=
  dec ← loadDecision decisionPath;
  pub ← resolveKey (sig_KeyID (dec_Signature dec)) jwksPath jwksURL pubKeyB64;
  as_verify (Verify dec pub).

(** [main]: the exit code. *)
Definition verify_main (decisionPath jwksPath jwksURL pubKeyB64 : string) : Z :=
  match run decisionPath jwksPath jwksURL pubKeyB64 with Ok _ => 0 | Err _ => 1 end.

(** A key set with one entry per id is searched by id. *)
Lemma published_key `{!Ed25519Laws} `{Sha256} k id :
  reachable (eq NewKeyring) rotates k ->
  match find_first (fun j => String.eqb (jwk_Kid j) id) (JWKS k) with
  | Some j => exists pub, PublicKeyFromJWK j = Ok pub /\ PublicKey k id = Some pub
  | None => PublicKey k id = None
  end.
Proof using Type*.
  intros Hk%reachable_keyring_wf. destruct (find_first _ (JWKS k)) as [j|] eqn:Ef.
  - apply find_first_some in Ef as (l1 & l2 & El & Hid & _). apply String.eqb_eq in Hid.
    assert (Hj : j ∈ JWKS k) by (rewrite El; set_solver). apply JWKS_elem in Hj as (id' & e & He & ->).
    destruct (Hk _ _ He) as (Hie & Hl & _). exists (ke_pub e). split; [by apply PublicKeyFromJWK_of|].
    unfold PublicKey. cbn in Hid. rewrite <- Hid, Hie. by rewrite He.
  - destruct (PublicKey k id) as [pub|] eqn:Ep; [|done]. unfold PublicKey in Ep. destruct (kr_keys k !! id) as [e|] eqn:He; [|done].
    apply find_first_none in Ef. rewrite list.Forall_forall in Ef.
    assert (Hj : JWK_of e ∈ JWKS k) by (apply JWKS_elem; eauto). specialize (Ef _ Hj). cbn in Ef. destruct (Hk _ _ He) as (Hie & _).
    by rewrite Hie, String.eqb_refl in Ef.
Qed.
End verify.

(** With a published set. *)
Lemma verify_published `{Ed25519Laws} `{Jcs} `{Sha256} `{VerifyDecoder} out k d path jwksPath jwksURL :
  reachable (eq NewKeyring) rotates k -> loadDecision out path = Ok d -> key_set out jwksPath jwksURL = Ok (JWKS k) ->
  verify_main out path jwksPath jwksURL "" = 0 <-> VerifyDecision k d = Ok tt.
Proof.
  intros Hk Hd Hset. unfold verify_main, run, resolveKey. rewrite Hd. cbn [mbind result_bind negb String.eqb].
  rewrite Hset. cbn [mbind result_bind]. unfold VerifyDecision. pose proof (published_key k (sig_KeyID (dec_Signature d)) Hk) as Hp.
  destruct (find_first _ (JWKS k)) as [j|].
  - destruct Hp as (p & -> & ->). cbn. by destruct (Verify d p) as [[]|e].
  - rewrite Hp. done.
Qed.

(** With a raw key. *)
Lemma verify_raw `{Ed25519} `{Jcs} `{VerifyDecoder} out d path jwksPath jwksURL pub :
  loadDecision out path = Ok d -> String.length pub = PublicKeySize ->
  verify_main out path jwksPath jwksURL (EncodeToString pub) = 0 <-> Verify d pub = Ok tt.
Proof.
  intros Hd Hpub. unfold verify_main, run, resolveKey. rewrite Hd. cbn [mbind result_bind].
  assert (String.eqb (EncodeToString pub) "" = false) as ->.
  { apply String.eqb_neq. intros E. apply (f_equal DecodeString) in E. rewrite DecodeString_EncodeToString in E. injection E as E. by rewrite E in Hpub. }
  rewrite DecodeString_EncodeToString, Hpub. cbn. by destruct (Verify d pub) as [[]|e].
Qed.

(** C39: The command agrees with the service.  On a decision it can read, with a
    key set published by a keyring, from a file or a URL, [authz-verify] exits
    with 0 exactly when the keyring itself verifies the decision.  With an
    explicit public key it exits with 0 exactly when the decision verifies under
    that key, whatever key id it names: so as the keyring does if the keyring has
    this key under that id, while a decision whose id the keyring does not know
    can pass here and is refused there. *)
Theorem verify_command_agrees `{Ed25519Laws} `{Jcs} `{Sha256} `{VerifyDecoder} out k d path jwksPath jwksURL pub
  (Hk : reachable (eq NewKeyring) rotates k) (Hd : loadDecision out path = Ok d) (Hset : key_set out jwksPath jwksURL = Ok (JWKS k))
  (Hpub : String.length pub = PublicKeySize) :
  (verify_main out path jwksPath jwksURL "" = 0 <-> VerifyDecision k d = Ok tt) /\
  (verify_main out path jwksPath jwksURL (EncodeToString pub) = 0 <-> Verify d pub = Ok tt) /\
  (PublicKey k (sig_KeyID (dec_Signature d)) = Some pub -> (verify_main out path jwksPath jwksURL (EncodeToString pub) = 0 <-> VerifyDecision k d = Ok tt)) /\
  (PublicKey k (sig_KeyID (dec_Signature d)) = None -> VerifyDecision k d = Err (UnknownKeyID (sig_KeyID (dec_Signature d)))).
Proof.
  split; [by apply verify_published|]. split; [by apply verify_raw|]. rewrite verify_raw by done. unfold VerifyDecision.
  by split; intros ->.
Qed.
