(* ===== verification/Runtime.v ===== *)
(** The process's sources of nondeterminism behind [time.Now] and
    [crypto/rand], as an interface over the world [W]. *)

From S2P Require Import Prelude GoTime Ulid.

Class Runtime (W : Type) := {
  now : io W time;
  rand_Read : nat -> io W (list Z)
}.

(** [ulid.New]: a clock reading and ten random bytes. *)
Definition ulid_New `{Runtime W} : io W string :=
  t ← now;
  entropy ← rand_Read 10;
  mret (New (t / 1000000) entropy).

(** [time.Since(start).Milliseconds()]. *)
Definition millis_since `{Runtime W} (start : time) : io W Z :=
  t ← now;
  mret (Z.quot (Sub t start) 1000000).

(** A part of the world, seen through [view], that clock and randomness leave
    alone. *)
Class Frame {W V : Type} (view : W -> V) `{Runtime W} := {
  now_frame w : view (now w).2 = view w;
  rand_frame n w : view (rand_Read n w).2 = view w
}.

Lemma bind_let {W A B} (m : io W A) (k : A -> io W B) w : (m ≫= k) w = k (m w).1 (m w).2.
Proof. unfold mbind, io_bind. by destruct (m w). Qed.

Lemma now_frame_eq `{Frame W V view} w t w1 : now w = (t, w1) -> view w1 = view w.
Proof. intros E. change w1 with (t, w1).2. rewrite <- E. apply now_frame. Qed.

Lemma now_frame_eq2 `{Frame W V view} w t w1 t' w2 : now w = (t, w1) -> now w1 = (t', w2) -> view w2 = view w.
Proof. intros E E'. by rewrite (now_frame_eq (view:=view) _ _ _ E'), (now_frame_eq (view:=view) _ _ _ E). Qed.

Lemma ulid_New_frame `{Frame W V view} w : view (ulid_New w).2 = view w.
Proof. unfold ulid_New. rewrite !bind_let. cbn. by rewrite rand_frame, now_frame. Qed.

Lemma millis_since_frame `{Frame W V view} t w : view (millis_since t w).2 = view w.
Proof. unfold millis_since. rewrite bind_let. cbn. by rewrite now_frame. Qed.
