(* ===== verification/Engine.v ===== *)
(** The decision engine ([internal/engine/engine.go], and the stub authorizer of
    [authorize.go]): policy resolution, evaluation of the local predicates, the
    two-phase budget step, the verdict, its explanation, the budget-hold
    obligation and the signature.

    The engine's collaborators are interfaces over the world [W]: the bundle
    provider, the budget reserver, the clock and the random source. *)

From S2P Require Import Prelude GoStrings GoTime Money Contracts Verdict Predicates Ulid Runtime Base64 Signing.

Record BudgetDecl := {
  bd_ID : string;
  bd_Agents : list string;
  bd_Window : string;
  bd_Limit : string;
  bd_Currency : string
}.

Record Policy := {
  pol_Version : string;
  pol_Predicates : list Predicate;
  pol_Budgets : list BudgetDecl
}.

Definition appliesTo (b : BudgetDecl) (agentID : string) : bool :=
  match bd_Agents b with
  | [] => true
  | _ => contains (bd_Agents b) agentID
  end.

(** The first budget governing the agent. *)
Definition applicableBudget (p : Policy) (agentID : string) : option BudgetDecl :=
  find_first (fun b => appliesTo b agentID) (pol_Budgets p).

Inductive BudgetOutcome := BudgetWithinLimit | BudgetExceeded | BudgetUnavailable.

#[export] Instance BudgetOutcome_eq_dec : EqDecision BudgetOutcome.
Proof. solve_decision. Defined.

Record BudgetResult := {
  br_Outcome : BudgetOutcome;
  br_SpendToDate : string;
  br_Limit : string;
  br_WindowKey : string
}.

(** What [Authorize] can fail with. *)
Inductive engine_error := ErrNoActiveBundle | ErrProvider (msg : string) | ErrSign (e : sign_error).

Record BundleProvider (W : Type) := { Active : string -> io W (result engine_error Policy) }.
Arguments Active {W} _ _.

Record BudgetReserver (W : Type) := {
  Reserve : string -> string -> AuthorizeRequest -> BudgetDecl -> io W BudgetResult
}.
Arguments Reserve {W} _ _ _ _ _.

Record Engine (W : Type) := {
  e_Policy : Policy;
  e_SigningKeyID : string;
  e_Signer : option Signer;
  e_Provider : option (BundleProvider W);
  e_HoldTTL : duration;
  e_Reserver : option (BudgetReserver W)
}.
Arguments e_Policy {W} _.
Arguments e_SigningKeyID {W} _.
Arguments e_Signer {W} _.
Arguments e_Provider {W} _.
Arguments e_HoldTTL {W} _.
Arguments e_Reserver {W} _.

Definition DefaultHoldTTL : duration := 15 * Minute.
Definition signatureCanonicalization : string := "ti-decision-canon/1".
Definition stubSignatureValue : string := "c3R1Yi1kZWNpc2lvbi1zaWduYXR1cmUtbm90LXlldC1yZWFs".

Definition NewEngine {W} (policy : Policy) (signingKeyID : string) : Engine W :=
  {| e_Policy := policy; e_SigningKeyID := signingKeyID; e_Signer := None; e_Provider := None;
     e_HoldTTL := 0; e_Reserver := None |}.

Definition WithSigner {W} (s : option Signer) (e : Engine W) : Engine W :=
  {| e_Policy := e_Policy e; e_SigningKeyID := e_SigningKeyID e; e_Signer := s; e_Provider := e_Provider e;
     e_HoldTTL := e_HoldTTL e; e_Reserver := e_Reserver e |}.
Definition WithProvider {W} (p : option (BundleProvider W)) (e : Engine W) : Engine W :=
  {| e_Policy := e_Policy e; e_SigningKeyID := e_SigningKeyID e; e_Signer := e_Signer e; e_Provider := p;
     e_HoldTTL := e_HoldTTL e; e_Reserver := e_Reserver e |}.
Definition WithHoldTTL {W} (ttl : duration) (e : Engine W) : Engine W :=
  {| e_Policy := e_Policy e; e_SigningKeyID := e_SigningKeyID e; e_Signer := e_Signer e; e_Provider := e_Provider e;
     e_HoldTTL := ttl; e_Reserver := e_Reserver e |}.
Definition WithReserver {W} (r : option (BudgetReserver W)) (e : Engine W) : Engine W :=
  {| e_Policy := e_Policy e; e_SigningKeyID := e_SigningKeyID e; e_Signer := e_Signer e; e_Provider := e_Provider e;
     e_HoldTTL := e_HoldTTL e; e_Reserver := r |}.

Definition holdTTL {W} (e : Engine W) : duration := if 0 <? e_HoldTTL e then e_HoldTTL e else DefaultHoldTTL.

Definition budgetPredicateResult (b : BudgetDecl) (res : BudgetResult) : PredResult :=
  match br_Outcome res with
  | BudgetWithinLimit => {| pr_RuleID := bd_ID b; pr_Enriched := true; pr_Outcome := Satisfied; pr_FailMode := FailModeOther "" |}
  | BudgetExceeded => {| pr_RuleID := bd_ID b; pr_Enriched := true; pr_Outcome := Denied; pr_FailMode := FailModeOther "" |}
  | BudgetUnavailable => {| pr_RuleID := bd_ID b; pr_Enriched := true; pr_Outcome := Unavailable; pr_FailMode := FailClosedReview |}
  end.

(** [if v != "" { ev[k] = v }]. *)
Definition put_nonempty (k v : string) (ev : jmap) : jmap :=
  if String.eqb v "" then ev else <[k := JStr v]> ev.

Section engine.
Context `{BigRat} `{Unicode}.

Definition budgetMatchedRule (b : BudgetDecl) (req : AuthorizeRequest) (res : BudgetResult) : MatchedRule :=
  let ev : jmap := {[ "budget_id" := JStr (bd_ID b); "window" := JStr (bd_Window b);
                      "amount" := JStr (req_Amount req); "currency" := JStr (req_Currency req) ]} in
  let ev := put_nonempty "limit" (br_Limit res)
             (put_nonempty "spend_to_date" (br_SpendToDate res)
               (put_nonempty "window_key" (br_WindowKey res) ev)) in
  let detail (op : string) :=
    "spend_to_date=" +:+ br_SpendToDate res +:+ " + amount=" +:+ req_Amount req +:+ " " +:+ op +:+ " limit=" +:+
    br_Limit res +:+ " " +:+ req_Currency req +:+ " (window=" +:+ br_WindowKey res +:+ ")" in
  let '(result, detail) :=
    match br_Outcome res with
    | BudgetWithinLimit => (ResultSatisfied, detail "<=")
    | BudgetExceeded => (ResultDenied, detail ">")
    | BudgetUnavailable =>
      (ResultUnavailable, "budget " +:+ Quote (bd_ID b) +:+ " counter unavailable; fail-closed to REVIEW")
    end in
  {| mr_RuleID := bd_ID b; mr_Type := TypeRollingBudget; mr_Result := result; mr_Detail := detail; mr_Evidence := ev |}.

Definition buildInput (req : AuthorizeRequest) (evaluatedAt : string) : Input :=
  {| in_AgentID := req_AgentID req; in_Action := req_Action req; in_AmountRaw := req_Amount req;
     in_Amount := parseMoney (req_Amount req); in_Currency := req_Currency req; in_Target := req_Target req;
     in_Jurisdiction := req_Jurisdiction req;
     in_EvaluatedAt := match parse_rfc3339 evaluatedAt with Some t => t | None => zero_time end;
     in_Context := req_Context req |}.

Definition toContractResult (o : Outcome) : PredicateResult :=
  match o with
  | Satisfied => ResultSatisfied
  | Denied => ResultDenied
  | Flagged => ResultReview
  | Unavailable => ResultUnavailable
  | OutcomeOther _ => ResultReview
  end.

Definition toContractVerdict (v : Verdict) : string :=
  match v with Approve => VerdictApprove | Deny => VerdictDeny | Review => VerdictReview end.

(** The loop of [evalLocal], which appends to both slices at each step. *)
Fixpoint evalLocal_loop (ps : list Predicate) (i : Input) : list PredResult * list MatchedRule :=
  match ps with
  | [] => ([], [])
  | p :: ps =>
    let '(results, matched) := evalLocal_loop ps i in
    if AppliesTo p (in_AgentID i) then
      let r := Evaluate p i in
      ({| pr_RuleID := RuleID p; pr_Enriched := false; pr_Outcome := res_Outcome r; pr_FailMode := FailModeOther "" |} :: results,
       {| mr_RuleID := RuleID p; mr_Type := Type_ p; mr_Result := toContractResult (res_Outcome r);
          mr_Detail := res_Reason r; mr_Evidence := res_Evidence r |} :: matched)
    else (results, matched)
  end.

Definition evalLocal (pol : Policy) (i : Input) : list PredResult * list MatchedRule :=
  evalLocal_loop (pol_Predicates pol) i.

Definition firstWithResult (matched : list MatchedRule) (want : PredicateResult) : option MatchedRule :=
  find_first (fun m => bool_decide (mr_Result m = want)) matched.

Definition summarize (v : Verdict) (matched : list MatchedRule) : string :=
  match v with
  | Deny =>
    match matched with
    | [] => "No applicable policy rule granted authority; denied by default."
    | _ =>
      match firstWithResult matched ResultDenied with
      | Some r => "Denied by rule " +:+ Quote (mr_RuleID r) +:+ ": " +:+ mr_Detail r
      | None =>
        match firstWithResult matched ResultUnavailable with
        | Some r => "Denied: rule " +:+ Quote (mr_RuleID r) +:+ " could not complete and is fail-closed."
        | None => "Denied."
        end
      end
    end
  | Review =>
    match firstWithResult matched ResultReview with
    | Some r => "Flagged for review by rule " +:+ Quote (mr_RuleID r) +:+ ": " +:+ mr_Detail r
    | None =>
      match firstWithResult matched ResultUnavailable with
      | Some r => "Flagged for review: rule " +:+ Quote (mr_RuleID r) +:+ " could not complete."
      | None => "Flagged for review."
      end
    end
  | Approve => "Approved: all " +:+ FormatInt (Z.of_nat (length matched)) +:+ " applicable rule(s) satisfied."
  end.

Definition assembleExplanation (v : Verdict) (matched : list MatchedRule) : Explanation :=
  {| exp_Summary := summarize v matched; exp_MatchedRules := matched |}.

Definition assembleDecision (id : string) (v : Verdict) (version : string) (matched : list MatchedRule)
    (evaluatedAt : string) : Decision :=
  {| dec_DecisionID := id; dec_Verdict := toContractVerdict v; dec_PolicyVersionHash := version;
     dec_Explanation := assembleExplanation v matched; dec_Obligations := []; dec_LatencyMs := 0;
     dec_EvaluatedAt := evaluatedAt; dec_Signature := empty_signature; dec_Shadow := false;
     dec_RecordHash := ""; dec_SignatureVerified := None |}.

(** The obligation's fields, given the instant that stands in for an
    unparseable [evaluated_at]. *)
Definition capture_obligation (ttl : duration) (b : BudgetDecl) (req : AuthorizeRequest) (base : time)
    (decisionID : string) : Obligation :=
  {| ob_Type := ObligationCaptureWithin;
     ob_Detail := "Budget " +:+ Quote (bd_ID b) +:+ " hold placed for " +:+ req_Amount req +:+ " " +:+ req_Currency req +:+
       "; capture on payment success or void on failure within " +:+ duration_string ttl +:+ " (else it auto-expires).";
     ob_Params := {[ "budget_id" := JStr (bd_ID b); "window" := JStr (bd_Window b); "amount" := JStr (req_Amount req);
                     "currency" := JStr (req_Currency req); "ttl_seconds" := jint (whole_seconds ttl);
                     "expires_at" := JStr (format_rfc3339 (Add base ttl)); "hold_ref" := JStr decisionID ]} |}.

Section world.
Context {W : Type} `{Runtime W} `{Ed25519} `{Jcs}.

Definition captureWithinObligation (e : Engine W) (b : BudgetDecl) (req : AuthorizeRequest)
    (evaluatedAt decisionID : string) : io W Obligation :=
  t ← now;
  let base := match parse_rfc3339 evaluatedAt with Some u => u | None => t end in
  mret (capture_obligation (holdTTL e) b req base decisionID).

(** The pure core ([Evaluate]); its only effect is minting the id. *)
Definition engine_Evaluate (pol : Policy) (req : AuthorizeRequest) (evaluatedAt : string) : io W Decision :=
  let '(results, matched) := evalLocal pol (buildInput req evaluatedAt) in
  id ← ulid_New;
  mret (assembleDecision id (Combine results) (pol_Version pol) matched evaluatedAt).

(** The policy a request is evaluated against. *)
Definition resolve_policy (e : Engine W) (orgID : string) : io W (result engine_error Policy) :=
  match e_Provider e with
  | None => mret (Ok (e_Policy e))
  | Some p =>
    r ← Active p orgID;
    mret (match r with
          | Ok pol => Ok pol
          | Err ErrNoActiveBundle =>
            if nonempty (pol_Predicates (e_Policy e)) then Ok (e_Policy e) else Err ErrNoActiveBundle
          | Err er => Err er
          end)
  end.

(** The budget step: the results and matched rules, extended by the budget's,
    and the budget a hold was placed on, if any. *)
Definition budget_step (e : Engine W) (orgID : string) (req : AuthorizeRequest) (shadow : bool) (pol : Policy)
    (decID : string) (results : list PredResult) (matched : list MatchedRule)
    : io W (list PredResult * list MatchedRule * option BudgetDecl) :=
  if negb shadow && bool_decide (Combine results = Approve) then
    match applicableBudget pol (req_AgentID req) with
    | None => mret (results, matched, None)
    | Some b =>
      match e_Reserver e with
      | Some r =>
        res ← Reserve r orgID decID req b;
        mret (results ++ [budgetPredicateResult b res], matched ++ [budgetMatchedRule b req res],
              if bool_decide (br_Outcome res = BudgetWithinLimit) then Some b else None)
      | None => mret (results, matched, Some b)
      end
    end
  else mret (results, matched, None).

Definition placeholder_signature (keyID : string) : Signature :=
  {| sig_Algorithm := "Ed25519"; sig_KeyID := keyID; sig_Value := stubSignatureValue;
     sig_Canonicalization := signatureCanonicalization |}.

(** Signature and latency, common to the engine and the stub. *)
Definition seal (signer : option Signer) (keyID : string) (start : time) (dec : Decision) : io W (result engine_error Decision) :=
  let dec := set_Signature (placeholder_signature keyID) dec in
  match match signer with None => Ok dec | Some s => Sign s dec end with
  | Err er => mret (Err (ErrSign er))
  | Ok dec =>
    ms ← millis_since start;
    mret (Ok (set_LatencyMs ms dec))
  end.

Definition stamped_at (req : AuthorizeRequest) (start : time) : string :=
  if String.eqb (req_EvaluatedAt req) "" then format_rfc3339 start else req_EvaluatedAt req.

Definition Authorize (e : Engine W) (orgID : string) (req : AuthorizeRequest) (shadow : bool)
    : io W (result engine_error Decision) :=
  start ← now;
  resolved ← resolve_policy e orgID;
  match resolved with
  | Err er => mret (Err er)
  | Ok pol =>
    let evaluatedAt := stamped_at req start in
    decID ← ulid_New;
    let '(results, matched) := evalLocal pol (buildInput req evaluatedAt) in
    '(results, matched, held) ← budget_step e orgID req shadow pol decID results matched;
    let verdict := Combine results in
    let dec := set_Shadow shadow (assembleDecision decID verdict (pol_Version pol) matched evaluatedAt) in
    obs ← match held with
          | Some b => o ← captureWithinObligation e b req evaluatedAt decID; mret [o]
          | None => mret []
          end;
    seal (e_Signer e) (e_SigningKeyID e) start (set_Obligations (dec_Obligations dec ++ obs) dec)
  end.

Record Stub := { stub_PolicyVersionHash : string; stub_SigningKeyID : string; stub_Signer : option Signer }.

Definition Stub_Authorize (s : Stub) (req : AuthorizeRequest) (shadow : bool) : io W (result engine_error Decision) :=
  start ← now;
  id ← ulid_New;
  seal (stub_Signer s) (stub_SigningKeyID s) start
    {| dec_DecisionID := id; dec_Verdict := VerdictApprove; dec_PolicyVersionHash := stub_PolicyVersionHash s;
       dec_Explanation := {| exp_Summary := "Stub authorizer: APPROVE (no policy evaluated)."; exp_MatchedRules := [] |};
       dec_Obligations := []; dec_LatencyMs := 0; dec_EvaluatedAt := stamped_at req start;
       dec_Signature := empty_signature; dec_Shadow := shadow; dec_RecordHash := ""; dec_SignatureVerified := None |}.
End world.
End engine.

(** * Specification of a run *)

Definition applicable (pol : Policy) (i : Input) : list Predicate :=
  filter (fun p => AppliesTo p (in_AgentID i) = true) (pol_Predicates pol).

Definition local_result (i : Input) (p : Predicate) : PredResult :=
  {| pr_RuleID := RuleID p; pr_Enriched := false; pr_Outcome := res_Outcome (Evaluate p i); pr_FailMode := FailModeOther "" |}.

Definition local_rule (i : Input) (p : Predicate) : MatchedRule :=
  {| mr_RuleID := RuleID p; mr_Type := Type_ p; mr_Result := toContractResult (res_Outcome (Evaluate p i));
     mr_Detail := res_Reason (Evaluate p i); mr_Evidence := res_Evidence (Evaluate p i) |}.

Lemma evalLocal_spec pol i : evalLocal pol i = (local_result i <$> applicable pol i, local_rule i <$> applicable pol i).
Proof.
  unfold evalLocal, applicable. induction (pol_Predicates pol) as [|p ps IH]; [done|].
  rewrite filter_cons. cbn [evalLocal_loop]. rewrite IH. by destruct (AppliesTo p (in_AgentID i)).
Qed.

Section spec.
Context `{BigRat} `{Unicode} {W : Type} `{Runtime W} `{Ed25519} `{Jcs}.

(** What a run learnt about the budget: nothing, the budget it holds without a
    reserver, or the budget and the reserver's answer. *)
Definition consultation : Type := option (BudgetDecl * option BudgetResult).

Definition consult_results (c : consultation) : list PredResult :=
  match c with Some (b, Some res) => [budgetPredicateResult b res] | _ => [] end.
Definition consult_rules (req : AuthorizeRequest) (c : consultation) : list MatchedRule :=
  match c with Some (b, Some res) => [budgetMatchedRule b req res] | _ => [] end.
Definition consult_held (c : consultation) : option BudgetDecl :=
  match c with
  | Some (b, Some res) => if bool_decide (br_Outcome res = BudgetWithinLimit) then Some b else None
  | Some (b, None) => Some b
  | None => None
  end.

(** The consultation a run makes: exactly when it is enforcing, the local rules
    approve and a budget governs the agent. *)
Definition consults (e : Engine W) (orgID : string) (req : AuthorizeRequest) (shadow : bool) (pol : Policy)
    (decID : string) (rs : list PredResult) (c : consultation) (w w' : W) : Prop :=
  match c with
  | None => w' = w /\ (shadow = true \/ Combine rs <> Approve \/ applicableBudget pol (req_AgentID req) = None)
  | Some (b, r) =>
    shadow = false /\ Combine rs = Approve /\ applicableBudget pol (req_AgentID req) = Some b /\
    match r with
    | None => w' = w /\ e_Reserver e = None
    | Some res => exists R, e_Reserver e = Some R /\ Reserve R orgID decID req b w = (res, w')
    end
  end.

Lemma budget_step_spec e orgID req shadow pol decID rs ms w :
  exists c, (budget_step e orgID req shadow pol decID rs ms w).1 =
              (rs ++ consult_results c, ms ++ consult_rules req c, consult_held c) /\
            consults e orgID req shadow pol decID rs c w (budget_step e orgID req shadow pol decID rs ms w).2.
Proof.
  unfold budget_step. destruct (negb shadow && bool_decide (Combine rs = Approve)) eqn:E.
  - breflect. destruct E as [-> E]. destruct (applicableBudget pol (req_AgentID req)) as [b|] eqn:Eb.
    + destruct (e_Reserver e) as [R|] eqn:ER.
      * rewrite bind_let. destruct (Reserve R orgID decID req b w) as [res w'] eqn:Er.
        exists (Some (b, Some res)). cbn. split; [done|]. split_and!; try done. by exists R.
      * exists (Some (b, None)). cbn. rewrite !app_nil_r. by split_and!.
    + exists None. cbn. rewrite !app_nil_r. split; [done|]. split; [done|]. auto.
  - exists None. cbn. rewrite !app_nil_r. split; [done|]. split; [done|].
    destruct shadow; [by left|]. right; left. breflect. destruct E; [done|]. done.
Qed.

Lemma seal_ok signer keyID start dec w d w' :
  seal signer keyID start dec w = (Ok d, w') ->
  dec_DecisionID d = dec_DecisionID dec /\ dec_Verdict d = dec_Verdict dec /\
  dec_PolicyVersionHash d = dec_PolicyVersionHash dec /\ dec_Explanation d = dec_Explanation dec /\
  dec_Obligations d = dec_Obligations dec /\ dec_EvaluatedAt d = dec_EvaluatedAt dec /\ dec_Shadow d = dec_Shadow dec /\
  w' = (millis_since start w).2.
Proof.
  unfold seal. destruct signer as [s|].
  - destruct (Sign s (set_Signature (placeholder_signature keyID) dec)) as [dec'|er] eqn:Es; [|done].
    unfold Sign in Es. apply result_bind_ok in Es as (msg & _ & [= <-]).
    rewrite bind_let. by intros [= <- <-].
  - rewrite bind_let. by intros [= <- <-].
Qed.

(** One successful run: the policy it resolved, the id it minted, and what the
    budget said determine every field the decision is judged by. *)
Definition run_spec (e : Engine W) (orgID : string) (req : AuthorizeRequest) (shadow : bool) (d : Decision)
    (pol : Policy) (at_ : string) (c : consultation) : Prop :=
  let i := buildInput req at_ in
  let rs := local_result i <$> applicable pol i in
  let v := Combine (rs ++ consult_results c) in
  (exists w w', consults e orgID req shadow pol (dec_DecisionID d) rs c w w') /\
  dec_Verdict d = toContractVerdict v /\
  dec_PolicyVersionHash d = pol_Version pol /\
  dec_Explanation d = assembleExplanation v ((local_rule i <$> applicable pol i) ++ consult_rules req c) /\
  dec_EvaluatedAt d = at_ /\ (req_EvaluatedAt req <> "" -> at_ = req_EvaluatedAt req) /\
  dec_Shadow d = shadow /\
  (exists base, (forall t, parse_rfc3339 at_ = Some t -> base = t) /\
    dec_Obligations d =
      match consult_held c with Some b => [capture_obligation (holdTTL e) b req base (dec_DecisionID d)] | None => [] end).

Lemma Authorize_run e orgID req shadow w d w' :
  Authorize e orgID req shadow w = (Ok d, w') ->
  exists pol at_ c w1 w2, resolve_policy e orgID w1 = (Ok pol, w2) /\ run_spec e orgID req shadow d pol at_ c.
Proof.
  unfold Authorize. rewrite !bind_let. set (start := (now w).1).
  destruct (resolve_policy e orgID (now w).2) as [[pol|er] w2] eqn:Er; cbn [fst snd]; [|done].
  rewrite bind_let. set (decID := (ulid_New w2).1). rewrite evalLocal_spec, bind_let.
  set (i := buildInput req (stamped_at req start)).
  pose proof (budget_step_spec e orgID req shadow pol decID (local_result i <$> applicable pol i)
    (local_rule i <$> applicable pol i) (ulid_New w2).2) as (c & Hc & Hcons).
  destruct (budget_step _ _ _ _ _ _ _ _ _) as [[[rs ms] held] w3]. cbn [fst snd] in *.
  injection Hc as -> -> ->. rewrite bind_let. intros Hs. apply seal_ok in Hs as (Hid & Hv & Hp & He & Ho & Ha & Hsh & _).
  cbn in Hid, Hv, Hp, He, Ho, Ha, Hsh.
  exists pol, (stamped_at req start), c, (now w).2, w2. split; [done|]. unfold run_spec. rewrite Hid.
  split_and!; try done.
  - by eexists _, _.
  - unfold stamped_at. intros Hne. apply String.eqb_neq in Hne. by rewrite Hne.
  - rewrite Ho. destruct (parse_rfc3339 (stamped_at req start)) as [t|] eqn:Et.
    + exists t. split; [by intros ? [= ->]|]. destruct (consult_held c) as [b|]; [|done].
      rewrite bind_let. unfold captureWithinObligation. rewrite bind_let, Et. done.
    + eexists. split; [done|]. destruct (consult_held c) as [b|]; [|done].
      rewrite bind_let. unfold captureWithinObligation. rewrite bind_let, Et. done.
Qed.
End spec.
