(* ===== verification/Samples.v ===== *)
(** Concrete instances of the interfaces and parameters, on which the witnesses
    of the theorems are evaluated. *)

From S2P Require Import Prelude GoStrings GoTime Money Contracts Runtime Ulid Base64 Signing.

(** No string outside the contract's grammar is a number. *)
Definition sample_bigrat : BigRat := {| rat_other _ := None |}.

(** Printable ASCII is printable. *)
Definition sample_unicode : Unicode := {| is_print r := (32 <=? r) && (r <=? 126) |}.

(** A world with a clock that advances a millisecond at each reading, and a
    store of type [V]. *)
Record sworld (V : Type) := { sw_clock : time; sw_store : V }.
Arguments sw_clock {V} _.
Arguments sw_store {V} _.

Definition sample_runtime (V : Type) : Runtime (sworld V) :=
  {| now w := (sw_clock w, {| sw_clock := sw_clock w + 1000000; sw_store := sw_store w |});
     rand_Read n w := (repeat 7 n, w) |}.

Definition sample_frame (V : Type) : Frame (sw_store (V := V)) (H := sample_runtime V).
Proof. split; reflexivity. Defined.

(** 2026-03-02T10:00:00Z, a Monday. *)
Definition t0 : time := 1772445600 * nanos.

Example t0_text : format_rfc3339 t0 = "2026-03-02T10:00:00Z".
Proof. reflexivity. Qed.

Definition world0 {V} (v : V) : sworld V := {| sw_clock := t0; sw_store := v |}.

Definition sample_request (agent amount : string) : AuthorizeRequest :=
  {| req_AgentID := agent; req_Action := "pay"; req_Amount := amount; req_Currency := "USD";
     req_Target := {| tgt_Type := TargetVendor; tgt_ID := "acme" |}; req_Jurisdiction := "US"; req_Context := ∅;
     req_IdempotencyKey := "k"; req_EvaluatedAt := ""; req_CounterSnapshot := None |}.
