(* ===== verification/EngineProps.v ===== *)
(** Properties of the decision engine: what an approval means, when a request
    fails, what reaches the budget, and what the explanation says. *)

From S2P Require Import Prelude GoStrings GoTime Money Contracts Verdict Predicates Ulid Runtime Base64 Signing Engine Samples.

(** * What the engine asks of its collaborators *)

(** A reserver that refuses leaves the budget state, seen through [view], as it
    was. *)
Class ReserverSpec {W V : Type} (view : W -> V) (R : BudgetReserver W) := {
  reserve_refused org id req b w :
    br_Outcome (Reserve R org id req b w).1 <> BudgetWithinLimit -> view (Reserve R org id req b w).2 = view w
}.

(** Resolving a policy does not touch it either. *)
Class ProviderFrame {W V : Type} (view : W -> V) (P : BundleProvider W) := {
  active_frame org w : view (Active P org w).2 = view w
}.

(** The collaborators an engine was built with satisfy their interfaces. *)
Definition collaborators {W V : Type} (view : W -> V) (e : Engine W) : Prop :=
  (forall R, e_Reserver e = Some R -> ReserverSpec view R) /\
  (forall P, e_Provider e = Some P -> ProviderFrame view P).

(** * Lemmas *)

(** A result that neither denies, nor flags, nor is unavailable. *)
Definition passes (o : Outcome) : Prop := o <> Denied /\ o <> Flagged /\ o <> Unavailable.

Lemma verdict_of_local i p : verdict_of (local_result i p) = Approve <-> passes (res_Outcome (Evaluate p i)).
Proof.
  unfold verdict_of, effectiveOutcome, local_result, passes. cbn.
  destruct (res_Outcome (Evaluate p i)); intuition congruence.
Qed.

Lemma verdict_of_budget b res :
  verdict_of (budgetPredicateResult b res) =
  match br_Outcome res with BudgetWithinLimit => Approve | BudgetExceeded => Deny | BudgetUnavailable => Review end.
Proof. unfold budgetPredicateResult. by destruct (br_Outcome res). Qed.

Lemma toContractVerdict_inj v w : toContractVerdict v = toContractVerdict w -> v = w.
Proof. by destruct v, w. Qed.

Section props.
Context `{BigRat} `{Unicode} {W : Type} `{Runtime W} `{Ed25519} `{Jcs}.
Implicit Types (e : Engine W) (w : W).

Lemma consult_approve (rs : list PredResult) c :
  (forall b r, c = Some (b, r) -> Combine rs = Approve) ->
  Combine (rs ++ consult_results c) = Approve <->
  Combine rs = Approve /\ (forall b res, c = Some (b, Some res) -> br_Outcome res = BudgetWithinLimit).
Proof.
  intros Hc. destruct c as [[b [res|]]|]; cbn; rewrite ?app_nil_r.
  - assert (Ha := Hc _ _ eq_refl).
    rewrite Combine_app by (done || by intros ->).
    rewrite Ha, (left_id Approve join), Combine_cons. cbn. rewrite (right_id Approve join), verdict_of_budget.
    split.
    + intros Hv. split; [done|]. intros ? ? [= <- <-]. by destruct (br_Outcome res).
    + intros [_ Hv]. by rewrite (Hv _ _ eq_refl).
  - naive_solver.
  - naive_solver.
Qed.

Lemma resolve_frame {V} (view : W -> V) `{!Frame view} e orgID w :
  collaborators view e -> view (resolve_policy e orgID w).2 = view w.
Proof.
  intros [_ HP]. unfold resolve_policy. destruct (e_Provider e) as [P|]; [|done].
  rewrite bind_let. cbn. specialize (HP P eq_refl). by rewrite active_frame.
Qed.

Lemma capture_frame {V} (view : W -> V) `{!Frame view} e b req at_ id w :
  view (captureWithinObligation e b req at_ id w).2 = view w.
Proof. unfold captureWithinObligation. rewrite bind_let. cbn. by rewrite now_frame. Qed.

Lemma seal_frame {V} (view : W -> V) `{!Frame view} s k t d w :
  view (seal s k t d w).2 = view w.
Proof.
  unfold seal. destruct (match s with Some s => _ | None => _ end); [|done].
  rewrite bind_let. cbn. by apply millis_since_frame.
Qed.
End props.

(** * Properties *)

(** C3: What an approval means.  A decision the engine returns was computed from
    the policy resolved for the org by the run [run_spec] describes, and it
    approves exactly when some rule of the policy applies to the agent, every
    applicable rule passed, and the budget reserver — consulted exactly when
    the run is enforcing, the local rules approve and a budget governs the
    agent — reserved within the limit. *)
Theorem Authorize_approves_iff `{BigRat} `{Unicode} {W} `{Runtime W} `{Ed25519} `{Jcs} (e : Engine W) orgID req shadow w d w'
  (Hrun : Authorize e orgID req shadow w = (Ok d, w')) :
  exists pol at_ c w1 w2,
    resolve_policy e orgID w1 = (Ok pol, w2) /\
    run_spec e orgID req shadow d pol at_ c /\
    let i := buildInput req at_ in
    (dec_Verdict d = VerdictApprove <->
       applicable pol i <> [] /\
       Forall (fun p => passes (res_Outcome (Evaluate p i))) (applicable pol i) /\
       (forall b res, c = Some (b, Some res) -> br_Outcome res = BudgetWithinLimit)).
Proof.
  apply Authorize_run in Hrun as (pol & at_ & c & w1 & w2 & Hres & Hrun).
  exists pol, at_, c, w1, w2. split; [done|]. split; [done|]. cbn zeta.
  destruct Hrun as ((w3 & w4 & Hc) & Hv & _). rewrite Hv.
  change VerdictApprove with (toContractVerdict Approve).
  split.
  - intros Ha%toContractVerdict_inj. apply consult_approve in Ha as [Ha Hb].
    + apply Combine_approve in Ha as [Hne HF]. split; [by intros Hn; rewrite Hn in Hne|]. split; [|done].
      rewrite Forall_fmap in HF. eapply list.Forall_impl; [exact HF|]. intros p. apply verdict_of_local.
    + intros b r ->. cbn in Hc. tauto.
  - intros (Hne & HF & Hb). f_equal. apply consult_approve.
    + intros b r ->. cbn in Hc. tauto.
    + split; [|done]. apply Combine_approve. split; [by intros Hn%fmap_nil_inv|].
      rewrite Forall_fmap. eapply list.Forall_impl; [exact HF|]. intros p. apply verdict_of_local.
Qed.

(** A failure is never a verdict: [Authorize] returns an error exactly from
    the policy resolution (with the world the resolution left) or from the
    signer; and resolution falls back to the boot policy only on the
    no-active-bundle error, when that policy has rules. *)
Theorem Authorize_error `{BigRat} `{Unicode} {W} `{Runtime W} `{Ed25519} `{Jcs} (e : Engine W) orgID req shadow w er w'
  (Hrun : Authorize e orgID req shadow w = (Err er, w')) :
  (exists P w1, e_Provider e = Some P /\ Active P orgID w1 = (Err er, w') /\
     (er = ErrNoActiveBundle -> pol_Predicates (e_Policy e) = [])) \/
  (exists s dec se, e_Signer e = Some s /\ Sign s dec = Err se /\ er = ErrSign se).
Proof.
  unfold Authorize in Hrun. rewrite !bind_let in Hrun.
  destruct (resolve_policy e orgID (now w).2) as [[pol|er'] w2] eqn:Er; cbn [fst snd] in Hrun.
  - right. rewrite bind_let, evalLocal_spec, bind_let in Hrun.
    destruct (budget_step _ _ _ _ _ _ _ _ _) as [[[rs ms] held] w3]. cbn [fst snd] in Hrun. rewrite bind_let in Hrun.
    unfold seal in Hrun. destruct (e_Signer e) as [s|] eqn:Es.
    + destruct (Sign s _) as [d'|se] eqn:Esg; [by rewrite bind_let in Hrun|].
      exists s. eexists _, se. split; [done|]. split; [exact Esg|]. by injection Hrun as <- _.
    + by rewrite bind_let in Hrun.
  - left. injection Hrun as -> ->. unfold resolve_policy in Er.
    destruct (e_Provider e) as [P|] eqn:EP; [|done]. rewrite bind_let in Er.
    destruct (Active P orgID (now w).2) as [[?|[]] w3] eqn:EA; cbn in Er; try done.
    + exists P, (now w).2. destruct (pol_Predicates (e_Policy e)); [|done]. cbn in Er. injection Er as <- <-. by split_and!.
    + injection Er as <- <-. exists P, (now w).2. by split_and!.
    + injection Er as <- <-. exists P, (now w).2. by split_and!.
Qed.

(** The budget state moves in the budget step only, and there only for a
    reservation within the limit. *)
Lemma budget_step_frame `{BigRat} `{Unicode} {W V} (view : W -> V) `{!Runtime W} `{Ed25519} `{Jcs}
    (e : Engine W) orgID req shadow pol decID rs c w w' :
  collaborators view e -> consults e orgID req shadow pol decID rs c w w' ->
  view w' = view w \/
  shadow = false /\ Combine rs = Approve /\ exists b res, c = Some (b, Some res) /\ br_Outcome res = BudgetWithinLimit.
Proof.
  intros [HR _] Hc. destruct c as [[b [res|]]|]; cbn in Hc.
  - destruct Hc as (Hsh & Ha & _ & R & ER & Er). specialize (HR R ER).
    destruct (decide (br_Outcome res = BudgetWithinLimit)) as [Ho|Ho]; [right; by eauto 10|].
    left. pose proof (reserve_refused orgID decID req b w) as Hv. rewrite Er in Hv. by apply Hv.
  - left. by destruct Hc as (_ & _ & _ & -> & _).
  - left. by destruct Hc as (-> & _).
Qed.

(** A decision carries the shadow flag of the key that asked for it. *)
Lemma Authorize_shadow_flag `{BigRat} `{Unicode} {W} `{Runtime W} `{Ed25519} `{Jcs} (e : Engine W) orgID req shadow w d w' :
  Authorize e orgID req shadow w = (Ok d, w') -> dec_Shadow d = shadow.
Proof. intros (pol & at_ & c & w1 & w2 & _ & Hrun)%Authorize_run. apply Hrun. Qed.

(** What neither the policy resolution nor the reserver touches, a request does
    not touch. *)
Lemma Authorize_frame `{BigRat} `{Unicode} {W V} (view : W -> V) `{!Runtime W} `{!Frame view} `{Ed25519} `{Jcs}
  (e : Engine W) orgID req shadow w :
  collaborators view e -> (forall R org id rq b w, e_Reserver e = Some R -> view (Reserve R org id rq b w).2 = view w) ->
  view (Authorize e orgID req shadow w).2 = view w.
Proof.
  intros He HR. unfold Authorize. rewrite !bind_let. pose proof (resolve_frame view e orgID (now w).2 He) as Hf.
  rewrite (now_frame (view:=view)) in Hf. destruct (resolve_policy e orgID (now w).2) as [[pol|er'] w2]; cbn [fst snd] in *; [|done].
  rewrite bind_let, evalLocal_spec, bind_let. pose proof (ulid_New_frame (view:=view) w2) as Hu.
  set (step := budget_step _ _ _ _ _ _ _ _ _). assert (Hs : view step.2 = view w).
  { rewrite <- Hf, <- Hu. unfold step, budget_step. destruct (negb _ && _); [|done]. destruct (applicableBudget _ _); [|done].
    destruct (e_Reserver e) as [R|] eqn:ER; [|done]. rewrite bind_let. by apply HR. }
  destruct step as [[[rs ms] held] w3]. cbn [fst snd] in *. rewrite bind_let, (seal_frame view). destruct held; [|done].
  rewrite bind_let. cbn [snd mret io_ret]. by rewrite (capture_frame view).
Qed.

(** The reservation behind a change of the budget: the view is what this one
    call of the reserver made of it. *)
Definition reserved_by `{BigRat} `{Unicode} `{Ed25519} `{Jcs} {W V} (view : W -> V) (e : Engine W) (orgID : string) (req : AuthorizeRequest) (id : string) (w w' : W) : Prop :=
  exists R b u res v, e_Reserver e = Some R /\ view u = view w /\ Reserve R orgID id req b u = (res, v) /\ br_Outcome res = BudgetWithinLimit /\ view w' = view v.

(** An approval that names its hold. *)
Definition held_approval (d : Decision) : Prop :=
  dec_Verdict d = VerdictApprove /\
  exists o, dec_Obligations d = [o] /\ ob_Type o = ObligationCaptureWithin /\ ob_Params o !! "hold_ref" = Some (JStr (dec_DecisionID d)).

(** Every way a request can leave the budget changed. *)
Lemma Authorize_spends `{BigRat} `{Unicode} {W V} (view : W -> V) `{!Runtime W} `{!Frame view} `{Ed25519} `{Jcs}
  (e : Engine W) orgID req shadow w r w'
  (He : collaborators view e)
  (Hrun : Authorize e orgID req shadow w = (r, w')) :
  view w' = view w \/
  shadow = false /\ exists id, reserved_by view e orgID req id w w' /\
  ((exists d, r = Ok d /\ dec_DecisionID d = id /\ held_approval d) \/
   (exists s dec se, e_Signer e = Some s /\ dec_DecisionID dec = id /\ held_approval dec /\ Sign s dec = Err se /\ r = Err (ErrSign se))).
Proof.
  unfold Authorize in Hrun. rewrite !bind_let in Hrun.
  pose proof (resolve_frame view e orgID (now w).2 He) as Hf. rewrite (now_frame (view:=view)) in Hf.
  destruct (resolve_policy e orgID (now w).2) as [[pol|er'] w2]; cbn [fst snd] in *; [|injection Hrun as _ <-; by left].
  rewrite bind_let, evalLocal_spec, bind_let in Hrun. set (i := buildInput _ _) in Hrun.
  destruct (budget_step_spec e orgID req shadow pol (ulid_New w2).1 (local_result i <$> applicable pol i)
    (local_rule i <$> applicable pol i) (ulid_New w2).2) as (c & Hc & Hcons).
  destruct (budget_step _ _ _ _ _ _ _ _ _) as [[[rs ms] held] w3]. cbn [fst snd] in *.
  injection Hc as -> -> ->. rewrite bind_let in Hrun.
  destruct (budget_step_frame view e _ _ _ _ _ _ _ _ _ He Hcons) as [Hw3|(Hsh & Ha & b & res & -> & Ho)].
  - left. rewrite (ulid_New_frame (view:=view)), Hf in Hw3. rewrite <- Hw3. apply (f_equal snd) in Hrun. cbn [snd] in Hrun.
    rewrite <- Hrun, (seal_frame view). destruct (consult_held c); [|done]. rewrite bind_let. by apply (capture_frame view).
  - right. split; [done|]. exists (ulid_New w2).1. cbn [consult_held] in Hrun. rewrite Ho, bool_decide_true in Hrun by done.
    cbn [consults] in Hcons. destruct Hcons as (_ & _ & _ & R & HR & Er). split.
    + exists R, b, (ulid_New w2).2, res, w3. split; [done|]. split; [by rewrite (ulid_New_frame (view:=view)), Hf|]. split; [done|]. split; [done|].
      apply (f_equal snd) in Hrun. cbn [snd] in Hrun. rewrite <- Hrun, (seal_frame view), bind_let. by apply (capture_frame view).
    + assert (Hv : toContractVerdict (Combine ((local_result i <$> applicable pol i) ++ consult_results (Some (b, Some res)))) = VerdictApprove).
      { change VerdictApprove with (toContractVerdict Approve). f_equal. apply (consult_approve _ (Some (b, Some res))); [by intros|]. split; [done|]. by intros ? ? [= <- <-]. }
      destruct r as [d|er].
      * left. exists d. split; [done|]. apply seal_ok in Hrun as (Hid & Hvd & _ & _ & Hob & _). split; [exact Hid|]. split; [by rewrite Hvd|].
        rewrite Hob, Hid. unfold captureWithinObligation. rewrite !bind_let. eexists. by split_and!.
      * right. unfold seal in Hrun. destruct (e_Signer e) as [s|]; [|by rewrite bind_let in Hrun].
        match type of Hrun with context [Sign s ?dec] => set (d0 := dec) in * end. destruct (Sign s d0) as [dec|se] eqn:Es; [by rewrite bind_let in Hrun|].
        exists s, d0, se. split; [done|]. split; [done|]. split; [|split; [done|by injection Hrun as <- _]].
        split; [exact Hv|]. unfold d0, captureWithinObligation. rewrite !bind_let. eexists. by split_and!.
Qed.

(** C4: Only a held approval spends.  With a reserver that leaves the budget
    alone when it refuses, a request leaves the budget state as it was unless it
    is approved with the capture obligation of the hold it placed — or its
    signature fails after the reservation was made. *)
Theorem Authorize_spends_only_when_held `{BigRat} `{Unicode} {W V} (view : W -> V) `{!Runtime W} `{!Frame view} `{Ed25519} `{Jcs}
  (e : Engine W) orgID req shadow w r w'
  (He : collaborators view e)
  (Hrun : Authorize e orgID req shadow w = (r, w')) :
  view w' = view w \/
  shadow = false /\
  ((exists d, r = Ok d /\ dec_Verdict d = VerdictApprove /\
      exists o, dec_Obligations d = [o] /\ ob_Type o = ObligationCaptureWithin /\
                ob_Params o !! "hold_ref" = Some (JStr (dec_DecisionID d))) \/
   (exists se, r = Err (ErrSign se))).
Proof.
  destruct (Authorize_spends view e orgID req shadow w r w' He Hrun) as [Hv|(Hs & id & _ & [(d & Hr & _ & Ha)|(s & dec & se & _ & _ & _ & _ & Hr)])]; [by left|right..];
    (split; [done|]); [left; by exists d|right; by exists se].
Qed.

(** A shadow request is the simulation: the decision [Authorize] returns in
    shadow mode has the verdict, the explanation, the policy version and the
    (empty) obligations of [Evaluate] on the policy it resolved, whatever the
    budgets. *)
Theorem Authorize_shadow_is_Evaluate `{BigRat} `{Unicode} {W} `{Runtime W} `{Ed25519} `{Jcs} (e : Engine W) orgID req w d w'
  (Hrun : Authorize e orgID req true w = (Ok d, w')) :
  exists pol at_ w1 w2, resolve_policy e orgID w1 = (Ok pol, w2) /\
    (req_EvaluatedAt req <> "" -> at_ = req_EvaluatedAt req) /\ dec_Shadow d = true /\
    forall u, let s := (engine_Evaluate pol req at_ u).1 in
      dec_Verdict d = dec_Verdict s /\ dec_Explanation d = dec_Explanation s /\
      dec_PolicyVersionHash d = dec_PolicyVersionHash s /\ dec_Obligations d = dec_Obligations s /\
      dec_EvaluatedAt d = dec_EvaluatedAt s.
Proof.
  apply Authorize_run in Hrun as (pol & at_ & c & w1 & w2 & Hres & Hrun).
  destruct Hrun as ((w3 & w4 & Hc) & Hv & Hp & He & Hat & Hreq & Hsh & base & _ & Ho).
  assert (c = None) as -> by (destruct c as [[??]|]; [by destruct Hc | done]).
  exists pol, at_, w1, w2. split_and!; try done. intros u. unfold engine_Evaluate. rewrite evalLocal_spec, bind_let.
  cbn in *. rewrite !app_nil_r in *. by split_and!.
Qed.

(** ** The explanation *)

Lemma firstWithResult_some matched want r :
  firstWithResult matched want = Some r ->
  exists before after, matched = before ++ r :: after /\ mr_Result r = want /\ Forall (fun m => mr_Result m <> want) before.
Proof.
  unfold firstWithResult. intros (l1 & l2 & -> & Hr & Hl)%find_first_some. exists l1, l2.
  breflect. split_and!; [done|done|]. eapply list.Forall_impl; [exact Hl|]. intros m. cbn. breflect. done.
Qed.

Lemma firstWithResult_none matched want :
  firstWithResult matched want = None -> Forall (fun m => mr_Result m <> want) matched.
Proof.
  unfold firstWithResult. intros Hl%find_first_none. eapply list.Forall_impl; [exact Hl|]. intros m. cbn. breflect. done.
Qed.

(** A matched rule reports the outcome of the result it explains. *)
Definition explains (r : PredResult) (m : MatchedRule) : Prop :=
  pr_RuleID r = mr_RuleID m /\ toContractResult (pr_Outcome r) = mr_Result m /\
  (pr_Outcome r = Unavailable -> pr_FailMode r = FailClosedReview) /\ (forall s, pr_Outcome r <> OutcomeOther s).

Lemma budget_explains `{Unicode} b req res : explains (budgetPredicateResult b res) (budgetMatchedRule b req res).
Proof. unfold explains, budgetPredicateResult, budgetMatchedRule. by destruct (br_Outcome res). Qed.

Lemma local_explains `{BigRat} `{Unicode} i p : local_predicate p -> explains (local_result i p) (local_rule i p).
Proof.
  intros Hp. unfold explains, local_result, local_rule; cbn.
  by destruct (local_outcome p i Hp) as [-> | [-> | ->]].
Qed.

Lemma explained_denied rs ms :
  Forall2 explains rs ms -> Forall (fun m => mr_Result m <> ResultDenied) ms ->
  Forall (fun r => effectiveOutcome r <> Denied) rs.
Proof.
  induction 1 as [|r m rs ms (_ & Hr & Hu & _) _ IH]; [constructor|]. rewrite !Forall_cons_iff. intros [Hm Hms].
  split; [|by apply IH]. unfold effectiveOutcome. rewrite <- Hr in Hm.
  destruct (pr_Outcome r); try done. by rewrite Hu.
Qed.

Lemma explained_flagged rs ms :
  Forall2 explains rs ms -> Forall (fun m => mr_Result m <> ResultReview) ms ->
  Forall (fun m => mr_Result m <> ResultUnavailable) ms -> Forall (fun r => effectiveOutcome r <> Flagged) rs.
Proof.
  induction 1 as [|r m rs ms (_ & Hr & Hu & Ho) _ IH]; [constructor|]. rewrite !Forall_cons_iff. intros [Hm Hms] [Hn Hns].
  split; [|by apply IH]. unfold effectiveOutcome. rewrite <- Hr in Hm, Hn. destruct (pr_Outcome r); try done.
Qed.

(** The summary names the deciding rule.  When the matched rules explain the
    results one by one (as a run's do), a denial's summary is the
    deny-by-default text for no rules and otherwise names the first rule that
    denied; a review's names the first rule that flagged or, when none did, the
    first that was unavailable; the bare fallbacks are never used. *)
Theorem summarize_names_deciding_rule `{Unicode} rs ms (Hex : Forall2 explains rs ms) :
  match Combine rs with
  | Deny =>
    ms = [] \/
    exists before m after, ms = before ++ m :: after /\ mr_Result m = ResultDenied /\
      Forall (fun x => mr_Result x <> ResultDenied) before /\
      summarize Deny ms = "Denied by rule " +:+ Quote (mr_RuleID m) +:+ ": " +:+ mr_Detail m
  | Review =>
    exists before m after, ms = before ++ m :: after /\
      ((mr_Result m = ResultReview /\ Forall (fun x => mr_Result x <> ResultReview) before /\
        summarize Review ms = "Flagged for review by rule " +:+ Quote (mr_RuleID m) +:+ ": " +:+ mr_Detail m) \/
       (mr_Result m = ResultUnavailable /\ Forall (fun x => mr_Result x <> ResultReview) ms /\
        Forall (fun x => mr_Result x <> ResultUnavailable) before /\
        summarize Review ms = "Flagged for review: rule " +:+ Quote (mr_RuleID m) +:+ " could not complete."))
  | Approve => length ms = length rs
  end.
Proof.
  destruct (Combine rs) eqn:E.
  - symmetry. by eapply Forall2_length.
  - destruct ms as [|m0 ms0]; [by left|right]. remember (m0 :: ms0) as ms eqn:Ems.
    destruct (firstWithResult ms ResultDenied) as [m|] eqn:Ef.
    + pose proof (firstWithResult_some _ _ _ Ef) as (l1 & l2 & Hms & Hm & Hl). exists l1, m, l2.
      split_and!; try done. unfold summarize. rewrite Ems in Ef |- *. cbn beta iota. by rewrite Ef.
    + exfalso. apply firstWithResult_none in Ef. apply Combine_precedence in E as [->|E]; [by inversion Hex; subst|].
      eapply Forall_Exists_neg in E; [done|]. by eapply explained_denied.
  - destruct (firstWithResult ms ResultReview) as [m|] eqn:Ef; unfold summarize; rewrite Ef.
    + apply firstWithResult_some in Ef as (l1 & l2 & Hms & Hm & Hl). exists l1, m, l2. split; [done|]. by left.
    + destruct (firstWithResult ms ResultUnavailable) as [m|] eqn:Eu.
      * apply firstWithResult_none in Ef. apply firstWithResult_some in Eu as (l1 & l2 & Hms & Hm & Hl).
        exists l1, m, l2. split; [done|]. by right.
      * exfalso. apply firstWithResult_none in Ef, Eu. apply Combine_precedence in E as [_ E].
        eapply Forall_Exists_neg in E; [done|]. by eapply explained_flagged.
Qed.

(** * Witnesses *)

#[local] Existing Instance sample_bigrat.
#[local] Existing Instance sample_unicode.
#[local] Existing Instance toy_ed25519.
#[local] Existing Instance toy_jcs.
#[local] Existing Instance sample_runtime.
#[local] Existing Instance sample_frame.

Definition sample_budget : BudgetDecl :=
  {| bd_ID := "b1"; bd_Agents := []; bd_Window := "day"; bd_Limit := "100"; bd_Currency := "USD" |}.

Definition sample_policy : Policy :=
  {| pol_Version := "v1";
     pol_Predicates := [as_PerTransactionLimit (NewPerTransactionLimit "r1" [] "50.00" "USD");
                        as_VendorAllowlist (NewVendorAllowlist "r2" ["a"] ["acme"])];
     pol_Budgets := [sample_budget] |}.

(** A reserver that counts reservations, up to three. *)
Definition counting_reserver : BudgetReserver (sworld Z) :=
  {| Reserve _ _ _ _ w :=
       if sw_store w <? 3
       then ({| br_Outcome := BudgetWithinLimit; br_SpendToDate := "0"; br_Limit := "3"; br_WindowKey := "w" |},
             {| sw_clock := sw_clock w; sw_store := sw_store w + 1 |})
       else ({| br_Outcome := BudgetExceeded; br_SpendToDate := "3"; br_Limit := "3"; br_WindowKey := "w" |}, w) |}.

#[local] Instance counting_reserver_spec : ReserverSpec (sw_store (V:=Z)) counting_reserver.
Proof. split. intros org id req b w. cbn. by destruct (sw_store w <? 3). Defined.

Definition sample_engine : Engine (sworld Z) :=
  WithReserver (Some counting_reserver) (WithSigner (Some {| sgn_keyID := "k1"; sgn_priv := seed_a |}) (NewEngine sample_policy "k1")).

Definition no_decision : Decision := sample_decision.
Definition run (amount : string) (shadow : bool) : result engine_error Decision * sworld Z :=
  Authorize sample_engine "org" (sample_request "a" amount) shadow (world0 0).
Definition ok_decision (r : result engine_error Decision) : Decision :=
  match r with Ok d => d | Err _ => no_decision end.

Example run_verdicts :
  (dec_Verdict (ok_decision (run "25" false).1), dec_Verdict (ok_decision (run "60" false).1)) = ("APPROVE", "DENY").
Proof. vm_compute. reflexivity. Qed.

Lemma Authorize_approves_iff_witness :
  let d := ok_decision (run "25" false).1 in
  dec_Verdict d = VerdictApprove /\
  exists pol at_ c w1 w2,
    resolve_policy sample_engine "org" w1 = (Ok pol, w2) /\
    run_spec sample_engine "org" (sample_request "a" "25") false d pol at_ c /\
    (dec_Verdict d = VerdictApprove <->
       applicable pol (buildInput (sample_request "a" "25") at_) <> [] /\
       Forall (fun p => passes (res_Outcome (Evaluate p (buildInput (sample_request "a" "25") at_))))
              (applicable pol (buildInput (sample_request "a" "25") at_)) /\
       (forall b res, c = Some (b, Some res) -> br_Outcome res = BudgetWithinLimit)).
Proof.
  split; [vm_compute; reflexivity|].
  apply (Authorize_approves_iff sample_engine "org" (sample_request "a" "25") false (world0 0) _ (run "25" false).2).
  vm_compute. reflexivity.
Defined.

(** A provider with no bundle and an engine without a boot policy. *)
Definition empty_provider : BundleProvider (sworld Z) := {| Active _ w := (Err ErrNoActiveBundle, w) |}.
Definition bare_engine : Engine (sworld Z) :=
  WithProvider (Some empty_provider) (NewEngine {| pol_Version := ""; pol_Predicates := []; pol_Budgets := [] |} "k1").

Lemma Authorize_error_witness :
  exists er w', Authorize bare_engine "org" (sample_request "a" "25") false (world0 0) = (Err er, w') /\
  ((exists P w1, e_Provider bare_engine = Some P /\ Active P "org" w1 = (Err er, w') /\
     (er = ErrNoActiveBundle -> pol_Predicates (e_Policy bare_engine) = [])) \/
   (exists s dec se, e_Signer bare_engine = Some s /\ Sign s dec = Err se /\ er = ErrSign se)).
Proof.
  eexists _, _. split; [vm_compute; reflexivity|].
  apply (Authorize_error bare_engine "org" (sample_request "a" "25") false (world0 0)). vm_compute. reflexivity.
Defined.

Lemma Authorize_spends_only_when_held_witness :
  let '(r, w') := run "60" false in
  sw_store w' = 0 \/
  false = false /\
  ((exists d, r = Ok d /\ dec_Verdict d = VerdictApprove /\
      exists o, dec_Obligations d = [o] /\ ob_Type o = ObligationCaptureWithin /\
                ob_Params o !! "hold_ref" = Some (JStr (dec_DecisionID d))) \/
   (exists se, r = Err (ErrSign se))).
Proof.
  destruct (run "60" false) as [r w'] eqn:E.
  apply (Authorize_spends_only_when_held (sw_store (V:=Z)) sample_engine "org" (sample_request "a" "60") false (world0 0) r w').
  - split; [|discriminate]. intros R [= <-]. exact counting_reserver_spec.
  - exact E.
Defined.

Lemma Authorize_shadow_is_Evaluate_witness :
  let d := ok_decision (run "25" true).1 in
  exists pol at_ w1 w2, resolve_policy sample_engine "org" w1 = (Ok pol, w2) /\
    ("" <> "" -> at_ = "") /\ dec_Shadow d = true /\
    forall u : sworld Z, let s := (engine_Evaluate pol (sample_request "a" "25") at_ u).1 in
      dec_Verdict d = dec_Verdict s /\ dec_Explanation d = dec_Explanation s /\
      dec_PolicyVersionHash d = dec_PolicyVersionHash s /\ dec_Obligations d = dec_Obligations s /\
      dec_EvaluatedAt d = dec_EvaluatedAt s.
Proof.
  apply (Authorize_shadow_is_Evaluate sample_engine "org" (sample_request "a" "25") (world0 0) _ (run "25" true).2).
  vm_compute. reflexivity.
Defined.

Lemma summarize_names_deciding_rule_witness :
  let rs := [{| pr_RuleID := "r"; pr_Enriched := false; pr_Outcome := Denied; pr_FailMode := FailModeOther "" |}] in
  let m := {| mr_RuleID := "r"; mr_Type := TypeVendorBlocklist; mr_Result := ResultDenied; mr_Detail := "no"; mr_Evidence := ∅ |} in
  Combine rs = Deny /\
  ([m] = [] \/
   exists before x after, [m] = before ++ x :: after /\ mr_Result x = ResultDenied /\
     Forall (fun y => mr_Result y <> ResultDenied) before /\
     summarize Deny [m] = "Denied by rule " +:+ Quote (mr_RuleID x) +:+ ": " +:+ mr_Detail x).
Proof.
  intros rs m. split; [reflexivity|].
  refine (summarize_names_deciding_rule rs [m] _). repeat constructor; discriminate.
Defined.

(** A reservation is spent although no decision is returned: when the signature
    fails after the reserve, the counter keeps the amount and no hold exists to
    release it. *)
Definition unsignable_jcs : Jcs := {| canon _ := None |}.

Example reserve_leaks_when_signing_fails :
  let '(r, w') := Authorize (H3 := unsignable_jcs) sample_engine "org" (sample_request "a" "25") false (world0 0) in
  r = Err (ErrSign Canonicalize) /\ sw_store w' = 1.
Proof. vm_compute. split; reflexivity. Qed.
