(* ===== verification/Hold.v ===== *)
(** Budget holds ([internal/hold/hold.go]): the reservation lifecycle
    held -> captured | voided | expired, kept by [MemStore] under a mutex.

    The store is a map from [key org id] to holds; every stored pointer is
    private to the store (operations copy in and out), so values model it.  The
    clock readings an operation makes are its [time] arguments, in order.
    [ExpireDue] and [ListActiveByWindow] range over a Go map: the order of the
    iteration is an argument. *)

From S2P Require Import Prelude GoTime.

Inductive State := StateHeld | StateCaptured | StateVoided | StateExpired | StateOther (s : string).

#[export] Instance State_eq_dec : EqDecision State.
Proof. solve_decision. Defined.

Record Hold := {
  h_DecisionID : string;
  h_OrgID : string;
  h_AgentID : string;
  h_BudgetID : string;
  h_Window : string;
  h_WindowKey : string;
  h_Amount : string;
  h_Currency : string;
  h_State : State;
  h_CreatedAt : time;
  h_ExpiresAt : time;
  h_CapturedAt : time;
  h_VoidedAt : time
}.

Definition set_CreatedAt (t : time) (h : Hold) : Hold :=
  {| h_DecisionID := h_DecisionID h; h_OrgID := h_OrgID h; h_AgentID := h_AgentID h; h_BudgetID := h_BudgetID h;
     h_Window := h_Window h; h_WindowKey := h_WindowKey h; h_Amount := h_Amount h; h_Currency := h_Currency h;
     h_State := h_State h; h_CreatedAt := t; h_ExpiresAt := h_ExpiresAt h;
     h_CapturedAt := h_CapturedAt h; h_VoidedAt := h_VoidedAt h |}.

(** The state and the two transition stamps, the only fields that change. *)
Definition set_lifecycle (s : State) (captured voided : time) (h : Hold) : Hold :=
  {| h_DecisionID := h_DecisionID h; h_OrgID := h_OrgID h; h_AgentID := h_AgentID h; h_BudgetID := h_BudgetID h;
     h_Window := h_Window h; h_WindowKey := h_WindowKey h; h_Amount := h_Amount h; h_Currency := h_Currency h;
     h_State := s; h_CreatedAt := h_CreatedAt h; h_ExpiresAt := h_ExpiresAt h;
     h_CapturedAt := captured; h_VoidedAt := voided |}.

Definition set_State (s : State) (h : Hold) : Hold := set_lifecycle s (h_CapturedAt h) (h_VoidedAt h) h.
Definition mark_captured (t : time) (h : Hold) : Hold := set_lifecycle StateCaptured t (h_VoidedAt h) h.
Definition mark_voided (t : time) (h : Hold) : Hold := set_lifecycle StateVoided (h_CapturedAt h) t h.

Inductive hold_error :=
| ErrNotFound
| ConflictError (from : State) (action reason : string)
| ErrStore (msg : string).

Definition conflict (from : State) (action reason : string) : hold_error := ConflictError from action reason.

(** The in-memory store. *)
Abbreviation MemStore := (gmap string Hold).

Definition NewMemStore : MemStore := ∅.

Definition key (org id : string) : string := org +:+ "|" +:+ id.

Definition Place (now : time) (h : Hold) (m : MemStore) : MemStore :=
  let k := key (h_OrgID h) (h_DecisionID h) in
  match m !! k with
  | Some _ => m
  | None =>
    let cp := if bool_decide (h_State h = StateOther "") then set_State StateHeld h else h in
    let cp := if IsZero (h_CreatedAt cp) then set_CreatedAt now cp else cp in
    <[k := cp]> m
  end.

(** A held hold whose expiry has passed. *)
Definition is_due (now : time) (h : Hold) : bool :=
  bool_decide (h_State h = StateHeld) && negb (IsZero (h_ExpiresAt h)) && negb (Before now (h_ExpiresAt h)).

Definition resolve (now : time) (org id : string) (m : MemStore) : option Hold * MemStore :=
  match m !! key org id with
  | None => (None, m)
  | Some h =>
    if is_due now h then let h' := set_State StateExpired h in (Some h', <[key org id := h']> m)
    else (Some h, m)
  end.

Definition Capture (now now2 : time) (org id : string) (m : MemStore) : result hold_error Hold * MemStore :=
  let '(r, m) := resolve now org id m in
  match r with
  | None => (Err ErrNotFound, m)
  | Some h =>
    match h_State h with
    | StateHeld => let h' := mark_captured now2 h in (Ok h', <[key org id := h']> m)
    | StateCaptured => (Ok h, m)
    | StateVoided => (Err (conflict StateVoided "capture" "the hold was voided"), m)
    | StateExpired => (Err (conflict StateExpired "capture" "the hold expired before capture"), m)
    | StateOther _ => (Ok h, m)
    end
  end.

(** The flag says whether this call released the reservation. *)
Definition Void (now now2 : time) (org id : string) (m : MemStore) : result hold_error (Hold * bool) * MemStore :=
  let '(r, m) := resolve now org id m in
  match r with
  | None => (Err ErrNotFound, m)
  | Some h =>
    match h_State h with
    | StateHeld => let h' := mark_voided now2 h in (Ok (h', true), <[key org id := h']> m)
    | StateVoided => (Ok (h, false), m)
    | StateExpired => let h' := mark_voided now2 h in (Ok (h', false), <[key org id := h']> m)
    | StateCaptured => (Err (conflict StateCaptured "void" "the hold was already captured"), m)
    | StateOther _ => (Ok (h, false), m)
    end
  end.

Definition Get (now : time) (org id : string) (m : MemStore) : result hold_error Hold * MemStore :=
  let '(r, m) := resolve now org id m in
  match r with None => (Err ErrNotFound, m) | Some h => (Ok h, m) end.

(** The loop of [ExpireDue] over the keys in iteration order; [out] is the
    slice built so far. *)
Fixpoint ExpireDue_loop (now : time) (limit : Z) (order : list string) (out : list Hold) (m : MemStore)
    : list Hold * MemStore :=
  match order with
  | [] => (out, m)
  | k :: order =>
    if (0 <? limit) && (limit <=? Z.of_nat (length out)) then (out, m)
    else
      match m !! k with
      | Some h =>
        if is_due now h then
          let h' := set_State StateExpired h in
          ExpireDue_loop now limit order (out ++ [h']) (<[k := h']> m)
        else ExpireDue_loop now limit order out m
      | None => ExpireDue_loop now limit order out m
      end
  end.

Definition ExpireDue (now : time) (limit : Z) (order : list string) (m : MemStore) : list Hold * MemStore :=
  ExpireDue_loop now limit order [] m.

(** Held or captured in a budget window. *)
Definition active_in (org budgetID windowKey : string) (h : Hold) : bool :=
  String.eqb (h_OrgID h) org && String.eqb (h_BudgetID h) budgetID && String.eqb (h_WindowKey h) windowKey &&
  (bool_decide (h_State h = StateHeld) || bool_decide (h_State h = StateCaptured)).

Definition ListActiveByWindow (org budgetID windowKey : string) (order : list string) (m : MemStore) : list Hold :=
  filter (fun h => active_in org budgetID windowKey h = true) (omap (fun k => m !! k) order).

(** * The lifecycle as a step relation *)

(** What never changes about a hold once placed. *)
Definition same_terms (h h' : Hold) : Prop :=
  h_DecisionID h' = h_DecisionID h /\ h_OrgID h' = h_OrgID h /\ h_AgentID h' = h_AgentID h /\
  h_BudgetID h' = h_BudgetID h /\ h_Window h' = h_Window h /\ h_WindowKey h' = h_WindowKey h /\
  h_Amount h' = h_Amount h /\ h_Currency h' = h_Currency h /\
  h_CreatedAt h' = h_CreatedAt h /\ h_ExpiresAt h' = h_ExpiresAt h.

(** The transitions of the diagram at the top of [hold.go]. *)
Inductive edge : State -> State -> Prop :=
| edge_capture : edge StateHeld StateCaptured
| edge_void : edge StateHeld StateVoided
| edge_expire : edge StateHeld StateExpired
| edge_ack : edge StateExpired StateVoided.

Definition terminal (s : State) : Prop := s = StateCaptured \/ s = StateVoided.

Definition evolves (h h' : Hold) : Prop :=
  same_terms h h' /\ rtc edge (h_State h) (h_State h') /\ (terminal (h_State h) -> h' = h).

(** Every hold of [m] is still in [m'], further along its lifecycle. *)
Definition store_evolves (m m' : MemStore) : Prop :=
  forall k h, m !! k = Some h -> exists h', m' !! k = Some h' /\ evolves h h'.

(** The operations of the store, with their clock readings and orders. *)
Inductive op :=
| OpPlace (now : time) (h : Hold)
| OpCapture (now now2 : time) (org id : string)
| OpVoid (now now2 : time) (org id : string)
| OpGet (now : time) (org id : string)
| OpExpireDue (now : time) (limit : Z) (order : list string).

Definition exec (o : op) (m : MemStore) : MemStore :=
  match o with
  | OpPlace now h => Place now h m
  | OpCapture now now2 org id => (Capture now now2 org id m).2
  | OpVoid now now2 org id => (Void now now2 org id m).2
  | OpGet now org id => (Get now org id m).2
  | OpExpireDue now limit order => (ExpireDue now limit order m).2
  end.

(** The keys of the reservations an operation tells its caller to release. *)
Definition releases (o : op) (m : MemStore) : list string :=
  match o with
  | OpVoid now now2 org id =>
    match (Void now now2 org id m).1 with Ok (_, true) => [key org id] | _ => [] end
  | OpExpireDue now limit order => (fun h => key (h_OrgID h) (h_DecisionID h)) <$> (ExpireDue now limit order m).1
  | _ => []
  end.

(** The keys of the reservations an operation reports as committed. *)
Definition commits (o : op) (m : MemStore) : list string :=
  match o with
  | OpCapture now now2 org id => match (Capture now now2 org id m).1 with Ok h => [key org id] | _ => [] end
  | _ => []
  end.

Fixpoint exec_all (ops : list op) (m : MemStore) : MemStore :=
  match ops with [] => m | o :: ops => exec_all ops (exec o m) end.

Fixpoint all_releases (ops : list op) (m : MemStore) : list string :=
  match ops with [] => [] | o :: ops => releases o m ++ all_releases ops (exec o m) end.

Fixpoint all_commits (ops : list op) (m : MemStore) : list string :=
  match ops with [] => [] | o :: ops => commits o m ++ all_commits ops (exec o m) end.

(** Each hold is stored under its own key, in one of the four states. *)
Definition placed_ok (h : Hold) : Prop := forall s, h_State h = StateOther s -> s = "".
Definition op_ok (o : op) : Prop :=
  match o with OpPlace _ h => placed_ok h | OpExpireDue _ _ order => NoDup order | _ => True end.
Definition store_wf (m : MemStore) : Prop :=
  map_Forall (fun k h => k = key (h_OrgID h) (h_DecisionID h) /\ forall s, h_State h <> StateOther s) m.

(** * Lemmas *)

#[export] Instance evolves_preorder : PreOrder evolves.
Proof.
  split; [intros h; split_and!; [by unfold same_terms | done | done]|].
  intros h1 h2 h3 (Ht1 & Hs1 & Hf1) (Ht2 & Hs2 & Hf2). split_and!; [|by etrans|].
  - unfold same_terms in *. intuition congruence.
  - intros Ht. rewrite <- (Hf1 Ht). apply Hf2. by rewrite (Hf1 Ht).
Qed.

#[export] Instance store_evolves_preorder : PreOrder store_evolves.
Proof.
  split; [intros m k h Hk; by exists h|].
  intros m1 m2 m3 H12 H23 k h Hk. destruct (H12 k h Hk) as (h' & Hk' & Hv).
  destruct (H23 k h' Hk') as (h'' & Hk'' & Hv'). exists h''. split; [done|]. by etrans.
Qed.

Lemma evolves_lifecycle s c v h : edge (h_State h) s -> evolves h (set_lifecycle s c v h).
Proof.
  intros He. split_and!; [by unfold same_terms | by apply rtc_once |].
  intros [Ht|Ht]; rewrite Ht in He; inversion He.
Qed.

Lemma is_due_held now h : is_due now h = true -> h_State h = StateHeld.
Proof. unfold is_due. breflect. tauto. Qed.

Lemma store_evolves_insert m k h h' : m !! k = Some h -> evolves h h' -> store_evolves m (<[k := h']> m).
Proof.
  intros Hk Hv k2 h2 Hk2. destruct (decide (k = k2)) as [<-|Hne].
  - rewrite lookup_insert_eq. eexists. split; [done|]. by simplify_eq.
  - rewrite lookup_insert_ne by done. by exists h2.
Qed.

(** The hold as [resolve] sees it. *)
Definition effective (now : time) (h : Hold) : Hold := if is_due now h then set_State StateExpired h else h.

Lemma effective_evolves now h : evolves h (effective now h).
Proof.
  unfold effective. destruct (is_due now h) eqn:E; [|done]. apply evolves_lifecycle.
  rewrite (is_due_held _ _ E). constructor.
Qed.

Lemma resolve_eq now org id m :
  resolve now org id m =
  match m !! key org id with
  | None => (None, m)
  | Some h => (Some (effective now h), <[key org id := effective now h]> m)
  end.
Proof.
  unfold resolve, effective. destruct (m !! key org id) as [h|] eqn:Ek; [|done].
  destruct (is_due now h); [done|]. by rewrite insert_id.
Qed.

(** The hold a capture leaves, and a void. *)
Definition captured_hold (now2 : time) (h : Hold) : Hold :=
  if decide (h_State h = StateHeld) then mark_captured now2 h else h.
Definition voided_hold (now2 : time) (h : Hold) : Hold :=
  if decide (h_State h = StateHeld \/ h_State h = StateExpired) then mark_voided now2 h else h.

Lemma Capture_eq now now2 org id m :
  Capture now now2 org id m =
  match m !! key org id with
  | None => (Err ErrNotFound, m)
  | Some h =>
    let h1 := effective now h in
    (match h_State h1 with
     | StateVoided => Err (conflict StateVoided "capture" "the hold was voided")
     | StateExpired => Err (conflict StateExpired "capture" "the hold expired before capture")
     | _ => Ok (captured_hold now2 h1)
     end, <[key org id := captured_hold now2 h1]> m)
  end.
Proof.
  unfold Capture. rewrite resolve_eq. destruct (m !! key org id) as [h|]; [|done]. cbn zeta.
  unfold captured_hold. destruct (h_State (effective now h)); cbn; by rewrite ?insert_insert_eq.
Qed.

Lemma Void_eq now now2 org id m :
  Void now now2 org id m =
  match m !! key org id with
  | None => (Err ErrNotFound, m)
  | Some h =>
    let h1 := effective now h in
    (match h_State h1 with
     | StateCaptured => Err (conflict StateCaptured "void" "the hold was already captured")
     | s => Ok (voided_hold now2 h1, bool_decide (s = StateHeld))
     end, <[key org id := voided_hold now2 h1]> m)
  end.
Proof.
  unfold Void. rewrite resolve_eq. destruct (m !! key org id) as [h|]; [|done]. cbn zeta.
  unfold voided_hold. destruct (h_State (effective now h)); cbn; by rewrite ?insert_insert_eq.
Qed.

Lemma captured_hold_id now2 h : h_State h <> StateHeld -> captured_hold now2 h = h.
Proof. intros Hs. unfold captured_hold. by rewrite decide_False. Qed.

Lemma voided_hold_id now2 h : ~ (h_State h = StateHeld \/ h_State h = StateExpired) -> voided_hold now2 h = h.
Proof. intros Hs. unfold voided_hold. by rewrite decide_False. Qed.

Lemma captured_evolves now2 h : evolves h (captured_hold now2 h).
Proof.
  unfold captured_hold. case_decide as E; [|done]. apply evolves_lifecycle. rewrite E. constructor.
Qed.

Lemma voided_evolves now2 h : evolves h (voided_hold now2 h).
Proof.
  unfold voided_hold. case_decide as E; [|done]. apply evolves_lifecycle.
  destruct E as [-> | ->]; constructor.
Qed.

Lemma edge_held s : rtc edge s StateHeld -> s = StateHeld.
Proof. intros H. apply rtc_inv_r in H as [->|(s' & _ & He)]; [done|]. inversion He. Qed.

Lemma edge_captured s : rtc edge s StateCaptured -> s = StateHeld \/ s = StateCaptured.
Proof.
  intros H. apply rtc_inv_r in H as [->|(s' & Hs & He)]; [auto|]. inversion He; subst.
  left. by apply edge_held.
Qed.

Lemma edge_other s t x : rtc edge s t -> t = StateOther x -> s = StateOther x.
Proof. intros H ->. apply rtc_inv_r in H as [->|(s' & Hs & He)]; [done|]. inversion He. Qed.

(** ** The expiry loop *)

Definition hold_key (h : Hold) : string := key (h_OrgID h) (h_DecisionID h).

Lemma ExpireDue_loop_spec now limit order out m out' m' :
  NoDup order -> ExpireDue_loop now limit order out m = (out', m') ->
  exists ks hs, ks `sublist_of` order /\ out' = out ++ (set_State StateExpired <$> hs) /\
    Forall2 (fun k h => m !! k = Some h /\ is_due now h = true) ks hs /\
    (forall k, m' !! k = if decide (k ∈ ks) then set_State StateExpired <$> m !! k else m !! k) /\
    (0 < limit -> Z.of_nat (length out) <= limit -> Z.of_nat (length out') <= limit) /\
    (limit <= 0 -> forall k h, k ∈ order -> m !! k = Some h -> is_due now h = true -> k ∈ ks).
Proof.
  intros Hnd. revert out m. induction Hnd as [|k order Hk Hnd IH]; intros out m; cbn [ExpireDue_loop].
  - intros [= <- <-]. exists [], []. rewrite app_nil_r. split_and!; [done|done|constructor| |lia|].
    + done.
    + intros _ ? ? Hin. by apply not_elem_of_nil in Hin.
  - destruct ((0 <? limit) && _) eqn:El.
    { intros [= <- <-]. exists [], []. rewrite app_nil_r. breflect.
      split_and!; [apply sublist_nil_l | done | constructor | done | lia | lia]. }
    destruct (m !! k) as [h|] eqn:Ek; [destruct (is_due now h) eqn:Ed|]; intros Hrun.
    + apply IH in Hrun as (ks & hs & Hsub & -> & Hall & Hlook & Hlim & Hcov).
      assert (Hnk : k ∉ ks) by (intros Hin; apply Hk; by eapply elem_of_sublist).
      exists (k :: ks), (h :: hs). split_and!.
      * by apply sublist_skip.
      * by rewrite <- app_assoc.
      * constructor; [done|]. clear -Hall Hnk. induction Hall as [|k2 h2 ks hs [Hk2 Hd2] Hall IH]; constructor.
        -- split; [|done]. rewrite lookup_insert_ne in Hk2; [done|]. intros ->. apply Hnk. left.
        -- apply IH. intros Hin. apply Hnk. by right.
      * intros k2. rewrite Hlook. destruct (decide (k2 = k)) as [->|Hne].
        -- rewrite decide_False by done. rewrite decide_True by left. by rewrite lookup_insert_eq, Ek.
        -- rewrite lookup_insert_ne by done. destruct (decide (k2 ∈ ks)) as [Hin|Hin].
           ++ by rewrite decide_True by (by right).
           ++ rewrite decide_False; [done|]. rewrite elem_of_cons. tauto.
      * intros H1 H2. apply Hlim; [done|]. rewrite length_app. cbn. breflect. lia.
      * intros Hl k2 h2 [->|Hin]%elem_of_cons Hk2 Hd2; [left|]. right. destruct (decide (k2 = k)) as [->|]; [done|].
        apply (Hcov Hl k2 h2 Hin); [|done]. by rewrite lookup_insert_ne.
    + apply IH in Hrun as (ks & hs & Hsub & -> & Hall & Hlook & Hlim & Hcov). exists ks, hs. split_and!; try done.
      * by apply sublist_cons.
      * intros Hl k2 h2 [->|Hin]%elem_of_cons Hk2 Hd2; [congruence|]. by eapply Hcov.
    + apply IH in Hrun as (ks & hs & Hsub & -> & Hall & Hlook & Hlim & Hcov). exists ks, hs. split_and!; try done.
      * by apply sublist_cons.
      * intros Hl k2 h2 [->|Hin]%elem_of_cons Hk2 Hd2; [congruence|]. by eapply Hcov.
Qed.

Lemma ExpireDue_spec now limit order m :
  NoDup order ->
  exists ks hs, ks `sublist_of` order /\ (ExpireDue now limit order m).1 = set_State StateExpired <$> hs /\
    Forall2 (fun k h => m !! k = Some h /\ is_due now h = true) ks hs /\
    (forall k, (ExpireDue now limit order m).2 !! k = if decide (k ∈ ks) then set_State StateExpired <$> m !! k else m !! k) /\
    (0 < limit -> Z.of_nat (length hs) <= limit) /\
    (limit <= 0 -> forall k h, k ∈ order -> m !! k = Some h -> is_due now h = true -> k ∈ ks).
Proof.
  intros Hnd. unfold ExpireDue. destruct (ExpireDue_loop now limit order [] m) as [out m'] eqn:E.
  destruct (ExpireDue_loop_spec _ _ _ _ _ _ _ Hnd E) as (ks & hs & Hsub & -> & Hall & Hl & Hlim & Hcov).
  exists ks, hs. rewrite app_nil_l, length_fmap in *. cbn in *. split_and!; try done. intros H. apply Hlim; lia.
Qed.

(** One operation: holds evolve, the store stays well formed, a released hold
    was held and is not any more, and a committed one is captured. *)
Record op_spec (o : op) (m : MemStore) : Prop := {
  os_evolves : store_evolves m (exec o m);
  os_wf : store_wf (exec o m);
  os_release k : k ∈ releases o m ->
    exists h h', m !! k = Some h /\ h_State h = StateHeld /\ exec o m !! k = Some h' /\
                 (h_State h' = StateVoided \/ h_State h' = StateExpired);
  os_nodup : NoDup (releases o m);
  os_commit k : k ∈ commits o m -> exists h', exec o m !! k = Some h' /\ h_State h' = StateCaptured
}.

Lemma evolves_wf k h h' :
  (k = hold_key h /\ forall s, h_State h <> StateOther s) -> evolves h h' ->
  k = hold_key h' /\ forall s, h_State h' <> StateOther s.
Proof.
  unfold hold_key. intros [Hk Hs] (Ht & He & _). unfold same_terms in Ht. split; [intuition congruence|].
  intros s Hs'. apply (Hs s). by eapply edge_other.
Qed.

Lemma store_wf_insert m k h h' : store_wf m -> m !! k = Some h -> evolves h h' -> store_wf (<[k := h']> m).
Proof. intros Hm Hk Hv. apply map_Forall_insert_2; [|done]. by eapply evolves_wf; [apply Hm|]. Qed.

Lemma Place_spec now h m : store_wf m -> placed_ok h -> op_spec (OpPlace now h) m.
Proof.
  intros Hm Hh. constructor; cbn [exec releases commits].
  - unfold Place. destruct (m !! _) eqn:Ek; [done|]. intros k2 h2 Hk2. exists h2. split; [|done].
    rewrite lookup_insert_ne; [done|]. congruence.
  - unfold Place. destruct (m !! _) eqn:Ek; [done|]. apply map_Forall_insert_2; [|done].
    case_bool_decide; destruct (IsZero _); cbn; split; try done; intros s Hs; rewrite Hs in *; by rewrite (Hh s Hs) in *.
  - intros k Hin. by apply not_elem_of_nil in Hin.
  - constructor.
  - intros k Hin. by apply not_elem_of_nil in Hin.
Qed.

Lemma Capture_op now now2 org id m : store_wf m -> op_spec (OpCapture now now2 org id) m.
Proof.
  intros Hm. pose proof (Capture_eq now now2 org id m) as Hc.
  destruct (m !! key org id) as [h|] eqn:Ek.
  - assert (Hv : evolves h (captured_hold now2 (effective now h)))
      by (etrans; [apply effective_evolves | apply captured_evolves]).
    constructor; cbn [exec releases commits]; rewrite ?Hc; cbn zeta; cbn [snd fst].
    + by eapply store_evolves_insert.
    + by eapply store_wf_insert.
    + intros k Hin. by apply not_elem_of_nil in Hin.
    + constructor.
    + intros k. destruct (evolves_wf _ _ _ (Hm _ _ Ek) (effective_evolves now h)) as [_ Ho]. unfold captured_hold.
      destruct (h_State (effective now h)) eqn:Es; intros Hin; try by apply not_elem_of_nil in Hin.
      * apply list_elem_of_singleton in Hin as ->. rewrite lookup_insert_eq. by eexists.
      * apply list_elem_of_singleton in Hin as ->. rewrite lookup_insert_eq. by eexists.
      * by destruct (Ho s).
  - constructor; cbn [exec releases commits]; rewrite ?Hc; cbn; try done; try constructor;
      intros k Hin; by apply not_elem_of_nil in Hin.
Qed.

Lemma Void_op now now2 org id m : store_wf m -> op_spec (OpVoid now now2 org id) m.
Proof.
  intros Hm. pose proof (Void_eq now now2 org id m) as Hc.
  destruct (m !! key org id) as [h|] eqn:Ek.
  - assert (Hv : evolves h (voided_hold now2 (effective now h)))
      by (etrans; [apply effective_evolves | apply voided_evolves]).
    constructor; cbn [exec releases commits]; rewrite ?Hc; cbn zeta; cbn [snd fst].
    + by eapply store_evolves_insert.
    + by eapply store_wf_insert.
    + intros k. unfold voided_hold, effective. destruct (is_due now h) eqn:Ed; cbn.
      { intros Hin. by apply not_elem_of_nil in Hin. }
      destruct (h_State h) eqn:Es; cbn; intros Hin; try by apply not_elem_of_nil in Hin.
      apply list_elem_of_singleton in Hin as ->. rewrite lookup_insert_eq. eexists _, _. split_and!; try done. by left.
    + destruct (h_State (effective now h)); cbn; try constructor. apply not_elem_of_nil. constructor.
    + intros k Hin. by apply not_elem_of_nil in Hin.
  - constructor; cbn [exec releases commits]; rewrite ?Hc; cbn; try done; try constructor;
      intros k Hin; by apply not_elem_of_nil in Hin.
Qed.

Lemma void_released now now2 org id m h' m' :
  store_wf m -> Void now now2 org id m = (Ok (h', true), m') ->
  exists h, m !! hold_key h' = Some h /\ h_State h = StateHeld /\ same_terms h h' /\
            m' !! hold_key h' = Some h' /\ h_State h' = StateVoided.
Proof.
  intros Hm. rewrite Void_eq. destruct (m !! key org id) as [h|] eqn:Ek; [|done]. cbn zeta.
  unfold voided_hold, effective. destruct (is_due now h); cbn; [done|].
  destruct (h_State h) eqn:Es; cbn; try done. intros [= <- <-].
  assert (hold_key (mark_voided now2 h) = key org id) as -> by (symmetry; by destruct (Hm _ _ Ek)).
  exists h. rewrite lookup_insert_eq. by split_and!.
Qed.

Lemma Get_op now org id m : store_wf m -> op_spec (OpGet now org id) m.
Proof.
  intros Hm. constructor; cbn [exec releases commits].
  - unfold Get. rewrite resolve_eq. destruct (m !! key org id) as [h|] eqn:Ek; cbn; [|done].
    eapply store_evolves_insert; [done|]. apply effective_evolves.
  - unfold Get. rewrite resolve_eq. destruct (m !! key org id) as [h|] eqn:Ek; cbn; [|done].
    eapply store_wf_insert; [done..|]. apply effective_evolves.
  - intros k Hin. by apply not_elem_of_nil in Hin.
  - constructor.
  - intros k Hin. by apply not_elem_of_nil in Hin.
Qed.

Lemma ExpireDue_op now limit order m : store_wf m -> NoDup order -> op_spec (OpExpireDue now limit order) m.
Proof.
  intros Hm Hnd. destruct (ExpireDue_spec now limit order m Hnd) as (ks & hs & Hsub & Hout & Hall & Hlook & _ & _).
  assert (Hks : releases (OpExpireDue now limit order) m = ks).
  { cbn. rewrite Hout, <- list_fmap_compose. clear Hout Hlook. induction Hall as [|k h ks hs [Hk _] _ IH]; cbn; [done|].
    rewrite IH by (by eapply sublist_cons_l in Hsub as (? & ? & -> & ?); apply sublist_inserts_l, sublist_cons).
    f_equal. by destruct (Hm _ _ Hk). }
  assert (Hdue : forall k, k ∈ ks -> exists h, m !! k = Some h /\ is_due now h = true).
  { intros k Hin. apply list_elem_of_lookup in Hin as [i Hi].
    destruct (Forall2_lookup_l _ _ _ _ _ Hall Hi) as (h & _ & Hh). by exists h. }
  constructor; rewrite ?Hks; cbn [exec commits].
  - intros k h Hk. rewrite Hlook. destruct (decide (k ∈ ks)) as [Hin|Hin]; [|by exists h].
    rewrite Hk. eexists. split; [done|]. apply Hdue in Hin as (h' & Hk' & Hd). simplify_eq.
    apply evolves_lifecycle. rewrite (is_due_held _ _ Hd). constructor.
  - intros k h. rewrite Hlook. destruct (decide (k ∈ ks)) as [Hin|Hin]; [|by apply Hm].
    apply Hdue in Hin as (h' & Hk' & Hd). rewrite Hk'. intros [= <-].
    eapply evolves_wf; [by apply Hm|]. apply evolves_lifecycle. rewrite (is_due_held _ _ Hd). constructor.
  - intros k Hin. destruct (Hdue k Hin) as (h & Hk & Hd). eexists _, _. split; [done|].
    split; [by eapply is_due_held|]. rewrite Hlook, decide_True, Hk by done. split; [done|]. by right.
  - by eapply sublist_NoDup.
  - intros k Hin. by apply not_elem_of_nil in Hin.
Qed.

Lemma exec_op_spec o m : store_wf m -> op_ok o -> op_spec o m.
Proof.
  intros Hm Ho. destruct o; [by apply Place_spec | by apply Capture_op | by apply Void_op | by apply Get_op | by apply ExpireDue_op].
Qed.

Lemma exec_all_spec ops m :
  store_wf m -> Forall op_ok ops -> store_evolves m (exec_all ops m) /\ store_wf (exec_all ops m).
Proof.
  intros Hm Hops. revert m Hm. induction Hops as [|o ops Ho _ IH]; intros m Hm; [done|].
  pose proof (exec_op_spec o m Hm Ho) as Hs. cbn. destruct (IH _ (os_wf _ _ Hs)) as [He Hw]. split; [|done].
  etrans; [by apply os_evolves | done].
Qed.

(** A hold that is neither held nor captured is not released or committed. *)
Definition settled (s : State) : Prop := s = StateVoided \/ s = StateExpired.

Lemma settled_evolves h h' : evolves h h' -> settled (h_State h) -> settled (h_State h').
Proof.
  intros (_ & He & _) [Hs|Hs]; rewrite Hs in He; apply rtc_inv in He as [<-|(s & He & Hr)]; try (by left); try (by right);
    inversion He; subst; apply rtc_inv in Hr as [<-|(? & He' & _)]; [by left | inversion He'].
Qed.

Lemma release_state ops m k :
  store_wf m -> Forall op_ok ops -> k ∈ all_releases ops m -> forall h, m !! k = Some h -> h_State h = StateHeld.
Proof.
  intros Hm Hops. revert m Hm. induction Hops as [|o ops Ho _ IH]; intros m Hm; cbn.
  { intros Hin. by apply not_elem_of_nil in Hin. }
  pose proof (exec_op_spec o m Hm Ho) as Hs. intros [Hin|Hin]%elem_of_app h Hk.
  - destruct (os_release _ _ Hs k Hin) as (h' & _ & Hk' & Hheld & _). congruence.
  - destruct (os_evolves _ _ Hs k h Hk) as (h' & Hk' & _ & He & _).
    pose proof (IH _ (os_wf _ _ Hs) Hin h' Hk') as Hheld. rewrite Hheld in He. by apply edge_held.
Qed.

Lemma commit_state ops m k :
  store_wf m -> Forall op_ok ops -> k ∈ all_commits ops m ->
  forall h, m !! k = Some h -> h_State h = StateHeld \/ h_State h = StateCaptured.
Proof.
  intros Hm Hops. revert m Hm. induction Hops as [|o ops Ho _ IH]; intros m Hm; cbn.
  { intros Hin. by apply not_elem_of_nil in Hin. }
  pose proof (exec_op_spec o m Hm Ho) as Hs. intros [Hin|Hin]%elem_of_app h Hk.
  - destruct (os_commit _ _ Hs k Hin) as (h1 & Hk1 & Hc).
    destruct (os_evolves _ _ Hs k h Hk) as (h' & Hk' & _ & He & _).
    assert (h' = h1) as -> by congruence. rewrite Hc in He. by apply edge_captured.
  - destruct (os_evolves _ _ Hs k h Hk) as (h' & Hk' & _ & He & _).
    destruct (IH _ (os_wf _ _ Hs) Hin h' Hk') as [Hc|Hc]; rewrite Hc in He; [left; by apply edge_held | by apply edge_captured].
Qed.

(** * Properties *)

(** The lifecycle is the documented state machine: along any sequence of
    operations every hold stays in the store with the terms it was placed with
    (amount, budget, window, expiry), its state moves only along the edges held
    to captured, voided or expired and expired to voided, and a captured or
    voided hold never changes again. *)
Theorem hold_lifecycle ops m (Hm : store_wf m) (Hops : Forall op_ok ops) k h (Hk : m !! k = Some h) :
  exists h', exec_all ops m !! k = Some h' /\ same_terms h h' /\ rtc edge (h_State h) (h_State h') /\
             (terminal (h_State h) -> h' = h).
Proof.
  destruct (exec_all_spec ops m Hm Hops) as [He _]. destruct (He k h Hk) as (h' & Hk' & Hv). by exists h'.
Qed.

(** A reservation is released at most once, and never after or before it is
    committed: along any sequence of operations no hold is handed out for
    release twice (by a void that performed the transition, or by an expiry
    sweep), and no hold is both released and reported captured. *)
Theorem hold_released_once ops m (Hm : store_wf m) (Hops : Forall op_ok ops) :
  NoDup (all_releases ops m) /\ (forall k, k ∈ all_releases ops m -> k ∉ all_commits ops m).
Proof.
  revert m Hm. induction Hops as [|o ops Ho Hops IH]; intros m Hm; cbn.
  { split; [constructor|]. intros k Hin. by apply not_elem_of_nil in Hin. }
  pose proof (exec_op_spec o m Hm Ho) as Hs. destruct (IH _ (os_wf _ _ Hs)) as [Hnd Hdis].
  assert (Hrel : forall k, k ∈ releases o m -> k ∉ all_releases ops (exec o m) /\ k ∉ all_commits ops (exec o m)).
  { intros k Hin. destruct (os_release _ _ Hs k Hin) as (h & h' & _ & _ & Hk' & Hst). split; intros Hin2.
    - pose proof (release_state _ _ _ (os_wf _ _ Hs) Hops Hin2 _ Hk'). destruct Hst; congruence.
    - pose proof (commit_state _ _ _ (os_wf _ _ Hs) Hops Hin2 _ Hk'). destruct Hst, H; congruence. }
  split.
  - apply list.NoDup_app. split; [by apply os_nodup|]. split; [|done]. intros k Hin. by apply Hrel.
  - intros k [Hin|Hin]%elem_of_app [Hc|Hc]%elem_of_app.
    + destruct o; cbn in Hin, Hc; try by apply not_elem_of_nil in Hin. all: by apply not_elem_of_nil in Hc.
    + by apply (proj2 (Hrel k Hin)).
    + destruct (os_commit _ _ Hs k Hc) as (h1 & Hk1 & Hst).
      pose proof (release_state _ _ _ (os_wf _ _ Hs) Hops Hin _ Hk1). congruence.
    + by apply (Hdis k).
Qed.

(** Capture and void on every branch.  A missing hold is not found and the
    store is untouched; otherwise the hold is first expired if due, and then a
    held hold is captured (voided, and reported released), a captured (voided)
    one is returned as it is, an expired one conflicts with capture and is
    voided without a release, and the opposite terminal state conflicts;
    repeating a successful call at any later clock returns the same hold, and a
    repeated void reports no release. *)
Theorem capture_void_spec now now2 org id m :
  (m !! key org id = None ->
     Capture now now2 org id m = (Err ErrNotFound, m) /\ Void now now2 org id m = (Err ErrNotFound, m)) /\
  (forall h, m !! key org id = Some h ->
     let h1 := effective now h in
     (h_State h1 = StateHeld ->
        Capture now now2 org id m = (Ok (mark_captured now2 h1), <[key org id := mark_captured now2 h1]> m) /\
        Void now now2 org id m = (Ok (mark_voided now2 h1, true), <[key org id := mark_voided now2 h1]> m)) /\
     (h_State h1 = StateExpired ->
        (Capture now now2 org id m).1 = Err (conflict StateExpired "capture" "the hold expired before capture") /\
        Void now now2 org id m = (Ok (mark_voided now2 h1, false), <[key org id := mark_voided now2 h1]> m)) /\
     (h_State h1 = StateCaptured ->
        Capture now now2 org id m = (Ok h, m) /\
        Void now now2 org id m = (Err (conflict StateCaptured "void" "the hold was already captured"), m)) /\
     (h_State h1 = StateVoided ->
        Capture now now2 org id m = (Err (conflict StateVoided "capture" "the hold was voided"), m) /\
        Void now now2 org id m = (Ok (h, false), m))) /\
  (forall h m' t t', Capture now now2 org id m = (Ok h, m') -> (Capture t t' org id m' = (Ok h, m') \/ exists s, h_State h = StateOther s)) /\
  (forall h r m' t t', Void now now2 org id m = (Ok (h, r), m') -> (Void t t' org id m' = (Ok (h, false), m') \/ exists s, h_State h = StateOther s)).
Proof.
  assert (Heff : forall t h, terminal (h_State (effective t h)) -> effective t h = h).
  { intros t h. unfold effective. destruct (is_due t h); [|done]. by intros [Ht|Ht]. }
  assert (Hnd : forall t h, terminal (h_State h) -> effective t h = h).
  { intros t h Ht. unfold effective. destruct (is_due t h) eqn:E; [|done]. apply is_due_held in E.
    destruct Ht; congruence. }
  split; [|split; [|split]].
  - intros Hk. by rewrite Capture_eq, Void_eq, Hk.
  - intros h Hk h1. rewrite Capture_eq, Void_eq, Hk. fold h1. cbn zeta.
    split_and!; intros Hs; rewrite Hs.
    + unfold captured_hold, voided_hold. by rewrite !decide_True by auto.
    + unfold voided_hold. by rewrite decide_True by auto.
    + rewrite captured_hold_id, voided_hold_id by (rewrite Hs; intuition congruence).
      assert (h1 = h) as -> by (apply Heff; left; exact Hs). by rewrite insert_id.
    + rewrite captured_hold_id, voided_hold_id by (rewrite Hs; intuition congruence).
      assert (h1 = h) as -> by (apply Heff; right; exact Hs). by rewrite insert_id.
  - intros h m' t t'. rewrite Capture_eq. destruct (m !! key org id) as [h0|] eqn:Hk; [|done]. cbn zeta.
    unfold captured_hold. destruct (h_State (effective now h0)) eqn:Es; cbn; intros [= <- <-]; [left|left|by eauto].
    + rewrite Capture_eq, lookup_insert_eq. cbn zeta. rewrite Hnd by (by left). cbn.
      unfold captured_hold. rewrite decide_False by done. by rewrite insert_insert_eq.
    + rewrite Capture_eq, lookup_insert_eq. cbn zeta. rewrite Hnd by (by left). rewrite Es.
      unfold captured_hold. rewrite decide_False by congruence. by rewrite insert_insert_eq.
  - intros h r m' t t'. rewrite Void_eq. destruct (m !! key org id) as [h0|] eqn:Hk; [|done]. cbn zeta.
    unfold voided_hold. destruct (h_State (effective now h0)) eqn:Es; cbn; intros [= <- <- <-]; [left|left|left|by eauto].
    all: rewrite Void_eq, lookup_insert_eq; cbn zeta; rewrite Hnd by (by right); rewrite ?Es; cbn;
      unfold voided_hold; rewrite decide_False by (cbn; intuition congruence); by rewrite insert_insert_eq.
Qed.

(** An expiry sweep returns exactly the holds it expired: each was held and
    due, is now expired and otherwise unchanged, everything else in the store is
    untouched, at most [limit] are returned, and an unlimited sweep over all keys
    leaves no due hold. *)
Theorem ExpireDue_exact now limit order m (Hm : store_wf m) (Hnd : NoDup order) :
  let '(out, m') := ExpireDue now limit order m in
  (forall h', h' ∈ out -> exists h, m !! hold_key h' = Some h /\ is_due now h = true /\
                                   h' = set_State StateExpired h /\ m' !! hold_key h' = Some h') /\
  (forall k, m' !! k <> m !! k -> exists h', h' ∈ out /\ k = hold_key h') /\
  (0 < limit -> Z.of_nat (length out) <= limit) /\
  (limit <= 0 -> (forall k, is_Some (m !! k) -> k ∈ order) -> forall k h, m' !! k = Some h -> is_due now h = false).
Proof.
  destruct (ExpireDue_spec now limit order m Hnd) as (ks & hs & _ & Hout & Hall & Hlook & Hlim & Hcov).
  destruct (ExpireDue now limit order m) as [out m']. cbn [fst snd] in *. subst out.
  assert (Hkey : forall k h, m !! k = Some h -> hold_key (set_State StateExpired h) = k)
    by (intros k h Hk; symmetry; by destruct (Hm _ _ Hk)).
  rewrite length_fmap. split; [|split; [|split; [done|]]].
  - intros h' Hin. apply list_elem_of_fmap in Hin as (h & -> & Hin). apply list_elem_of_lookup in Hin as [i Hi].
    destruct (Forall2_lookup_r _ _ _ _ _ Hall Hi) as (k & Hi' & Hk & Hd). rewrite (Hkey k h Hk), Hlook.
    exists h. split_and!; try done. rewrite decide_True by (by eapply list_elem_of_lookup_2). by rewrite Hk.
  - intros k. rewrite Hlook. destruct (decide (k ∈ ks)) as [Hin|]; [|done]. intros _.
    apply list_elem_of_lookup in Hin as [i Hi]. destruct (Forall2_lookup_l _ _ _ _ _ Hall Hi) as (h & Hi' & Hk & _).
    exists (set_State StateExpired h). split; [|by rewrite (Hkey k h Hk)].
    apply list_elem_of_fmap. exists h. split; [done|]. by eapply list_elem_of_lookup_2.
  - intros Hl Hdom k h Hk. destruct (is_due now h) eqn:Ed; [exfalso|done].
    rewrite Hlook in Hk. destruct (decide (k ∈ ks)) as [Hin|Hin].
    + destruct (m !! k); [|done]. cbn in Hk. injection Hk as <-. by apply is_due_held in Ed.
    + apply Hin. apply (Hcov Hl k h); [by apply Hdom; eexists | done | done].
Qed.

(** * Witnesses *)

Definition sample_hold (id : string) (expires : time) : Hold :=
  {| h_DecisionID := id; h_OrgID := "org"; h_AgentID := "a"; h_BudgetID := "b1"; h_Window := "day";
     h_WindowKey := "2026-03-02"; h_Amount := "25"; h_Currency := "USD"; h_State := StateHeld;
     h_CreatedAt := 1; h_ExpiresAt := expires; h_CapturedAt := zero_time; h_VoidedAt := zero_time |}.

Definition sample_store : MemStore := Place 1 (sample_hold "d2" 50) (Place 1 (sample_hold "d1" 100) NewMemStore).

Lemma sample_store_wf : store_wf sample_store.
Proof.
  assert (H : forall id t, placed_ok (sample_hold id t)) by (intros id t s; discriminate).
  apply (os_wf (OpPlace 1 (sample_hold "d2" 50))), Place_spec, H.
  apply (os_wf (OpPlace 1 (sample_hold "d1" 100))), Place_spec, H. apply map_Forall_empty.
Qed.

Definition sample_ops : list op :=
  [OpExpireDue 60 0 ["org|d1"; "org|d2"]; OpCapture 70 71 "org" "d1"; OpVoid 80 81 "org" "d1"; OpVoid 90 91 "org" "d2"].

Lemma sample_ops_ok : Forall op_ok sample_ops.
Proof. repeat constructor; set_solver. Qed.

Lemma hold_lifecycle_witness :
  exists h', exec_all sample_ops sample_store !! "org|d1" = Some h' /\ same_terms (sample_hold "d1" 100) h' /\
             rtc edge StateHeld (h_State h') /\ (terminal StateHeld -> h' = sample_hold "d1" 100).
Proof. exact (hold_lifecycle sample_ops sample_store sample_store_wf sample_ops_ok "org|d1" (sample_hold "d1" 100) eq_refl). Defined.

Lemma hold_released_once_witness :
  all_releases sample_ops sample_store = ["org|d2"] /\ NoDup (all_releases sample_ops sample_store).
Proof. split; [reflexivity | apply (hold_released_once sample_ops sample_store sample_store_wf sample_ops_ok)]. Defined.

Lemma capture_void_spec_witness : Capture 70 71 "org" "d9" sample_store = (Err ErrNotFound, sample_store).
Proof. apply (capture_void_spec 70 71 "org" "d9" sample_store). reflexivity. Defined.

Lemma ExpireDue_exact_witness :
  let '(out, m') := ExpireDue 60 0 ["org|d1"; "org|d2"] sample_store in
  length out = 1%nat /\ (0 < 0 -> Z.of_nat (length out) <= 0).
Proof.
  pose proof (ExpireDue_exact 60 0 ["org|d1"; "org|d2"] sample_store sample_store_wf ltac:(repeat constructor; set_solver)) as H.
  destruct (ExpireDue _ _ _ _) as [out m'] eqn:E. split; [|apply H]. vm_compute in E. injection E as <- _. reflexivity.
Defined.

(** A read of a due hold expires it without handing it out for release, so the
    sweep that follows returns nothing: its amount stays on the counter, although
    [Void] calls such a hold already released by the reconciler. *)
Example lazy_expiry_is_never_released :
  all_releases [OpGet 60 "org" "d2"; OpExpireDue 60 0 ["org|d1"; "org|d2"]; OpVoid 90 91 "org" "d2"] sample_store = [] /\
  h_State <$> exec_all [OpGet 60 "org" "d2"; OpExpireDue 60 0 ["org|d1"; "org|d2"]; OpVoid 90 91 "org" "d2"] sample_store !! "org|d2"
    = Some StateVoided.
Proof. split; reflexivity. Qed.
