(* ===== verification/HoldStore.v ===== *)
(** The [hold.Store] interface ([internal/hold/hold.go]), what it promises, and
    the in-memory implementation's proof that it keeps the promise. *)

From S2P Require Import Prelude GoTime Hold Runtime.

Record HoldStore (W : Type) := {
  store_Place : Hold -> io W (result hold_error unit);
  store_Capture : string -> string -> io W (result hold_error Hold);
  store_Void : string -> string -> io W (result hold_error (Hold * bool));
  store_Get : string -> string -> io W (result hold_error Hold);
  store_ExpireDue : time -> Z -> io W (result hold_error (list Hold));
  store_ListActiveByWindow : string -> string -> string -> io W (result hold_error (list Hold))
}.
Arguments store_Place {W} _ _.
Arguments store_Capture {W} _ _ _.
Arguments store_Void {W} _ _ _.
Arguments store_Get {W} _ _ _.
Arguments store_ExpireDue {W} _ _ _.
Arguments store_ListActiveByWindow {W} _ _ _ _.

(** Holds evolve and none appears or disappears. *)
Definition evolves_only (m m' : MemStore) : Prop := store_evolves m m' /\ dom m' = dom m.

(** What the code above the store relies on.  [ledger] reads the reservations of
    the world, [other] the part of it the store does not own.  A released hold
    was held before the call and is released after it; an error changes no
    terms. *)
Class HoldStoreSpec {W V : Type} (S : HoldStore W) (ledger : W -> MemStore) (other : W -> V) := {
  place_law h w : placed_ok h -> store_wf (ledger w) ->
    let '(r, w') := store_Place S h w in
    other w' = other w /\
    match r with
    | Err _ => ledger w' = ledger w
    | Ok _ =>
      (is_Some (ledger w !! hold_key h) /\ ledger w' = ledger w) \/
      (ledger w !! hold_key h = None /\
       exists h', ledger w' = <[hold_key h := h']> (ledger w) /\ (forall s, h_State h' <> StateOther s) /\
         h_DecisionID h' = h_DecisionID h /\ h_OrgID h' = h_OrgID h /\ h_BudgetID h' = h_BudgetID h /\
         h_WindowKey h' = h_WindowKey h /\ h_Amount h' = h_Amount h)
    end;
  capture_law org id w : store_wf (ledger w) ->
    other (store_Capture S org id w).2 = other w /\ evolves_only (ledger w) (ledger (store_Capture S org id w).2);
  get_hold_law org id w : store_wf (ledger w) ->
    other (store_Get S org id w).2 = other w /\ evolves_only (ledger w) (ledger (store_Get S org id w).2);
  void_law org id w : store_wf (ledger w) ->
    let '(r, w') := store_Void S org id w in
    other w' = other w /\ evolves_only (ledger w) (ledger w') /\
    forall h', r = Ok (h', true) ->
      exists h, ledger w !! hold_key h' = Some h /\ h_State h = StateHeld /\ same_terms h h' /\
                ledger w' !! hold_key h' = Some h' /\ h_State h' = StateVoided;
  expire_law now limit w : store_wf (ledger w) ->
    let '(r, w') := store_ExpireDue S now limit w in
    other w' = other w /\ evolves_only (ledger w) (ledger w') /\
    forall out, r = Ok out ->
      NoDup (hold_key <$> out) /\
      forall h', h' ∈ out ->
        exists h, ledger w !! hold_key h' = Some h /\ h_State h = StateHeld /\ same_terms h h' /\
                  ledger w' !! hold_key h' = Some h' /\ h_State h' = StateExpired
}.

(** * The in-memory store behind the interface *)

Section mem.
Context {W : Type} `{Runtime W} (get : W -> MemStore) (put : MemStore -> W -> W) (order : W -> list string).

(** [m.now()] is read when an operation needs it; the clock readings of one
    operation are consecutive. *)
Definition MemStore_store : HoldStore W :=
  {| store_Place h := fun w => let '(t, w) := now w in (Ok tt, put (Place t h (get w)) w);
     store_Capture org id := fun w =>
       let '(t, w) := now w in let '(t', w) := now w in
       let '(r, m) := Capture t t' org id (get w) in (r, put m w);
     store_Void org id := fun w =>
       let '(t, w) := now w in let '(t', w) := now w in
       let '(r, m) := Void t t' org id (get w) in (r, put m w);
     store_Get org id := fun w =>
       let '(t, w) := now w in let '(r, m) := Get t org id (get w) in (r, put m w);
     store_ExpireDue now limit := fun w =>
       let '(out, m) := ExpireDue now limit (order w) (get w) in (Ok out, put m w);
     store_ListActiveByWindow org b wk := fun w => (Ok (ListActiveByWindow org b wk (order w) (get w)), w) |}.
End mem.

(** ** It keeps the promise *)

Lemma exec_dom o m : (forall now h, o <> OpPlace now h) -> op_ok o -> dom (exec o m) = dom m.
Proof.
  intros Ho Hok. destruct o as [now h|now now2 org id|now now2 org id|now org id|now limit order]; cbn [exec].
  - by destruct (Ho now h).
  - rewrite Capture_eq. destruct (m !! key org id) as [h|] eqn:Ek; [|done]. cbn. rewrite dom_insert_lookup_L; [done|by eexists].
  - rewrite Void_eq. destruct (m !! key org id) as [h|] eqn:Ek; [|done]. cbn. rewrite dom_insert_lookup_L; [done|by eexists].
  - unfold Get. rewrite resolve_eq. destruct (m !! key org id) as [h|] eqn:Ek; [|done]. cbn.
    rewrite dom_insert_lookup_L; [done|by eexists].
  - destruct (ExpireDue_spec now limit order m Hok) as (ks & hs & _ & _ & _ & Hlook & _).
    apply set_eq. intros k. rewrite !elem_of_dom, Hlook. case_decide; [|done]. by rewrite fmap_is_Some.
Qed.

Lemma exec_evolves_only o m :
  (forall now h, o <> OpPlace now h) -> op_ok o -> store_wf m -> evolves_only m (exec o m).
Proof. intros Ho Hok Hm. split; [by apply os_evolves, exec_op_spec | by apply exec_dom]. Qed.

Section mem_spec.
Context {W V : Type} `{Runtime W} (get : W -> MemStore) (put : MemStore -> W -> W) (order : W -> list string) (other : W -> V).
Context `{!Frame get} `{!Frame other}.
Context (get_put : forall m w, get (put m w) = m) (other_put : forall m w, other (put m w) = other w).
Context (order_nodup : forall w, NoDup (order w)).

Lemma MemStore_spec : HoldStoreSpec (MemStore_store get put order) get other.
Proof using Type*.
  split.
  - intros h w Hh Hm. cbn. destruct (now w) as [t w1] eqn:Et.
    pose proof (now_frame_eq (view:=get) _ _ _ Et) as Hg.
    pose proof (now_frame_eq (view:=other) _ _ _ Et) as Ho.
    rewrite other_put, get_put, Hg. split; [done|]. unfold Place, hold_key.
    destruct (get w !! key (h_OrgID h) (h_DecisionID h)) eqn:Ek; [left; by split|]. right. split; [done|].
    eexists. split; [done|]. case_bool_decide as Es; destruct (IsZero _); cbn; split_and!; try done;
      intros s Hs; apply Es; rewrite Hs; by rewrite (Hh s Hs).
  - intros org id w Hm. cbn. destruct (now w) as [t w1] eqn:Et. destruct (now w1) as [t' w2] eqn:Et'.
    pose proof (now_frame_eq2 (view:=get) _ _ _ _ _ Et Et') as Hg.
    pose proof (now_frame_eq2 (view:=other) _ _ _ _ _ Et Et') as Ho.
    pose proof (exec_evolves_only (OpCapture t t' org id) (get w) ltac:(done) ltac:(done) Hm) as He. cbn in He.
    rewrite Hg. destruct (Capture t t' org id (get w)) as [r m]. cbn. by rewrite other_put, get_put.
  - intros org id w Hm. cbn. destruct (now w) as [t w1] eqn:Et.
    pose proof (now_frame_eq (view:=get) _ _ _ Et) as Hg.
    pose proof (now_frame_eq (view:=other) _ _ _ Et) as Ho.
    pose proof (exec_evolves_only (OpGet t org id) (get w) ltac:(done) ltac:(done) Hm) as He. cbn in He.
    rewrite Hg. destruct (Get t org id (get w)) as [r m]. cbn. by rewrite other_put, get_put.
  - intros org id w Hm. cbn. destruct (now w) as [t w1] eqn:Et. destruct (now w1) as [t' w2] eqn:Et'.
    pose proof (now_frame_eq2 (view:=get) _ _ _ _ _ Et Et') as Hg.
    pose proof (now_frame_eq2 (view:=other) _ _ _ _ _ Et Et') as Ho.
    pose proof (exec_evolves_only (OpVoid t t' org id) (get w) ltac:(done) ltac:(done) Hm) as He. cbn [exec] in He.
    rewrite Hg. destruct (Void t t' org id (get w)) as [r m] eqn:Ev. cbn [snd] in He. rewrite other_put, get_put.
    split; [done|]. split; [done|]. intros h' ->. by apply (void_released t t' org id).
  - intros t limit w Hm. cbn.
    pose proof (exec_evolves_only (OpExpireDue t limit (order w)) (get w) ltac:(done) (order_nodup w) Hm) as He. cbn [exec] in He.
    pose proof (ExpireDue_exact t limit (order w) (get w) Hm (order_nodup w)) as Hx.
    destruct (ExpireDue t limit (order w) (get w)) as [out m] eqn:Ex. cbn [snd] in He. rewrite other_put, get_put.
    split; [done|]. split; [done|]. intros out' [= <-]. split.
    + pose proof (os_nodup _ _ (ExpireDue_op t limit (order w) (get w) Hm (order_nodup w))) as Hnd. cbn in Hnd. by rewrite Ex in Hnd.
    + intros h' Hin. destruct Hx as [Hx _]. destruct (Hx h' Hin) as (h & Hk & Hd & -> & Hk').
      exists h. split_and!; try done; by eapply is_due_held.
Qed.
End mem_spec.
