(* ===== verification/Pg.v ===== *)
(** What the Postgres stores share: what becomes of a statement, and what a
    text or jsonb column accepts. *)

From S2P Require Import Prelude GoStrings GoTime Contracts.

(** It runs, it is refused, or it runs and its answer is lost. *)
Inductive fault := Live | Refused (msg : string) | Lost (msg : string).

(** What the encoding UTF8 takes, in a column or as a parameter: text that is
    valid and has no zero byte.  A jsonb column refuses the escape of one; text
    that is not valid does not get there, as [json.Marshal] replaces it. *)
Definition text_ok (s : string) : bool := no_char (chr 0) s && String.eqb (to_valid s) s.

Fixpoint jsonb_ok (j : json) : bool :=
  match j with
  | JStr s => text_ok s
  | JArr l => forallb jsonb_ok l
  | JObj l => forallb (fun p => text_ok p.1 && jsonb_ok p.2) l
  | _ => true
  end.

(** A [timestamptz] keeps microseconds, here rounded down. *)
Definition micros (t : time) : time := t / 1000 * 1000.

(** A scan that reads every row of a table once reads its rows. *)
Lemma scan_rows_perm {A} (t : gmap string A) scan :
  NoDup scan -> (forall k, is_Some (t !! k) -> k ∈ scan) -> omap (fun k => t !! k) scan ≡ₚ (map_to_list t).*2.
Proof.
  intros Hn Hs. assert (Hp : omap (fun k => (fun x => (k, x)) <$> t !! k) scan ≡ₚ map_to_list t).
  { apply NoDup_Permutation; [|apply NoDup_map_to_list|].
    - clear Hs. induction Hn as [|k l Hk _ IH]; [constructor|]. cbn. destruct (t !! k) as [x|]; [|done]. cbn. apply list.NoDup_cons. split; [|done].
      intros (k' & Hk' & E)%list_elem_of_omap. destruct (t !! k'); [|done]. cbn in E. injection E as -> _. done.
    - intros [k x]. rewrite list_elem_of_omap, elem_of_map_to_list. split.
      + intros (k' & _ & E). destruct (t !! k') eqn:E'; [|done]. cbn in E. by injection E as -> ->.
      + intros Hk. exists k. split; [by apply Hs|]. by rewrite Hk. }
  rewrite <- Hp. clear. induction scan as [|k l IH]; [done|]. cbn. destruct (t !! k); cbn; by rewrite IH.
Qed.
