(* ===== verification/HoldPg.v ===== *)
(** The Postgres hold store ([internal/hold/postgres.go]) on the table
    [budget_reservations].

    A call is a sequence of SQL statements, so it is a thread that makes one
    statement per step; [Capture] and [Void] that lose a race start over.  A
    statement can fail, and its answer can be lost after it ran.  [stored] is
    what a [timestamptz] column keeps of an instant; a NULL stamp is the zero
    time.  A database row's own clock, [now()], and the process's are separate
    arguments. *)

From S2P Require Import Prelude GoTime Hold Pg.

Abbreviation row_key := (string * string)%type.
Abbreviation Rows := (gmap row_key Hold).

Definition on_db {A} (f : fault) (s : Rows -> A * Rows) (t : Rows) : result hold_error A * Rows :=
  match f with
  | Live => let '(a, t') := s t in (Ok a, t')
  | Refused msg => (Err (ErrStore msg), t)
  | Lost msg => (Err (ErrStore msg), (s t).2)
  end.

Inductive pg_call :=
| PgPlace (h : Hold)
| PgGet (org id : string)
| PgCapture (org id : string)
| PgVoid (org id : string).

(** What a call returns; a pointer that can be nil is an option. *)
Inductive pg_answer :=
| APlace (r : result hold_error unit)
| AGet (r : result hold_error Hold)
| ACapture (org id : string) (r : result hold_error Hold)
| AVoid (org id : string) (h : option Hold) (released : bool) (err : option hold_error)
| ASweep (r : result hold_error (list Hold)).

(** Where a call is: not started, between two of its statements, or done. *)
Inductive pg_thread :=
| PCall (c : pg_call)
| PCapUpdate (org id : string)
| PCapReread (org id : string)
| PVoidUpdate (org id : string)
| PVoidAck (org id : string)
| PVoidReread (org id : string) (released : bool)
| PFlip (keys : list row_key)
| PDone (a : pg_answer).

Section pg.
Context (stored : time -> time).

(** * The statements *)

Definition insert_hold (now : time) (h : Hold) (t : Rows) : unit * Rows :=
  let created := if IsZero (h_CreatedAt h) then now else h_CreatedAt h in
  let k := (h_OrgID h, h_DecisionID h) in
  match t !! k with
  | Some _ => (tt, t)
  | None =>
    (tt, <[k := {| h_DecisionID := h_DecisionID h; h_OrgID := h_OrgID h; h_AgentID := h_AgentID h;
                   h_BudgetID := h_BudgetID h; h_Window := h_Window h; h_WindowKey := h_WindowKey h;
                   h_Amount := h_Amount h; h_Currency := h_Currency h; h_State := StateHeld;
                   h_CreatedAt := stored created; h_ExpiresAt := stored (h_ExpiresAt h);
                   h_CapturedAt := zero_time; h_VoidedAt := zero_time |}]> t)
  end.

(** [UPDATE ... WHERE org_id=$1 AND decision_id=$2 AND state=...], which
    answers with the number of rows it changed. *)
Definition update_row (s : State) (f : Hold -> Hold) (org id : string) (t : Rows) : nat * Rows :=
  match t !! (org, id) with
  | Some h => if bool_decide (h_State h = s) then (1%nat, <[(org, id) := f h]> t) else (0%nat, t)
  | None => (0%nat, t)
  end.

(** The subquery of [ExpireDue]: the keys of the held rows past their expiry,
    earliest first, at most [limit]; [scan] is the order the table is read in. *)
Definition due_rows (now : time) (limit : nat) (scan : list row_key) (t : Rows) : list row_key :=
  let due := filter (fun k => match t !! k with
                              | Some h => bool_decide (h_State h = StateHeld) && (h_ExpiresAt h <=? now)
                              | None => false
                              end = true) scan in
  let le k k' := match t !! k, t !! k' with Some h, Some h' => h_ExpiresAt h <=? h_ExpiresAt h' | _, _ => true end in
  take limit (sort_by le due).

(** The outer update: every row the subquery chose, whatever its state now. *)
Fixpoint flip_rows (keys : list row_key) (t : Rows) : list Hold * Rows :=
  match keys with
  | [] => ([], t)
  | k :: keys =>
    match t !! k with
    | Some h =>
      let h' := set_State StateExpired h in
      let '(out, t') := flip_rows keys (<[k := h']> t) in (h' :: out, t')
    | None => flip_rows keys t
    end
  end.

(** The whole statement, when no other commits between its two halves. *)
Definition Pg_ExpireDue (now : time) (limit : nat) (scan : list row_key) (t : Rows) : list Hold * Rows :=
  flip_rows (due_rows (stored now) limit scan t) t.

Definition Pg_ListActiveByWindow (org budgetID windowKey : string) (scan : list row_key) (t : Rows) : list Hold :=
  filter (fun h => active_in org budgetID windowKey h = true) (omap (fun k => t !! k) scan).

(** * The calls *)

Definition pg_effective (now : time) (h : Hold) : Hold :=
  if bool_decide (h_State h = StateHeld) && negb (IsZero (h_ExpiresAt h)) && negb (Before now (h_ExpiresAt h))
  then set_State StateExpired h else h.

Definition Pg_Get (f : fault) (app : time) (org id : string) (t : Rows) : result hold_error Hold :=
  match on_db f (fun t => (t !! (org, id), t)) t with
  | (Ok (Some h), _) => Ok (pg_effective app h)
  | (Ok None, _) => Err ErrNotFound
  | (Err e, _) => Err e
  end.

(** One statement of a thread; [app] is what [time.Now()] reads after it, [db]
    what [now()] reads in it. *)
Definition pg_exec (f : fault) (app db : time) (th : pg_thread) (t : Rows) : pg_thread * Rows :=
  match th with
  | PCall (PgPlace h) =>
    let '(r, t') := on_db f (insert_hold app h) t in (PDone (APlace r), t')
  | PCall (PgGet org id) => (PDone (AGet (Pg_Get f app org id t)), t)
  | PCall (PgCapture org id) =>
    (match Pg_Get f app org id t with
     | Err e => PDone (ACapture org id (Err e))
     | Ok h =>
       match h_State h with
       | StateCaptured => PDone (ACapture org id (Ok h))
       | StateVoided => PDone (ACapture org id (Err (conflict StateVoided "capture" "the hold was voided")))
       | StateExpired => PDone (ACapture org id (Err (conflict StateExpired "capture" "the hold expired before capture")))
       | _ => PCapUpdate org id
       end
     end, t)
  | PCapUpdate org id =>
    let '(r, t') := on_db f (update_row StateHeld (mark_captured (stored db)) org id) t in
    (match r with
     | Err e => PDone (ACapture org id (Err e))
     | Ok O => PCall (PgCapture org id)
     | Ok (S _) => PCapReread org id
     end, t')
  | PCapReread org id => (PDone (ACapture org id (Pg_Get f app org id t)), t)
  | PCall (PgVoid org id) =>
    (match Pg_Get f app org id t with
     | Err e => PDone (AVoid org id None false (Some e))
     | Ok h =>
       match h_State h with
       | StateVoided => PDone (AVoid org id (Some h) false None)
       | StateExpired => PVoidAck org id
       | StateCaptured =>
         PDone (AVoid org id None false (Some (conflict StateCaptured "void" "the hold was already captured")))
       | _ => PVoidUpdate org id
       end
     end, t)
  | PVoidAck org id =>
    let '(r, t') := on_db f (update_row StateExpired (mark_voided (stored db)) org id) t in
    (match r with
     | Err e => PDone (AVoid org id None false (Some e))
     | Ok _ => PVoidReread org id false
     end, t')
  | PVoidUpdate org id =>
    let '(r, t') := on_db f (update_row StateHeld (mark_voided (stored db)) org id) t in
    (match r with
     | Err e => PDone (AVoid org id None false (Some e))
     | Ok O => PCall (PgVoid org id)
     | Ok (S _) => PVoidReread org id true
     end, t')
  | PVoidReread org id false =>
    (PDone (match Pg_Get f app org id t with Ok h => AVoid org id (Some h) false None | Err _ => AVoid org id None false None end), t)
  | PVoidReread org id true =>
    (PDone (match Pg_Get f app org id t with Ok h => AVoid org id (Some h) true None | Err e => AVoid org id None true (Some e) end), t)
  | PFlip keys =>
    let '(r, t') := on_db f (flip_rows keys) t in (PDone (ASweep r), t')
  | PDone a => (PDone a, t)
  end.

(** * Calls, sweeps and statements interleaved *)

Record pg_system := { pg_rows : Rows; pg_threads : list pg_thread }.

Definition row_key_of (h : Hold) : row_key := (h_OrgID h, h_DecisionID h).

(** The reservations a thread has released, or tells its caller to release. *)
Definition released_by (th : pg_thread) : list row_key :=
  match th with
  | PVoidReread org id true => [(org, id)]
  | PDone (AVoid org id _ true _) => [(org, id)]
  | PDone (ASweep (Ok hs)) => row_key_of <$> hs
  | _ => []
  end.

(** The reservations a thread has committed, or reports committed. *)
Definition captured_by (th : pg_thread) : list row_key :=
  match th with
  | PCapReread org id => [(org, id)]
  | PDone (ACapture org id (Ok _)) => [(org, id)]
  | _ => []
  end.

(** A call arrives, a thread makes a statement, or a sweep runs in one go. *)
Inductive pg_step : pg_system -> pg_system -> Prop :=
| pg_arrive c t ths :
    pg_step {| pg_rows := t; pg_threads := ths |} {| pg_rows := t; pg_threads := PCall c :: ths |}
| pg_thread_step f app db th t ths1 ths2 : (forall keys, th <> PFlip keys) ->
    pg_step {| pg_rows := t; pg_threads := ths1 ++ th :: ths2 |}
            {| pg_rows := (pg_exec f app db th t).2; pg_threads := ths1 ++ (pg_exec f app db th t).1 :: ths2 |}
| pg_sweep f now limit scan t ths : NoDup scan ->
    pg_step {| pg_rows := t; pg_threads := ths |}
            {| pg_rows := (on_db f (Pg_ExpireDue now limit scan) t).2;
               pg_threads := PDone (ASweep (on_db f (Pg_ExpireDue now limit scan) t).1) :: ths |}.

Definition pg_init : pg_system := {| pg_rows := ∅; pg_threads := [] |}.

(** ** Rows *)

Definition rows_wf (t : Rows) : Prop :=
  map_Forall (fun k h => k = row_key_of h /\ forall s, h_State h <> StateOther s) t.

Definition rows_evolve (t t' : Rows) : Prop :=
  forall k h, t !! k = Some h -> exists h', t' !! k = Some h' /\ evolves h h'.

Definition gone (t : Rows) (k : row_key) : Prop :=
  exists h, t !! k = Some h /\ (h_State h = StateVoided \/ h_State h = StateExpired).
Definition committed (t : Rows) (k : row_key) : Prop :=
  exists h, t !! k = Some h /\ h_State h = StateCaptured.

#[export] Instance rows_evolve_preorder : PreOrder rows_evolve.
Proof using Type.
  split; [intros t k h Hk; by exists h|].
  intros t1 t2 t3 H12 H23 k h Hk. destruct (H12 k h Hk) as (h' & Hk' & Hv).
  destruct (H23 k h' Hk') as (h'' & Hk'' & Hv'). exists h''. split; [done|]. by etrans.
Qed.

Lemma edge_from_gone s s' : rtc edge s s' -> s = StateVoided \/ s = StateExpired -> s' = StateVoided \/ s' = StateExpired.
Proof using Type. induction 1 as [|a b c Hab _ IH]; [done|]. intros Ha. apply IH. destruct Hab, Ha; try done; auto. Qed.

Lemma gone_evolve t t' k : rows_evolve t t' -> gone t k -> gone t' k.
Proof using Type.
  intros He (h & Hk & Hs). destruct (He k h Hk) as (h' & Hk' & _ & Hr & _). exists h'. split; [done|].
  by eapply edge_from_gone.
Qed.

Lemma committed_evolve t t' k : rows_evolve t t' -> committed t k -> committed t' k.
Proof using Type.
  intros He (h & Hk & Hs). destruct (He k h Hk) as (h' & Hk' & _ & _ & Ht). exists h'. split; [done|].
  rewrite Ht; [done|]. by left.
Qed.

Lemma gone_not_committed t k : gone t k -> committed t k -> False.
Proof using Type. intros (h & Hk & Hs) (h' & Hk' & Hs'). destruct Hs; congruence. Qed.

(** One row goes along an edge. *)
Lemma row_insert t k h s c v :
  rows_wf t -> t !! k = Some h -> edge (h_State h) s ->
  rows_wf (<[k := set_lifecycle s c v h]> t) /\ rows_evolve t (<[k := set_lifecycle s c v h]> t).
Proof using Type.
  intros Hwf Hk He. split.
  - apply map_Forall_insert_2; [|done]. destruct (Hwf k h Hk) as [Hkey _]. split; [by rewrite Hkey|].
    intros x Hx. cbn in Hx. subst s. inversion He.
  - intros k2 h2 Hk2. destruct (decide (k = k2)) as [<-|Hne].
    + rewrite lookup_insert_eq. eexists. split; [done|]. simplify_eq. by apply evolves_lifecycle.
    + rewrite lookup_insert_ne by done. by exists h2.
Qed.

Lemma on_db_cases {A} (f : fault) (s : Rows -> A * Rows) t :
  (on_db f s t = (Ok (s t).1, (s t).2)) \/ (exists m, on_db f s t = (Err (ErrStore m), t)) \/
  (exists m, on_db f s t = (Err (ErrStore m), (s t).2)).
Proof using Type. destruct f; cbn; [left; by destruct (s t) | right; left; by eexists | right; right; by eexists]. Qed.

Lemma pg_effective_eq now h : pg_effective now h = effective now h.
Proof using Type. done. Qed.

Lemma Pg_Get_ok f app org id t h :
  Pg_Get f app org id t = Ok h -> exists h0, t !! (org, id) = Some h0 /\ h = pg_effective app h0.
Proof using Type.
  unfold Pg_Get. destruct f; cbn; [|done..]. destruct (t !! (org, id)) as [h0|]; [|done]. intros [= <-]. by exists h0.
Qed.

Lemma update_row_spec s f org id t :
  (exists h, t !! (org, id) = Some h /\ h_State h = s /\ update_row s f org id t = (1%nat, <[(org, id) := f h]> t)) \/
  update_row s f org id t = (0%nat, t).
Proof using Type.
  unfold update_row. destruct (t !! (org, id)) as [h|] eqn:Ek; [|by right].
  case_bool_decide as E; [left; by exists h | by right].
Qed.

(** What a statement may do to the rows and to the thread's promises. *)
Definition good_step (th : pg_thread) (t : Rows) (th' : pg_thread) (t' : Rows) : Prop :=
  rows_wf t' /\ rows_evolve t t' /\
  (released_by th' = released_by th \/
   (released_by th = [] /\ NoDup (released_by th') /\
    forall k, k ∈ released_by th' -> (exists h, t !! k = Some h /\ h_State h = StateHeld) /\ gone t' k)) /\
  (forall k, k ∈ captured_by th' -> k ∈ captured_by th \/ committed t' k).

Lemma good_idle th th' t :
  rows_wf t -> released_by th' = released_by th -> captured_by th' = [] -> good_step th t th' t.
Proof using Type.
  intros Hwf Hr Hc. split_and!; [done | done | by left|]. rewrite Hc. intros k Hk. by apply not_elem_of_nil in Hk.
Qed.

Lemma committed_effective t org id app h0 :
  t !! (org, id) = Some h0 -> h_State (pg_effective app h0) = StateCaptured -> committed t (org, id).
Proof using Type.
  intros Hk Hs. exists h0. split; [done|]. unfold pg_effective in Hs. by destruct (_ && _).
Qed.

Lemma committed_reread t org id f app h :
  rows_wf t -> Pg_Get f app org id t = Ok h -> committed t (org, id) -> h_State h = StateCaptured.
Proof using Type.
  intros Hwf (h0 & Hk & ->)%Pg_Get_ok (h1 & Hk1 & Hs). assert (h1 = h0) as -> by congruence.
  unfold pg_effective. rewrite bool_decide_false by congruence. done.
Qed.

(** An update of one row from [s] along an edge, through a live or failing
    database. *)
Lemma update_good f s s' c v org id t :
  rows_wf t -> edge s s' ->
  let g := fun h => set_lifecycle s' (c h) (v h) h in
  let '(r, t') := on_db f (update_row s g org id) t in
  rows_wf t' /\ rows_evolve t t' /\
  match r with
  | Ok (S _) => exists h, t !! (org, id) = Some h /\ h_State h = s /\ exists h', t' !! (org, id) = Some h' /\ h_State h' = s'
  | Ok O => t' = t
  | Err _ => True
  end.
Proof using Type.
  intros Hwf He g. assert (Hu : let '(n, t') := update_row s g org id t in
    rows_wf t' /\ rows_evolve t t' /\
    match n with
    | S _ => exists h, t !! (org, id) = Some h /\ h_State h = s /\ exists h', t' !! (org, id) = Some h' /\ h_State h' = s'
    | O => t' = t
    end).
  { destruct (update_row_spec s g org id t) as [(h & Hk & Hs & ->)| ->]; [|by split_and!].
    destruct (row_insert t (org, id) h s' (c h) (v h) Hwf Hk) as [H1 H2]; [by rewrite Hs|].
    split_and!; [done | done|]. exists h. split_and!; [done | done|]. eexists. rewrite lookup_insert_eq. by split. }
  destruct (on_db_cases f (update_row s g org id) t) as [-> |[(m & ->)|(m & ->)]];
    destruct (update_row s g org id t) as [n t'] eqn:E; cbn.
  - done.
  - by split_and!.
  - destruct Hu as (H1 & H2 & _). by split_and!.
Qed.

(** Close the goal of a thread that captures nothing. *)
Ltac none_captured := solve [intros ? Hin; destruct (not_elem_of_nil _ Hin)].

Lemma place_good f app h t :
  rows_wf t -> good_step (PCall (PgPlace h)) t (pg_exec f app 0 (PCall (PgPlace h)) t).1 (pg_exec f app 0 (PCall (PgPlace h)) t).2.
Proof using Type.
  intros Hwf. cbn. assert (Hi : rows_wf (insert_hold app h t).2 /\ rows_evolve t (insert_hold app h t).2).
  { unfold insert_hold. destruct (t !! (h_OrgID h, h_DecisionID h)) eqn:Ek; [by split|]. cbn. split.
    - apply map_Forall_insert_2; [|done]. by split.
    - intros k2 h2 Hk2. exists h2. split; [|done]. rewrite lookup_insert_ne; [done|]. congruence. }
  destruct Hi as [H1 H2].
  destruct (on_db_cases f (insert_hold app h) t) as [-> |[(m & ->)|(m & ->)]]; cbn;
    (split_and!; [done | done | by left | none_captured]).
Qed.

(** Every statement is good. *)
Lemma pg_exec_good f app db th t :
  (forall keys, th <> PFlip keys) -> rows_wf t -> (forall k, k ∈ captured_by th -> committed t k) ->
  good_step th t (pg_exec f app db th t).1 (pg_exec f app db th t).2.
Proof using Type.
  intros Hf Hwf Hc. destruct th as [[h|org id|org id|org id]|org id|org id|org id|org id|org id rel|keys|a]; cbn [pg_exec].
  - exact (place_good f app h t Hwf).
  - by apply good_idle.
  - cbn. destruct (Pg_Get f app org id t) as [h|e] eqn:Eg; [|by apply good_idle].
    destruct (h_State h) eqn:Es; try by apply good_idle.
    apply Pg_Get_ok in Eg as (h0 & Hk & ->). split_and!; [done | done | by left|].
    intros k Hin. right. apply list_elem_of_singleton in Hin as ->. by eapply committed_effective.
  - cbn. destruct (Pg_Get f app org id t) as [h|e]; [|by apply good_idle]. by destruct (h_State h); apply good_idle.
  - pose proof (update_good f StateHeld StateCaptured (fun _ => stored db) h_VoidedAt org id t Hwf ltac:(constructor)) as Hu.
    change (fun h => set_lifecycle StateCaptured (stored db) (h_VoidedAt h) h) with (mark_captured (stored db)) in Hu.
    cbv zeta in Hu. destruct (on_db f _ t) as [r t']. destruct Hu as (H1 & H2 & H3).
    destruct r as [[|n]|e]; cbn; (split_and!; [done | done | by left|]); try none_captured.
    intros k Hin. apply list_elem_of_singleton in Hin as ->. right. destruct H3 as (h & _ & _ & h' & Hk' & Hs').
    by exists h'.
  - cbn. split_and!; [done | done | by left|]. intros k Hin. left. cbn. by destruct (Pg_Get f app org id t); [|apply not_elem_of_nil in Hin].
  - pose proof (update_good f StateHeld StateVoided h_CapturedAt (fun _ => stored db) org id t Hwf ltac:(constructor)) as Hu.
    change (fun h => set_lifecycle StateVoided (h_CapturedAt h) (stored db) h) with (mark_voided (stored db)) in Hu.
    cbv zeta in Hu. destruct (on_db f _ t) as [r t']. destruct Hu as (H1 & H2 & H3).
    destruct r as [[|n]|e]; cbn; (split_and!; [done | done | | none_captured]); try by left.
    right. split_and!; [done | by apply NoDup_singleton|]. intros k Hin. apply list_elem_of_singleton in Hin as ->.
    destruct H3 as (h & Hk & Hs & h' & Hk' & Hs'). split; [by exists h|]. exists h'. by split; [|left].
  - pose proof (update_good f StateExpired StateVoided h_CapturedAt (fun _ => stored db) org id t Hwf ltac:(constructor)) as Hu.
    change (fun h => set_lifecycle StateVoided (h_CapturedAt h) (stored db) h) with (mark_voided (stored db)) in Hu.
    cbv zeta in Hu. destruct (on_db f _ t) as [r t']. destruct Hu as (H1 & H2 & H3).
    destruct r as [n|e]; cbn; (split_and!; [done | done | by left | none_captured]).
  - by destruct rel; cbn; destruct (Pg_Get f app org id t); apply good_idle.
  - by destruct (Hf keys).
  - split_and!; [done | done | by left|]. by left.
Qed.

(** ** The sweep *)

Lemma due_rows_spec now limit scan t :
  NoDup scan -> NoDup (due_rows now limit scan t) /\
  forall k, k ∈ due_rows now limit scan t -> exists h, t !! k = Some h /\ h_State h = StateHeld /\ h_ExpiresAt h <= now.
Proof using Type.
  clear stored.
  intros Hnd. unfold due_rows. set (le := fun k k' => _). set (due := filter _ scan). split.
  - eapply sublist_NoDup; [|apply sublist_take]. rewrite sort_by_perm. by apply list.NoDup_filter.
  - intros k Hk. assert (Hin : k ∈ due) by (rewrite <- (sort_by_elem le); eapply elem_of_sublist; [exact Hk | apply sublist_take]).
    apply list_elem_of_filter in Hin as [Hp _]. destruct (t !! k) as [h|]; [|done]. exists h. breflect. tauto.
Qed.

Lemma flip_rows_spec keys t :
  rows_wf t -> NoDup keys -> (forall k, k ∈ keys -> exists h, t !! k = Some h /\ h_State h = StateHeld) ->
  rows_wf (flip_rows keys t).2 /\ rows_evolve t (flip_rows keys t).2 /\
  row_key_of <$> (flip_rows keys t).1 = keys /\ (forall k, k ∈ keys -> gone (flip_rows keys t).2 k).
Proof using Type.
  intros Hwf Hnd. revert t Hwf. induction Hnd as [|k keys Hk Hnd IH]; intros t Hwf Hheld; cbn [flip_rows].
  { split_and!; [done | done | done|]. intros k Hin. by apply not_elem_of_nil in Hin. }
  destruct (Hheld k) as (h & Ek & Hs); [by left|]. rewrite Ek.
  destruct (row_insert t k h StateExpired (h_CapturedAt h) (h_VoidedAt h) Hwf Ek) as [H1 H2]; [rewrite Hs; constructor|].
  destruct (IH (<[k := set_State StateExpired h]> t) H1) as (J1 & J2 & J3 & J4).
  { intros k2 Hin. destruct (Hheld k2) as (h2 & Hk2 & Hs2); [by right|]. exists h2. split; [|done].
    rewrite lookup_insert_ne; [done|]. by intros ->. }
  destruct (flip_rows keys (<[k := set_State StateExpired h]> t)) as [out t'] eqn:E. cbn in *.
  split_and!; [done | by etrans| |].
  - rewrite J3. f_equal. by destruct (Hwf k h Ek) as [-> _].
  - intros k2 [->|Hin]%elem_of_cons; [|by apply J4]. eapply gone_evolve; [exact J2|].
    eexists. rewrite lookup_insert_eq. split; [done|]. by right.
Qed.

Lemma sweep_good (f : fault) now limit scan t :
  NoDup scan -> rows_wf t ->
  good_step (PCall (PgGet "" "")) t (PDone (ASweep (on_db f (Pg_ExpireDue now limit scan) t).1)) (on_db f (Pg_ExpireDue now limit scan) t).2.
Proof using Type.
  intros Hnd Hwf. destruct (due_rows_spec (stored now) limit scan t Hnd) as [Hd Hh].
  destruct (flip_rows_spec (due_rows (stored now) limit scan t) t Hwf Hd) as (H1 & H2 & H3 & H4).
  { intros k Hk. destruct (Hh k Hk) as (h & Hk' & Hs & _). by exists h. }
  set (r := flip_rows _ t) in *. assert (Hrel : released_by (PDone (ASweep (Ok r.1))) = due_rows (stored now) limit scan t) by done.
  destruct (on_db_cases f (Pg_ExpireDue now limit scan) t) as [-> |[(m & ->)|(m & ->)]];
    (split_and!; [done | done | | none_captured]); [|by left..].
  right. cbn [fst]. fold r in Hrel |- *. change (Pg_ExpireDue now limit scan t) with r. rewrite Hrel.
  split; [done|]. split; [done|]. intros k Hk. split; [|by apply H4].
  destruct (Hh k Hk) as (h & Hk' & Hs & _). by exists h.
Qed.

(** ** The system *)

Record pg_ok (s : pg_system) : Prop := {
  po_wf : rows_wf (pg_rows s);
  po_nodup : NoDup (pg_threads s ≫= released_by);
  po_gone k : k ∈ pg_threads s ≫= released_by -> gone (pg_rows s) k;
  po_committed k : k ∈ pg_threads s ≫= captured_by -> committed (pg_rows s) k
}.

(** Replacing one thread by the thread a good step leaves. *)
Lemma pg_ok_step ths1 th ths2 t th' t' :
  pg_ok {| pg_rows := t; pg_threads := ths1 ++ th :: ths2 |} -> good_step th t th' t' ->
  pg_ok {| pg_rows := t'; pg_threads := ths1 ++ th' :: ths2 |}.
Proof using Type.
  intros [Hwf Hnd Hg Hc] (H1 & H2 & H3 & H4). cbn in *. rewrite !bind_app in *. cbn in *.
  split; cbn; rewrite ?bind_app; cbn.
  - done.
  - destruct H3 as [-> |(Hr & Hn & Hk)]; [done|]. rewrite Hr in *. cbn in *.
    rewrite Permutation_app_comm, <- app_assoc. apply list.NoDup_app. split_and!; [done| |by rewrite Permutation_app_comm].
    intros k Hin Hin'. destruct (Hk k Hin) as [(h & Ek & Hs) _].
    destruct (Hg k) as (h' & Ek' & Hs'); [rewrite !elem_of_app in *; tauto|]. destruct Hs'; congruence.
  - intros k Hin. destruct H3 as [Hr|(Hr & _ & Hk)]; rewrite !elem_of_app in Hin.
    + rewrite Hr in Hin. eapply gone_evolve; [exact H2|]. apply Hg. rewrite !elem_of_app. done.
    + destruct Hin as [Hin|[Hin|Hin]]; [|by apply Hk|]; (eapply gone_evolve; [exact H2|]; apply Hg; rewrite !elem_of_app; tauto).
  - intros k Hin. rewrite !elem_of_app in Hin.
    destruct Hin as [Hin|[Hin|Hin]]; [|destruct (H4 k Hin) as [Hin'|Hcm]; [|done]|];
      (eapply committed_evolve; [exact H2|]; apply Hc; rewrite !elem_of_app; tauto).
Qed.

(** A thread that has promised nothing may appear or go. *)
Lemma pg_ok_silent th ths t :
  released_by th = [] -> captured_by th = [] ->
  pg_ok {| pg_rows := t; pg_threads := ths |} -> pg_ok {| pg_rows := t; pg_threads := th :: ths |}.
Proof using Type. intros Hr Hc [H1 H2 H3 H4]. split; cbn; rewrite ?Hr, ?Hc; done. Qed.

Lemma pg_ok_preserved s s' : pg_step s s' -> pg_ok s -> rows_evolve (pg_rows s) (pg_rows s') /\ pg_ok s'.
Proof using Type.
  intros Hstep Hok. destruct Hstep as [c t ths|f app db th t ths1 ths2 Hf|f now limit scan t ths Hnd].
  - split; [done|]. by apply pg_ok_silent.
  - assert (Hg : good_step th t (pg_exec f app db th t).1 (pg_exec f app db th t).2).
    { apply pg_exec_good; [done | by destruct Hok|]. intros k Hk. apply (po_committed _ Hok). cbn.
      rewrite bind_app, elem_of_app. cbn. rewrite elem_of_app. tauto. }
    split; [by destruct Hg as (_ & ? & _)|]. by eapply pg_ok_step.
  - pose proof (sweep_good f now limit scan t Hnd (po_wf _ Hok)) as Hg.
    split; [by destruct Hg as (_ & ? & _)|].
    apply (pg_ok_step [] (PCall (PgGet "" "")) ths t _ _); [|done]. by apply pg_ok_silent.
Qed.


(** * Every call ends *)

(** How many statements a call may still need: a hold that is settled needs
    fewer than one that is held, or not there yet. *)
Definition settled_row (t : Rows) (k : row_key) : bool :=
  match t !! k with Some h => negb (bool_decide (h_State h = StateHeld)) | None => false end.

Definition left_to_do (th : pg_thread) (t : Rows) : nat :=
  match th with
  | PCall (PgPlace _) | PCall (PgGet _ _) | PFlip _ => 1
  | PCall (PgCapture org id) => if settled_row t (org, id) then 1 else 3
  | PCapUpdate org id => match t !! (org, id) with Some _ => 2 | None => 4 end
  | PCapReread _ _ | PVoidReread _ _ _ => 1
  | PCall (PgVoid org id) => if settled_row t (org, id) then 3 else 5
  | PVoidUpdate org id => match t !! (org, id) with Some _ => 4 | None => 6 end
  | PVoidAck _ _ => 2
  | PDone _ => 0
  end.

(** A thread and the rows: before each of its statements, other calls may have
    moved the rows along the lifecycle or added some. *)
Inductive interleaved : nat -> pg_thread -> Rows -> pg_thread -> Rows -> Prop :=
| il_nil th t : interleaved 0 th t th t
| il_step n f app db th t t1 th2 t2 :
    rows_evolve t t1 -> rows_wf t1 -> interleaved n (pg_exec f app db th t1).1 (pg_exec f app db th t1).2 th2 t2 ->
    interleaved (S n) th t th2 t2.

Lemma settled_row_evolve t t1 k : rows_evolve t t1 -> settled_row t k = true -> settled_row t1 k = true.
Proof using Type.
  intros He. unfold settled_row. destruct (t !! k) as [h|] eqn:Ek; [|done]. destruct (He k h Ek) as (h' & -> & _ & Hr & _).
  rewrite !negb_true_iff, !bool_decide_eq_false. intros Hs. revert Hs. clear -Hr.
  induction Hr as [|a b c Hab _ IH]; [done|]. intros Ha. apply IH. by destruct Hab.
Qed.

Lemma left_to_do_evolve th t t1 : rows_evolve t t1 -> (left_to_do th t1 <= left_to_do th t)%nat.
Proof using Type.
  intros He. assert (Hin : forall k, is_Some (t !! k) -> is_Some (t1 !! k)) by (intros k [h Hk]; destruct (He k h Hk) as (h' & -> & _); by eexists).
  destruct th as [[]| | | | | | |]; cbn; try lia.
  1,2: destruct (settled_row t (org, id)) eqn:Es; [rewrite (settled_row_evolve t) by done; lia|]; destruct (settled_row t1 (org, id)); lia.
  all: destruct (t !! (org, id)) eqn:Ek; [destruct (Hin (org, id)) as [h' ->]; [by eexists|lia]|]; destruct (t1 !! (org, id)); lia.
Qed.

(** What a read says of the row, and a guarded update that missed. *)
Lemma read_state f app org id t h :
  rows_wf t -> Pg_Get f app org id t = Ok h ->
  match h_State h with
  | StateHeld => settled_row t (org, id) = false /\ is_Some (t !! (org, id))
  | StateOther _ => False
  | _ => True
  end.
Proof using Type.
  intros Hwf (h0 & Hk & ->)%Pg_Get_ok. destruct (Hwf _ _ Hk) as [_ Ho]. unfold settled_row. rewrite Hk.
  unfold pg_effective. destruct (_ && _); [done|]. destruct (h_State h0) eqn:Es.
  1: by split; [rewrite bool_decide_true|eexists].
  4: by apply (Ho s).
  all: done.
Qed.

Lemma update_missed f g org id t t' :
  on_db f (update_row StateHeld g org id) t = (Ok O, t') -> is_Some (t !! (org, id)) -> settled_row t' (org, id) = true.
Proof using Type.
  intros E [h Hk]. destruct f; cbn in E; [|done..]. unfold update_row in E. rewrite Hk in E. case_bool_decide as Hs; [done|].
  injection E as <-. unfold settled_row. rewrite Hk. by rewrite bool_decide_false.
Qed.

Lemma left_to_do_exec f app db th t :
  rows_wf t -> (0 < left_to_do th t)%nat -> (left_to_do (pg_exec f app db th t).1 (pg_exec f app db th t).2 < left_to_do th t)%nat.
Proof using Type.
  intros Hwf. destruct th as [[h|org id|org id|org id]|org id|org id|org id|org id|org id rel|keys|a]; cbn; intros Hpos; try lia.
  - destruct (on_db _ _ _). cbn. lia.
  - destruct (Pg_Get f app org id t) as [h|e] eqn:Eg; [|cbn; case_match; lia]. apply read_state in Eg; [|done].
    destruct (h_State h); cbn; [destruct Eg as [-> [h0 ->]]; lia | try done; case_match; lia..].
  - destruct (Pg_Get f app org id t) as [h|e] eqn:Eg; [|cbn; case_match; lia]. apply read_state in Eg; [|done].
    destruct (h_State h); cbn; [destruct Eg as [-> [h0 ->]]; lia | try done; case_match; lia..].
  - destruct (on_db f _ t) as [r t'] eqn:E. cbn. destruct r as [[|n]|e]; cbn; [|case_match; lia..].
    destruct (t !! (org, id)) as [h|] eqn:Ek; [|case_match; lia]. rewrite (update_missed _ _ _ _ _ _ E) by (by eexists). lia.
  - destruct (on_db f _ t) as [r t'] eqn:E. cbn. destruct r as [[|n]|e]; cbn; [|case_match; lia..].
    destruct (t !! (org, id)) as [h|] eqn:Ek; [|case_match; lia]. rewrite (update_missed _ _ _ _ _ _ E) by (by eexists). lia.
  - destruct (on_db f _ t) as [[n|e] t']; cbn; lia.
  - destruct rel; cbn; lia.
  - destruct (on_db f _ t) as [r t']; cbn; lia.
Qed.

(** C31: Every call ends.  Whatever the other calls do to the rows between its
    statements, however the database fails, and though capture and void call
    themselves again after a race they lost, each call has an answer after at
    most five of its own statements. *)
Theorem pg_calls_terminate c n t th t' :
  interleaved n (PCall c) t th t' -> (5 <= n)%nat -> exists a, th = PDone a.
Proof using Type.
  intros Hrun Hn. assert (Hle : (left_to_do (PCall c) t <= n)%nat) by (destruct c; cbn; try case_match; lia).
  clear Hn. induction Hrun as [th t|n f app db th t t1 th2 t2 He Hwf _ IH].
  - destruct th as [[]| | | | | | |a]; cbn in Hle; try case_match; try lia. by exists a.
  - apply IH. pose proof (left_to_do_evolve th t t1 He) as Hev.
    destruct (decide (left_to_do th t1 = 0%nat)) as [Hz|Hz].
    + destruct th as [[]| | | | | | |a]; cbn in Hz |- *; try case_match; lia.
    + pose proof (left_to_do_exec f app db th t1 Hwf). lia.
Qed.

(** * A call that runs alone *)

(** Run a thread against a live database; each statement has its own clock
    readings. *)
Fixpoint run_alone (clock : list (time * time)) (th : pg_thread) (t : Rows) : pg_thread * Rows :=
  match clock with
  | [] => (th, t)
  | (app, db) :: clock => let '(th', t') := pg_exec Live app db th t in run_alone clock th' t'
  end.

Definition due_at (now : time) (r : option Hold) : bool := match r with Some h => is_due now h | None => false end.

Definition void_answer (org id : string) (r : result hold_error (Hold * bool)) : pg_answer :=
  match r with
  | Ok (h, released) => AVoid org id (Some h) released None
  | Err e => AVoid org id None false (Some e)
  end.

Lemma effective_settled now h : h_State h <> StateHeld -> effective now h = h.
Proof using Type. intros Hs. unfold effective, is_due. by rewrite bool_decide_false. Qed.

Lemma effective_not_due now h : is_due now h = false -> effective now h = h.
Proof using Type. intros Hd. unfold effective. by rewrite Hd. Qed.

Lemma effective_due now h : is_due now h = true -> effective now h = set_State StateExpired h.
Proof using Type. intros Hd. unfold effective. by rewrite Hd. Qed.

Lemma is_due_mono a b h : a <= b -> is_due a h = true -> is_due b h = true.
Proof using Type. clear stored. unfold is_due, Before. intros Hab. breflect. intuition lia. Qed.

Lemma Pg_Get_live app org id t :
  Pg_Get Live app org id t = match t !! (org, id) with Some h => Ok (effective app h) | None => Err ErrNotFound end.
Proof using Type. done. Qed.

Lemma update_row_live s f org id t h :
  t !! (org, id) = Some h ->
  on_db Live (update_row s f org id) t = if bool_decide (h_State h = s) then (Ok 1%nat, <[(org, id) := f h]> t) else (Ok 0%nat, t).
Proof using Type. intros Ek. cbn. unfold update_row. rewrite Ek. by case_bool_decide. Qed.

Section alone.
Context (org id : string) (t : Rows) (m : MemStore) (a1 a2 a3 d1 d2 d3 : time).
Context (Hwf : rows_wf t) (Hm : m !! key org id = t !! (org, id)).

Let clock := [(a1, d1); (a2, d2); (a3, d3)].

Lemma capture_alone :
  (run_alone clock (PCall (PgCapture org id)) t).1 = PDone (ACapture org id (Capture a1 (stored d2) org id m).1) /\
  effective a1 <$> (run_alone clock (PCall (PgCapture org id)) t).2 !! (org, id) = (Capture a1 (stored d2) org id m).2 !! key org id.
Proof using Hwf Hm.
  rewrite Capture_eq, Hm. unfold clock. cbn [run_alone pg_exec]. rewrite Pg_Get_live.
  destruct (t !! (org, id)) as [h|] eqn:Ek; cbn [run_alone pg_exec fst snd]; [|by rewrite Ek, Hm].
  destruct (Hwf _ _ Ek) as [_ Hs]. destruct (h_State (effective a1 h)) eqn:Es; cbn [run_alone pg_exec].
  2-4: cbn [fst snd]; rewrite Ek, lookup_insert_eq; cbn;
    rewrite (captured_hold_id _ (effective a1 h)) by (by rewrite Es); by split.
  - assert (Hd : is_due a1 h = false) by (destruct (is_due a1 h) eqn:Hd; [|done]; by rewrite (effective_due _ _ Hd) in Es).
    rewrite (effective_not_due _ _ Hd) in *. rewrite (update_row_live _ _ _ _ _ _ Ek), bool_decide_true by done.
    cbn [run_alone pg_exec fst snd]. rewrite Pg_Get_live, !lookup_insert_eq. unfold captured_hold. rewrite decide_True by done.
    cbn [fmap option_fmap option_map]. by rewrite !effective_settled by done.
  - destruct (Hs s). by eapply (edge_other _ _ s (proj1 (proj2 (effective_evolves a1 h)))).
Qed.

Lemma void_alone_due : due_at a1 (t !! (org, id)) = true -> a1 <= a3 ->
  run_alone clock (PCall (PgVoid org id)) t = (PDone (AVoid org id (set_State StateExpired <$> t !! (org, id)) false None), t).
Proof using Type.
  clear Hwf Hm.
  intros Hd Ha. unfold clock. cbn [run_alone pg_exec]. rewrite Pg_Get_live.
  destruct (t !! (org, id)) as [h|] eqn:Ek; [|done]. cbn in Hd. rewrite (effective_due _ _ Hd). cbn [h_State set_State set_lifecycle run_alone pg_exec].
  rewrite (update_row_live _ _ _ _ _ _ Ek), bool_decide_false by (by rewrite (is_due_held _ _ Hd)).
  cbn [run_alone pg_exec]. rewrite Pg_Get_live, Ek. by rewrite (effective_due _ _ (is_due_mono _ _ _ Ha Hd)).
Qed.

Lemma void_alone : due_at a1 (t !! (org, id)) = false ->
  (run_alone clock (PCall (PgVoid org id)) t).1 = PDone (void_answer org id (Void a1 (stored d2) org id m).1) /\
  (run_alone clock (PCall (PgVoid org id)) t).2 !! (org, id) = (Void a1 (stored d2) org id m).2 !! key org id.
Proof using Hwf Hm.
  intros Hd. rewrite Void_eq, Hm. unfold clock. cbn [run_alone pg_exec]. rewrite Pg_Get_live.
  destruct (t !! (org, id)) as [h|] eqn:Ek; cbn [run_alone pg_exec fst snd]; [|by rewrite Ek, Hm].
  cbn in Hd. rewrite (effective_not_due _ _ Hd). destruct (Hwf _ _ Ek) as [_ Hs]. cbv zeta.
  destruct (h_State h) eqn:Es; cbn [run_alone pg_exec].
  - rewrite (update_row_live _ _ _ _ _ _ Ek), bool_decide_true by done.
    cbn [run_alone pg_exec fst snd]. rewrite Pg_Get_live, !lookup_insert_eq, effective_settled by done.
    unfold voided_hold. rewrite decide_True by auto. by rewrite bool_decide_true.
  - cbn [fst snd]. rewrite Ek, lookup_insert_eq, voided_hold_id by (rewrite Es; intuition congruence). done.
  - cbn [fst snd]. rewrite Ek, lookup_insert_eq, voided_hold_id by (rewrite Es; intuition congruence).
    by rewrite bool_decide_false.
  - rewrite (update_row_live _ _ _ _ _ _ Ek), bool_decide_true by done.
    cbn [run_alone pg_exec fst snd]. rewrite Pg_Get_live, !lookup_insert_eq, effective_settled by done.
    unfold voided_hold. rewrite decide_True by auto. by rewrite bool_decide_false.
  - by destruct (Hs s eq_refl).
Qed.
Lemma get_alone :
  run_alone clock (PCall (PgGet org id)) t = (PDone (AGet (Get a1 org id m).1), t) /\
  effective a1 <$> t !! (org, id) = (Get a1 org id m).2 !! key org id.
Proof using Hm.
  unfold clock, Get. cbn [run_alone pg_exec]. rewrite Pg_Get_live, resolve_eq, Hm. destruct (t !! (org, id)) as [h|]; [|done].
  cbn [fst snd]. by rewrite lookup_insert_eq.
Qed.

(** A hold as the callers place it, whose times the columns keep. *)
Definition new_hold (now : time) (h : Hold) : Prop :=
  (h_State h = StateHeld \/ h_State h = StateOther "") /\ h_CapturedAt h = zero_time /\ h_VoidedAt h = zero_time /\
  stored (h_ExpiresAt h) = h_ExpiresAt h /\ stored (if IsZero (h_CreatedAt h) then now else h_CreatedAt h) = (if IsZero (h_CreatedAt h) then now else h_CreatedAt h).

Lemma place_alone h : h_OrgID h = org -> h_DecisionID h = id -> new_hold a1 h ->
  (run_alone clock (PCall (PgPlace h)) t).1 = PDone (APlace (Ok tt)) /\
  (run_alone clock (PCall (PgPlace h)) t).2 !! (org, id) = Place a1 h m !! key org id.
Proof using Hm.
  intros <- <- (Hs & Hc & Hv & He & Hcr). unfold clock, Place. cbn [run_alone pg_exec on_db]. unfold insert_hold. rewrite Hm.
  destruct (t !! (h_OrgID h, h_DecisionID h)) as [h0|] eqn:Ek; cbn [run_alone pg_exec fst snd]; [by rewrite Ek, Hm|].
  split; [done|]. rewrite !lookup_insert_eq, He, Hcr. destruct h as [d o ag b wd wk am cu st cr ex ca vo]. cbn in *. subst ca vo.
  destruct Hs as [-> | ->]; [rewrite !bool_decide_false by done|rewrite !bool_decide_true by done]; cbn; by destruct (IsZero cr).
Qed.
End alone.

(** C30: A call of the Postgres hold store that runs alone answers as the
    in-memory store.  A place (of a hold as callers make it, with times the
    columns keep), a read, a capture and a void end within three statements with
    the in-memory store's answer, and the row they leave reads as the in-memory
    store's hold.  The one difference is a void past the expiry of a hold that
    no sweep has seen: it leaves the row to the sweep and reports it expired,
    where the in-memory store voids it and its amount is never released. *)
Theorem pg_refines_memory org id t m a1 a2 a3 d1 d2 d3 :
  rows_wf t -> m !! key org id = t !! (org, id) -> a1 <= a3 ->
  let run := run_alone [(a1, d1); (a2, d2); (a3, d3)] in
  let '(capture, t1) := run (PCall (PgCapture org id)) t in
  let '(void, t2) := run (PCall (PgVoid org id)) t in
  (capture = PDone (ACapture org id (Capture a1 (stored d2) org id m).1) /\
   effective a1 <$> t1 !! (org, id) = (Capture a1 (stored d2) org id m).2 !! key org id) /\
  (if due_at a1 (t !! (org, id)) then
     void = PDone (AVoid org id (set_State StateExpired <$> t !! (org, id)) false None) /\ t2 = t
   else
     void = PDone (void_answer org id (Void a1 (stored d2) org id m).1) /\
     t2 !! (org, id) = (Void a1 (stored d2) org id m).2 !! key org id) /\
  (run (PCall (PgGet org id)) t = (PDone (AGet (Get a1 org id m).1), t) /\
   effective a1 <$> t !! (org, id) = (Get a1 org id m).2 !! key org id) /\
  forall h, h_OrgID h = org -> h_DecisionID h = id -> new_hold a1 h ->
    (run (PCall (PgPlace h)) t).1 = PDone (APlace (Ok tt)) /\ (run (PCall (PgPlace h)) t).2 !! (org, id) = Place a1 h m !! key org id.
Proof using Type.
  intros Hwf Hm Ha run.
  pose proof (capture_alone org id t m a1 a2 a3 d1 d2 d3 Hwf Hm) as Hc.
  pose proof (void_alone_due org id t a1 a2 a3 d1 d2 d3) as Hv1.
  pose proof (void_alone org id t m a1 a2 a3 d1 d2 d3 Hwf Hm) as Hv2. fold run in Hc, Hv1, Hv2.
  destruct (run (PCall (PgCapture org id)) t) as [c t1]. destruct (run (PCall (PgVoid org id)) t) as [v t2].
  split; [done|]. split; [|split; [exact (get_alone org id t m a1 a2 a3 d1 d2 d3 Hm)|intros h; by apply place_alone]].
  destruct (due_at a1 (t !! (org, id))); [specialize (Hv1 eq_refl Ha); by simplify_eq | by apply Hv2].
Qed.
End pg.

(** * On concrete rows *)

Definition row (state : State) : Hold :=
  {| h_DecisionID := "d1"; h_OrgID := "org"; h_AgentID := "a"; h_BudgetID := "b1"; h_Window := "day"; h_WindowKey := "2026-03-02";
     h_Amount := "60.00"; h_Currency := "USD"; h_State := state; h_CreatedAt := 1000; h_ExpiresAt := 90000;
     h_CapturedAt := zero_time; h_VoidedAt := zero_time |}.
Definition held_rows : Rows := {[ ("org", "d1") := row StateHeld ]}.

(** A schedule of the system, for examples. *)
Inductive pg_event :=
| EArrive (c : pg_call)
| EStep (n : nat) (f : fault) (app db : time)
| ESweep (f : fault) (now : time) (limit : nat) (scan : list row_key).

Definition pg_play (e : pg_event) (s : pg_system) : pg_system :=
  match e with
  | EArrive c => {| pg_rows := pg_rows s; pg_threads := PCall c :: pg_threads s |}
  | EStep n f app db =>
    match pg_threads s !! n with
    | None | Some (PFlip _) => s
    | Some th =>
      {| pg_rows := (pg_exec micros f app db th (pg_rows s)).2;
         pg_threads := take n (pg_threads s) ++ (pg_exec micros f app db th (pg_rows s)).1 :: drop (S n) (pg_threads s) |}
    end
  | ESweep f now limit scan =>
    if decide (NoDup scan) then
      {| pg_rows := (on_db f (Pg_ExpireDue micros now limit scan) (pg_rows s)).2;
         pg_threads := PDone (ASweep (on_db f (Pg_ExpireDue micros now limit scan) (pg_rows s)).1) :: pg_threads s |}
    else s
  end.

Lemma pg_play_steps es s : rtc (pg_step micros) s (foldl (fun s e => pg_play e s) s es).
Proof.
  revert s. induction es as [|e es IH]; intros s; cbn [foldl]; [done|]. etrans; [|apply IH]. clear.
  destruct s as [t ths]. destruct e as [c|n f app db|f now limit scan]; cbn [pg_play pg_rows pg_threads].
  - apply rtc_once. constructor.
  - destruct (ths !! n) as [th|] eqn:En; [|done].
    assert (Hs : (forall keys, th <> PFlip keys) -> rtc (pg_step micros) {| pg_rows := t; pg_threads := ths |}
      {| pg_rows := (pg_exec micros f app db th t).2; pg_threads := take n ths ++ (pg_exec micros f app db th t).1 :: drop (S n) ths |}).
    { intros Hf. apply rtc_once. rewrite <- (take_drop_middle ths n th En) at 1. by constructor. }
    destruct th; try (by apply Hs); done.
  - case_decide; [|done]. apply rtc_once. by constructor.
Qed.

(** Two voids race for one hold, whose row a capture then finds voided. *)
Definition void_race : list pg_event :=
  [ EArrive (PgPlace (row StateHeld)); EStep 0 Live 2000 2000;
    EArrive (PgVoid "org" "d1"); EArrive (PgVoid "org" "d1"); EStep 0 Live 3000 3000; EStep 1 Live 3000 3000;
    EStep 0 Live 4000 4000; EStep 1 Live 5000 5000; EStep 1 Live 6000 6000; EStep 0 Live 7000 7000;
    EArrive (PgCapture "org" "d1"); EStep 0 Live 8000 8000; ESweep Live 95000 10 [("org", "d1")] ].
Definition after_race : pg_system := foldl (fun s e => pg_play e s) pg_init void_race.

Example void_race_answers :
  pg_threads after_race =
  [ PDone (ASweep (Ok [])); PDone (ACapture "org" "d1" (Err (conflict StateVoided "capture" "the hold was voided")));
    PDone (AVoid "org" "d1" (Some (mark_voided 4000 (row StateHeld))) true None);
    PDone (AVoid "org" "d1" (Some (mark_voided 4000 (row StateHeld))) false None); PDone (APlace (Ok tt)) ].
Proof. vm_compute. reflexivity. Qed.


Lemma held_rows_wf : rows_wf held_rows.
Proof. apply map_Forall_singleton. by split. Qed.

Lemma pg_refines_memory_witness :
  rows_wf held_rows /\
  run_alone micros [(5000, 5000); (6000, 6500); (7000, 7000)] (PCall (PgVoid "org" "d1")) held_rows =
  (PDone (AVoid "org" "d1" (Some (mark_voided 6000 (row StateHeld))) true None),
   {[ ("org", "d1") := mark_voided 6000 (row StateHeld) ]}).
Proof.
  pose proof (pg_refines_memory micros "org" "d1" held_rows {[ "org|d1" := row StateHeld ]} 5000 6000 7000 5000 6500 7000
                held_rows_wf eq_refl ltac:(lia)) as H.
  split; [exact held_rows_wf|]. cbv zeta in H.
  destruct (run_alone micros _ (PCall (PgVoid "org" "d1")) held_rows) as [v t2] eqn:E.
  destruct (run_alone micros _ (PCall (PgCapture "org" "d1")) held_rows) as [c t1].
  destruct H as (_ & H & _). vm_compute in H. destruct H as [-> _]. f_equal. vm_compute in E. by injection E.
Defined.

(** A capture that commits between the two halves of a sweep: the hold is
    captured and handed out for release. *)
Example sweep_race_releases_captured :
  let keys := due_rows 90000 10 [("org", "d1")] held_rows in
  let '(capture, t1) := run_alone micros [(89000, 89000); (90500, 90500); (90600, 90600)] (PCall (PgCapture "org" "d1")) held_rows in
  let '(sweep, _) := pg_exec micros Live 0 0 (PFlip keys) t1 in
  captured_by capture = [("org", "d1")] /\ released_by sweep = [("org", "d1")].
Proof. vm_compute. by split. Qed.

(** The re-read after a successful void fails: the caller gets an error and does
    not decrement the counter, and a retry is told the hold was already
    released. *)
Example void_reread_leaks :
  let '(th, t1) := run_alone micros [(5000, 5000); (6000, 6000)] (PCall (PgVoid "org" "d1")) held_rows in
  let '(first, t2) := pg_exec micros (Refused "connection reset") 7000 7000 th t1 in
  let '(second, _) := run_alone micros [(8000, 8000)] (PCall (PgVoid "org" "d1")) t2 in
  first = PDone (AVoid "org" "d1" None true (Some (ErrStore "connection reset"))) /\
  second = PDone (AVoid "org" "d1" (Some (mark_voided 6000 (row StateHeld))) false None).
Proof. vm_compute. by split. Qed.

(** The re-read after a void of an expired hold fails: no hold and no error. *)
Example void_expired_returns_nil :
  let '(th, t1) := run_alone micros [(95000, 95000); (96000, 96000)] (PCall (PgVoid "org" "d1")) {[ ("org", "d1") := row StateExpired ]} in
  (pg_exec micros (Refused "connection reset") 97000 97000 th t1).1 = PDone (AVoid "org" "d1" None false None).
Proof. vm_compute. reflexivity. Qed.

(** A void that loses its race to another void. *)
Lemma pg_calls_terminate_witness :
  exists n th t', interleaved micros n (PCall (PgVoid "org" "d1")) held_rows th t' /\ n = 5%nat /\ exists a, th = PDone a.
Proof.
  pose (voided := {[ ("org", "d1") := mark_voided 4000 (row StateHeld) ]} : Rows).
  assert (Hv : rows_wf voided) by (apply map_Forall_singleton; split; done).
  assert (He : rows_evolve held_rows voided).
  { intros k h Hk. unfold held_rows in Hk. apply lookup_singleton_Some in Hk as [<- <-]. exists (mark_voided 4000 (row StateHeld)).
    split; [apply lookup_singleton_eq|]. apply evolves_lifecycle. constructor. }
  assert (Hrun : exists th t', interleaved micros 5 (PCall (PgVoid "org" "d1")) held_rows th t').
  { eexists _, _. eapply (il_step _ _ Live 3000 3000); [reflexivity | exact held_rows_wf|]. eapply (il_step _ _ Live 5000 5000); [exact He | exact Hv|].
    do 3 (eapply (il_step _ _ Live 6000 6000); [reflexivity | exact Hv|]). apply il_nil. }
  destruct Hrun as (th & t' & Hrun). exists 5%nat, th, t'. split; [exact Hrun|]. split; [reflexivity|].
  exact (pg_calls_terminate micros (PgVoid "org" "d1") 5 held_rows th t' Hrun (Nat.le_refl 5)).
Defined.
