(* ===== verification/Budget.v ===== *)
(** Budget windows and minor units ([internal/budget/budget.go]): the counter
    key, the window key of an instant, window lifetimes, and the conversion
    between decimal strings and integer cents, kept in int64 arithmetic. *)

From S2P Require Import Prelude GoStrings GoTime Money.

Definition counterKey (orgID budgetID windowKey : string) : string :=
  "budget:" +:+ orgID +:+ ":" +:+ budgetID +:+ ":" +:+ windowKey.

Definition WindowKey (window : string) (t : time) : string :=
  if String.eqb window "day" then format_date t
  else if String.eqb window "rolling" then "rolling"
  else format_month t.

Definition windowTTL (window : string) : duration :=
  if String.eqb window "day" then 48 * Hour
  else if String.eqb window "rolling" then 30 * 24 * Hour
  else 32 * 24 * Hour.

Definition windowSticky (window : string) : bool := negb (String.eqb window "rolling").

Definition toCents (s : string) : option Z :=
  if String.eqb s "" || HasPrefix s "-" then None
  else
    let '(intPart, frac, hasDot) := Cut "."%char s in
    whole ← ParseInt intPart;
    let cents := mul64 whole 100 in
    if (hasDot : bool) then
      if (String.length frac =? 0)%nat || (2 <? String.length frac)%nat then None
      else
        let frac := if (String.length frac =? 1)%nat then frac +:+ "0" else frac in
        f ← ParseInt frac;
        Some (add64 cents f)
    else Some cents.

(** [pad2] of the package (no upper bound is assumed by the code). *)
Definition pad2_int (n : Z) : string := if n <? 10 then "0" +:+ FormatInt n else FormatInt n.

Definition centsToStr (c : Z) : string := FormatInt (Z.quot c 100) +:+ "." +:+ pad2_int (Z.rem c 100).

(** * Lemmas *)

Lemma ParseInt_digits s :
  s <> "" -> str_all is_digit s = true -> digits_value s <= max_int64 -> ParseInt s = Some (digits_value s).
Proof.
  intros Hne Hd Hv. destruct s as [|c s]; [done|].
  destruct (parse_digits_total 0 (String c s) Hd) as [z Hz]. unfold digits_value in *. rewrite Hz in *.
  assert (Hc : is_digit c = true) by (cbn in Hd; by apply andb_true_iff in Hd as [? _]).
  rewrite ParseInt_unsigned by (intros ->; discriminate). rewrite Hz.
  pose proof (parse_digits_bound _ _ Hz). assert (in_int64 z = true) as -> by (unfold_int64; lia). done.
Qed.

Lemma canonical_int_digits s : canonical_int s = true -> s <> "" /\ str_all is_digit s = true.
Proof.
  destruct s as [|c s]; cbn; [done|]. intros H. split; [done|]. breflect. by destruct H as [[-> ->] _].
Qed.

Lemma digits_value_nonneg s : 0 <= digits_value s.
Proof.
  unfold digits_value. destruct (parse_digits 0 s) as [z|] eqn:E; [|lia]. pose proof (parse_digits_bound _ _ E). lia.
Qed.

Lemma digits_value_bound s : str_all is_digit s = true -> digits_value s < 10 ^ Z.of_nat (String.length s).
Proof.
  intros Hs. destruct (parse_digits_total 0 s Hs) as [z E]. unfold digits_value. rewrite E.
  by apply parse_digits_bound.
Qed.

Lemma no_minus_sign s : HasPrefix s "-" = false -> split_sign s = (false, s).
Proof.
  unfold split_sign, HasPrefix. destruct (strip_prefix "-" s); cbn; [done|]. done.
Qed.

(** The fraction's digits scaled to cents. *)
Definition frac_cents (fp : string) : Z :=
  match String.length fp with
  | 0%nat => 0
  | 1%nat => 10 * digits_value fp
  | _ => digits_value fp
  end.

Lemma frac_cents_value fp :
  str_all is_digit fp = true -> (String.length fp <= 2)%nat ->
  0 <= frac_cents fp < 100 /\
  frac_cents fp * 10 ^ Z.of_nat (String.length fp) = digits_value fp * 100.
Proof.
  intros Hd Hl. pose proof (digits_value_nonneg fp). pose proof (digits_value_bound fp Hd) as Hb.
  unfold frac_cents. destruct (String.length fp) as [|[|[|n]]] eqn:El; [| | |lia].
  - destruct fp; [|done]. cbn. lia.
  - change (10 ^ Z.of_nat 1) with 10 in *. lia.
  - change (10 ^ Z.of_nat 2) with 100 in *. lia.
Qed.

(** [toCents] on a canonical nonnegative decimal, in terms of its parts. *)
Lemma toCents_parts s ip fp dot :
  reMoney s = true -> HasPrefix s "-" = false -> Cut "."%char s = (ip, fp, dot) ->
  digits_value ip * 100 + 99 <= max_int64 ->
  toCents s = if (String.length fp <=? 2)%nat then Some (digits_value ip * 100 + frac_cents fp) else None.
Proof.
  intros Hm Hneg Hcut Hb. unfold reMoney in Hm. rewrite (no_minus_sign s Hneg), Hcut in Hm.
  apply andb_true_iff in Hm as [Hip Hfp]. apply canonical_int_digits in Hip as [Hne Hip].
  pose proof (digits_value_nonneg ip) as Hip0.
  assert (Hsne : String.eqb s "" = false).
  { apply String.eqb_neq. intros ->. cbn in Hcut. injection Hcut as <- <- <-. done. }
  unfold toCents. rewrite Hsne, Hneg, Hcut. cbn [orb].
  rewrite (ParseInt_digits ip) by (try done; lia). cbn [mbind option_bind].
  unfold mul64. rewrite wrap64_small by (unfold_int64; lia).
  destruct dot.
  - apply andb_true_iff in Hfp as [Hfne Hfp]. breflect.
    assert (Hl0 : (String.length fp =? 0)%nat = false) by (destruct fp; [done|reflexivity]). rewrite Hl0. cbn [orb].
    destruct (Nat.leb_spec (String.length fp) 2) as [Hl|Hl]; [|by assert ((2 <? String.length fp)%nat = true) as -> by (apply Nat.ltb_lt; lia)].
    assert ((2 <? String.length fp)%nat = false) as -> by (apply Nat.ltb_ge; lia).
    pose proof (frac_cents_value fp Hfp Hl) as [Hfc _]. pose proof (digits_value_bound fp Hfp) as Hfb.
    destruct (String.length fp) as [|[|[|n]]] eqn:El; [done| | |lia]; cbn [Nat.eqb].
    + assert (Hv : digits_value (fp +:+ "0") = frac_cents fp).
      { rewrite digits_value_app by done. unfold frac_cents. rewrite El. change (10 ^ Z.of_nat (String.length "0")) with 10. change (digits_value "0") with 0. lia. }
      rewrite ParseInt_digits; [|by destruct fp|by rewrite str_all_app, Hfp|rewrite Hv; unfold_int64; lia].
      cbn [mbind option_bind]. rewrite Hv. unfold add64. by rewrite wrap64_small by (unfold_int64; lia).
    + assert (Hv : digits_value fp = frac_cents fp) by (unfold frac_cents; by rewrite El).
      rewrite ParseInt_digits by (try done; rewrite Hv; unfold_int64; lia).
      cbn [mbind option_bind]. rewrite Hv. unfold add64. by rewrite wrap64_small by (unfold_int64; lia).
  - assert (fp = "") as ->.
    { clear -Hcut. revert ip Hcut. induction s as [|c s IH]; intros ip; cbn; [by intros [= _ <-]|].
      destruct (Ascii.eqb c "."); [done|]. destruct (Cut "." s) as [[a b] d] eqn:E.
      intros [= <- <- ->]. by eapply IH. }
    cbn. by rewrite Z.add_0_r.
Qed.

Lemma decimal_value_parts s ip fp dot :
  HasPrefix s "-" = false -> Cut "."%char s = (ip, fp, dot) ->
  decimal_value s = Qmake (digits_value (ip +:+ fp)) (Pos.of_nat (10 ^ String.length fp)).
Proof. intros Hneg Hcut. unfold decimal_value. by rewrite (no_minus_sign s Hneg), Hcut. Qed.

Lemma pos_of_pow10 n : Zpos (Pos.of_nat (10 ^ n)) = 10 ^ Z.of_nat n.
Proof.
  rewrite <- positive_nat_Z, Nat2Pos.id by (apply Nat.pow_nonzero; lia).
  by rewrite Nat2Z.inj_pow.
Qed.

Lemma pad2_int_two m : 0 <= m < 100 -> pad2_int m = two m "".
Proof.
  intros Hm. rewrite <- pad2_two, str_app_nil_r by done. unfold pad2_int, pad2, FormatInt.
  destruct (Z.ltb_spec m 0); [lia|]. rewrite (fmt_nat_fuel 2) by (cbn; lia). cbn [digits_onto].
  destruct (Z.ltb_spec m 10); [done|]. destruct (Z.ltb_spec (m / 10) 10); [|zlia]. reflexivity.
Qed.

(** * Properties *)

(** [toCents] is exact.  On a canonical decimal below the int64 range it
    returns a cent amount exactly when the decimal is nonnegative with at most
    two fractional digits, and then the amount is the decimal's value times a
    hundred; more precise amounts and negative ones are rejected. *)
Theorem toCents_exact s
  (Hm : reMoney s = true)
  (Hrange : digits_value (Cut "."%char s).1.1 * 100 + 99 <= max_int64) :
  match toCents s with
  | Some c => HasPrefix s "-" = false /\ (String.length (Cut "."%char s).1.2 <= 2)%nat /\
              0 <= c <= max_int64 /\ (inject_Z c == decimal_value s * 100)%Q
  | None => HasPrefix s "-" = true \/ (2 < String.length (Cut "."%char s).1.2)%nat
  end.
Proof.
  destruct (HasPrefix s "-") eqn:Hneg.
  { unfold toCents. rewrite Hneg, orb_true_r. by left. }
  destruct (Cut "." s) as [[ip fp] dot] eqn:Hcut. cbn [fst snd] in *.
  rewrite (toCents_parts s ip fp dot Hm Hneg Hcut Hrange).
  destruct (Nat.leb_spec (String.length fp) 2) as [Hl|Hl]; [|by right].
  unfold reMoney in Hm. rewrite (no_minus_sign s Hneg), Hcut in Hm. apply andb_true_iff in Hm as [Hip Hfp].
  apply canonical_int_digits in Hip as [_ Hip].
  assert (Hfd : str_all is_digit fp = true).
  { destruct dot; [by apply andb_true_iff in Hfp as [_ ?]|]. destruct fp; [done|].
    clear -Hcut. exfalso. revert ip Hcut. induction s as [|c s IH]; intros ip; cbn; [done|].
    destruct (Ascii.eqb c "."); [done|]. destruct (Cut "." s) as [[a' b] d] eqn:E.
    intros [= <- -> ->]. by eapply IH. }
  pose proof (frac_cents_value fp Hfd Hl) as [Hfc Heq]. pose proof (digits_value_nonneg ip).
  split; [done|]. split; [done|]. split; [lia|].
  rewrite (decimal_value_parts s ip fp dot Hneg Hcut). unfold Qeq, Qmult, inject_Z. cbn [Qnum Qden].
  rewrite Pos.mul_1_r, pos_of_pow10, digits_value_app by done. nia.
Qed.

(** Printing and reading cents round-trips on every nonnegative int64. *)
Theorem toCents_centsToStr c (Hc : 0 <= c <= max_int64) : toCents (centsToStr c) = Some c.
Proof.
  assert (Hq : Z.quot c 100 = c / 100) by (apply Z.quot_div_nonneg; lia).
  assert (Hr : Z.rem c 100 = c mod 100) by (apply Z.rem_mod_nonneg; lia).
  assert (Hd : 0 <= c / 100) by zlia. assert (Hm : 0 <= c mod 100 < 100) by zlia.
  assert (HF : FormatInt (c / 100) = fmt_nat (c / 100)) by (unfold FormatInt; destruct (Z.ltb_spec (c / 100) 0); [lia|done]).
  pose proof (pad2_int_two _ Hm) as HP.
  pose proof (fmt_nat_digits _ Hd) as Hdig. pose proof (parse_fmt_nat _ Hd) as Hp.
  assert (Hcut : Cut "." (centsToStr c) = (fmt_nat (c / 100), two (c mod 100) "", true)).
  { unfold centsToStr. rewrite Hq, Hr, HF, HP. apply Cut_found. by apply digits_no_char. }
  assert (Hneg : String.eqb (centsToStr c) "" || HasPrefix (centsToStr c) "-" = false).
  { unfold centsToStr. rewrite Hq, HF. destruct (fmt_nat_first (c / 100) Hd) as (d & r & -> & Hd').
    rewrite str_app_cons. cbn [String.eqb orb]. unfold HasPrefix. cbn [strip_prefix].
    destruct (Ascii.eqb_spec "-" (digit_char d)) as [E|_]; [|done].
    by destruct (digit_char_not_sign d Hd'). }
  unfold toCents. rewrite Hneg, Hcut, <- HF, ParseInt_FormatInt by (unfold_int64; zlia). cbn [mbind option_bind].
  change (String.length (two (c mod 100) "")) with 2%nat. cbn [Nat.eqb Nat.ltb Nat.leb orb].
  assert (ParseInt (two (c mod 100) "") = Some (c mod 100)) as ->.
  { assert (Hv : parse_digits 0 (two (c mod 100) "") = Some (c mod 100)).
    { unfold two. cbn [parse_digits]. rewrite !digit_val_char by zlia. f_equal. zlia. }
    unfold two in *. rewrite ParseInt_unsigned by (apply digit_char_not_sign; zlia). rewrite Hv.
    by assert (in_int64 (c mod 100) = true) as -> by (unfold_int64; lia). }
  cbn [mbind option_bind]. unfold mul64, add64. f_equal.
  rewrite !wrap64_small by (rewrite ?wrap64_small by (unfold_int64; zlia); unfold_int64; zlia). zlia.
Qed.

Lemma toCents_centsToStr_witness : toCents (centsToStr 123405) = Some 123405.
Proof. apply toCents_centsToStr. unfold_int64. lia. Defined.

Lemma toCents_exact_witness : toCents "12.5" = Some 1250 /\ (inject_Z 1250 == decimal_value "12.5" * 100)%Q.
Proof.
  assert (E : toCents "12.5" = Some 1250) by reflexivity. split; [exact E|].
  pose proof (toCents_exact "12.5" eq_refl ltac:(by vm_compute)) as H. rewrite E in H. apply H.
Defined.

(** ** Window keys *)

Lemma format_month_two t :
  0 <= c_year (date_of t) <= 9999 ->
  format_month t = two (c_year (date_of t) / 100) (two (c_year (date_of t) mod 100) (String "-" (two (c_month (date_of t)) ""))).
Proof.
  intros Hy. pose proof (civil_from_days_spec (day_of t)) as (_ & Hmo & _). fold (date_of t) in *.
  unfold format_month. rewrite fmt_year_two by done.
  by rewrite <- (str_app_nil_r (pad2 _)), pad2_two by lia.
Qed.

Lemma date_day_bound t : 1 <= c_day (date_of t) <= 31.
Proof.
  pose proof (civil_from_days_spec (day_of t)) as (_ & _ & Hd). fold (date_of t) in *.
  revert Hd. unfold days_in. repeat case_match; lia.
Qed.

Lemma str_cons_inj a r r' : String a r = String a r' -> r = r'.
Proof. congruence. Qed.

Lemma two_inj z z' r r' : 0 <= z < 100 -> 0 <= z' < 100 -> two z r = two z' r' -> z = z' /\ r = r'.
Proof.
  intros Hz Hz' H. pose proof (get2_two z r Hz) as E. rewrite H, get2_two in E by done. by injection E.
Qed.

Lemma format_month_inj t u r r' :
  0 <= c_year (date_of t) <= 9999 -> 0 <= c_year (date_of u) <= 9999 ->
  format_month t +:+ r = format_month u +:+ r' ->
  c_year (date_of t) = c_year (date_of u) /\ c_month (date_of t) = c_month (date_of u) /\ r = r'.
Proof.
  intros Ht Hu. rewrite !format_month_two by done. unfold two at 1 2 3 4 5 6.
  pose proof (civil_from_days_spec (day_of t)) as (_ & Hmt & _). pose proof (civil_from_days_spec (day_of u)) as (_ & Hmu & _).
  fold (date_of t) (date_of u) in *. rewrite !str_app_cons, !str_app_nil. intros H.
  apply two_inj in H as [H1 H]; [|zlia..]. apply two_inj in H as [H2 H]; [|zlia..].
  apply str_cons_inj in H. apply (two_inj (c_month (date_of t)) (c_month (date_of u)) r r') in H as [H3 H]; [|lia..].
  split; [zlia|]. done.
Qed.

(** A calendar window starts a fresh counter exactly at its boundary: for
    years 0 to 9999 two instants have the same day (month) window key exactly
    when they fall on the same UTC day (in the same UTC month). *)
Theorem WindowKey_injective t u
  (Ht : 0 <= c_year (date_of t) <= 9999) (Hu : 0 <= c_year (date_of u) <= 9999) :
  (WindowKey "day" t = WindowKey "day" u <-> day_of t = day_of u) /\
  (WindowKey "month" t = WindowKey "month" u <->
     c_year (date_of t) = c_year (date_of u) /\ c_month (date_of t) = c_month (date_of u)).
Proof.
  change (WindowKey "day") with format_date. change (WindowKey "month") with format_month. split; split.
  - unfold format_date. intros H. apply format_month_inj in H as (Hy & Hm & H); [|done..].
    apply str_cons_inj in H. pose proof (date_day_bound t). pose proof (date_day_bound u).
    rewrite <- (str_app_nil_r (pad2 _)), <- (str_app_nil_r (pad2 (c_day (date_of u)))), !pad2_two in H by lia.
    apply two_inj in H as [Hd _]; [|lia..].
    pose proof (civil_from_days_spec (day_of t)) as (Bt & _). pose proof (civil_from_days_spec (day_of u)) as (Bu & _).
    fold (date_of t) (date_of u) in *. rewrite <- Bt, <- Bu. f_equal. destruct (date_of t), (date_of u). cbn in *. congruence.
  - intros H. unfold format_date, format_month, date_of. by rewrite H.
  - intros H. rewrite <- (str_app_nil_r (format_month t)), <- (str_app_nil_r (format_month u)) in H.
    apply format_month_inj in H as (Hy & Hm & _); done.
  - intros [Hy Hm]. by rewrite !format_month_two, Hy, Hm by done.
Qed.

Lemma WindowKey_injective_witness :
  WindowKey "day" 0 = WindowKey "day" (86399 * nanos) /\ WindowKey "day" 0 <> WindowKey "day" (86400 * nanos).
Proof.
  split.
  - apply (WindowKey_injective 0 (86399 * nanos)); [vm_compute; split; discriminate..|reflexivity].
  - intros H. apply (WindowKey_injective 0 (86400 * nanos)) in H; [discriminate|vm_compute; split; discriminate..].
Defined.

(** Distinct budget windows have distinct counters: when neither the
    organisation nor the budget id contains a colon, the counter key determines
    the organisation, the budget and the window. *)
Theorem counterKey_injective o b w o' b' w'
  (Ho : no_char ":" o = true) (Hb : no_char ":" b = true) (Ho' : no_char ":" o' = true) (Hb' : no_char ":" b' = true)
  (Heq : counterKey o b w = counterKey o' b' w') : o = o' /\ b = b' /\ w = w'.
Proof.
  unfold counterKey in Heq. injection Heq as Heq.
  assert (E : Cut ":" (o +:+ String ":" (b +:+ String ":" w)) = Cut ":" (o' +:+ String ":" (b' +:+ String ":" w'))) by (f_equal; exact Heq).
  rewrite !Cut_found in E by done. injection E as -> E.
  assert (E2 : Cut ":" (b +:+ String ":" w) = Cut ":" (b' +:+ String ":" w')) by (by rewrite E).
  rewrite !Cut_found in E2 by done. by injection E2 as -> ->.
Qed.

Lemma counterKey_injective_witness : "org" = "org" /\ "b1" = "b1" /\ "2026-03" = "2026-03".
Proof. apply (counterKey_injective "org" "b1" "2026-03" "org" "b1" "2026-03"); reflexivity. Defined.

(** Ids with colons can share a counter. *)
Example counterKey_collision : counterKey "o:b" "c" "w" = counterKey "o" "b:c" "w".
Proof. reflexivity. Qed.

(** Out of the int64 range the conversion wraps: a canonical amount is read as
    a negative number of cents. *)
Example toCents_overflow : reMoney "92233720368547759" = true /\ toCents "92233720368547759" = Some (-9223372036854775716).
Proof. split; reflexivity. Qed.

(** [ParseInt] accepts a sign inside the fraction. *)
Example toCents_signed_fraction : reMoney "1.-5" = false /\ toCents "1.-5" = Some 95.
Proof. split; reflexivity. Qed.
