(* ===== verification/Counter.v ===== *)
(** The atomic budget counter: the [Counter] interface and the in-memory
    implementation ([internal/budget/counter.go]) and the Redis one
    ([internal/budget/redis.go]), whose Lua scripts run atomically on the server.

    Lua numbers are doubles: [to_double] rounds an integer to 53 bits, as
    [tonumber] and addition do.  A Redis key holds an integer with an optional
    expiry instant in milliseconds; an expired key is absent.  How Lua prints
    numbers of seventeen digits and more is not modelled. *)

From S2P Require Import Prelude GoTime.

(** The Go interface; [bool * Z] is (reserved, prior). *)
Record Counter (W : Type) := {
  counter_Reserve : string -> Z -> Z -> duration -> bool -> io W (result string (bool * Z));
  counter_Release : string -> Z -> io W (result string unit);
  counter_Set : string -> Z -> duration -> io W (result string unit);
  counter_Get : string -> io W (result string Z)
}.
Arguments counter_Reserve {W} _ _ _ _ _ _.
Arguments counter_Release {W} _ _ _.
Arguments counter_Set {W} _ _ _ _.
Arguments counter_Get {W} _ _.

(** * In memory *)

Abbreviation MemVals := (gmap string Z).

(** [m.vals[key]]: the zero value when absent. *)
Definition mem_val (m : MemVals) (key : string) : Z := default 0 (m !! key).

Definition Mem_Reserve (key : string) (amount limit : Z) (m : MemVals) : (bool * Z) * MemVals :=
  let prior := mem_val m key in
  if limit <? add64 prior amount then ((false, prior), m)
  else ((true, prior), <[key := add64 prior amount]> m).

Definition Mem_Release (key : string) (amount : Z) (m : MemVals) : MemVals :=
  let v := sub64 (mem_val m key) amount in
  <[key := if v <? 0 then 0 else v]> m.

Definition Mem_Set (key : string) (cents : Z) (m : MemVals) : MemVals := <[key := cents]> m.
Definition Mem_Get (key : string) (m : MemVals) : Z := mem_val m key.

Definition MemCounter : Counter MemVals :=
  {| counter_Reserve key amount limit _ _ m := let '(r, m) := Mem_Reserve key amount limit m in (Ok r, m);
     counter_Release key amount m := (Ok tt, Mem_Release key amount m);
     counter_Set key cents _ m := (Ok tt, Mem_Set key cents m);
     counter_Get key m := (Ok (Mem_Get key m), m) |}.

(** * Redis *)

(** Round to nearest, ties to even, at 53 significant bits. *)
Definition to_double (z : Z) : Z :=
  let e := Z.log2 (Z.abs z) - 52 in
  if e <=? 0 then z
  else
    let u := 2 ^ e in
    let q := z / u in
    let r := z mod u in
    if (2 * r <? u) || ((2 * r =? u) && Z.even q) then q * u else (q + 1) * u.

(** The server: its keys, its clock in milliseconds, and whether it answers. *)
Record redis := {
  rs_keys : gmap string (Z * option Z);
  rs_now : Z;
  rs_up : bool
}.

Definition set_keys (m : gmap string (Z * option Z)) (s : redis) : redis :=
  {| rs_keys := m; rs_now := rs_now s; rs_up := rs_up s |}.

Definition expired (now : Z) (e : option Z) : bool :=
  match e with Some t => t <=? now | None => false end.

(** A live key's entry. *)
Definition rget (s : redis) (key : string) : option (Z * option Z) :=
  match rs_keys s !! key with
  | Some (v, e) => if expired (rs_now s) e then None else Some (v, e)
  | None => None
  end.

(** [reserveScript]. *)
Definition reserveScript (key : string) (amount limit ttl : Z) (sticky : bool) (s : redis) : result string (list Z) * redis :=
  let cur := to_double (match rget s key with Some (v, _) => v | None => 0 end) in
  let amt := to_double amount in
  let lim := to_double limit in
  if lim <? to_double (cur + amt) then (Ok [0; cur], s)
  else
    let existed := match rget s key with Some _ => true | None => false end in
    let '(v, e) := match rget s key with Some p => p | None => (0, None) end in
    if negb (in_int64 (v + amt)) then (Err "increment or decrement would overflow", s)
    else
      let e := if negb sticky || negb existed then Some (rs_now s + ttl) else e in
      (Ok [1; cur], set_keys (<[key := (v + amt, e)]> (rs_keys s)) s).

Definition Redis_Reserve (key : string) (amount limit : Z) (ttl : duration) (sticky : bool) (s : redis)
    : result string (bool * Z) * redis :=
  if negb (rs_up s) then (Err "budget: reserve", s)
  else
    let '(res, s) := reserveScript key amount limit (Z.quot ttl 1000000) sticky s in
    (match res with
     | Err e => Err ("budget: reserve: " +:+ e)
     | Ok [r; prior] => Ok (r =? 1, prior)
     | Ok _ => Err "budget: reserve: unexpected result"
     end, s).

(** [releaseScript]: floored at zero, and only on an existing key, whose expiry
    it keeps. *)
Definition releaseScript (key : string) (amount : Z) (s : redis) : redis :=
  match rget s key with
  | None => s
  | Some (v, e) =>
    let nv := to_double (to_double v - to_double amount) in
    let nv := if nv <? 0 then 0 else nv in
    set_keys (<[key := (nv, e)]> (rs_keys s)) s
  end.

Definition Redis_Release (key : string) (amount : Z) (s : redis) : result string unit * redis :=
  if negb (rs_up s) then (Err "budget: release", s) else (Ok tt, releaseScript key amount s).

(** [SET key cents PX ttl]; a zero lifetime means none. *)
Definition Redis_Set (key : string) (cents : Z) (ttl : duration) (s : redis) : result string unit * redis :=
  if negb (rs_up s) then (Err "budget: set", s)
  else
    let e := if ttl =? 0 then None else Some (rs_now s + Z.quot ttl 1000000) in
    (Ok tt, set_keys (<[key := (cents, e)]> (rs_keys s)) s).

Definition Redis_Get (key : string) (s : redis) : result string Z * redis :=
  if negb (rs_up s) then (Err "budget: get", s)
  else (Ok (match rget s key with Some (v, _) => v | None => 0 end), s).

Definition RedisCounter : Counter redis :=
  {| counter_Reserve := Redis_Reserve;
     counter_Release := Redis_Release;
     counter_Set := Redis_Set;
     counter_Get := Redis_Get |}.

(** * What a counter promises *)

(** [val] reads the counter; amounts, limits and values up to [cap] are exact.
    A reserve is one atomic check-and-add: it succeeds exactly when the sum
    stays within the limit, reports the prior value, and touches no other key.
    An error leaves the counter alone. *)
Class CounterSpec {W : Type} (C : Counter W) (val : W -> string -> Z) (cap : Z) := {
  reserve_law key amount limit ttl sticky w :
    0 <= val w key <= cap -> 0 <= amount <= cap -> 0 <= limit <= cap -> 0 < Z.quot ttl 1000000 ->
    let '(r, w') := counter_Reserve C key amount limit ttl sticky w in
    match r with
    | Err _ => forall k, val w' k = val w k
    | Ok (reserved, prior) =>
      prior = val w key /\ reserved = (val w key + amount <=? limit) /\
      forall k, val w' k = if (reserved : bool) && bool_decide (k = key) then val w key + amount else val w k
    end;
  release_law key amount w :
    0 <= val w key <= cap -> 0 <= amount <= cap ->
    let '(r, w') := counter_Release C key amount w in
    match r with
    | Err _ => forall k, val w' k = val w k
    | Ok _ => forall k, val w' k = if bool_decide (k = key) then Z.max 0 (val w key - amount) else val w k
    end;
  set_law key cents ttl w :
    0 < Z.quot ttl 1000000 ->
    let '(r, w') := counter_Set C key cents ttl w in
    match r with
    | Err _ => forall k, val w' k = val w k
    | Ok _ => forall k, val w' k = if bool_decide (k = key) then cents else val w k
    end;
  get_law key w :
    let '(r, w') := counter_Get C key w in
    w' = w /\ match r with Err _ => True | Ok v => v = val w key end
}.

(** What Redis serves for a key. *)
Definition redis_val (s : redis) (key : string) : Z := match rget s key with Some (v, _) => v | None => 0 end.

Definition mem_cap : Z := 2 ^ 62 - 1.
Definition redis_cap : Z := 2 ^ 52 - 1.

(** * Lemmas *)

Lemma mem_val_insert m key v k : mem_val (<[key := v]> m) k = if bool_decide (k = key) then v else mem_val m k.
Proof.
  unfold mem_val. case_bool_decide as E; [by rewrite E, lookup_insert_eq|]. by rewrite lookup_insert_ne.
Qed.

Lemma to_double_id z : Z.abs z < 2 ^ 53 -> to_double z = z.
Proof.
  intros Hz. unfold to_double. destruct (Z.leb_spec (Z.log2 (Z.abs z) - 52) 0) as [|Hl]; [done|exfalso].
  destruct (decide (z = 0)) as [->|Hne]; [discriminate Hl|].
  apply Z.log2_lt_pow2 in Hz; lia.
Qed.

Lemma rget_set_keys s key v e k :
  expired (rs_now s) e = false ->
  rget (set_keys (<[key := (v, e)]> (rs_keys s)) s) k = if bool_decide (k = key) then Some (v, e) else rget s k.
Proof.
  intros He. unfold rget. cbn. case_bool_decide as E; [by rewrite E, lookup_insert_eq, He|]. by rewrite lookup_insert_ne.
Qed.

Lemma rget_live s key v e : rget s key = Some (v, e) -> expired (rs_now s) e = false.
Proof. unfold rget. destruct (rs_keys s !! key) as [[v' e']|]; [|done]. destruct (expired _ e') eqn:E; [done|]. by intros [= <- <-]. Qed.

Lemma redis_val_set s key v e k :
  expired (rs_now s) e = false ->
  redis_val (set_keys (<[key := (v, e)]> (rs_keys s)) s) k = if bool_decide (k = key) then v else redis_val s k.
Proof. intros He. unfold redis_val. rewrite rget_set_keys by done. by case_bool_decide. Qed.

#[export] Instance MemCounter_spec : CounterSpec MemCounter mem_val mem_cap.
Proof.
  split.
  - intros key amount limit ttl sticky m Hv Ha Hl _. unfold mem_cap in *. cbn [counter_Reserve MemCounter]. unfold Mem_Reserve, add64.
    rewrite wrap64_small by (unfold_int64; lia). destruct (Z.ltb_spec limit (mem_val m key + amount)).
    + split; [done|]. split; [by symmetry; apply Z.leb_gt|]. done.
    + split; [done|]. split; [by symmetry; apply Z.leb_le|]. intros k. apply mem_val_insert.
  - intros key amount m Hv Ha. unfold mem_cap in *. cbn [counter_Release MemCounter]. intros k. unfold Mem_Release, sub64.
    rewrite mem_val_insert, wrap64_small by (unfold_int64; lia). case_bool_decide; [|done].
    destruct (Z.ltb_spec (mem_val m key - amount) 0); lia.
  - intros key cents ttl m _. cbn. intros k. apply mem_val_insert.
  - intros key m. done.
Qed.

#[export] Instance RedisCounter_spec : CounterSpec RedisCounter redis_val redis_cap.
Proof.
  split.
  - intros key amount limit ttl sticky s Hv Ha Hl Ht. unfold redis_cap in *. cbn. unfold Redis_Reserve.
    destruct (rs_up s); cbn; [|done]. unfold reserveScript. fold (redis_val s key).
    rewrite (to_double_id (redis_val s key)), (to_double_id amount), (to_double_id limit), (to_double_id (redis_val s key + amount)) by lia.
    destruct (Z.ltb_spec limit (redis_val s key + amount)) as [Hlt|Hle].
    + cbn. split; [done|]. split; [by symmetry; apply Z.leb_gt|]. done.
    + destruct (match rget s key with Some p => p | None => (0, None) end) as [v e] eqn:Er.
      assert (v = redis_val s key) as -> by (unfold redis_val; destruct (rget s key) as [[??]|]; congruence).
      assert (in_int64 (redis_val s key + amount) = true) as -> by (unfold_int64; lia). cbn.
      split; [done|]. split; [by symmetry; apply Z.leb_le|]. intros k. apply redis_val_set.
      destruct (rget s key) as [[v' e']|] eqn:Eg.
      * injection Er as -> ->. destruct sticky; cbn; [by eapply rget_live|]. apply Z.leb_gt. lia.
      * rewrite orb_true_r. cbn. apply Z.leb_gt. lia.
  - intros key amount s Hv Ha. unfold redis_cap in *. cbn. unfold Redis_Release. destruct (rs_up s); cbn; [|done].
    intros k. unfold releaseScript. destruct (rget s key) as [[v e]|] eqn:Eg.
    + assert (redis_val s key = v) as Hval by (unfold redis_val; by rewrite Eg). rewrite Hval in *.
      rewrite (to_double_id v), (to_double_id amount), (to_double_id (v - amount)) by lia.
      rewrite redis_val_set by (by eapply rget_live).
      case_bool_decide; [|done]. destruct (Z.ltb_spec (v - amount) 0); lia.
    + case_bool_decide as E; [|done]. subst. unfold redis_val. rewrite Eg. lia.
  - intros key cents ttl s Ht. cbn. unfold Redis_Set. destruct (rs_up s); cbn; [|done].
    intros k. apply redis_val_set. destruct (Z.eqb_spec ttl 0) as [->|]; [done|]. cbn. apply Z.leb_gt. lia.
  - intros key s. cbn. unfold Redis_Get. by destruct (rs_up s).
Qed.
