(* ===== verification/Reserver.v ===== *)
(** Budget enforcement ([internal/budget/reserver.go], [reconcile.go]): the
    reserver, which checks and adds to the counter and records the hold, and the
    reconciler, which releases expired holds and rebuilds a counter.

    Each method is a sequence of atomic steps on shared state (a counter script,
    a store transaction).  The steps are separate definitions: the methods
    compose them, and the concurrency model of [BudgetSafety] interleaves them. *)

From S2P Require Import Prelude GoStrings GoTime Contracts Runtime Engine Hold HoldStore Budget Counter.

Record Reserver (W : Type) := {
  r_counter : Counter W;
  r_holds : HoldStore W;
  r_holdTTL : duration
}.
Arguments r_counter {W} _.
Arguments r_holds {W} _.
Arguments r_holdTTL {W} _.

Definition NewReserver {W} (c : Counter W) (h : HoldStore W) (holdTTL : duration) : Reserver W :=
  {| r_counter := c; r_holds := h; r_holdTTL := if holdTTL <=? 0 then DefaultHoldTTL else holdTTL |}.

(** A reservation between two of its steps. *)
Inductive reserving :=
| RvPlace (key : string) (amount : Z) (h : Hold) (res : BudgetResult)
| RvUndo (key : string) (amount : Z) (wk : string)
| RvDone (res : BudgetResult).

Definition budget_unavailable (wk : string) : BudgetResult :=
  {| br_Outcome := BudgetUnavailable; br_SpendToDate := ""; br_Limit := ""; br_WindowKey := wk |}.

Definition with_outcome (o : BudgetOutcome) (res : BudgetResult) : BudgetResult :=
  {| br_Outcome := o; br_SpendToDate := br_SpendToDate res; br_Limit := br_Limit res; br_WindowKey := br_WindowKey res |}.

Section reserver.
Context {W : Type} `{Runtime W}.
Implicit Types (r : Reserver W).

(** The instant a request counts at, [t] being the clock. *)
Definition evaluated_at (req : AuthorizeRequest) (t : time) : time :=
  match parse_rfc3339 (req_EvaluatedAt req) with Some u => u | None => t end.

Definition reserve_time (req : AuthorizeRequest) : io W time := t ← now; mret (evaluated_at req t).

(** The hold a reservation records. *)
Definition new_hold (ttl : duration) (t : time) (orgID decisionID : string) (req : AuthorizeRequest) (b : BudgetDecl) : Hold :=
  {| h_DecisionID := decisionID; h_OrgID := orgID; h_AgentID := req_AgentID req; h_BudgetID := bd_ID b;
     h_Window := bd_Window b; h_WindowKey := WindowKey (bd_Window b) t; h_Amount := req_Amount req;
     h_Currency := req_Currency req; h_State := StateHeld; h_CreatedAt := t; h_ExpiresAt := Add t ttl;
     h_CapturedAt := zero_time; h_VoidedAt := zero_time |}.

(** Up to and including the counter's check-and-add. *)
Definition reserve_count (c : Counter W) (ttl : duration) (t : time) (orgID decisionID : string) (req : AuthorizeRequest) (b : BudgetDecl) : io W reserving :=
  let wk := WindowKey (bd_Window b) t in
  match toCents (req_Amount req), toCents (bd_Limit b) with
  | Some amount, Some limit =>
    let key := counterKey orgID (bd_ID b) wk in
    x ← counter_Reserve c key amount limit (windowTTL (bd_Window b)) (windowSticky (bd_Window b));
    mret (match x with
          | Err _ => RvDone (budget_unavailable wk)
          | Ok (reserved, prior) =>
            let res := {| br_Outcome := BudgetWithinLimit; br_SpendToDate := centsToStr prior;
                          br_Limit := bd_Limit b; br_WindowKey := wk |} in
            if (reserved : bool) then RvPlace key amount (new_hold ttl t orgID decisionID req b) res
            else RvDone (with_outcome BudgetExceeded res)
          end)
  | _, _ => mret (RvDone (budget_unavailable wk))
  end.

(** The ledger write, and the compensation when it failed. *)
Definition reserve_place (place : Hold -> io W (result hold_error unit)) (key : string) (amount : Z) (h : Hold) (res : BudgetResult) : io W reserving :=
  x ← place h;
  mret (match x with
        | Ok _ => RvDone (with_outcome BudgetWithinLimit res)
        | Err _ => RvUndo key amount (br_WindowKey res)
        end).

Definition reserve_undo (c : Counter W) (key : string) (amount : Z) (wk : string) : io W BudgetResult :=
  _ ← counter_Release c key amount;
  mret (budget_unavailable wk).

Definition Reserver_Reserve r (orgID decisionID : string) (req : AuthorizeRequest) (b : BudgetDecl) : io W BudgetResult :=
  t ← reserve_time req;
  s ← reserve_count (r_counter r) (r_holdTTL r) t orgID decisionID req b;
  match s with
  | RvDone res => mret res
  | RvUndo key amount wk => reserve_undo (r_counter r) key amount wk
  | RvPlace key amount h res =>
    s ← reserve_place (store_Place (r_holds r)) key amount h res;
    match s with
    | RvDone res => mret res
    | RvUndo key amount wk => reserve_undo (r_counter r) key amount wk
    | RvPlace _ _ _ res => mret res
    end
  end.

Definition Reserver_Capture r (orgID decisionID : string) : io W (result hold_error Hold) :=
  store_Capture (r_holds r) orgID decisionID.

(** The counter release a voided or expired hold asks for. *)
Definition release_of (h : Hold) : list (string * Z) :=
  match toCents (h_Amount h) with
  | Some amount => [(counterKey (h_OrgID h) (h_BudgetID h) (h_WindowKey h), amount)]
  | None => []
  end.

(** Releases made one after the other, errors ignored. *)
Fixpoint release_all (c : Counter W) (l : list (string * Z)) : io W unit :=
  match l with
  | [] => mret tt
  | (key, amount) :: l => _ ← counter_Release c key amount; release_all c l
  end.

Definition Reserver_Void r (orgID decisionID : string) : io W (result hold_error Hold) :=
  x ← store_Void (r_holds r) orgID decisionID;
  match x with
  | Err e => mret (Err e)
  | Ok (h, released) =>
    _ ← (if (released : bool) then release_all (r_counter r) (release_of h) else mret tt);
    mret (Ok h)
  end.

Definition Reserver_Get r (orgID decisionID : string) : io W (result hold_error Hold) :=
  store_Get (r_holds r) orgID decisionID.

(** The reserver as the engine's budget interface. *)
Definition as_BudgetReserver r : BudgetReserver W := {| Reserve := Reserver_Reserve r |}.

(** * The reconciler *)

Record Reconciler := {
  rc_counter : Counter W;
  rc_holds : HoldStore W;
  rc_batch : Z
}.

Definition NewReconciler (c : Counter W) (h : HoldStore W) (batch : Z) : Reconciler :=
  {| rc_counter := c; rc_holds := h; rc_batch := if batch <=? 0 then 256 else batch |}.

Definition ReleaseExpired (rc : Reconciler) : io W (result hold_error Z) :=
  t ← now;
  x ← store_ExpireDue (rc_holds rc) t (rc_batch rc);
  match x with
  | Err e => mret (Err e)
  | Ok due =>
    _ ← release_all (rc_counter rc) (due ≫= release_of);
    mret (Ok (Z.of_nat (length due)))
  end.

(** What [Run] waits between ticks. *)
Definition run_interval (interval : duration) : duration := if interval <=? 0 then Minute else interval.

(** [Run], for the ticks it sees before the context is cancelled; errors are
    logged only. *)
Fixpoint Reconciler_Run (rc : Reconciler) (ticks : nat) : io W unit :=
  match ticks with
  | O => mret tt
  | S ticks => _ ← ReleaseExpired rc; Reconciler_Run rc ticks
  end.

(** The sum of the loop of [RebuildWindow], in int64. *)
Definition sum_cents (active : list Hold) : Z :=
  foldl (fun sum h => match toCents (h_Amount h) with Some c => add64 sum c | None => sum end) 0 active.

Definition rebuild_read (rc : Reconciler) (orgID budgetID windowKey : string) : io W (result hold_error Z) :=
  x ← store_ListActiveByWindow (rc_holds rc) orgID budgetID windowKey;
  mret (sum_cents <$> x).

Definition RebuildWindow (rc : Reconciler) (orgID budgetID windowKey window : string) : io W (result hold_error unit) :=
  x ← rebuild_read rc orgID budgetID windowKey;
  match x with
  | Err e => mret (Err e)
  | Ok sum =>
    y ← counter_Set (rc_counter rc) (counterKey orgID budgetID windowKey) sum (windowTTL window);
    mret (match y with Ok _ => Ok tt | Err e => Err (ErrStore e) end)
  end.
End reserver.
Arguments Reconciler W : clear implicits.
Arguments rc_counter {W} _.
Arguments rc_holds {W} _.
Arguments rc_batch {W} _.
