(* ===== verification/Spend.v ===== *)
(** What holds count against a budget window, and what threads still owe its
    counter: the arithmetic of the safety arguments, for a ledger with any type
    of keys. *)

From S2P Require Import Prelude GoStrings GoTime Hold Budget Reserver.

Definition cents (h : Hold) : Z := default 0 (toCents (h_Amount h)).
Definition counter_of (h : Hold) : string := counterKey (h_OrgID h) (h_BudgetID h) (h_WindowKey h).
Definition is_active (h : Hold) : bool := bool_decide (h_State h = StateHeld) || bool_decide (h_State h = StateCaptured).

(** What a hold counts against a counter: its amount while held or captured. *)
Definition hold_spend (k : string) (h : Hold) : Z :=
  if is_active h && String.eqb (counter_of h) k then cents h else 0.

(** The committed and reserved spend of a budget window, from the ledger. *)
Definition active_spend `{Countable K} (k : string) (m : gmap K Hold) : Z := map_sum (hold_spend k) m.

(** The part of some amounts that is against one counter. *)
Definition pend (k : string) (l : list (string * Z)) : Z :=
  sum_Z ((fun p => if String.eqb p.1 k then p.2 else 0) <$> l).

#[global] Arguments pend : simpl never.
#[global] Arguments active_spend : simpl never.

(** ** Amounts owed *)

Lemma pend_app k l1 l2 : pend k (l1 ++ l2) = pend k l1 + pend k l2.
Proof. unfold pend. by rewrite fmap_app, sum_Z_app. Qed.

Lemma pend_one k key a : pend k [(key, a)] = if String.eqb key k then a else 0.
Proof. unfold pend. cbn. lia. Qed.

Lemma pend_cons k p l : pend k (p :: l) = pend k [p] + pend k l.
Proof. unfold pend. cbn. lia. Qed.

Lemma pend_bind {A} (f : A -> list (string * Z)) k l1 x l2 :
  pend k ((l1 ++ x :: l2) ≫= f) = pend k (l1 ≫= f) + pend k (f x) + pend k (l2 ≫= f).
Proof. rewrite bind_app, pend_app. cbn. rewrite pend_app. lia. Qed.

Lemma counter_of_terms h h' : same_terms h h' -> counter_of h' = counter_of h /\ cents h' = cents h /\ h_Amount h' = h_Amount h.
Proof.
  unfold same_terms, counter_of, cents. intros (_ & Ho & _ & Hb & _ & Hw & Ha & _). by rewrite Ho, Hb, Hw, Ha.
Qed.

Lemma release_of_terms h h' : same_terms h h' -> release_of h' = release_of h.
Proof. unfold same_terms, release_of. intros (_ & -> & _ & -> & _ & -> & -> & _). done. Qed.

Lemma evolves_active h h' : evolves h h' -> is_active h' = true -> is_active h = true.
Proof.
  intros (_ & He & _). unfold is_active. rewrite !orb_true_iff, !bool_decide_eq_true.
  intros [Hs|Hs]; rewrite Hs in He; [left; by apply edge_held | by apply edge_captured].
Qed.

(** ** Amounts in range *)

Section amounts.
Context (cap : Z).

Definition amount_ok (a : string) : Prop := forall c, toCents a = Some c -> 0 <= c <= cap.

Definition amounts_ok `{Countable K} (m : gmap K Hold) : Prop := map_Forall (fun _ h => amount_ok (h_Amount h)) m.

Definition owed_ok (l : list (string * Z)) : Prop := Forall (fun p => 0 <= p.2 <= cap) l.

Lemma pend_nonneg k l : owed_ok l -> 0 <= pend k l.
Proof.
  intros Hl. apply sum_Z_nonneg. rewrite Forall_fmap. eapply list.Forall_impl; [exact Hl|].
  intros [k' a] Ha. cbn in *. destruct (String.eqb k' k); lia.
Qed.

Lemma release_of_ok h : amount_ok (h_Amount h) -> owed_ok (release_of h).
Proof.
  intros Ha. unfold release_of. destruct (toCents (h_Amount h)) as [c|] eqn:Ec; constructor; [|constructor]. by apply Ha.
Qed.

Lemma hold_spend_nonneg k h : amount_ok (h_Amount h) -> 0 <= hold_spend k h.
Proof.
  intros Ha. unfold hold_spend, cents. destruct (_ && _); [|done].
  destruct (toCents (h_Amount h)) as [c|] eqn:E; [|done]. cbn. specialize (Ha c E). lia.
Qed.

Lemma evolves_spend k h h' : amount_ok (h_Amount h) -> evolves h h' -> hold_spend k h' <= hold_spend k h.
Proof.
  intros Ha He. pose proof (hold_spend_nonneg k h Ha) as Hn. revert Hn. unfold hold_spend.
  destruct (counter_of_terms h h' (proj1 He)) as (-> & -> & _).
  destruct (is_active h') eqn:E; cbn; [|done]. by rewrite (evolves_active h h' He E).
Qed.

(** What a held hold counts is what its release takes off. *)
Lemma held_spend k h : h_State h = StateHeld -> hold_spend k h = pend k (release_of h).
Proof.
  intros Hs. unfold hold_spend, is_active, release_of, cents. rewrite Hs. fold (counter_of h).
  rewrite bool_decide_true by done. cbn. destruct (toCents (h_Amount h)); cbn; [by rewrite pend_one|].
  by destruct (String.eqb (counter_of h) k).
Qed.

Section ledgers.
Context `{Countable K}.
Implicit Types (m : gmap K Hold).

Lemma active_spend_nonneg k m : amounts_ok m -> 0 <= active_spend k m.
Proof. intros Hm. apply map_sum_nonneg. intros k' h Hk. apply hold_spend_nonneg. by eapply Hm. Qed.

(** Holds along the lifecycle, none new. *)
Definition moves m m' : Prop :=
  dom m' = dom m /\ forall k h, m !! k = Some h -> exists h', m' !! k = Some h' /\ evolves h h'.

Lemma moves_amounts m m' : amounts_ok m -> moves m m' -> amounts_ok m'.
Proof.
  intros Ha [Hd He] k h' Hk'.
  assert (is_Some (m !! k)) as [h Hk] by (apply elem_of_dom; rewrite <- Hd; apply elem_of_dom; by eexists).
  destruct (He k h Hk) as (h2 & Hk2 & Hv). assert (h2 = h') as -> by congruence.
  destruct (counter_of_terms h h' (proj1 Hv)) as (_ & _ & ->). by eapply Ha.
Qed.

Lemma moves_spend k m m' : amounts_ok m -> moves m m' -> active_spend k m' <= active_spend k m.
Proof.
  intros Ha [Hd He]. apply map_sum_mono; [done|]. intros k' h Hk. destruct (He k' h Hk) as (h' & Hk' & Hv).
  exists h'. split; [done|]. apply evolves_spend; [by eapply Ha | done].
Qed.

(** A new hold. *)
Lemma placed_spend k m i h :
  m !! i = None -> amount_ok (h_Amount h) -> active_spend k (<[i := h]> m) <= active_spend k m + pend k (release_of h).
Proof.
  intros Hi Ha. unfold active_spend. rewrite map_sum_insert_new by done.
  assert (hold_spend k h <= pend k (release_of h)); [|lia]. pose proof (pend_nonneg k _ (release_of_ok h Ha)).
  unfold hold_spend. destruct (is_active h) eqn:Es; cbn; [|done]. unfold release_of, cents in *. fold (counter_of h) in *.
  destruct (toCents (h_Amount h)); cbn in *; [by rewrite pend_one|]. by destruct (String.eqb (counter_of h) k).
Qed.

(** Holds handed out for release: their amounts leave the active spend. *)
Lemma released_spend (key : Hold -> K) k m m' (out : list Hold) :
  amounts_ok m -> moves m m' -> NoDup (key <$> out) ->
  (forall h', h' ∈ out -> exists h, m !! key h' = Some h /\ h_State h = StateHeld /\ same_terms h h' /\
                                    exists h2, m' !! key h' = Some h2 /\ is_active h2 = false) ->
  active_spend k m' + pend k (out ≫= release_of) <= active_spend k m /\ owed_ok (out ≫= release_of).
Proof.
  intros Ha [Hd He] Hnd Hout.
  assert (Hl : exists l, l.*1 = key <$> out /\
    (forall i h, (i, h) ∈ l -> m !! i = Some h /\ exists h2, m' !! i = Some h2 /\ hold_spend k h2 <= 0) /\
    pend k (out ≫= release_of) = sum_Z (hold_spend k <$> l.*2) /\ owed_ok (out ≫= release_of)).
  { clear Hnd. induction out as [|h' out IH].
    - exists []. split_and!; [done| |done|constructor]. intros i h Hin. by apply not_elem_of_nil in Hin.
    - destruct IH as (l & Hl1 & Hl2 & Hl3 & Hl4); [intros; apply Hout; by right|].
      destruct (Hout h') as (h & Hk & Hs & Ht & h2 & Hk2 & Hi); [by left|].
      exists ((key h', h) :: l). cbn [mbind list_bind fmap list_fmap sum_Z]. rewrite (release_of_terms h h' Ht). split_and!.
      + by rewrite <- Hl1.
      + intros i x [[= -> ->]|Hin]%elem_of_cons; [|by apply Hl2]. split; [done|]. exists h2. split; [done|].
        unfold hold_spend. by rewrite Hi.
      + cbn [fst snd]. by rewrite pend_app, Hl3, (held_spend k h Hs).
      + apply Forall_app. split; [|done]. apply release_of_ok. by eapply Ha. }
  destruct Hl as (l & Hl1 & Hl2 & Hl3 & Hl4). split; [|done]. rewrite Hl3.
  apply map_sum_drop; [done| |by rewrite Hl1|done].
  intros i h Hk. destruct (He i h Hk) as (h' & Hk' & Hv). exists h'. split; [done|]. apply evolves_spend; [by eapply Ha|done].
Qed.
End ledgers.
End amounts.
