(* ===== verification/Window.v ===== *)
(** A window key names its period: instants with the same key are close, and the
    key is the last field of a counter key.  So a counter that outlives its
    period by the clocks' disagreement is never opened again. *)

From S2P Require Import Prelude GoStrings GoTime Money Budget.

(** A calendar window; a rolling one has one key forever. *)
Definition calendar (window : string) : bool := negb (String.eqb window "rolling").

(** How far apart two instants of one period can be. *)
Definition window_span (window : string) : duration := if String.eqb window "day" then 24 * Hour else 31 * 24 * Hour.

(** * Strings *)

Lemma str_app_inj_tail a b x y : String.length x = String.length y -> a +:+ x = b +:+ y -> a = b /\ x = y.
Proof.
  intros Hl. revert b. induction a as [|c a IH]; intros [|d b]; rewrite ?str_app_nil, ?str_app_cons; intros E.
  - done.
  - exfalso. apply (f_equal String.length) in E. cbn in E. rewrite str_app_length in E. lia.
  - exfalso. apply (f_equal String.length) in E. cbn in E. rewrite str_app_length in E. lia.
  - injection E as -> E. destruct (IH b E) as [-> ->]. done.
Qed.

Lemma no_char_app c a b : no_char c (a +:+ b) = no_char c a && no_char c b.
Proof. apply str_all_app. Qed.

Lemma no_char_cons c a s : no_char c (String a s) = negb (Ascii.eqb a c) && no_char c s.
Proof. done. Qed.

(** The last field of a text with a separator. *)
Lemma last_field_inj c a b x y : no_char c x = true -> no_char c y = true -> a +:+ String c x = b +:+ String c y -> a = b /\ x = y.
Proof.
  intros Hx Hy. revert b. induction a as [|d a IH]; intros [|e b]; rewrite ?str_app_nil, ?str_app_cons; intros E.
  - by injection E as ->.
  - exfalso. injection E as -> ->. by rewrite no_char_app, no_char_cons, Ascii.eqb_refl, andb_false_r in Hx.
  - exfalso. injection E as -> <-. by rewrite no_char_app, no_char_cons, Ascii.eqb_refl, andb_false_r in Hy.
  - injection E as -> E. destruct (IH b E) as [-> ->]. done.
Qed.

(** * Dates *)

Lemma parse_zeros n s : parse_digits 0 (zeros n +:+ s) = parse_digits 0 s.
Proof. induction n as [|n IH]; [done|]. cbn [zeros]. by rewrite str_app_cons. Qed.

Lemma parse_pad w z : 0 <= z -> parse_digits 0 (pad w (fmt_nat z)) = Some z.
Proof. intros Hz. unfold pad. rewrite parse_zeros. by apply parse_fmt_nat. Qed.

Lemma pad_digits w z : 0 <= z -> str_all is_digit (pad w (fmt_nat z)) = true.
Proof.
  intros Hz. unfold pad. rewrite str_all_app, fmt_nat_digits by done. rewrite andb_true_r. generalize (w - String.length (fmt_nat z))%nat.
  intros n. induction n as [|n IH]; [done|]. cbn [zeros]. cbn. exact IH.
Qed.

Lemma no_dash_digits s : str_all is_digit s = true -> no_char "-" s = true.
Proof. by apply digits_no_char. Qed.

Lemma fmt_year_inj y y' : fmt_year y = fmt_year y' -> y = y'.
Proof.
  unfold fmt_year. destruct (Z.ltb_spec y 0), (Z.ltb_spec y' 0); intros E.
  - rewrite !(str_app_cons "-") in E. injection E as E. rewrite !str_app_nil in E. apply (f_equal (parse_digits 0)) in E. rewrite !parse_pad in E by lia. injection E. lia.
  - pose proof (no_dash_digits _ (pad_digits 4 y' ltac:(lia))) as Hn. by rewrite <- E in Hn.
  - pose proof (no_dash_digits _ (pad_digits 4 y ltac:(lia))) as Hn. by rewrite E in Hn.
  - apply (f_equal (parse_digits 0)) in E. rewrite !parse_pad in E by lia. congruence.
Qed.

Lemma pad_nonempty w s : (0 < w)%nat -> pad w s <> "".
Proof.
  intros Hw E. apply (f_equal String.length) in E. unfold pad in E. rewrite str_app_length in E. cbn in E.
  assert (Hz : forall n, String.length (zeros n) = n) by (induction n; cbn; congruence). rewrite Hz in E. lia.
Qed.

(** A year is not a year and a month. *)
Lemma year_not_month y y' m : no_char "-" m = true -> fmt_year y = fmt_year y' +:+ "-" +:+ m -> False.
Proof.
  intros Hm E. unfold fmt_year in E at 1. destruct (Z.ltb_spec y 0).
  - change ("-" +:+ pad 4 (fmt_nat (- y))) with ("" +:+ String "-" (pad 4 (fmt_nat (- y)))) in E.
    change (fmt_year y' +:+ "-" +:+ m) with (fmt_year y' +:+ String "-" m) in E.
    apply last_field_inj in E as [E _]; [|by apply no_dash_digits, pad_digits; lia|done]. unfold fmt_year in E.
    destruct (y' <? 0); [done|]. by apply (pad_nonempty 4 (fmt_nat y')); [lia|].
  - pose proof (no_dash_digits _ (pad_digits 4 y ltac:(lia))) as Hn. rewrite E in Hn.
    rewrite no_char_app in Hn. by rewrite andb_false_r in Hn.
Qed.

Lemma pad2_no_dash z : 0 <= z -> no_char "-" (pad2 z) = true.
Proof. intros Hz. by apply no_dash_digits, pad_digits. Qed.

Lemma pad2_inj a b : 0 <= a -> 0 <= b -> pad2 a = pad2 b -> a = b.
Proof. intros Ha Hb E. apply (f_equal (parse_digits 0)) in E. unfold pad2 in E. rewrite !parse_pad in E by done. congruence. Qed.

Lemma dash_field a b x y : no_char "-" x = true -> no_char "-" y = true -> a +:+ "-" +:+ x = b +:+ "-" +:+ y -> a = b /\ x = y.
Proof. apply last_field_inj. Qed.

Lemma date_range t : 1 <= c_month (date_of t) <= 12 /\ 1 <= c_day (date_of t) <= 31 /\ days_from_civil (date_of t) = day_of t.
Proof.
  unfold date_of. destruct (civil_from_days_spec (day_of t)) as (H1 & H2 & H3). split_and!; try lia.
  unfold days_in in H3. repeat case_match; lia.
Qed.

Lemma format_month_civil t t' : format_month t = format_month t' -> c_year (date_of t) = c_year (date_of t') /\ c_month (date_of t) = c_month (date_of t').
Proof.
  destruct (date_range t) as (H1 & _). destruct (date_range t') as (H2 & _). unfold format_month. cbv zeta. intros E.
  apply dash_field in E as [E1 E2]; [|apply pad2_no_dash; lia|apply pad2_no_dash; lia]. split; [by apply fmt_year_inj | by apply pad2_inj; [lia|lia|]].
Qed.

Lemma format_date_not_month t t' : format_date t <> format_month t'.
Proof.
  destruct (date_range t) as (H1 & H2 & _). destruct (date_range t') as (H3 & _). unfold format_date, format_month at 2. cbv zeta. intros E.
  apply dash_field in E as [E _]; [|apply pad2_no_dash; lia|apply pad2_no_dash; lia]. unfold format_month in E. cbv zeta in E. symmetry in E.
  apply year_not_month in E; [done|]. apply pad2_no_dash. lia.
Qed.

Lemma format_date_inj t t' : format_date t = format_date t' -> day_of t = day_of t'.
Proof.
  destruct (date_range t) as (_ & H2 & Hd). destruct (date_range t') as (_ & H3 & Hd'). unfold format_date. intros E.
  apply dash_field in E as [E1 E2]; [|apply pad2_no_dash; lia|apply pad2_no_dash; lia]. apply format_month_civil in E1 as [Ey Em]. apply pad2_inj in E2; [|lia|lia].
  rewrite <- Hd, <- Hd'. f_equal. destruct (date_of t), (date_of t'); cbn in *. by subst.
Qed.

(** Days of one month are at most thirty apart. *)
Lemma format_month_days t t' : format_month t = format_month t' -> Z.abs (day_of t - day_of t') <= 30.
Proof.
  intros [Ey Em]%format_month_civil. destruct (date_range t) as (_ & H2 & <-). destruct (date_range t') as (_ & H3 & <-).
  unfold days_from_civil. rewrite Ey, Em. cbv zeta. lia.
Qed.

Lemma day_of_bounds t : day_of t * (24 * Hour) <= t < (day_of t + 1) * (24 * Hour).
Proof. unfold day_of, Unix, Hour, Minute, Second, nanos. zlia. Qed.

Lemma format_has_dash t : no_char "-" (format_month t) = false /\ no_char "-" (format_date t) = false.
Proof.
  assert (H : forall a b, no_char "-" (a +:+ "-" +:+ b) = false) by (intros a b; by rewrite no_char_app, andb_false_r).
  split; apply H.
Qed.

(** Two windows that share a key are of one kind, and their instants close. *)
Lemma WindowKey_close w w' t t' :
  calendar w = true -> WindowKey w t = WindowKey w' t' ->
  calendar w' = true /\ windowTTL w' = windowTTL w /\ window_span w' = window_span w /\ Z.abs (t - t') < window_span w.
Proof.
  unfold calendar, WindowKey, windowTTL, window_span. destruct (format_has_dash t) as [Hm Hd]. intros Hc E.
  pose proof (day_of_bounds t) as Hb. pose proof (day_of_bounds t') as Hb'. unfold Hour, Minute, Second, nanos in *.
  destruct (String.eqb w "day") eqn:Ew.
  - destruct (String.eqb w' "day") eqn:Ew'.
    + apply String.eqb_eq in Ew' as ->. apply format_date_inj in E. split_and!; try done. lia.
    + destruct (String.eqb w' "rolling"); [by rewrite E in Hd|]. by apply format_date_not_month in E.
  - apply negb_true_iff in Hc. rewrite Hc in E |- *. destruct (String.eqb w' "day") eqn:Ew'.
    + symmetry in E. by apply format_date_not_month in E.
    + destruct (String.eqb w' "rolling"); [by rewrite E in Hm|]. apply format_month_days in E. split_and!; try done. lia.
Qed.

Lemma WindowKey_no_colon w t : no_char ":" (WindowKey w t) = true.
Proof.
  assert (Hp : forall z, 0 <= z -> no_char ":" (pad2 z) = true) by (intros z Hz; by apply digits_no_char, pad_digits).
  assert (Hy : forall y, no_char ":" (fmt_year y) = true).
  { intros y. unfold fmt_year. destruct (Z.ltb_spec y 0); [|by apply digits_no_char, pad_digits].
    rewrite no_char_app. cbn [andb]. by rewrite (digits_no_char ":" _ eq_refl (pad_digits 4 (- y) ltac:(lia))). }
  destruct (date_range t) as (H1 & H2 & _).
  assert (Hm : no_char ":" (format_month t) = true) by (unfold format_month; cbv zeta; rewrite !no_char_app, Hy, Hp by lia; done).
  unfold WindowKey. destruct (String.eqb w "day"); [|by destruct (String.eqb w "rolling")].
  unfold format_date. rewrite !no_char_app, Hm, Hp by lia. done.
Qed.

Lemma counterKey_window o b wk o' b' wk' :
  no_char ":" wk = true -> no_char ":" wk' = true -> counterKey o b wk = counterKey o' b' wk' -> wk = wk'.
Proof.
  intros Hw Hw' E.
  assert (Hk : forall o b wk, counterKey o b wk = ("budget:" +:+ o +:+ ":" +:+ b) +:+ String ":" wk).
  { intros. unfold counterKey. by rewrite <- !str_app_assoc. }
  rewrite !Hk in E. by apply last_field_inj in E as [_ ?].
Qed.
