(* ===== verification/BudgetSafety.v ===== *)
(** No oversell under concurrency.  Requests, captures, voids, reads and expiry
    sweeps run as threads that interleave at every atomic step; the threads'
    code is the steps [Reserver] composes.  The theorem holds for any counter
    and any hold store that keep the promises of [CounterSpec] and
    [HoldStoreSpec], ledger failures and counter errors included. *)

From S2P Require Import Prelude GoStrings GoTime Contracts Runtime Engine Hold HoldStore Budget Counter Reserver Spend.

(** * The concurrent system *)

Inductive thread :=
| TReserve (org dec : string) (req : AuthorizeRequest) (b : BudgetDecl)
| TCount (t : time) (org dec : string) (req : AuthorizeRequest) (b : BudgetDecl)
| TReserving (s : reserving)
| TCapture (org dec : string)
| TVoid (org dec : string)
| TGet (org dec : string)
| TSweep
| TRelease (l : list (string * Z))
| TDone.

(** One atomic step of a thread. *)
Definition exec_thread {W} `{Runtime W} (r : Reserver W) (rc : Reconciler W) (th : thread) : io W thread :=
  match th with
  | TReserve org dec req b => t ← reserve_time req; mret (TCount t org dec req b)
  | TCount t org dec req b => s ← reserve_count (r_counter r) (r_holdTTL r) t org dec req b; mret (TReserving s)
  | TReserving (RvPlace key amount h res) => s ← reserve_place (store_Place (r_holds r)) key amount h res; mret (TReserving s)
  | TReserving (RvUndo key amount wk) => _ ← reserve_undo (r_counter r) key amount wk; mret TDone
  | TReserving (RvDone _) => mret TDone
  | TCapture org dec => _ ← Reserver_Capture r org dec; mret TDone
  | TVoid org dec =>
    x ← store_Void (r_holds r) org dec;
    mret (match x with Ok (h, true) => TRelease (release_of h) | _ => TDone end)
  | TGet org dec => _ ← Reserver_Get r org dec; mret TDone
  | TSweep =>
    t ← now;
    x ← store_ExpireDue (rc_holds rc) t (rc_batch rc);
    mret (match x with Ok due => TRelease (due ≫= release_of) | Err _ => TDone end)
  | TRelease [] => mret TDone
  | TRelease ((key, amount) :: l) => _ ← counter_Release (r_counter r) key amount; mret (TRelease l)
  | TDone => mret TDone
  end.

Record system (W : Type) := { sys_world : W; sys_threads : list thread }.
Arguments sys_world {W} _.
Arguments sys_threads {W} _.

(** ** What threads owe *)

(** Amounts a thread has added to (or must still take off) the counter, that no
    active hold accounts for. *)
Definition pending (th : thread) : list (string * Z) :=
  match th with
  | TReserving (RvPlace key amount _ _) => [(key, amount)]
  | TReserving (RvUndo key amount _) => [(key, amount)]
  | TRelease l => l
  | _ => []
  end.

(** ** Well-formed threads and stores *)

Section safety.
Context {W V : Type} `{Runtime W} (r : Reserver W) (rc : Reconciler W).
Context (ledger : W -> MemStore) (other : W -> V) (value : V -> string -> Z) (cap : Z).
Context `{!Frame ledger} `{!Frame other}.
Context `{!CounterSpec (r_counter r) (fun w => value (other w)) cap}.
Context `{!HoldStoreSpec (r_holds r) ledger other} `{!HoldStoreSpec (rc_holds rc) ledger other}.
(** The counter's operations leave the ledger alone. *)
Context (reserve_ledger : forall k a l t s w, ledger (counter_Reserve (r_counter r) k a l t s w).2 = ledger w).
Context (release_ledger : forall k a w, ledger (counter_Release (r_counter r) k a w).2 = ledger w).
(** The limit of each counter. *)
Context (lim : string -> Z) (lim_cap : forall k, 0 <= lim k <= cap).

Definition val (w : W) (k : string) : Z := value (other w) k.

#[local] Abbreviation amount_ok := (Spend.amount_ok cap).

(** A request whose amount converts within the exact range, against a budget
    whose limit is the counter's. *)
Definition request_ok (org : string) (req : AuthorizeRequest) (b : BudgetDecl) : Prop :=
  amount_ok (req_Amount req) /\
  forall t l, toCents (bd_Limit b) = Some l -> 0 <= l <= lim (counterKey org (bd_ID b) (WindowKey (bd_Window b) t)).

Definition thread_ok (th : thread) : Prop :=
  match th with
  | TReserve org _ req b => request_ok org req b
  | TCount _ org _ req b => request_ok org req b
  | TReserving (RvPlace key amount h _) =>
    0 <= amount <= cap /\ toCents (h_Amount h) = Some amount /\ counter_of h = key /\ h_State h = StateHeld
  | TReserving (RvUndo _ amount _) => 0 <= amount <= cap
  | TRelease l => Forall (fun p => 0 <= p.2 <= cap) l
  | _ => True
  end.

Definition ledger_ok (m : MemStore) : Prop := store_wf m /\ amounts_ok cap m.

Definition fresh (th : thread) : Prop :=
  match th with TReserve _ _ _ _ | TCapture _ _ | TVoid _ _ | TGet _ _ | TSweep => True | _ => False end.

(** A thread takes a step, a request or sweep arrives, or time passes without
    touching counters and ledger. *)
Inductive sys_step : system W -> system W -> Prop :=
| step_thread w ts1 th ts2 :
    sys_step {| sys_world := w; sys_threads := ts1 ++ th :: ts2 |}
             {| sys_world := (exec_thread r rc th w).2; sys_threads := ts1 ++ (exec_thread r rc th w).1 :: ts2 |}
| step_arrive w ts th : fresh th -> thread_ok th ->
    sys_step {| sys_world := w; sys_threads := ts |} {| sys_world := w; sys_threads := th :: ts |}
| step_time w w' ts : (forall k, val w' k = val w k) -> ledger w' = ledger w ->
    sys_step {| sys_world := w; sys_threads := ts |} {| sys_world := w'; sys_threads := ts |}.

(** No reservation yet: every counter at zero, an empty ledger, no thread. *)
Definition sys_init (s : system W) : Prop :=
  (forall k, val (sys_world s) k = 0) /\ ledger (sys_world s) = ∅ /\ sys_threads s = [].

Definition all_pending (ts : list thread) : list (string * Z) := ts ≫= pending.

Record sys_ok (s : system W) : Prop := {
  ok_ledger : ledger_ok (ledger (sys_world s));
  ok_threads : Forall thread_ok (sys_threads s);
  ok_spend k : active_spend k (ledger (sys_world s)) + pend k (all_pending (sys_threads s)) <= val (sys_world s) k;
  ok_limit k : val (sys_world s) k <= lim k
}.

(** ** Lemmas *)

Lemma pending_ok th : thread_ok th -> Forall (fun p => 0 <= p.2 <= cap) (pending th).
Proof using Type.
  destruct th as [| |[]| | | | | |]; cbn; intros Hth; try constructor; try done; tauto.
Qed.

Lemma all_pending_ok ts : Forall thread_ok ts -> Forall (fun p => 0 <= p.2 <= cap) (all_pending ts).
Proof using Type.
  induction 1 as [|th ts Hth _ IH]; cbn; [constructor|]. apply Forall_app. split; [by apply pending_ok|done].
Qed.

Lemma all_pending_mid k ts1 th ts2 :
  pend k (all_pending (ts1 ++ th :: ts2)) = pend k (all_pending ts1) + pend k (pending th) + pend k (all_pending ts2).
Proof using Type. apply pend_bind. Qed.

Lemma evolves_moves m m' : evolves_only m m' -> moves m m'.
Proof using Type. by intros [He Hd]. Qed.

Lemma evolves_ledger_ok m m' : ledger_ok m -> evolves_only m m' -> ledger_ok m'.
Proof using Type.
  intros [Hw Ha] He. split; [|by eapply moves_amounts; [|apply evolves_moves]]. destruct He as [He Hd]. intros k h' Hk'.
  assert (is_Some (m !! k)) as [h Hk] by (apply elem_of_dom; rewrite <- Hd; apply elem_of_dom; by eexists).
  destruct (He k h Hk) as (h2 & Hk2 & Hv). assert (h2 = h') as -> by congruence. eapply evolves_wf; [by apply Hw|done].
Qed.

(** ** One step keeps the books *)

(** What a thread's step must not do: lose track of spend, or pass the limit. *)
Definition step_ok (th : thread) (w : W) (th' : thread) (w' : W) : Prop :=
  ledger_ok (ledger w') /\ thread_ok th' /\
  forall k, active_spend k (ledger w') + pend k (pending th') + val w k
            <= active_spend k (ledger w) + pend k (pending th) + val w' k /\ val w' k <= lim k.

Definition covered (th : thread) (w : W) : Prop :=
  ledger_ok (ledger w) /\ thread_ok th /\ forall k, active_spend k (ledger w) + pend k (pending th) <= val w k <= lim k.

Lemma covered_range th w k : covered th w -> 0 <= val w k <= cap.
Proof using lim_cap.
  intros (Hl & Ht & Hs). pose proof (active_spend_nonneg cap k _ (proj2 Hl)). pose proof (pend_nonneg cap k _ (pending_ok _ Ht)).
  specialize (Hs k). specialize (lim_cap k). lia.
Qed.

Lemma step_evolves th w th' w' :
  covered th w -> other w' = other w -> evolves_only (ledger w) (ledger w') ->
  thread_ok th' -> pending th' = pending th -> step_ok th w th' w'.
Proof using Type.
  intros (Hl & Ht & Hs) Ho He Ht' Hp. split; [by eapply evolves_ledger_ok|]. split; [done|].
  intros k. rewrite Hp. unfold val. rewrite Ho. pose proof (moves_spend cap k _ _ (proj2 Hl) (evolves_moves _ _ He)).
  specialize (Hs k). unfold val in Hs. lia.
Qed.

Lemma step_released th w w' (out : list Hold) :
  covered th w -> pending th = [] -> other w' = other w -> evolves_only (ledger w) (ledger w') -> NoDup (hold_key <$> out) ->
  (forall h', h' ∈ out -> exists h, ledger w !! hold_key h' = Some h /\ h_State h = StateHeld /\ same_terms h h' /\
                                    ledger w' !! hold_key h' = Some h' /\ is_active h' = false) ->
  step_ok th w (TRelease (out ≫= release_of)) w'.
Proof using Type.
  intros (Hl & Ht & Hs) Hp Ho He Hnd Hout. split; [by eapply evolves_ledger_ok|].
  assert (Hr : forall k, active_spend k (ledger w') + pend k (out ≫= release_of) <= active_spend k (ledger w) /\ owed_ok cap (out ≫= release_of)).
  { intros k. apply (released_spend cap hold_key); [apply Hl | by apply evolves_moves | done|].
    intros h' Hin. destruct (Hout h' Hin) as (h & Hk & Hst & Hsame & Hk' & Hi). exists h. split_and!; [done..|]. by exists h'. }
  split; [apply (Hr "")|].
  intros k. rewrite Hp. destruct (Hr k) as [Hrel _].
  cbn [pending]. change (pend k []) with 0. specialize (Hs k). unfold val in *. rewrite Ho. rewrite Hp in Hs.
  change (pend k []) with 0 in Hs. lia.
Qed.

Lemma evolves_only_refl m : evolves_only m m.
Proof using Type. done. Qed.

Lemma step_idle th w th' w' :
  covered th w -> other w' = other w -> ledger w' = ledger w -> thread_ok th' -> pending th' = pending th -> step_ok th w th' w'.
Proof using Type. intros Hc Ho Hl. apply step_evolves; [done|done|]. rewrite Hl. apply evolves_only_refl. Qed.

Lemma windowTTL_ms window : 0 < Z.quot (windowTTL window) 1000000.
Proof using Type. unfold windowTTL. destruct (String.eqb window "day"); [done|]. by destruct (String.eqb window "rolling"). Qed.

Lemma step_count t org dec req b w :
  covered (TCount t org dec req b) w ->
  step_ok (TCount t org dec req b) w (TReserving (reserve_count (r_counter r) (r_holdTTL r) t org dec req b w).1) (reserve_count (r_counter r) (r_holdTTL r) t org dec req b w).2.
Proof using Type*.
  intros Hc. pose proof Hc as (Hl & [Ha Hlim] & Hs). unfold reserve_count.
  destruct (toCents (req_Amount req)) as [amount|] eqn:Ea; [|by apply step_idle].
  destruct (toCents (bd_Limit b)) as [limit|] eqn:Elim; [|by apply step_idle].
  set (key := counterKey org (bd_ID b) (WindowKey (bd_Window b) t)). rewrite bind_let.
  pose proof (covered_range _ _ key Hc) as Hv. pose proof (Ha _ Ea) as Hab. pose proof (Hlim t _ eq_refl) as Hlb. fold key in Hlb.
  pose proof (lim_cap key) as Hcap.
  pose proof (reserve_law key amount limit (windowTTL (bd_Window b)) (windowSticky (bd_Window b)) w Hv Hab ltac:(lia) (windowTTL_ms _)) as Hlaw.
  pose proof (reserve_ledger key amount limit (windowTTL (bd_Window b)) (windowSticky (bd_Window b)) w) as Hled.
  destruct (counter_Reserve _ _ _ _ _ _ w) as [[[reserved prior]|e] w'] eqn:Er; cbn [fst snd mret io_ret] in *.
  - destruct Hlaw as (-> & -> & Hval). fold (val w key) in *. split; [by rewrite Hled|]. split.
    + destruct (Z.leb_spec (val w key + amount) limit); [|done]. cbn. split_and!; try done; lia.
    + intros k. rewrite Hled. specialize (Hval k). fold (val w' k) (val w k) in Hval. specialize (Hs k). rewrite Hval.
      change (pend k (pending (TCount t org dec req b))) with 0.
      destruct (Z.leb_spec (val w key + amount) limit) as [Hle|Hgt]; cbn [andb].
      * cbn [pending]. rewrite pend_one. case_bool_decide as Ek; [subst k; rewrite String.eqb_refl; lia|].
        assert (String.eqb key k = false) as -> by (apply String.eqb_neq; congruence). lia.
      * change (pend k (pending (TReserving _))) with 0. lia.
  - split; [by rewrite Hled|]. split; [done|]. intros k. rewrite Hled. specialize (Hlaw k). fold (val w' k) (val w k) in Hlaw.
    rewrite Hlaw. change (pend k (pending (TReserving _))) with 0. change (pend k (pending (TCount t org dec req b))) with 0.
    specialize (Hs k). lia.
Qed.

Lemma step_place key amount h res w :
  covered (TReserving (RvPlace key amount h res)) w ->
  step_ok (TReserving (RvPlace key amount h res)) w
    (TReserving (reserve_place (store_Place (r_holds r)) key amount h res w).1) (reserve_place (store_Place (r_holds r)) key amount h res w).2.
Proof using Type*.
  intros Hc. pose proof Hc as (Hl & (Hab & Ha & Hk & Hst) & Hs). unfold reserve_place. rewrite bind_let.
  assert (Hp : placed_ok h) by (intros s; congruence).
  pose proof (place_law (S:=r_holds r) (ledger:=ledger) (other:=other) h w Hp (proj1 Hl)) as Hlaw.
  destruct (store_Place (r_holds r) h w) as [x w'] eqn:Ex. cbn [fst snd]. destruct Hlaw as [Ho Hled].
  assert (Hval : forall k, val w' k = val w k) by (intros k; unfold val; by rewrite Ho).
  destruct x as [[]|e]; [|by apply step_idle].
  change (step_ok (TReserving (RvPlace key amount h res)) w (TReserving (RvDone (with_outcome BudgetWithinLimit res))) w').
  destruct Hled as [[_ Hled]|(Hnew & h' & Hled & Hst' & Hid & Horg & Hb & Hw & Ha')].
  - split; [by rewrite Hled|]. split; [done|]. intros k. rewrite Hled, Hval. specialize (Hs k).
    change (pend k (pending (TReserving (RvDone _)))) with 0. cbn [pending]. rewrite pend_one. destruct (String.eqb key k); lia.
  - assert (Hkey : hold_key h' = hold_key h) by (unfold hold_key; congruence).
    split; [|split; [done|]].
    + cbn [fst snd mret io_ret]. rewrite Hled. destruct Hl as [Hl1 Hl2]. split; (apply map_Forall_insert_2; [|done]).
      * split; [by rewrite <- Hkey|done].
      * rewrite Ha'. intros c Hc'. rewrite Ha in Hc'. by injection Hc' as <-.
    + intros k. rewrite Hled, Hval. specialize (Hs k). unfold active_spend. rewrite map_sum_insert_new by done.
      change (pend k (pending (TReserving (RvDone _)))) with 0. cbn [pending]. rewrite pend_one.
      assert (hold_spend k h' <= if String.eqb key k then amount else 0); [|unfold active_spend in Hs; lia].
      unfold hold_spend, counter_of, cents. rewrite Horg, Hb, Hw, Ha', Ha. fold (counter_of h). rewrite Hk. cbn.
      destruct (is_active h'), (String.eqb key k); cbn; lia.
Qed.

Lemma step_release key a l' th w (cont : thread) :
  covered th w -> pending th = (key, a) :: l' -> pending cont = l' -> thread_ok cont ->
  step_ok th w cont (counter_Release (r_counter r) key a w).2.
Proof using Type*.
  intros Hc Hp Hpc Htc. pose proof Hc as (Hl & Ht & Hs). pose proof (pending_ok _ Ht) as Hpo. rewrite Hp in Hpo.
  apply Forall_cons_iff in Hpo as [Hab Hl']. cbn in Hab.
  pose proof (covered_range _ _ key Hc) as Hv.
  pose proof (release_law key a w Hv Hab) as Hlaw. pose proof (release_ledger key a w) as Hled.
  destruct (counter_Release (r_counter r) key a w) as [x w']. cbn [snd] in *.
  split; [by rewrite Hled|]. split; [done|]. intros k. rewrite Hled, Hpc, Hp, pend_cons, pend_one.
  pose proof (active_spend_nonneg cap k _ (proj2 Hl)). pose proof (pend_nonneg cap k _ Hl').
  specialize (Hs k). rewrite Hp, pend_cons, pend_one in Hs.
  destruct x as [[]|e]; specialize (Hlaw k); fold (val w' k) (val w k) (val w key) in Hlaw; rewrite Hlaw.
  - case_bool_decide as Ek; [subst k; rewrite String.eqb_refl in *; lia|].
    assert (String.eqb key k = false) as E by (apply String.eqb_neq; congruence). rewrite E in *. lia.
  - destruct (String.eqb key k); lia.
Qed.

Lemma step_void org dec w :
  covered (TVoid org dec) w -> step_ok (TVoid org dec) w (exec_thread r rc (TVoid org dec) w).1 (exec_thread r rc (TVoid org dec) w).2.
Proof using Type*.
  intros Hc. pose proof Hc as (Hl & _ & _). cbn [exec_thread]. rewrite bind_let.
  pose proof (void_law (S:=r_holds r) (ledger:=ledger) (other:=other) org dec w (proj1 Hl)) as Hlaw.
  destruct (store_Void (r_holds r) org dec w) as [x w']. destruct Hlaw as (Ho & He & Hrel). cbn [fst snd].
  destruct x as [[h' [|]]|e]; [|by apply step_evolves..]. destruct (Hrel h' eq_refl) as (h & Hk & Hs & Ht & Hk' & Hs').
  cbn [fst snd mret io_ret].
  replace (release_of h') with ([h'] ≫= release_of) by (cbn; apply app_nil_r).
  apply step_released; try done; [cbn; apply list.NoDup_singleton|].
  intros h2 ->%list_elem_of_singleton. exists h. split_and!; try done. unfold is_active. by rewrite Hs'.
Qed.

Lemma step_sweep w : covered TSweep w -> step_ok TSweep w (exec_thread r rc TSweep w).1 (exec_thread r rc TSweep w).2.
Proof using Type*.
  intros Hc. cbn [exec_thread]. rewrite !bind_let. destruct (now w) as [t w1] eqn:Et. cbn [fst snd].
  pose proof (now_frame_eq (view:=ledger) _ _ _ Et) as Hl1. pose proof (now_frame_eq (view:=other) _ _ _ Et) as Ho1.
  pose proof Hc as (Hl & _ & _).
  pose proof (expire_law (S:=rc_holds rc) (ledger:=ledger) (other:=other) t (rc_batch rc) w1) as Hlaw. rewrite Hl1, Ho1 in Hlaw. specialize (Hlaw (proj1 Hl)).
  destruct (store_ExpireDue (rc_holds rc) t (rc_batch rc) w1) as [x w']. destruct Hlaw as (Ho & He & Hrel). cbn [fst snd].
  destruct x as [out|e]; [|by apply step_evolves]. destruct (Hrel out eq_refl) as [Hnd Hout].
  apply step_released; try done. intros h' Hin. destruct (Hout h' Hin) as (h & Hk & Hs & Ht & Hk' & Hs').
  exists h. split_and!; try done. unfold is_active. by rewrite Hs'.
Qed.

Lemma exec_thread_ok th w :
  covered th w -> step_ok th w (exec_thread r rc th w).1 (exec_thread r rc th w).2.
Proof using Type*.
  intros Hc. pose proof Hc as (Hl & Ht & _).
  destruct th as [org dec req b|t org dec req b|[key a h res|key a wk|res]|org dec|org dec|org dec| |[|[key a] l]|];
    cbn [exec_thread]; rewrite ?bind_let; cbn [fst snd].
  - unfold reserve_time. rewrite bind_let. destruct (now w) as [t w1] eqn:Et. cbn.
    apply step_idle; try done; by apply (now_frame_eq _ _ _ Et).
  - by apply step_count.
  - by apply step_place.
  - unfold reserve_undo. rewrite bind_let. cbn. by eapply step_release.
  - by apply step_idle.
  - unfold Reserver_Capture. destruct (capture_law (S:=r_holds r) (ledger:=ledger) (other:=other) org dec w (proj1 Hl)) as [Ho He]. by apply step_evolves.
  - pose proof (step_void org dec w Hc) as Hv. cbn [exec_thread] in Hv. by rewrite bind_let in Hv.
  - unfold Reserver_Get. destruct (get_hold_law (S:=r_holds r) (ledger:=ledger) (other:=other) org dec w (proj1 Hl)) as [Ho He]. by apply step_evolves.
  - pose proof (step_sweep w Hc) as Hv. cbn [exec_thread] in Hv. by rewrite !bind_let in Hv.
  - by apply step_idle.
  - eapply step_release; [done|done|done|]. cbn in Ht |- *. by apply Forall_cons_iff in Ht as [_ ?].
  - by apply step_idle.
Qed.

Lemma sys_step_ok s s' : sys_ok s -> sys_step s s' -> sys_ok s'.
Proof using Type*.
  intros Hs Hstep. destruct Hstep as [w ts1 th ts2|w ts th Hf Hth|w w' ts Hv Hl].
  - destruct Hs as [Hl Ht Hsp Hlim]. cbn [sys_world sys_threads] in *.
    apply Forall_app in Ht as [Ht1 Ht2]. apply Forall_cons_iff in Ht2 as [Hth Ht2].
    assert (Hp1 : forall k, 0 <= pend k (all_pending ts1)) by (intros k; by apply (pend_nonneg cap), all_pending_ok).
    assert (Hp2 : forall k, 0 <= pend k (all_pending ts2)) by (intros k; by apply (pend_nonneg cap), all_pending_ok).
    assert (Hc : covered th w).
    { split; [done|]. split; [done|]. intros k. specialize (Hsp k). rewrite all_pending_mid in Hsp.
      specialize (Hp1 k). specialize (Hp2 k). specialize (Hlim k). lia. }
    destruct (exec_thread_ok th w Hc) as (Hl' & Hth' & Hk).
    constructor; cbn [sys_world sys_threads]; [done| |intros k; rewrite all_pending_mid|intros k; apply Hk].
    + apply Forall_app. split; [done|]. by apply Forall_cons_iff.
    + specialize (Hk k). specialize (Hsp k). rewrite all_pending_mid in Hsp. lia.
  - destruct Hs as [Hl Ht Hsp Hlim]. cbn [sys_world sys_threads] in *. constructor; cbn [sys_world sys_threads]; try done.
    + by apply Forall_cons_iff.
    + intros k. assert (pending th = []) as Hp by (by destruct th). cbn [all_pending mbind list_bind]. by rewrite Hp.
  - destruct Hs as [Hl0 Ht Hsp Hlim]. cbn [sys_world sys_threads] in *. constructor; cbn [sys_world sys_threads]; try done.
    + by rewrite Hl.
    + intros k. rewrite Hl, Hv. apply Hsp.
    + intros k. rewrite Hv. apply Hlim.
Qed.

Lemma sys_init_ok s : sys_init s -> sys_ok s.
Proof using lim_cap.
  intros (Hv & Hl & Ht). constructor.
  - rewrite Hl. split; apply map_Forall_empty.
  - rewrite Ht. constructor.
  - intros k. rewrite Hl, Ht, Hv. cbn. unfold active_spend. by rewrite map_sum_empty.
  - intros k. rewrite Hv. apply lim_cap.
Qed.
End safety.

(** * Properties *)

(** C2: No oversell.  However reservations, captures, voids, reads and expiry
    sweeps interleave, each call of the counter and the ledger atomic, and
    whatever such calls fail: the held and captured spend of every budget window
    never exceeds its counter, and the counter never exceeds the window's limit.
    Amounts are cents between 0 and the largest the counter is exact for
    ([request_ok]: [mem_cap], [redis_cap]), and limits too; beyond it the
    code oversells ([BudgetMem.overflow_reserves]). *)
Theorem no_oversell {W V} `{!Runtime W} (r : Reserver W) (rc : Reconciler W)
  (ledger : W -> MemStore) (other : W -> V) (value : V -> string -> Z) (cap : Z) `{!Frame ledger} `{!Frame other}
  `{!CounterSpec (r_counter r) (fun w => value (other w)) cap}
  `{!HoldStoreSpec (r_holds r) ledger other} `{!HoldStoreSpec (rc_holds rc) ledger other}
  (Hres : forall k a l t s w, ledger (counter_Reserve (r_counter r) k a l t s w).2 = ledger w)
  (Hrel : forall k a w, ledger (counter_Release (r_counter r) k a w).2 = ledger w)
  (lim : string -> Z) (Hlim : forall k, 0 <= lim k <= cap)
  s (Hs : reachable (sys_init ledger other value) (sys_step r rc ledger other value cap lim) s) :
  forall k, 0 <= active_spend k (ledger (sys_world s)) <= value (other (sys_world s)) k /\
            value (other (sys_world s)) k <= lim k.
Proof.
  assert (Hok : sys_ok ledger other value cap lim s).
  { revert s Hs. apply reachable_invariant; [intros; by eapply sys_init_ok|]. intros a b Ha Hb. by eapply sys_step_ok. }
  intros k. destruct Hok as [Hl Ht Hsp Hlm]. specialize (Hsp k). specialize (Hlm k). unfold val in *.
  pose proof (pend_nonneg cap k _ (all_pending_ok cap lim _ Ht)). pose proof (active_spend_nonneg cap k _ (proj2 Hl)). lia.
Qed.

(** One reservation is an atomic check-and-add with a ledger record.  A
    within-limit outcome means the amount and limit convert, their sum with the
    prior spend stays within the limit, exactly that counter grew by exactly the
    amount and the decision has a hold; an exceeded outcome means the sum passes
    the limit, and counters and ledger are untouched; an unavailable outcome
    leaves the ledger untouched, and the counters too unless the compensating
    release was refused. *)
Theorem Reserve_outcomes {W V} `{!Runtime W} (r : Reserver W)
  (ledger : W -> MemStore) (other : W -> V) (value : V -> string -> Z) (cap : Z) `{!Frame ledger} `{!Frame other}
  `{!CounterSpec (r_counter r) (fun w => value (other w)) cap} `{!HoldStoreSpec (r_holds r) ledger other}
  (Hres : forall k a l t s w, ledger (counter_Reserve (r_counter r) k a l t s w).2 = ledger w)
  (Hrel : forall k a w, ledger (counter_Release (r_counter r) k a w).2 = ledger w)
  org dec req b w
  (Hwf : store_wf (ledger w))
  (Hval : forall k, 0 <= value (other w) k /\ 2 * value (other w) k <= cap)
  (Hamount : forall c, toCents (req_Amount req) = Some c -> 0 <= c /\ 2 * c <= cap)
  (Hlimit : forall c, toCents (bd_Limit b) = Some c -> 0 <= c <= cap) :
  let '(res, w') := Reserver_Reserve r org dec req b w in
  exists t, let key := counterKey org (bd_ID b) (WindowKey (bd_Window b) t) in
  br_WindowKey res = WindowKey (bd_Window b) t /\
  match br_Outcome res with
  | BudgetWithinLimit =>
    exists a l, toCents (req_Amount req) = Some a /\ toCents (bd_Limit b) = Some l /\ value (other w) key + a <= l /\
      (forall k, value (other w') k = value (other w) k + if bool_decide (k = key) then a else 0) /\
      is_Some (ledger w' !! Hold.key org dec) /\ br_SpendToDate res = centsToStr (value (other w) key) /\ br_Limit res = bd_Limit b
  | BudgetExceeded =>
    exists a l, toCents (req_Amount req) = Some a /\ toCents (bd_Limit b) = Some l /\ l < value (other w) key + a /\
      (forall k, value (other w') k = value (other w) k) /\ ledger w' = ledger w
  | BudgetUnavailable =>
    ledger w' = ledger w /\
    ((forall k, value (other w') k = value (other w) k) \/
     exists a w1 e, toCents (req_Amount req) = Some a /\ (counter_Release (r_counter r) key a w1).1 = Err e)
  end.
Proof.
  unfold Reserver_Reserve, reserve_time. rewrite !bind_let. destruct (now w) as [t0 w0] eqn:Et. cbn [fst snd mret io_ret].
  pose proof (now_frame_eq (view:=ledger) _ _ _ Et) as Hl0. pose proof (now_frame_eq (view:=other) _ _ _ Et) as Ho0.
  set (t := evaluated_at req t0). unfold reserve_count.
  destruct (toCents (req_Amount req)) as [a|] eqn:Ea; [destruct (toCents (bd_Limit b)) as [l|] eqn:El|].
  2-3: cbn; exists t; split; [done|]; rewrite Ho0; auto.
  rewrite bind_let. set (key := counterKey org (bd_ID b) (WindowKey (bd_Window b) t)).
  destruct (Hamount a eq_refl) as [Ha1 Ha2]. pose proof (Hlimit l eq_refl) as Hl. destruct (Hval key) as [Hv1 Hv2].
  pose proof (reserve_law (C:=r_counter r) (val:=fun w => value (other w)) (cap:=cap) key a l (windowTTL (bd_Window b)) (windowSticky (bd_Window b)) w0) as Hlaw.
  cbn beta in Hlaw. rewrite Ho0 in Hlaw. specialize (Hlaw ltac:(lia) ltac:(lia) ltac:(lia) (windowTTL_ms _)).
  pose proof (Hres key a l (windowTTL (bd_Window b)) (windowSticky (bd_Window b)) w0) as Hled1.
  destruct (counter_Reserve _ _ _ _ _ _ w0) as [[[reserved prior]|e] w1]; cbn [fst snd mret io_ret] in *;
    [|exists t; cbn; split; [done|]; rewrite Hled1, Hl0; auto].
  destruct Hlaw as (-> & -> & Hk1). destruct (Z.leb_spec (value (other w) key + a) l) as [Hle|Hgt]; cbn [andb] in Hk1;
    [|exists t; cbn; split; [done|]; exists a, l; rewrite Hled1, Hl0; by split_and!].
  unfold reserve_place. rewrite !bind_let.
  pose proof (place_law (S:=r_holds r) (ledger:=ledger) (other:=other) (new_hold (r_holdTTL r) t org dec req b) w1) as Hp.
  rewrite Hled1, Hl0 in Hp. specialize (Hp ltac:(intros s; discriminate) Hwf).
  destruct (store_Place (r_holds r) _ w1) as [[[]|e] w2]; cbn [fst snd mret io_ret]; destruct Hp as [Ho2 Hled2].
  - exists t. cbn. split; [done|]. exists a, l. split_and!; try done.
    + intros k. rewrite Ho2, Hk1. fold key. case_bool_decide as E; [by rewrite E|lia].
    + destruct Hled2 as [[Hs ->]|(_ & h' & -> & _)]; [done|]. rewrite lookup_insert_eq. by eexists.
  - unfold reserve_undo. rewrite bind_let. exists t. cbn. split; [done|]. rewrite Hrel. split; [done|].
    pose proof (release_law (C:=r_counter r) (val:=fun w => value (other w)) (cap:=cap) key a w2) as Hr. cbn beta in Hr.
    rewrite Ho2, Hk1, bool_decide_true in Hr by done. specialize (Hr ltac:(lia) ltac:(lia)).
    destruct (counter_Release (r_counter r) key a w2) as [[[]|e'] w3] eqn:Er; cbn [snd].
    + left. intros k. rewrite Hr, Hk1. case_bool_decide as E; [subst k; lia|done].
    + right. exists a, w2, e'. split; [done|exact (f_equal fst Er)].
Qed.
