(* ===== verification/BudgetMem.v ===== *)
(** The budget subsystem assembled in memory: [MemCounter] and [MemStore] in one
    world with a clock.  It discharges the engine's interface [ReserverSpec] and
    the hypotheses of [no_oversell], and runs the examples. *)

From S2P Require Import Prelude GoStrings GoTime Money Contracts Runtime Engine EngineProps Hold HoldStore Budget Counter Reserver Spend BudgetSafety Samples.

Record bworld := { bw_clock : time; bw_vals : MemVals; bw_holds : MemStore }.

(** What the hold store does not own. *)
Definition bw_other (w : bworld) : MemVals := bw_vals w.

Definition put_vals (m : MemVals) (w : bworld) : bworld :=
  {| bw_clock := bw_clock w; bw_vals := m; bw_holds := bw_holds w |}.
Definition put_holds (m : MemStore) (w : bworld) : bworld :=
  {| bw_clock := bw_clock w; bw_vals := bw_vals w; bw_holds := m |}.

(** The clock stands still unless the environment advances it. *)
#[export] Instance bw_runtime : Runtime bworld := {| now w := (bw_clock w, w); rand_Read n w := (repeat 7 n, w) |}.
#[export] Instance bw_frame_holds : Frame bw_holds.
Proof. by split. Qed.
#[export] Instance bw_frame_other : Frame bw_other.
Proof. by split. Qed.

(** A component of the world seen as a store of its own. *)
Definition lift_counter : Counter bworld :=
  {| counter_Reserve k a l t s w := let '(x, m) := counter_Reserve MemCounter k a l t s (bw_vals w) in (x, put_vals m w);
     counter_Release k a w := let '(x, m) := counter_Release MemCounter k a (bw_vals w) in (x, put_vals m w);
     counter_Set k c t w := let '(x, m) := counter_Set MemCounter k c t (bw_vals w) in (x, put_vals m w);
     counter_Get k w := let '(x, m) := counter_Get MemCounter k (bw_vals w) in (x, put_vals m w) |}.

(** The iteration order of the sweep: any enumeration of the keys would do. *)
Definition bw_order (w : bworld) : list string := (map_to_list (bw_holds w)).*1.

Definition bw_store : HoldStore bworld := MemStore_store bw_holds put_holds bw_order.

Definition bw_reserver : Reserver bworld := NewReserver lift_counter bw_store 0.
Definition bw_reconciler : Reconciler bworld := NewReconciler lift_counter bw_store 0.

#[export] Instance lift_counter_spec : CounterSpec lift_counter (fun w => mem_val (bw_other w)) mem_cap.
Proof.
  split.
  - intros key amount limit ttl sticky w Hv Ha Hl Ht. unfold lift_counter. cbn [counter_Reserve].
    pose proof (reserve_law (C:=MemCounter) key amount limit ttl sticky (bw_vals w) Hv Ha Hl Ht) as H.
    by destruct (counter_Reserve MemCounter key amount limit ttl sticky (bw_vals w)) as [x m].
  - intros key amount w Hv Ha. pose proof (release_law (C:=MemCounter) key amount (bw_vals w) Hv Ha) as H. done.
  - intros key cents ttl w Ht. pose proof (set_law (C:=MemCounter) key cents ttl (bw_vals w) Ht) as H. done.
  - intros key w. cbn. split; [|done]. by destruct w.
Qed.

#[export] Instance bw_store_spec : HoldStoreSpec bw_store bw_holds bw_other.
Proof. apply MemStore_spec; try done. intros w. apply NoDup_fst_map_to_list. Qed.

Lemma lift_ledger_reserve k a l t s w : bw_holds (counter_Reserve lift_counter k a l t s w).2 = bw_holds w.
Proof. unfold lift_counter. cbn [counter_Reserve]. by destruct (counter_Reserve MemCounter k a l t s (bw_vals w)). Qed.

Lemma lift_ledger_release k a w : bw_holds (counter_Release lift_counter k a w).2 = bw_holds w.
Proof. done. Qed.

(** The in-memory reserver satisfies what the engine asks of a reserver: a
    refusal leaves every counter as it was. *)
#[export] Instance bw_reserver_spec k : ReserverSpec (fun w => mem_val (bw_other w) k) (as_BudgetReserver bw_reserver).
Proof.
  split. intros org id req b w. cbn [Reserve as_BudgetReserver]. unfold Reserver_Reserve, reserve_time. rewrite !bind_let.
  cbn [fst snd now bw_runtime mret io_ret]. unfold reserve_count.
  destruct (toCents (req_Amount req)) as [amount|]; [|done]. destruct (toCents (bd_Limit b)) as [limit|]; [|done].
  rewrite bind_let. unfold bw_reserver, NewReserver, lift_counter. cbn [counter_Reserve r_counter MemCounter].
  unfold Mem_Reserve. destruct (limit <? _); cbn; done.
Qed.

(** * Examples and witnesses *)

#[local] Existing Instance sample_bigrat.
#[local] Existing Instance sample_unicode.

Definition bw0 : bworld := {| bw_clock := t0; bw_vals := ∅; bw_holds := ∅ |}.

Definition win_key : string := counterKey "org" "b1" "2026-03-02".

Definition reserve_amount (id amount : string) : bworld -> bworld :=
  fun w => (Reserver_Reserve bw_reserver "org" id (sample_request "a" amount) sample_budget w).2.

Definition spend_state (w : bworld) : Z * Z := (active_spend win_key (bw_holds w), mem_val (bw_vals w) win_key).

(** Two reservations of 60 against a limit of 100: the second is refused. *)
Example reserve_twice : spend_state (reserve_amount "d2" "60" (reserve_amount "d1" "60" bw0)) = (6000, 6000).
Proof. vm_compute. reflexivity. Qed.

(** A void gives the amount back. *)
Example reserve_void :
  spend_state (Reserver_Void bw_reserver "org" "d1" (reserve_amount "d1" "60" bw0)).2 = (0, 0).
Proof. vm_compute. reflexivity. Qed.

(** [RebuildWindow] is not atomic: a reservation that lands between its read of
    the ledger and its write of the counter is lost from the counter, and the
    next reservation oversells the window (120.00 against 100.00). *)
Example rebuild_race_oversells :
  let w1 := reserve_amount "d1" "60" bw0 in
  let '(sum, w2) := rebuild_read bw_reconciler "org" "b1" "2026-03-02" w1 in
  let w3 := reserve_amount "d2" "30" w2 in
  let w4 := match sum with Ok c => (counter_Set lift_counter win_key c (windowTTL "day") w3).2 | Err _ => w3 end in
  let w5 := reserve_amount "d3" "30" w4 in
  spend_state w5 = (12000, 9000).
Proof. vm_compute. reflexivity. Qed.

(** An amount whose cents wrap to a negative number passes the limit and lowers
    the counter. *)
Example overflow_reserves :
  let '(res, w) := Reserver_Reserve bw_reserver "org" "d1" (sample_request "a" "92233720368547759") sample_budget bw0 in
  br_Outcome res = BudgetWithinLimit /\ mem_val (bw_vals w) win_key = -9223372036854775716.
Proof. vm_compute. split; reflexivity. Qed.

Definition lim100 (k : string) : Z := if String.eqb k win_key then 10000 else 0.

(** The system after a reservation of 60 has read its time and passed the
    counter, before its hold is written. *)
Definition run_first (s : system bworld) : system bworld :=
  match sys_threads s with
  | th :: ts => {| sys_world := (exec_thread bw_reserver bw_reconciler th (sys_world s)).2;
                   sys_threads := (exec_thread bw_reserver bw_reconciler th (sys_world s)).1 :: ts |}
  | [] => s
  end.

Fixpoint run_steps (n : nat) (s : system bworld) : system bworld :=
  match n with 0%nat => s | S n => run_first (run_steps n s) end.

Definition step_bw := sys_step bw_reserver bw_reconciler bw_holds bw_other mem_val mem_cap.

Lemma run_steps_reachable lim init n s :
  reachable init (step_bw lim) s -> reachable init (step_bw lim) (run_steps n s).
Proof.
  intros Hs. induction n as [|n IH]; [done|]. cbn [run_steps]. destruct (run_steps n s) as [w [|th ts]]; [done|].
  eapply reach_step; [exact IH|]. exact (step_thread _ _ _ _ _ _ _ w [] th ts).
Qed.

(** 60.00 against the 100.00 budget, in the window of the model's clock. *)
Definition start : system bworld :=
  {| sys_world := bw0; sys_threads := [TReserve "org" "d1" (sample_request "a" "60") {| bd_ID := "b1"; bd_Agents := []; bd_Window := "rolling"; bd_Limit := "100"; bd_Currency := "USD" |}] |}.
Definition rolling_key : string := counterKey "org" "b1" "rolling".
Definition lim_rolling (k : string) : Z := if String.eqb k rolling_key then 10000 else 0.

Lemma start_reachable : reachable (sys_init bw_holds bw_other mem_val) (step_bw lim_rolling) start.
Proof.
  eapply reach_step.
  - apply reach_init. instantiate (1 := {| sys_world := bw0; sys_threads := [] |}). by split_and!.
  - apply step_arrive; [done|]. split.
    + intros c Hc. vm_compute in Hc. injection Hc as <-. by split.
    + intros t l Hl. vm_compute in Hl. injection Hl as <-. by vm_compute.
Qed.

Lemma no_oversell_witness :
  let s := run_steps 3 start in
  active_spend rolling_key (bw_holds (sys_world s)) = 6000 /\
  (forall k, 0 <= active_spend k (bw_holds (sys_world s)) <= mem_val (bw_other (sys_world s)) k /\
             mem_val (bw_other (sys_world s)) k <= lim_rolling k).
Proof.
  cbv zeta. split; [vm_compute; reflexivity|].
  apply (no_oversell bw_reserver bw_reconciler bw_holds bw_other mem_val mem_cap
           lift_ledger_reserve lift_ledger_release lim_rolling).
  - intros k. unfold lim_rolling. destruct (String.eqb k rolling_key); by vm_compute.
  - apply run_steps_reachable, start_reachable.
Defined.

Lemma Reserve_outcomes_witness :
  let '(res, w') := Reserver_Reserve bw_reserver "org" "d1" (sample_request "a" "60") sample_budget bw0 in
  br_Outcome res = BudgetWithinLimit /\
  exists t, br_WindowKey res = WindowKey "day" t.
Proof.
  pose proof (Reserve_outcomes bw_reserver bw_holds bw_other mem_val mem_cap lift_ledger_reserve lift_ledger_release
    "org" "d1" (sample_request "a" "60") sample_budget bw0 (map_Forall_empty _)) as H.
  specialize (H ltac:(intros k; by vm_compute) ltac:(intros c Hc; vm_compute in Hc; injection Hc as <-; by vm_compute)
                ltac:(intros c Hc; vm_compute in Hc; injection Hc as <-; by vm_compute)).
  destruct (Reserver_Reserve _ _ _ _ _ _) as [res w'] eqn:E. destruct H as (t & Hwk & _). split; [|by exists t].
  vm_compute in E. injection E as <- _. reflexivity.
Defined.
