(* ===== verification/BudgetPg.v ===== *)
(** Budget enforcement as it is deployed ([cmd/authorize-svc/main.go]): the
    reserver and the reconciler over the Redis counter and the Postgres ledger.

    A thread makes one call to Redis or one SQL statement per step.  Both
    servers may refuse a call, or run it and lose the answer; a caller may crash
    between two steps.  The sweep is two steps: other statements commit between
    the subquery that chooses its rows and the update that takes them.  The Redis
    clock moves and keys expire. *)

From stdpp Require Import relations.
From S2P Require Import Prelude GoStrings GoTime Contracts Runtime Engine Hold Budget Counter Reserver Spend Window Pg HoldPg.

(** * The calls *)

Definition on_redis {A} (f : fault) (s : redis -> result string A * redis) : io redis (result string A) := fun r =>
  match f with
  | Live => s r
  | Refused msg => (Err msg, r)
  | Lost msg => (Err msg, (s r).2)
  end.

Definition faulty (f : fault) : Counter redis :=
  {| counter_Reserve key amount limit ttl sticky := on_redis f (Redis_Reserve key amount limit ttl sticky);
     counter_Release key amount := on_redis f (Redis_Release key amount);
     counter_Set key cents ttl := on_redis f (Redis_Set key cents ttl);
     counter_Get key := on_redis f (Redis_Get key) |}.

Inductive budget_thread :=
| BReserve (org dec : string) (req : AuthorizeRequest) (b : BudgetDecl)
| BCount (u : time) (org dec : string) (req : AuthorizeRequest) (b : BudgetDecl)
| BReserving (s : reserving)
| BStore (th : pg_thread)
| BSweep
| BFlip (keys : list row_key)
| BRelease (l : list (string * Z))
| BDone.

Section deployed.
Context (stored : time -> time) (ttl : duration).

(** What the caller of the store does with its answer: only a void that
    released the hold, and read it back, goes on to the counter. *)
Definition after_store (th : pg_thread) : budget_thread :=
  match th with
  | PDone (AVoid _ _ (Some h) true None) => BRelease (release_of h)
  | PDone _ => BDone
  | _ => BStore th
  end.

(** One step; [app] is the process's clock, [db] the database's, [limit] the
    batch of the reconciler and [scan] the order a sweep reads the rows in. *)
Definition budget_exec (f : fault) (app db : time) (limit : nat) (scan : list row_key) (th : budget_thread) (r : redis) (t : Rows)
    : budget_thread * redis * Rows :=
  match th with
  | BReserve org dec req b => (BCount (evaluated_at req app) org dec req b, r, t)
  | BCount u org dec req b => let '(s, r) := reserve_count (faulty f) ttl u org dec req b r in (BReserving s, r, t)
  | BReserving (RvPlace key amount h res) =>
    let '(s, t) := reserve_place (fun h => on_db f (insert_hold stored app h)) key amount h res t in (BReserving s, r, t)
  | BReserving (RvUndo key amount wk) => let '(_, r) := reserve_undo (faulty f) key amount wk r in (BDone, r, t)
  | BReserving (RvDone _) => (BDone, r, t)
  | BStore th => let '(th, t) := pg_exec stored f app db th t in (after_store th, r, t)
  | BSweep => (BFlip (due_rows (stored app) limit scan t), r, t)
  | BFlip keys =>
    let '(x, t) := on_db f (flip_rows keys) t in
    (match x with Ok due => BRelease (due ≫= release_of) | Err _ => BDone end, r, t)
  | BRelease ((key, amount) :: l) => let '(_, r) := counter_Release (faulty f) key amount r in (BRelease l, r, t)
  | BRelease [] => (BDone, r, t)
  | BDone => (BDone, r, t)
  end.

Record deployed := { dp_redis : redis; dp_rows : Rows; dp_threads : list budget_thread }.

(** A reservation reaches the counter within twelve hours, on the counter's
    clock, of the instant it counts at. *)
Definition slack : duration := 12 * Hour.

Definition prompt (th : budget_thread) (r : redis) : Prop :=
  match th with BCount u _ _ _ _ => Z.abs (rs_now r * 1000000 - u) <= slack | _ => True end.

(** The amounts of some of the rows. *)
Definition amounts_of (p : Hold -> bool) (keys : list row_key) (t : Rows) : list (string * Z) :=
  keys ≫= fun k => match t !! k with Some h => if p h then release_of h else [] | None => [] end.

Definition in_state (s : State) (h : Hold) : bool := bool_decide (h_State h = s).

(** What a step gives back although it is spent, or was given back before: a hold
    whose insert ran and lost its answer; rows that a sweep chose and that were
    settled before it took them. *)
Definition overrun (f : fault) (th : budget_thread) (t : Rows) : list (string * Z) :=
  match th, f with
  | BReserving (RvPlace key amount h _), Lost _ => match t !! (h_OrgID h, h_DecisionID h) with Some _ => [] | None => [(key, amount)] end
  | BFlip keys, Live => amounts_of (fun h => negb (in_state StateHeld h)) keys t
  | _, _ => []
  end.

(** Captured payments that a sweep marks expired: spent, and no more in the ledger. *)
Definition unseen (f : fault) (th : budget_thread) (t : Rows) : list (string * Z) :=
  match th, f with
  | BFlip keys, (Live | Lost _) => amounts_of (in_state StateCaptured) keys t
  | _, _ => []
  end.

Section limits.
(** The limit of each counter. *)
Context (lim : string -> Z).

(** Amounts and limits are in the range the counter is exact in. *)
Definition reservable (org : string) (req : AuthorizeRequest) (b : BudgetDecl) : Prop :=
  amount_ok redis_cap (req_Amount req) /\
  forall u l, toCents (bd_Limit b) = Some l -> 0 <= l <= lim (counterKey org (bd_ID b) (WindowKey (bd_Window b) u)).

Inductive arrives : budget_thread -> Prop :=
| arr_reserve org dec req b : reservable org req b -> arrives (BReserve org dec req b)
| arr_get org id : arrives (BStore (PCall (PgGet org id)))
| arr_capture org id : arrives (BStore (PCall (PgCapture org id)))
| arr_void org id : arrives (BStore (PCall (PgVoid org id)))
| arr_sweep : arrives BSweep.

(** The server's clock advances, and it goes down or comes back with its keys. *)
Definition redis_moves (r r' : redis) : Prop := rs_keys r' = rs_keys r /\ rs_now r <= rs_now r'.

(** A step, with what it overruns and what it hides. *)
Inductive budget_move : deployed -> list (string * Z) -> list (string * Z) -> deployed -> Prop :=
| bs_exec f app db limit scan th th' r r' t t' ths1 ths2 :
    prompt th r -> NoDup scan -> budget_exec f app db limit scan th r t = (th', r', t') ->
    budget_move {| dp_redis := r; dp_rows := t; dp_threads := ths1 ++ th :: ths2 |} (overrun f th t) (unseen f th t)
                {| dp_redis := r'; dp_rows := t'; dp_threads := ths1 ++ th' :: ths2 |}
| bs_arrive r t th ths : arrives th ->
    budget_move {| dp_redis := r; dp_rows := t; dp_threads := ths |} [] [] {| dp_redis := r; dp_rows := t; dp_threads := th :: ths |}
| bs_crash r t th ths1 ths2 :
    budget_move {| dp_redis := r; dp_rows := t; dp_threads := ths1 ++ th :: ths2 |} [] [] {| dp_redis := r; dp_rows := t; dp_threads := ths1 ++ ths2 |}
| bs_redis r r' t ths : redis_moves r r' ->
    budget_move {| dp_redis := r; dp_rows := t; dp_threads := ths |} [] [] {| dp_redis := r'; dp_rows := t; dp_threads := ths |}.

(** A step that overruns nothing. *)
Definition budget_step (s s' : deployed) : Prop := exists hidden, budget_move s [] hidden s'.

(** No counter, no row, no thread. *)
Definition budget_init (s : deployed) : Prop := rs_keys (dp_redis s) = ∅ /\ dp_rows s = ∅ /\ dp_threads s = [].

(** A run from there, with all it has overrun and hidden. *)
Inductive history : list (string * Z) -> list (string * Z) -> deployed -> Prop :=
| hist_init s : budget_init s -> history [] [] s
| hist_step x y s dx dy s' : history x y s -> budget_move s dx dy s' -> history (dx ++ x) (dy ++ y) s'.

(** ** The invariant *)

(** Amounts that are on the counter and on no active row. *)
Definition owes (t : Rows) (th : budget_thread) : list (string * Z) :=
  match th with
  | BReserving (RvPlace key amount _ _) => [(key, amount)]
  | BReserving (RvUndo key amount _) => [(key, amount)]
  | BStore (PVoidReread org id true) => match t !! (org, id) with Some h => release_of h | None => [] end
  | BRelease l => l
  | _ => []
  end.

Definition thread_fit (t : Rows) (th : budget_thread) : Prop :=
  match th with
  | BReserve org _ req b | BCount _ org _ req b => reservable org req b
  | BReserving (RvPlace key amount h _) =>
    0 <= amount <= redis_cap /\ toCents (h_Amount h) = Some amount /\ counter_of h = key /\ h_State h = StateHeld
  | BReserving (RvUndo _ amount _) => 0 <= amount <= redis_cap
  | BStore (PVoidReread org id true) => is_Some (t !! (org, id))
  | BFlip keys => NoDup keys
  | BStore (PFlip _) | BStore (PCall (PgPlace _)) | BStore (PDone _) => False
  | BRelease l => owed_ok redis_cap l
  | _ => True
  end.

(** The counter of a calendar window, that closes at [d]. *)
Definition closes (k : string) (d : time) : Prop :=
  exists o b w u, calendar w = true /\ k = counterKey o b (WindowKey w u) /\ u + windowTTL w - slack <= d.

Definition calendar_key (k : string) : Prop := exists o b w u, calendar w = true /\ k = counterKey o b (WindowKey w u).

(** A counter is in range, and expires after its window closes. *)
Definition keys_ok (r : redis) : Prop :=
  map_Forall (fun k p => 0 <= p.1 <= lim k /\ (calendar_key k -> forall e, p.2 = Some e -> closes k (e * 1000000))) (rs_keys r).

(** Spend and debts are on the counter, or the window is closed. *)
Definition books (r : redis) (k : string) (spend : Z) : Prop :=
  spend <= redis_val r k \/ (rget r k = None /\ closes k (rs_now r * 1000000) /\ spend <= lim k).

(** After [x] has been overrun and [y] hidden. *)
Record budget_ok (x y : list (string * Z)) (s : deployed) : Prop := {
  bo_wf : rows_wf (dp_rows s);
  bo_amounts : amounts_ok redis_cap (dp_rows s);
  bo_threads : Forall (thread_fit (dp_rows s)) (dp_threads s);
  bo_keys : keys_ok (dp_redis s);
  bo_books k : calendar_key k ->
    books (dp_redis s) k (active_spend k (dp_rows s) + pend k (dp_threads s ≫= owes (dp_rows s)) + pend k y - pend k x)
}.
(** ** Threads and rows *)

(** No row goes away, and none changes its terms. *)
Definition keeps_terms (t t' : Rows) : Prop := forall k h, t !! k = Some h -> exists h', t' !! k = Some h' /\ same_terms h h'.

Lemma keeps_refl t : keeps_terms t t.
Proof using Type. intros k h Hk. by exists h. Qed.

Lemma moves_keeps (t t' : Rows) : moves t t' -> keeps_terms t t'.
Proof using Type. intros [_ Hm] k h Hk. destruct (Hm k h Hk) as (h' & Hk' & Ht & _). by exists h'. Qed.

Lemma owes_keeps t t' th : keeps_terms t t' -> thread_fit t th -> owes t' th = owes t th /\ thread_fit t' th.
Proof using Type.
  intros He. destruct th as [| |[]|th| | | |]; try done. destruct th as [[]| | | | |org id [|]| |]; try done.
  cbn. intros [h Hk]. destruct (He _ _ Hk) as (h' & -> & Hv). rewrite Hk. split; [|done]. by apply release_of_terms.
Qed.

Lemma owes_owed t th : amounts_ok redis_cap t -> thread_fit t th -> owed_ok redis_cap (owes t th).
Proof using Type.
  intros Ha. destruct th as [| |[]|th| | |l|]; cbn; try (intros; by constructor); try done.
  - intros (Hr & _). constructor; [done|constructor].
  - destruct th as [[]| | | | |org id [|]| |]; try (intros; by constructor).
    intros [h Hk]. rewrite Hk. apply release_of_ok. by eapply Ha.
Qed.

Lemma all_owes_owed t ths : amounts_ok redis_cap t -> Forall (thread_fit t) ths -> owed_ok redis_cap (ths ≫= owes t).
Proof using Type.
  intros Ha. induction 1 as [|th ths Hth _ IH]; cbn; [constructor|]. apply Forall_app. split; [by apply owes_owed|done].
Qed.

Lemma all_owes_keeps t t' ths : keeps_terms t t' -> Forall (thread_fit t) ths -> ths ≫= owes t' = ths ≫= owes t /\ Forall (thread_fit t') ths.
Proof using Type.
  intros He. induction 1 as [|th ths Hth _ [IH1 IH2]]; [by split|]. cbn. destruct (owes_keeps _ _ _ He Hth) as [-> ?]. rewrite IH1. auto.
Qed.

(** ** A statement on the rows *)

(** What a statement and the answer it leaves do to the books. *)
Definition rows_ok (x y : list (string * Z)) (th : budget_thread) (t : Rows) (th' : budget_thread) (t' : Rows) : Prop :=
  rows_wf t' /\ amounts_ok redis_cap t' /\ keeps_terms t t' /\ thread_fit t' th' /\
  forall k, active_spend k t' + pend k (owes t' th') + pend k y <= active_spend k t + pend k (owes t th) + pend k x.

Lemma pend_nil k : pend k [] = 0.
Proof using Type. done. Qed.

Lemma rows_ok_quiet th t th' t' :
  amounts_ok redis_cap t -> thread_fit t th -> rows_wf t' -> moves t t' -> thread_fit t' th' -> owes t' th' = [] -> rows_ok [] [] th t th' t'.
Proof using Type.
  intros Ha Hf Hwf Hm Hf' Ho. split_and!; [done | by eapply moves_amounts | by apply moves_keeps | done|].
  intros k. rewrite Ho, !pend_nil. pose proof (moves_spend _ k _ _ Ha Hm). pose proof (pend_nonneg _ k _ (owes_owed t th Ha Hf)).
  lia.
Qed.

Lemma rows_ok_same th t th' : rows_wf t -> amounts_ok redis_cap t -> thread_fit t th' -> owes t th' = owes t th -> rows_ok [] [] th t th' t.
Proof using Type. intros Hwf Ha Hf Ho. split_and!; [done|done|apply keeps_refl|done|]. intros k. by rewrite Ho. Qed.

(** Rows that are handed out for release. *)
Lemma rows_ok_released th t th' t' out :
  amounts_ok redis_cap t -> owes t th = [] -> rows_wf t' -> moves t t' -> thread_fit t' th' \/ th' = BRelease (out ≫= release_of) ->
  owes t' th' = out ≫= release_of -> NoDup (row_key_of <$> out) ->
  (forall h', h' ∈ out -> exists h, t !! row_key_of h' = Some h /\ h_State h = StateHeld /\ same_terms h h' /\
                                    exists h2, t' !! row_key_of h' = Some h2 /\ is_active h2 = false) ->
  rows_ok [] [] th t th' t'.
Proof using Type.
  intros Ha Ho Hwf Hm Hf Ho' Hnd Hout.
  assert (Hr : forall k, active_spend k t' + pend k (out ≫= release_of) <= active_spend k t /\ owed_ok redis_cap (out ≫= release_of)).
  { intros k. by apply (released_spend _ row_key_of). }
  split_and!; [done | by eapply moves_amounts | by apply moves_keeps | |].
  - destruct Hf as [Hf| ->]; [done|]. apply (Hr "").
  - intros k. rewrite Ho, Ho', !pend_nil. destruct (Hr k). lia.
Qed.

Lemma moves_refl (t : Rows) : moves t t.
Proof using Type. split; [done|]. intros k h Hk. by exists h. Qed.

Lemma update_row_dom s g org id t : dom (update_row s g org id t).2 = dom t.
Proof using Type.
  unfold update_row. destruct (t !! (org, id)) as [h|] eqn:Ek; [|done]. case_bool_decide; [|done]. cbn.
  apply dom_insert_lookup_L. by eexists.
Qed.

Lemma on_db_dom {A} (f : fault) (s : Rows -> A * Rows) t : dom (s t).2 = dom t -> dom (on_db f s t).2 = dom t.
Proof using Type. destruct f; cbn; [by destruct (s t)|done..]. Qed.

(** An update of one row, through the faults. *)
Lemma update_moves f s s' c v org id t :
  rows_wf t -> edge s s' ->
  let g := fun h => set_lifecycle s' (c h) (v h) h in
  let '(r, t') := on_db f (update_row s g org id) t in
  rows_wf t' /\ moves t t' /\
  match r with
  | Ok (S _) => exists h, t !! (org, id) = Some h /\ h_State h = s /\ exists h', t' !! (org, id) = Some h' /\ h_State h' = s'
  | Ok O => t' = t
  | Err _ => True
  end.
Proof using Type.
  intros Hwf He g. pose proof (update_good f s s' c v org id t Hwf He) as Hu. cbv zeta in Hu. fold g in Hu.
  pose proof (on_db_dom f (update_row s g org id) t (update_row_dom _ _ _ _ _)) as Hd.
  destruct (on_db f _ t) as [r t']. destruct Hu as (H1 & H2 & H3). by split_and!.
Qed.

Lemma reread_terms f app org id t h h0 : Pg_Get f app org id t = Ok h -> t !! (org, id) = Some h0 -> release_of h = release_of h0.
Proof using Type.
  intros (h1 & Hk & ->)%Pg_Get_ok Hk0. assert (h1 = h0) as -> by congruence. unfold pg_effective. by destruct (_ && _).
Qed.

Lemma store_step_ok f app db th t :
  rows_wf t -> amounts_ok redis_cap t -> thread_fit t (BStore th) ->
  rows_ok [] [] (BStore th) t (after_store (pg_exec stored f app db th t).1) (pg_exec stored f app db th t).2.
Proof using Type.
  intros Hwf Ha Hf.
  assert (Hq : forall th' t', rows_wf t' -> moves t t' -> thread_fit t' th' -> owes t' th' = [] -> rows_ok [] [] (BStore th) t th' t').
  { intros. by apply rows_ok_quiet. }
  assert (Hi : forall th', thread_fit t th' -> owes t th' = [] -> rows_ok [] [] (BStore th) t th' t).
  { intros. apply Hq; [done | apply moves_refl | done | done]. }
  destruct th as [[h|org id|org id|org id]|org id|org id|org id|org id|org id rel|keys|a]; try (by destruct Hf); cbn [pg_exec].
  - by apply Hi.
  - cbn. destruct (Pg_Get f app org id t) as [h|e]; [destruct (h_State h)|]; apply Hi; by cbn.
  - cbn. destruct (Pg_Get f app org id t) as [h|e]; [destruct (h_State h)|]; apply Hi; by cbn.
  - pose proof (update_moves f StateHeld StateCaptured (fun _ => stored db) h_VoidedAt org id t Hwf ltac:(constructor)) as Hu.
    change (fun h => set_lifecycle StateCaptured (stored db) (h_VoidedAt h) h) with (mark_captured (stored db)) in Hu.
    cbv zeta in Hu. destruct (on_db f _ t) as [r t']. destruct Hu as (H1 & H2 & _). by destruct r as [[|n]|e]; apply Hq.
  - by apply Hi.
  - pose proof (update_moves f StateHeld StateVoided h_CapturedAt (fun _ => stored db) org id t Hwf ltac:(constructor)) as Hu.
    change (fun h => set_lifecycle StateVoided (h_CapturedAt h) (stored db) h) with (mark_voided (stored db)) in Hu.
    cbv zeta in Hu. destruct (on_db f _ t) as [r t']. destruct Hu as (H1 & H2 & H3). destruct r as [[|n]|e]; [by apply Hq| |by apply Hq].
    destruct H3 as (h & Hk & Hs & h' & Hk' & Hs'). destruct (proj2 H2 _ _ Hk) as (h2 & Hk2 & Hsame & _). assert (h2 = h') as -> by congruence.
    assert (Hkey : row_key_of h' = (org, id)) by (symmetry; by apply (H1 _ _ Hk')).
    apply (rows_ok_released _ _ _ _ [h']); try done.
    + left. by eexists.
    + cbn. by rewrite Hk', app_nil_r.
    + apply NoDup_singleton.
    + intros x ->%list_elem_of_singleton. exists h. rewrite Hkey. split_and!; [done..|]. exists h'. split; [done|]. unfold is_active. by rewrite Hs'.
  - pose proof (update_moves f StateExpired StateVoided h_CapturedAt (fun _ => stored db) org id t Hwf ltac:(constructor)) as Hu.
    change (fun h => set_lifecycle StateVoided (h_CapturedAt h) (stored db) h) with (mark_voided (stored db)) in Hu.
    cbv zeta in Hu. destruct (on_db f _ t) as [r t']. destruct Hu as (H1 & H2 & _). by destruct r as [n|e]; apply Hq.
  - destruct rel; cbn; [|destruct (Pg_Get f app org id t); apply Hi; by cbn].
    destruct Hf as [h0 Hk]. destruct (Pg_Get f app org id t) as [h|e] eqn:Eg; [|apply Hi; by cbn].
    cbn. apply rows_ok_same; [done..| |]; cbn; rewrite ?Hk, (reread_terms _ _ _ _ _ _ _ Eg Hk); [|done].
    apply release_of_ok. by eapply Ha.
Qed.
(** A row that was not there. *)
Lemma inserted_ok app h t :
  rows_wf t /\ amounts_ok redis_cap t -> t !! (h_OrgID h, h_DecisionID h) = None -> h_State h = StateHeld -> amount_ok redis_cap (h_Amount h) ->
  let t' := (insert_hold stored app h t).2 in
  rows_wf t' /\ amounts_ok redis_cap t' /\ keeps_terms t t' /\ forall k, active_spend k t' <= active_spend k t + pend k (release_of h).
Proof using Type.
  intros [Hwf Ha] Ek Hs Ham. unfold insert_hold. rewrite Ek. cbn [snd]. set (h' := Build_Hold _ _ _ _ _ _ _ _ _ _ _ _ _). cbv zeta. split_and!.
  - by apply map_Forall_insert_2.
  - by apply map_Forall_insert_2.
  - intros k x Hx. exists x. split; [|done]. rewrite lookup_insert_ne; [done|]. congruence.
  - intros k. exact (placed_spend redis_cap k t _ h' Ek Ham).
Qed.

Lemma place_step_ok f app key amount h res t :
  let th := BReserving (RvPlace key amount h res) in
  rows_wf t -> amounts_ok redis_cap t -> thread_fit t th ->
  let '(s, t') := reserve_place (fun h => on_db f (insert_hold stored app h)) key amount h res t in rows_ok (overrun f th t) [] th t (BReserving s) t'.
Proof using Type.
  intros th Hwf Ha (Hr & Hc & Hk & Hs). subst th. unfold reserve_place. rewrite bind_let.
  assert (Hrel : release_of h = [(key, amount)]) by (unfold release_of; rewrite Hc; fold (counter_of h); by rewrite Hk).
  destruct (t !! (h_OrgID h, h_DecisionID h)) as [h0|] eqn:Ek.
  - destruct f; cbn [on_db overrun]; unfold insert_hold; rewrite ?Ek; cbn [fst snd mret io_ret]; [|by apply rows_ok_same..].
    apply rows_ok_quiet; try done. apply moves_refl.
  - destruct (inserted_ok app h t (conj Hwf Ha) Ek Hs) as (H1 & H2 & H3 & H4); [intros c; rewrite Hc; intros [= <-]; lia|]. rewrite Hrel in H4. unfold insert_hold in *. rewrite Ek in *.
    destruct f; cbn [on_db overrun fst snd mret io_ret] in *; rewrite ?Ek; [|by apply rows_ok_same|];
      (split_and!; [done..|]); intros k; cbn [owes]; specialize (H4 k); rewrite ?pend_nil; cbn [snd] in *; lia.
Qed.

(** ** A sweep *)

(** What counts against a counter is what a release would take off. *)
Lemma spend_active k h : hold_spend k h = if is_active h then pend k (release_of h) else 0.
Proof using Type.
  unfold hold_spend, release_of, cents. fold (counter_of h). destruct (is_active h); [|done]. cbn [andb].
  destruct (toCents (h_Amount h)); cbn; [by rewrite pend_one|]. by destruct (String.eqb (counter_of h) k).
Qed.

Lemma amounts_of_insert (p : Hold -> bool) (keys : list row_key) (k : row_key) (h : Hold) (t : Rows) : k ∉ keys -> amounts_of p keys (<[k := h]> t) = amounts_of p keys t.
Proof using Type.
  intros Hk. unfold amounts_of. induction keys as [|i keys IH]; [done|]. cbn. apply not_elem_of_cons in Hk as [Hne Hk].
  rewrite lookup_insert_ne by done. by rewrite IH.
Qed.

Lemma amounts_of_cons (p : Hold -> bool) (k : row_key) (keys : list row_key) (t : Rows) :
  amounts_of p (k :: keys) t = match t !! k with Some h => if p h then release_of h else [] | None => [] end ++ amounts_of p keys t.
Proof using Type. done. Qed.

(** One row that a sweep takes, whatever its state. *)
Lemma flip_one t k h :
  rows_wf t -> amounts_ok redis_cap t -> t !! k = Some h ->
  let t' := <[k := set_State StateExpired h]> t in
  rows_wf t' /\ amounts_ok redis_cap t' /\ keeps_terms t t' /\
  forall i, active_spend i t' + (if is_active h then pend i (release_of h) else 0) = active_spend i t.
Proof using Type.
  intros Hwf Ha Hk t'. split_and!.
  - apply map_Forall_insert_2; [|done]. destruct (Hwf k h Hk) as [Hkey _]. split; [by rewrite Hkey|done].
  - apply map_Forall_insert_2; [|done]. exact (Ha k h Hk).
  - intros i x Hx. unfold t'. destruct (decide (k = i)) as [<-|Hne]; [|rewrite lookup_insert_ne by done; by exists x].
    rewrite lookup_insert_eq. eexists. split; [done|]. simplify_eq. by split_and!.
  - intros i. unfold active_spend, t'. rewrite (map_sum_delete _ t k h Hk), spend_active, (map_sum_delete _ (<[k := _]> t) k _ (lookup_insert_eq _ _ _)), delete_insert_eq.
    change (hold_spend i (set_State StateExpired h)) with 0. lia.
Qed.

Lemma keeps_trans t1 t2 t3 : keeps_terms t1 t2 -> keeps_terms t2 t3 -> keeps_terms t1 t3.
Proof using Type.
  intros H12 H23 k h Hk. destruct (H12 k h Hk) as (h2 & Hk2 & Ht2). destruct (H23 k h2 Hk2) as (h3 & Hk3 & Ht3). exists h3. split; [done|].
  clear -Ht2 Ht3. unfold same_terms in *. intuition congruence.
Qed.

(** The outer update of a sweep, on the rows as it finds them. *)
Lemma flip_rows_books keys t :
  rows_wf t -> amounts_ok redis_cap t -> NoDup keys ->
  let '(out, t') := flip_rows keys t in
  rows_wf t' /\ amounts_ok redis_cap t' /\ keeps_terms t t' /\ owed_ok redis_cap (out ≫= release_of) /\
  owed_ok redis_cap (amounts_of (in_state StateCaptured) keys t) /\
  forall k, active_spend k t' + pend k (out ≫= release_of) + pend k (amounts_of (in_state StateCaptured) keys t) =
            active_spend k t + pend k (amounts_of (fun h => negb (in_state StateHeld h)) keys t) /\
            pend k (amounts_of (fun h => negb (in_state StateHeld h)) keys t) <= pend k (out ≫= release_of).
Proof using Type.
  intros Hwf Ha Hnd. revert t Hwf Ha. induction Hnd as [|i keys Hi Hnd IH]; intros t Hwf Ha.
  { cbn. split_and!; [done|done|apply keeps_refl|constructor|constructor|]. intros k. unfold amounts_of. cbn. rewrite pend_nil. lia. }
  cbn [flip_rows]. rewrite !amounts_of_cons. destruct (t !! i) as [h|] eqn:Ei; [|by apply IH].
  destruct (flip_one t i h Hwf Ha Ei) as (H1 & H2 & H3 & H4). specialize (IH _ H1 H2). rewrite !amounts_of_insert in IH by done.
  destruct (flip_rows keys _) as [out t']. destruct IH as (H5 & H6 & H7 & H8 & H9 & H10).
  pose proof (release_of_ok redis_cap h (Ha i h Ei)) as Hh. cbn [mbind list_bind]. change (release_of (set_State StateExpired h)) with (release_of h).
  split_and!; [done|done|by eapply keeps_trans|by apply Forall_app|by apply Forall_app; split; [destruct (in_state _ h); [done|constructor]|]|].
  intros k. specialize (H4 k). specialize (H10 k). pose proof (pend_nonneg _ k _ Hh). rewrite !pend_app. unfold in_state, is_active in *. destruct (h_State h); repeat case_bool_decide; try congruence; cbn [orb negb] in *; rewrite ?pend_nil in *; lia.
Qed.

Lemma flip_step_ok f keys t :
  rows_wf t -> amounts_ok redis_cap t -> NoDup keys ->
  let th := BFlip keys in
  let '(x, t') := on_db f (flip_rows keys) t in
  rows_ok (overrun f th t) (unseen f th t) th t (match x with Ok due => BRelease (due ≫= release_of) | Err _ => BDone end) t'.
Proof using Type.
  intros Hwf Ha Hnd. pose proof (flip_rows_books keys t Hwf Ha Hnd) as Hf. destruct (flip_rows keys t) as [out t'] eqn:Ef.
  destruct Hf as (H1 & H2 & H3 & H4 & H5 & H6). destruct f as [|msg|msg]; cbn [on_db overrun unseen]; rewrite ?Ef; cbn [fst snd].
  - split_and!; [done..|]. intros k. cbn [owes]. rewrite pend_nil. specialize (H6 k). lia.
  - by apply rows_ok_same.
  - split_and!; [done..|]. intros k. cbn [owes]. rewrite !pend_nil. specialize (H6 k). lia.
Qed.
(** ** A call to Redis *)

Context (lim_cap : forall k, 0 <= lim k <= redis_cap).

Lemma key_range r k : keys_ok r -> 0 <= redis_val r k <= lim k.
Proof using lim_cap.
  intros Hk. specialize (lim_cap k). unfold redis_val, rget. destruct (rs_keys r !! k) as [[v e]|] eqn:E; [|lia].
  destruct (expired (rs_now r) e); [lia|]. apply (Hk k (v, e) E).
Qed.

(** A counter of a closed window takes no prompt reservation. *)
Lemma closed_for k org bid w u r :
  k = counterKey org bid (WindowKey w u) -> Z.abs (rs_now r * 1000000 - u) <= slack -> closes k (rs_now r * 1000000) -> False.
Proof using Type.
  intros -> Hp (o & b & w0 & u0 & Hc & E & Hd). apply counterKey_window in E; [|apply WindowKey_no_colon..].
  destruct (WindowKey_close w0 w u0 u Hc) as (_ & Ht & Hs & Hclose); [by symmetry|].
  unfold slack, windowTTL, window_span, Hour, Minute, Second, nanos, calendar in *. apply negb_true_iff in Hc. rewrite Hc in *.
  destruct (String.eqb w0 "day"); lia.
Qed.

Lemma windowTTL_exact w : Z.quot (windowTTL w) 1000000 * 1000000 = windowTTL w /\ 0 < Z.quot (windowTTL w) 1000000.
Proof using Type. unfold windowTTL. destruct (String.eqb w "day"); [done|]. by destruct (String.eqb w "rolling"). Qed.

(** A reservation now closes its window's counter late enough. *)
Lemma fresh_closes org bid w u r :
  let k := counterKey org bid (WindowKey w u) in
  Z.abs (rs_now r * 1000000 - u) <= slack -> calendar_key k -> closes k ((rs_now r + Z.quot (windowTTL w) 1000000) * 1000000).
Proof using Type.
  intros k Hp (o & b & w0 & u0 & Hc & E). exists org, bid, w, u. split_and!; [|done|].
  - apply counterKey_window in E; [|apply WindowKey_no_colon..]. by apply (WindowKey_close w0 w u0 u Hc).
  - destruct (windowTTL_exact w) as [He _]. lia.
Qed.

(** What becomes of one entry. *)
Definition writes (key : string) (v : Z) (e : option Z) (r : redis) : redis := set_keys (<[key := (v, e)]> (rs_keys r)) r.

Lemma writes_ok key v e r :
  keys_ok r -> 0 <= v <= lim key -> (calendar_key key -> forall e', e = Some e' -> closes key (e' * 1000000)) -> keys_ok (writes key v e r).
Proof using Type. intros Hk Hv He. by apply map_Forall_insert_2. Qed.

Lemma old_entry r key v e : keys_ok r -> rget r key = Some (v, e) ->
  0 <= v <= lim key /\ (calendar_key key -> forall e', e = Some e' -> closes key (e' * 1000000)).
Proof using Type.
  intros Hk. unfold rget. destruct (rs_keys r !! key) as [[v' e']|] eqn:E; [|done]. destruct (expired _ e'); [done|].
  intros [= -> ->]. apply (Hk key (v, e) E).
Qed.

(** The reserve script, on amounts in range. *)
Lemma reserve_runs key amount limit life sticky r :
  0 <= redis_val r key <= redis_cap -> 0 <= amount <= redis_cap -> 0 <= limit <= redis_cap -> 0 < Z.quot life 1000000 ->
  let '(x, r') := Redis_Reserve key amount limit life sticky r in
  (r' = r /\ forall prior, x <> Ok (true, prior)) \/
  exists e, x = Ok (true, redis_val r key) /\ redis_val r key + amount <= limit /\ r' = writes key (redis_val r key + amount) e r /\
    expired (rs_now r) e = false /\ (e = Some (rs_now r + Z.quot life 1000000) \/ exists v, rget r key = Some (v, e)).
Proof using Type.
  intros Hv Ha Hl Ht. unfold Redis_Reserve. destruct (rs_up r); cbn; [|by left]. unfold redis_cap in *. unfold reserveScript. fold (redis_val r key).
  rewrite (to_double_id (redis_val r key)), (to_double_id amount), (to_double_id limit), (to_double_id (redis_val r key + amount)) by lia.
  destruct (Z.ltb_spec limit (redis_val r key + amount)) as [Hlt|Hle]; cbv beta iota; [by left|].
  destruct (match rget r key with Some p => p | None => (0, None) end) as [v e] eqn:Er.
  assert (v = redis_val r key) as -> by (unfold redis_val; destruct (rget r key) as [[??]|]; congruence).
  assert (in_int64 (redis_val r key + amount) = true) as -> by (unfold_int64; lia). cbn. right.
  exists (if negb sticky || negb (match rget r key with Some _ => true | None => false end) then Some (rs_now r + Z.quot life 1000000) else e).
  split_and!; [done..| |].
  - destruct (rget r key) as [[v' e']|] eqn:Eg; [|by rewrite orb_true_r; apply Z.leb_gt; lia]. injection Er as -> ->.
    destruct sticky; [by eapply rget_live|]. apply Z.leb_gt. lia.
  - destruct (rget r key) as [[v' e']|] eqn:Eg; [|left; by rewrite orb_true_r]. injection Er as -> ->. destruct sticky; [right; by eexists|by left].
Qed.

Lemma releaseScript_runs key amount r :
  keys_ok r -> 0 <= amount <= redis_cap ->
  releaseScript key amount r = match rget r key with Some (v, e) => writes key (Z.max 0 (v - amount)) e r | None => r end.
Proof using lim_cap.
  intros Hk Ha. unfold releaseScript. destruct (rget r key) as [[v e]|] eqn:Eg; [|done].
  destruct (old_entry _ _ _ _ Hk Eg) as [Hv _]. specialize (lim_cap key). unfold redis_cap in *.
  rewrite (to_double_id v), (to_double_id amount), (to_double_id (v - amount)) by lia. unfold writes. do 3 f_equal. destruct (Z.ltb_spec (v - amount) 0); lia.
Qed.

Lemma release_runs key amount r :
  keys_ok r -> 0 <= amount <= redis_cap ->
  let r' := (Redis_Release key amount r).2 in
  r' = r \/ exists v e, rget r key = Some (v, e) /\ r' = writes key (Z.max 0 (v - amount)) e r.
Proof using lim_cap.
  intros Hk Ha. unfold Redis_Release. destruct (rs_up r); cbn; [|by left]. rewrite releaseScript_runs by done.
  destruct (rget r key) as [[v e]|]; [right; by exists v, e|by left].
Qed.

(** ** Steps on the counter *)

Definition counter_ok (owed : list (string * Z)) (r : redis) (owed' : list (string * Z)) (r' : redis) : Prop :=
  keys_ok r' /\ rs_now r' = rs_now r /\
  forall k, calendar_key k ->
    pend k owed' + redis_val r k <= pend k owed + redis_val r' k /\
    (rget r k = None -> closes k (rs_now r * 1000000) -> pend k owed' <= pend k owed /\ rget r' k = None).

Lemma counter_ok_idle owed owed' r : keys_ok r -> (forall k, pend k owed' <= pend k owed) -> counter_ok owed r owed' r.
Proof using Type. intros Hk Ho. split_and!; [done..|]. intros k _. split; [specialize (Ho k); lia|auto]. Qed.

Lemma count_step_ok f u org dec req b r t :
  let th := BCount u org dec req b in
  keys_ok r -> thread_fit t th -> prompt th r ->
  let '(s, r') := reserve_count (faulty f) ttl u org dec req b r in
  thread_fit t (BReserving s) /\ counter_ok [] r (owes t (BReserving s)) r'.
Proof using lim_cap.
  intros th Hk [Ha Hlim] Hp. subst th. cbn in Hp. unfold reserve_count.
  assert (Hidle : forall res, thread_fit t (BReserving (RvDone res)) /\ counter_ok [] r (owes t (BReserving (RvDone res))) r).
  { intros res. split; [done|]. by apply counter_ok_idle. }
  destruct (toCents (req_Amount req)) as [amount|] eqn:Ea; [|apply Hidle]. destruct (toCents (bd_Limit b)) as [limit|] eqn:Elim; [|apply Hidle].
  set (key := counterKey org (bd_ID b) (WindowKey (bd_Window b) u)). rewrite bind_let. cbn [faulty counter_Reserve].
  pose proof (key_range r key Hk) as Hv. pose proof (Ha _ Ea) as Hab. pose proof (Hlim u _ eq_refl) as Hlb. fold key in Hlb. pose proof (lim_cap key) as Hcap.
  destruct (windowTTL_exact (bd_Window b)) as [_ Hms].
  pose proof (reserve_runs key amount limit (windowTTL (bd_Window b)) (windowSticky (bd_Window b)) r ltac:(lia) Hab ltac:(lia) Hms) as Hrun.
  destruct (Redis_Reserve key amount limit (windowTTL (bd_Window b)) (windowSticky (bd_Window b)) r) as [x r'] eqn:Ex.
  assert (Hgo : forall owed', (forall k, k <> key -> pend k owed' = 0) -> pend key owed' <= amount -> 0 <= pend key owed' ->
    (exists e, redis_val r key + amount <= limit /\ r' = writes key (redis_val r key + amount) e r /\
      expired (rs_now r) e = false /\ (e = Some (rs_now r + Z.quot (windowTTL (bd_Window b)) 1000000) \/ exists v, rget r key = Some (v, e))) ->
    counter_ok [] r owed' r').
  { intros owed' Ho1 Ho2 Ho3 (e & Hle & -> & Hexp & He). split; [|split; [done|]].
    - apply writes_ok; [done|lia|]. intros Hc e' ->. destruct He as [[= ->]|[v Hg]]; [by apply fresh_closes|]. by apply (old_entry _ _ _ _ Hk Hg).
    - intros k _. change (pend k []) with 0. unfold writes. rewrite redis_val_set, rget_set_keys by done. case_bool_decide as Ekey.
      + subst k. split; [lia|]. intros _ Hc. exfalso. by eapply (closed_for key).
      + rewrite Ho1 by done. split; [lia|intros; split; [lia|done]]. }
  assert (Hsame : r' = r -> counter_ok [] r [] r') by (intros ->; by apply counter_ok_idle).
  assert (Hlost : counter_ok [] r [] r').
  { destruct Hrun as [[Hr _]|(e & _ & Hrun)]; [by apply Hsame|]. apply Hgo; try done; [change (pend key []) with 0; lia|by exists e]. }
  destruct f as [|msg|msg]; cbn [on_redis]; rewrite ?Ex; cbn [fst snd mret io_ret]; [|apply Hidle|by split].
  destruct x as [[reserved prior]|msg]; [|by split]. destruct reserved; [|by split].
  destruct Hrun as [[_ Hno]|(e & _ & Hrun)]; [by destruct (Hno prior)|]. split.
  - cbn. split_and!; try done; lia.
  - apply Hgo; cbn [owes]; [| | |by exists e].
    + intros k Hne. rewrite pend_one. by rewrite (proj2 (String.eqb_neq _ _)) by done.
    + rewrite pend_one, String.eqb_refl. lia.
    + rewrite pend_one, String.eqb_refl. lia.
Qed.

Lemma release_step_ok f key amount l r :
  keys_ok r -> 0 <= amount <= redis_cap -> counter_ok ((key, amount) :: l) r l (counter_Release (faulty f) key amount r).2.
Proof using lim_cap.
  intros Hk Ha.
  assert (Hone : forall k, pend k ((key, amount) :: l) = (if bool_decide (k = key) then amount else 0) + pend k l).
  { intros k. rewrite pend_cons, pend_one. case_bool_decide as E; [by rewrite E, String.eqb_refl|]. by rewrite (proj2 (String.eqb_neq _ _)) by done. }
  assert (Hi : counter_ok ((key, amount) :: l) r l r) by (apply counter_ok_idle; [done|]; intros k; rewrite Hone; case_bool_decide; lia).
  assert (Hrun : counter_ok ((key, amount) :: l) r l (Redis_Release key amount r).2).
  { destruct (release_runs key amount r Hk Ha) as [-> |(v & e & Hg & ->)]; [done|]. destruct (old_entry _ _ _ _ Hk Hg) as [Hv He].
    split; [apply writes_ok; [done|lia|done]|]. split; [done|]. intros k _. rewrite Hone. unfold writes.
    rewrite redis_val_set, rget_set_keys by (by eapply rget_live). case_bool_decide as Ek; [|split; [lia|intros; split; [lia|done]]].
    subst k. unfold redis_val. rewrite Hg. split; [lia|done]. }
  by destruct f.
Qed.
(** ** The system *)

(** What a step does to rows, counter and the debts of its thread. *)
Definition step_fits (x y : list (string * Z)) (th : budget_thread) (r : redis) (t : Rows) (th' : budget_thread) (r' : redis) (t' : Rows) : Prop :=
  rows_wf t' /\ amounts_ok redis_cap t' /\ keeps_terms t t' /\ thread_fit t' th' /\ keys_ok r' /\ rs_now r' = rs_now r /\
  forall k, calendar_key k ->
    let debt := active_spend k t + pend k (owes t th) + pend k x in
    let debt' := active_spend k t' + pend k (owes t' th') + pend k y in
    debt' + redis_val r k <= debt + redis_val r' k /\
    (rget r k = None -> closes k (rs_now r * 1000000) -> debt' <= debt /\ rget r' k = None).

Lemma fits_rows x y th r t th' t' : keys_ok r -> rows_ok x y th t th' t' -> step_fits x y th r t th' r t'.
Proof using Type.
  intros Hk (H1 & H2 & H3 & H4 & Hd). split_and!; [done..|]. intros k _. cbv zeta. specialize (Hd k). split; [lia|]. intros. split; [lia|done].
Qed.

Lemma fits_counter th r t th' r' :
  rows_wf t -> amounts_ok redis_cap t -> thread_fit t th' -> counter_ok (owes t th) r (owes t th') r' -> step_fits [] [] th r t th' r' t.
Proof using Type.
  intros Hwf Ha Hf (Hk & Hn & Hd). split_and!; [done|done|apply keeps_refl|done..|]. intros k Hc. cbv zeta. rewrite !pend_nil. destruct (Hd k Hc) as [H1 H2]. split; [lia|].
  intros Hr Hcl. destruct (H2 Hr Hcl). split; [lia|done].
Qed.

Lemma budget_exec_fits f app db limit scan th r t :
  rows_wf t -> amounts_ok redis_cap t -> thread_fit t th -> keys_ok r -> prompt th r -> NoDup scan ->
  let '(th', r', t') := budget_exec f app db limit scan th r t in step_fits (overrun f th t) (unseen f th t) th r t th' r' t'.
Proof using lim_cap.
  intros Hwf Ha Hf Hk Hp Hn.
  assert (Hi : forall th', thread_fit t th' -> owes t th' = owes t th -> step_fits [] [] th r t th' r t) by (intros; by apply fits_rows, rows_ok_same).
  assert (Hgo : forall th', thread_fit t th' -> owes t th' = [] -> step_fits [] [] th r t th' r t).
  { intros th' Hf' Ho. apply fits_rows; [done|]. apply rows_ok_quiet; try done. apply moves_refl. }
  destruct th as [org dec req b|u org dec req b|[key a h res|key a wk|res]|th| |keys|[|[key a] l]|]; cbn [budget_exec].
  - by apply Hi.
  - pose proof (count_step_ok f u org dec req b r t Hk Hf Hp) as Hc. destruct (reserve_count _ _ _ _ _ _ _ _) as [s r'].
    destruct Hc. by apply fits_counter.
  - pose proof (place_step_ok f app key a h res t Hwf Ha Hf) as Hr. cbv zeta in Hr. destruct (reserve_place _ _ _ _ _ _) as [s t'].
    apply fits_rows; [done|]. by destruct f.
  - unfold reserve_undo. rewrite bind_let. cbn [mret io_ret]. apply fits_counter; try done. by apply release_step_ok.
  - by apply Hgo.
  - pose proof (store_step_ok f app db th t Hwf Ha Hf) as Hr. destruct (pg_exec _ _ _ _ _ _) as [th' t']. by apply fits_rows.
  - apply Hi; [|done]. by apply due_rows_spec.
  - pose proof (flip_step_ok f keys t Hwf Ha Hf) as Hr. cbv zeta in Hr. destruct (on_db _ _ _) as [x t']. by apply fits_rows.
  - by apply Hgo.
  - cbn in Hf. apply Forall_cons_iff in Hf as [Hr Hl]. destruct (counter_Release _ _ _ _) as [x r'] eqn:E.
    apply fits_counter; try done. pose proof (release_step_ok f key a l r Hk Hr) as Hc. by rewrite E in Hc.
  - by apply Hgo.
Qed.

Lemma step_fits_ok x y dx dy th r t th' r' t' ths1 ths2 :
  budget_ok x y {| dp_redis := r; dp_rows := t; dp_threads := ths1 ++ th :: ths2 |} -> step_fits dx dy th r t th' r' t' ->
  budget_ok (dx ++ x) (dy ++ y) {| dp_redis := r'; dp_rows := t'; dp_threads := ths1 ++ th' :: ths2 |}.
Proof using lim_cap.
  intros [Hwf Ha Hths Hk Hb] (H1 & H2 & H3 & H4 & H5 & H6 & H7). cbn in *. apply Forall_app in Hths as [Ht1 Ht2].
  apply Forall_cons_iff in Ht2 as [Hth Ht2]. destruct (all_owes_keeps t t' ths1 H3 Ht1) as [E1 Ht1']. destruct (all_owes_keeps t t' ths2 H3 Ht2) as [E2 Ht2'].
  split; cbn; [done..| |done|].
  - apply Forall_app. split; [done|]. by constructor.
  - intros k Hc. destruct (H7 k Hc) as [Hlive Hclosed]. cbv zeta in Hlive, Hclosed. specialize (Hb k Hc). rewrite pend_bind in Hb |- *. rewrite E1, E2, !pend_app. unfold books in *. rewrite H6.
    destruct Hb as [Hb|(Hr & Hcl & Hb)]; [left; lia|]. right. destruct (Hclosed Hr Hcl). split_and!; [done..|]. lia.
Qed.

Lemma books_less r k spend spend' : spend' <= spend -> books r k spend -> books r k spend'.
Proof using Type. intros Hle [Hb|(Hg & Hc & Hb)]; [left; lia|right; split_and!; [done..|lia]]. Qed.

(** A caller that crashes leaves what it owed on the counter. *)
Lemma crash_ok x y r t th ths1 ths2 :
  budget_ok x y {| dp_redis := r; dp_rows := t; dp_threads := ths1 ++ th :: ths2 |} -> budget_ok x y {| dp_redis := r; dp_rows := t; dp_threads := ths1 ++ ths2 |}.
Proof using lim_cap.
  intros [Hwf Ha Hths Hk Hb]. cbn in *. apply Forall_app in Hths as [Ht1 Ht2]. apply Forall_cons_iff in Ht2 as [Hth Ht2].
  split; cbn; [done..| |done|]; [by apply Forall_app|]. intros k Hc. eapply books_less; [|exact (Hb k Hc)].
  rewrite pend_bind. pose proof (pend_nonneg redis_cap k _ (owes_owed t th Ha Hth)). rewrite bind_app, pend_app. lia.
Qed.

Lemma redis_moves_ok r r' k spend :
  keys_ok r -> calendar_key k -> redis_moves r r' -> books r k spend -> books r' k spend.
Proof using lim_cap.
  intros Hk Hc [Hkeys Hn] Hb. pose proof (key_range r k Hk) as Hr. unfold books, redis_val, rget in *. rewrite Hkeys.
  destruct (rs_keys r !! k) as [[v e]|] eqn:Ek.
  - pose proof (proj1 (Hk k (v, e) Ek)) as Hv. cbn in Hv. destruct Hb as [Hb|(Hg & (o & b & w & u & H1 & H2 & H3) & Hb)].
    + destruct (expired (rs_now r') e) eqn:Ee'; [|left; destruct (expired (rs_now r) e); lia]. right. split; [done|].
      destruct e as [e|]; [|done]. cbn in Ee'. split; [|destruct (expired (rs_now r) (Some e)); lia].
      destruct (proj2 (Hk k (v, Some e) Ek) Hc e eq_refl) as (o & b & w & u & H1 & H2 & H3). exists o, b, w, u. split_and!; [done..|]. breflect. lia.
    + right. destruct e as [e|]; [|done]. cbn in Hg |- *. destruct (Z.leb_spec e (rs_now r)); [|done]. rewrite (proj2 (Z.leb_le _ _)) by lia.
      split; [done|]. split; [|done]. exists o, b, w, u. split_and!; [done..|]. lia.
  - destruct Hb as [Hb|(Hg & (o & b & w & u & H1 & H2 & H3) & Hb)]; [by left|]. right. split; [done|]. split; [|done].
    exists o, b, w, u. split_and!; [done..|]. lia.
Qed.

Lemma budget_move_ok x y s dx dy s' : budget_ok x y s -> budget_move s dx dy s' -> budget_ok (dx ++ x) (dy ++ y) s'.
Proof using lim_cap.
  intros Hs Hstep. destruct Hstep as [f app db limit scan th th' r r' t t' ths1 ths2 Hp Hn He|r t th ths Ha|r t th ths1 ths2|r r' t ths Hm]; rewrite ?app_nil_l.
  - pose proof Hs as [Hwf Ham Hths Hk _]. cbn in *. apply Forall_app in Hths as [_ Ht2]. apply Forall_cons_iff in Ht2 as [Hth _].
    pose proof (budget_exec_fits f app db limit scan th r t Hwf Ham Hth Hk Hp Hn) as Hf. rewrite He in Hf. by eapply step_fits_ok.
  - destruct Hs as [Hwf Ham Hths Hk Hb]. cbn in *. assert (owes t th = [] /\ thread_fit t th) as [Ho Hf] by (by destruct Ha).
    split; cbn; [done..|by constructor|done|]. rewrite Ho. exact Hb.
  - by eapply crash_ok.
  - destruct Hs as [Hwf Ham Hths Hk Hb]. cbn in *. split; cbn; [done..| |].
    + unfold keys_ok. destruct Hm as [-> _]. exact Hk.
    + intros k Hc. by apply (redis_moves_ok r); [|..|apply Hb].
Qed.

Lemma budget_init_ok s : budget_init s -> budget_ok [] [] s.
Proof using Type.
  intros (Hk & Ht & Hths). split; rewrite ?Ht, ?Hths; cbn; try apply map_Forall_empty; [constructor| |].
  - unfold keys_ok. rewrite Hk. apply map_Forall_empty.
  - intros k _. left. unfold redis_val, rget, active_spend. rewrite Hk, lookup_empty, map_sum_empty. done.
Qed.

Lemma history_ok x y s : history x y s -> budget_ok x y s.
Proof using lim_cap. induction 1; [by apply budget_init_ok|by eapply budget_move_ok]. Qed.

(** What is hidden was captured in range. *)
Lemma unseen_owed f th t : amounts_ok redis_cap t -> owed_ok redis_cap (unseen f th t).
Proof using Type.
  intros Ha. assert (Hc : forall keys, owed_ok redis_cap (amounts_of (in_state StateCaptured) keys t)).
  { intros keys. induction keys as [|k keys IH]; [constructor|]. rewrite amounts_of_cons. apply Forall_app. split; [|done].
    destruct (t !! k) as [h|] eqn:Ek; [|constructor]. destruct (in_state _ h); [|constructor]. apply release_of_ok. by eapply Ha. }
  destruct th; try constructor. destruct f; [apply Hc|constructor|apply Hc].
Qed.

Lemma history_unseen x y s : history x y s -> owed_ok redis_cap y.
Proof using lim_cap.
  induction 1 as [|x y s dx dy s' Hh IH Hm]; [constructor|]. apply Forall_app. split; [|done]. pose proof (history_ok _ _ _ Hh) as [_ Ha _ _ _].
  destruct Hm; try constructor. by apply unseen_owed.
Qed.

Lemma history_reachable x y s : history x y s -> x = [] -> reachable budget_init budget_step s.
Proof using Type.
  induction 1 as [s Hs|x y s dx dy s' _ IH Hm]; [by constructor|]. intros [-> ->]%app_nil. eapply reach_step; [by apply IH|]. by exists dy.
Qed.

(** A run that overruns nothing. *)
Lemma reachable_history s : reachable budget_init budget_step s -> exists y, history [] y s.
Proof using Type.
  induction 1 as [s Hs|s s' _ [y Hy] [dy Hm]]; [exists []; by constructor|]. exists (dy ++ y). by apply (hist_step [] y s [] dy s').
Qed.

Lemma budget_reachable_ok s : reachable budget_init budget_step s -> exists y, budget_ok [] y s /\ owed_ok redis_cap y.
Proof using lim_cap. intros [y Hy]%reachable_history. exists y. split; [by apply history_ok|by eapply history_unseen]. Qed.
End limits.
End deployed.

(** C1: No oversell as deployed, over the Redis counter and the Postgres ledger.
    However calls, statements and the two halves of sweeps interleave, wherever
    callers crash, whatever Redis and Postgres refuse or leave unanswered, and
    however long the service runs while counters expire: what is spent in a day
    or month of a budget (held, captured, or captured before a sweep marked it
    expired) exceeds its limit, and its counter while that lives, by at most what
    the run gave back twice: [overrun], the holds inserted by a statement whose
    answer was lost, and the rows that were settled between the two halves of a
    sweep.  Without these it never exceeds them.  Amounts and limits are at most
    2^52 - 1 cents ([reservable]), and no reservation takes more than twelve hours,
    clock differences included, from the instant it counts at to the counter
    ([prompt]): the lifetimes of the counters leave exactly that much. *)
Theorem deployed_never_oversells stored ttl lim (Hlim : forall k, 0 <= lim k <= redis_cap) x y s
  (Hs : history stored ttl lim x y s) org budget w u (Hw : calendar w = true) :
  let k := counterKey org budget (WindowKey w u) in
  let spent := active_spend k (dp_rows s) + pend k y in
  0 <= active_spend k (dp_rows s) <= spent /\ spent <= lim k + pend k x /\ 0 <= redis_val (dp_redis s) k <= lim k /\
  (is_Some (rget (dp_redis s) k) -> spent <= redis_val (dp_redis s) k + pend k x).
Proof.
  intros k spent. destruct (history_ok stored ttl lim Hlim x y s Hs) as [Hwf Ha Hths Hk Hb].
  pose proof (key_range lim Hlim (dp_redis s) k Hk) as Hv. pose proof (active_spend_nonneg redis_cap k _ Ha).
  pose proof (pend_nonneg _ k _ (all_owes_owed lim _ _ Ha Hths)). pose proof (pend_nonneg _ k _ (history_unseen stored ttl lim Hlim x y s Hs)).
  destruct (Hb k) as [Hl|(Hr & _ & Hl)]; [by exists org, budget, w, u| |]; (split; [lia|]; split; [lia|]; split; [done|]); [lia|].
  intros [v Hx]. congruence.
Qed.
