(* ===== verification/ReconcilePg.v ===== *)
(** The reconciler gives budget back: its ticks over a live Redis and Postgres,
    with no other call in between. *)

From stdpp Require Import sorting.
From S2P Require Import Prelude GoStrings GoTime Contracts Runtime Engine Hold HoldStore Budget Counter Reserver Spend Window Pg HoldPg BudgetPg.

(** * Sorting with a comparison that is an order on the list *)

Lemma insert_by_ext {A} (le le' : A -> A -> bool) x l : (forall y, y ∈ l -> le x y = le' x y) -> insert_by le x l = insert_by le' x l.
Proof.
  induction l as [|y l IH]; intros Hl; [done|]. cbn. rewrite (Hl y) by (by left). destruct (le' x y); [done|]. f_equal. apply IH. intros z Hz. apply Hl. by right.
Qed.

Lemma sort_by_ext {A} (le le' : A -> A -> bool) l : (forall x y, x ∈ l -> y ∈ l -> le x y = le' x y) -> sort_by le l = sort_by le' l.
Proof.
  induction l as [|x l IH]; intros Hl; [done|]. change (insert_by le x (sort_by le l) = insert_by le' x (sort_by le' l)).
  rewrite IH by (intros y z Hy Hz; apply Hl; by right). apply insert_by_ext. intros y Hy. apply Hl; [by left|right]. by apply sort_by_elem in Hy.
Qed.

(** * The sweep *)

(** Held rows past an instant. *)
Definition row_due (d : time) (t : Rows) (k : row_key) : bool :=
  match t !! k with Some h => bool_decide (h_State h = StateHeld) && (h_ExpiresAt h <=? d) | None => false end.

Definition waiting (d : time) (t : Rows) : gset row_key := filter (fun k => row_due d t k = true) (dom t).

Definition complete (scan : list row_key) (t : Rows) : Prop := NoDup scan /\ forall k, is_Some (t !! k) -> k ∈ scan.

Lemma elem_of_waiting d t k : k ∈ waiting d t <-> row_due d t k = true.
Proof.
  unfold waiting. rewrite elem_of_filter, elem_of_dom. split; [by intros [? _]|]. intros Hd. split; [done|]. unfold row_due in Hd. by destruct (t !! k).
Qed.

Lemma flip_rows_lookup keys t k : (flip_rows keys t).2 !! k = if decide (k ∈ keys) then set_State StateExpired <$> t !! k else t !! k.
Proof.
  revert t. induction keys as [|i keys IH]; intros t; [by rewrite decide_False by apply not_elem_of_nil|]. cbn [flip_rows].
  assert (Hgo : forall t1 : Rows, t1 !! k = (if decide (k = i) then set_State StateExpired <$> t !! k else t !! k) ->
    (if decide (k ∈ keys) then set_State StateExpired <$> t1 !! k else t1 !! k) =
    (if decide (k ∈ i :: keys) then set_State StateExpired <$> t !! k else t !! k)).
  { intros t1 ->. destruct (decide (k = i)) as [->|Hne].
    - rewrite (decide_True (P := i ∈ i :: keys)) by (by left). case_decide; [|done]. by destruct (t !! i).
    - destruct (decide (k ∈ keys)); [rewrite decide_True by (by right); done|]. rewrite decide_False; [done|]. by intros [?|?]%elem_of_cons. }
  destruct (t !! i) as [h|] eqn:Ei.
  - specialize (IH (<[i := set_State StateExpired h]> t)). destruct (flip_rows keys _) as [out t']. cbn [snd] in *. rewrite IH. apply Hgo.
    case_decide as E; [subst i; by rewrite lookup_insert_eq, Ei|]. by rewrite lookup_insert_ne.
  - rewrite IH. apply Hgo. case_decide as E; [subst i; by rewrite Ei|done].
Qed.

Lemma waiting_flipped d keys t : waiting d (flip_rows keys t).2 = waiting d t ∖ list_to_set keys.
Proof.
  apply set_eq. intros k. rewrite elem_of_difference, elem_of_list_to_set, !elem_of_waiting. unfold row_due. rewrite flip_rows_lookup.
  case_decide as Hk; [|tauto]. destruct (t !! k) as [h|]; cbn; [|intuition congruence]. rewrite bool_decide_false by done. cbn. intuition congruence.
Qed.

(** The rows a sweep takes: all that are due at an earlier instant, or only
    such rows. *)
Lemma due_rows_earliest d now n scan t :
  complete scan t -> d <= now ->
  (forall k, k ∈ waiting d t -> k ∈ due_rows now n scan t) \/
  (length (due_rows now n scan t) = n /\ forall k, k ∈ due_rows now n scan t -> k ∈ waiting d t).
Proof.
  intros [Hnd Hc] Hd. unfold due_rows. set (due := filter _ scan). set (le := fun k k' => _).
  set (expiry := fun k : row_key => default 0 (h_ExpiresAt <$> t !! k)).
  assert (Hdue : forall k, k ∈ due <-> row_due now t k = true /\ k ∈ scan) by (intros k; unfold due; by rewrite list_elem_of_filter).
  assert (Hle : sort_by le due = sort_by (fun x y => expiry x <=? expiry y) due).
  { apply sort_by_ext. intros x y [Hx _]%Hdue [Hy _]%Hdue. unfold le, expiry, row_due in *. destruct (t !! x), (t !! y); done. }
  rewrite Hle. clear Hle. set (L := sort_by _ due).
  assert (HL : forall k, k ∈ L <-> k ∈ due) by (intros k; apply sort_by_elem).
  assert (Hs : StronglySorted (fun x y => (expiry x <=? expiry y) = true) L) by (apply sort_by_sorted; intros; lia).
  destruct (decide (Exists (fun k => row_due d t k = true) (drop n L))) as [He|Hne].
  - right. apply list.Exists_exists in He as (y & Hy & Hyd). split.
    + rewrite length_take. assert (n < length L)%nat; [|lia]. apply list_elem_of_lookup in Hy as [i Hi]. rewrite lookup_drop in Hi. apply lookup_lt_Some in Hi. lia.
    + intros x Hx. apply elem_of_waiting. rewrite <- (take_drop n L) in Hs. pose proof (StronglySorted_app_1_elem_of _ _ _ _ _ Hs Hx Hy) as Hxy.
      assert (Hxd : row_due now t x = true) by (apply Hdue, HL; eapply elem_of_sublist; [exact Hx|apply sublist_take]).
      unfold row_due, expiry in *. destruct (t !! x) as [hx|]; [|done]. destruct (t !! y) as [hy|]; [|done]. cbn in *. breflect. intuition lia.
  - left. intros k Hk. apply elem_of_waiting in Hk as Hkd. assert (Hin : k ∈ L).
    { apply HL, Hdue. unfold row_due in *. destruct (t !! k) as [h|] eqn:Ek; [|done]. split; [breflect; intuition lia|]. apply Hc. by eexists. }
    rewrite <- (take_drop n L) in Hin. apply elem_of_app in Hin as [Hin|Hin]; [done|]. destruct Hne. apply list.Exists_exists. eauto.
Qed.

Lemma sweep_waiting stored d now n scan t :
  complete scan t -> d <= stored now -> (size (waiting d (Pg_ExpireDue stored now n scan t).2) <= size (waiting d t) - n)%nat.
Proof.
  intros Hc Hd. unfold Pg_ExpireDue. rewrite waiting_flipped. pose proof (due_rows_spec (stored now) n scan t (proj1 Hc)) as [Hnd _].
  destruct (due_rows_earliest d (stored now) n scan t Hc Hd) as [Hall|[Hlen Hsub]].
  - assert (waiting d t ∖ list_to_set (due_rows (stored now) n scan t) = ∅) as ->; [|rewrite size_empty; lia]. set_solver.
  - rewrite size_difference by set_solver. rewrite size_list_to_set by done. lia.
Qed.

(** What a sweep releases leaves the active spend. *)
Lemma flip_rows_spend k keys t :
  NoDup keys -> (forall i, i ∈ keys -> exists h, t !! i = Some h /\ h_State h = StateHeld) ->
  active_spend k (flip_rows keys t).2 + pend k ((flip_rows keys t).1 ≫= release_of) = active_spend k t.
Proof.
  intros Hnd. revert t. induction Hnd as [|i keys Hi Hnd IH]; intros t Hheld; cbn [flip_rows]; [cbn; change (pend k []) with 0; lia|].
  destruct (Hheld i) as (h & Ei & Hs); [by left|]. rewrite Ei.
  specialize (IH (<[i := set_State StateExpired h]> t)). destruct (flip_rows keys _) as [out t']. cbn [fst snd] in *.
  assert (Hone : active_spend k (<[i := set_State StateExpired h]> t) + pend k (release_of h) = active_spend k t).
  { unfold active_spend. rewrite (map_sum_delete _ t i h Ei), <- (held_spend k h Hs).
    rewrite (map_sum_delete _ (<[i := _]> t) i (set_State StateExpired h)) by apply lookup_insert_eq. rewrite delete_insert_eq.
    change (hold_spend k (set_State StateExpired h)) with 0. lia. }
  rewrite <- Hone, <- IH.
  - cbn. rewrite pend_app. change (release_of (set_State StateExpired h)) with (release_of h). lia.
  - intros j Hj. destruct (Hheld j) as (hj & Hej & Hsj); [by right|]. exists hj. split; [|done]. rewrite lookup_insert_ne; [done|]. by intros ->.
Qed.

(** * The ticks *)

(** Rows a sweep left alone or expired, none of them before its time. *)
Definition swept (d : time) (t t' : Rows) : Prop :=
  forall i, t' !! i = t !! i \/
    exists h, t !! i = Some h /\ h_State h = StateHeld /\ h_ExpiresAt h <= d /\ t' !! i = Some (set_State StateExpired h).

Lemma swept_later d d' t t' : d <= d' -> swept d t t' -> swept d' t t'.
Proof. intros Hd Hs i. destruct (Hs i) as [?|(h & H1 & H2 & H3 & H4)]; [by left|]. right. exists h. split_and!; [done..|lia|done]. Qed.

Lemma swept_trans d t1 t2 t3 : swept d t1 t2 -> swept d t2 t3 -> swept d t1 t3.
Proof.
  intros H12 H23 i. destruct (H23 i) as [-> |(h & Hk & Hs & He & Hk')]; [apply H12|].
  destruct (H12 i) as [Heq|(h0 & _ & _ & _ & Hk0)]; [rewrite Heq in Hk; right; by exists h|]. rewrite Hk0 in Hk. by injection Hk as <-.
Qed.

(** What the clock would read next, as the database keeps it. *)
Definition reading `{Runtime W} (stored : time -> time) (w : W) : time := stored (now w).1.

(** A reconciler over a live ledger that nothing else uses, and a clock that does
    not go back: [rows] and [server] are its parts of the world, [scan] the order
    a sweep reads the rows in. *)
Class LiveDeployment `{Runtime W} (stored : time -> time) (rc : Reconciler W) (rows : W -> Rows) (server : W -> redis) (scan : W -> list row_key) := {
  live_sweep at_ n w :
    let '(out, t) := Pg_ExpireDue stored at_ (Z.to_nat n) (scan w) (rows w) in
    exists w', store_ExpireDue (rc_holds rc) at_ n w = (Ok out, w') /\ rows w' = t /\ server w' = server w /\ reading stored w <= reading stored w';
  live_release key amount w :
    rows (counter_Release (rc_counter rc) key amount w).2 = rows w /\
    server (counter_Release (rc_counter rc) key amount w).2 = (Redis_Release key amount (server w)).2 /\
    reading stored w <= reading stored (counter_Release (rc_counter rc) key amount w).2;
  live_now w : reading stored w <= reading stored (now w).2;
  live_scan w : complete (scan w) (rows w)
}.

Section run.
Context {W : Type} `{Runtime W} (stored : time -> time) (rc : Reconciler W) (rows : W -> Rows) (server : W -> redis) (scan : W -> list row_key).
Context `{!LiveDeployment stored rc rows server scan} `{!Frame rows} `{!Frame server}.
Context (lim : string -> Z) (lim_cap : forall k, 0 <= lim k <= redis_cap).
Context (d : time).

(** A state between two ticks. *)
Record idle (w : W) : Prop := {
  idle_up : rs_up (server w) = true;
  idle_keys : keys_ok lim (server w);
  idle_wf : rows_wf (rows w);
  idle_amounts : amounts_ok redis_cap (rows w)
}.

(** The counter of a window minus what the ledger counts against it. *)
Definition drift (k : string) (w : W) : Z := redis_val (server w) k - active_spend k (rows w).

(** The counter of [k] lives and has at least [owed] on it. *)
Definition covers (k : string) (owed : Z) (r : redis) : Prop := is_Some (rget r k) /\ owed <= redis_val r k.

Lemma release_live key amount r k owed :
  rs_up r = true -> keys_ok lim r -> 0 <= amount <= redis_cap -> 0 <= owed -> covers k (pend k [(key, amount)] + owed) r ->
  let r' := (Redis_Release key amount r).2 in
  covers k owed r' /\ redis_val r' k = redis_val r k - pend k [(key, amount)].
Proof using lim_cap.
  intros Hup Hk Ha Ho [[x Hx] Hp]. unfold Redis_Release. rewrite Hup. cbn. rewrite (releaseScript_runs lim lim_cap) by done. rewrite pend_one in *.
  destruct (rget r key) as [[v e]|] eqn:Eg.
  - assert (He : expired (rs_now r) e = false) by (by eapply rget_live). unfold covers, writes. rewrite redis_val_set, rget_set_keys by done.
    case_bool_decide as Ek; [subst k; rewrite String.eqb_refl in *|rewrite (proj2 (String.eqb_neq _ _)) in * by done].
    + assert (redis_val r key = v) as Hv by (unfold redis_val; by rewrite Eg). rewrite Hv in *. split; [split; [by eexists|lia]|lia].
    + split; [split; [by eexists|lia]|lia].
  - assert (key <> k) by congruence. rewrite (proj2 (String.eqb_neq _ _)) in * by done. unfold covers. split; [split; [by eexists|lia]|lia].
Qed.

Lemma release_keeps key amount r :
  rs_up r = true -> keys_ok lim r -> 0 <= amount <= redis_cap ->
  rs_up (Redis_Release key amount r).2 = true /\ keys_ok lim (Redis_Release key amount r).2.
Proof using lim_cap.
  intros Hup Hk Ha. split; [|apply (release_step_ok lim lim_cap Live key amount [] r Hk Ha)].
  unfold Redis_Release. rewrite Hup. cbn. unfold releaseScript. by destruct (rget r key) as [[v e]|].
Qed.

Lemma release_all_live l w :
  rs_up (server w) = true -> keys_ok lim (server w) -> owed_ok redis_cap l ->
  let w' := (release_all (rc_counter rc) l w).2 in
  rows w' = rows w /\ reading stored w <= reading stored w' /\ rs_up (server w') = true /\ keys_ok lim (server w') /\
  forall k owed, 0 <= owed -> covers k (pend k l + owed) (server w) ->
    covers k owed (server w') /\ redis_val (server w') k = redis_val (server w) k - pend k l.
Proof using Type*.
  revert w. induction l as [|[key a] l IH]; intros w Hup Hk Hl.
  { split_and!; [done..|]. intros k owed _. change (pend k []) with 0. rewrite Z.add_0_l, Z.sub_0_r. done. }
  apply Forall_cons_iff in Hl as [Ha Hl]. cbn [release_all]. rewrite bind_let. destruct (live_release key a w) as (Er & Es & Hrd).
  destruct (release_keeps key a (server w) Hup Hk Ha) as [Hup' Hk']. rewrite <- Es in Hup', Hk'.
  specialize (IH _ Hup' Hk' Hl). cbv zeta in IH |- *. destruct IH as (H1 & H0 & H2 & H3 & H4). split_and!; [by rewrite H1|lia|done..|].
  intros k owed Ho Hc. rewrite pend_cons in Hc |- *. pose proof (pend_nonneg redis_cap k l Hl).
  destruct (release_live key a (server w) k (pend k l + owed) Hup Hk Ha ltac:(lia)) as [Hc' Hv].
  { destruct Hc. split; [done|lia]. }
  rewrite <- Es in Hc', Hv. destruct (H4 k owed Ho Hc') as [HA HB]. split; [done|]. rewrite HB, Hv. lia.
Qed.

(** One tick. *)
Lemma tick_live w :
  idle w -> d <= reading stored w ->
  let w' := (ReleaseExpired rc w).2 in
  idle w' /\ reading stored w <= reading stored w' /\ (size (waiting d (rows w')) <= size (waiting d (rows w)) - Z.to_nat (rc_batch rc))%nat /\ swept (reading stored w) (rows w) (rows w') /\
  forall k, covers k (active_spend k (rows w)) (server w) -> covers k (active_spend k (rows w')) (server w') /\ drift k w' = drift k w.
Proof using Type*.
  intros [Hup Hk Hwf Ha] Hd. unfold ReleaseExpired. rewrite bind_let. pose proof (live_now w) as Hnow. unfold reading in Hd |- * at 3.
  unfold reading in Hnow at 1. change (reading stored w) with (stored (now w).1). destruct (now w) as [at_ w1] eqn:Et. cbn [fst snd] in *.
  pose proof (now_frame_eq (view:=rows) _ _ _ Et) as Er. pose proof (now_frame_eq (view:=server) _ _ _ Et) as Es.
  rewrite bind_let. pose proof (live_sweep (rc:=rc) at_ (rc_batch rc) w1) as Hs. pose proof (live_scan w1) as Hc. rewrite Er in Hs, Hc.
  set (n := Z.to_nat (rc_batch rc)) in *. destruct (due_rows_spec (stored at_) n (scan w1) (rows w) (proj1 Hc)) as [Hnd Hh].
  assert (Hheld : forall i, i ∈ due_rows (stored at_) n (scan w1) (rows w) -> exists h, rows w !! i = Some h /\ h_State h = StateHeld).
  { intros i Hi. destruct (Hh i Hi) as (h & Hk' & Hst & _). by exists h. }
  destruct (flip_rows_spec _ (rows w) Hwf Hnd Hheld) as (H1 & H2 & _ & _).
  pose proof (sweep_waiting stored d at_ n (scan w1) (rows w) Hc Hd) as Hw.
  pose proof (flip_rows_books _ (rows w) Hwf Ha Hnd) as Hok.
  pose proof (fun k => flip_rows_spend k _ (rows w) Hnd Hheld) as Hsp. pose proof (fun k => flip_rows_lookup (due_rows (stored at_) n (scan w1) (rows w)) (rows w) k) as Hlook.
  unfold Pg_ExpireDue in *. destruct (flip_rows _ (rows w)) as [out t]. destruct Hs as (w2 & E2 & Er2 & Es2 & Hrd). rewrite E2. cbn [fst snd] in *.
  destruct Hok as (_ & Ha' & _ & Howed & _). rewrite bind_let. cbn [fst snd mret io_ret].
  assert (Hserver : server w2 = server w) by (by rewrite Es2, Es).
  pose proof (release_all_live (out ≫= release_of) w2) as Hr. rewrite Hserver in Hr. destruct (Hr Hup Hk Howed) as (R1 & R0 & R2 & R3 & R4). clear Hr.
  rewrite R1, Er2. split_and!; [split; [done..| |]; by rewrite R1, Er2|lia|done| |].
  - intros i. rewrite (Hlook i). case_decide as Hi; [|by left]. destruct (Hh i Hi) as (h & -> & Hst & He). right. exists h. split_and!; [done..|lia|done].
  - intros k Hcov. rewrite <- (Hsp k), Z.add_comm in Hcov. destruct (R4 k (active_spend k t)) as [R5 R6]; [by apply (active_spend_nonneg redis_cap)|done|].
    split; [done|]. unfold drift. rewrite R6, R1, Er2, <- (Hsp k). lia.
Qed.
Lemma run_live n w :
  idle w -> d <= reading stored w -> (size (waiting d (rows w)) <= n * Z.to_nat (rc_batch rc))%nat ->
  let w' := (Reconciler_Run rc n w).2 in
  waiting d (rows w') = ∅ /\ reading stored w <= reading stored w' /\ swept (reading stored w') (rows w) (rows w') /\
  forall k, covers k (active_spend k (rows w)) (server w) -> drift k w' = drift k w.
Proof using Type*.
  revert w. induction n as [|n IH]; intros w Hi Hd Hn.
  - cbn. split_and!; [apply leibniz_equiv, size_empty_inv; lia|done|intros i; by left|done].
  - cbn [Reconciler_Run]. rewrite bind_let. destruct (tick_live w Hi Hd) as (Hi' & Hr & Hw & Hsw & Hdr). destruct (IH _ Hi') as (H1 & H2 & H3 & H4); [lia|lia|].
    split_and!; [done|lia| |].
    + eapply swept_trans; [|exact H3]. eapply swept_later; [|exact Hsw]. lia.
    + intros k Hk. destruct (Hdr k Hk) as [Hk' <-]. by apply H4.
Qed.
End run.

(** C10: The reconciler gives budget back.  Over a live Redis and Postgres that
    nothing else uses, from any state the service can reach, enough ticks (one
    per batch of overdue holds) expire every hold overdue when they start, and
    no hold before its time; and every live counter of a day or month falls by
    exactly the spend that leaves the ledger. *)
Theorem reconciler_returns_budget {W} `{!Runtime W} stored rc rows server scan `{!LiveDeployment (W:=W) stored rc rows server scan} `{!Frame rows} `{!Frame server}
  ttl lim (Hlim : forall k, 0 <= lim k <= redis_cap) w ths n
  (Hs : reachable budget_init (budget_step stored ttl lim) {| dp_redis := server w; dp_rows := rows w; dp_threads := ths |})
  (Hup : rs_up (server w) = true) (Hn : (size (waiting (reading stored w) (rows w)) <= n * Z.to_nat (rc_batch rc))%nat) :
  let w' := (Reconciler_Run rc n w).2 in
  waiting (reading stored w) (rows w') = ∅ /\ swept (reading stored w') (rows w) (rows w') /\
  forall org budget win u, calendar win = true -> let k := counterKey org budget (WindowKey win u) in
    is_Some (rget (server w) k) ->
    redis_val (server w) k - redis_val (server w') k = active_spend k (rows w) - active_spend k (rows w').
Proof.
  destruct (budget_reachable_ok stored ttl lim Hlim _ Hs) as (y & [Hwf Ha Hths Hk Hb] & Hy). cbn [dp_redis dp_rows dp_threads] in *.
  destruct (run_live stored rc rows server scan lim Hlim (reading stored w) n w) as (H1 & _ & H2 & H3); [by split|done|done|].
  split_and!; [done..|]. cbv zeta. intros org budget win u Hc Hlive. set (k := counterKey org budget (WindowKey win u)) in *. specialize (H3 k). unfold drift in H3.
  pose proof (pend_nonneg redis_cap k _ (all_owes_owed lim _ _ Ha Hths)).
  pose proof (pend_nonneg redis_cap k y Hy).
  destruct (Hb k) as [Hl|(Hr & _)]; [by exists org, budget, win, u| |rewrite Hr in Hlive; by destruct Hlive].
  rewrite pend_nil in Hl. assert (Hcov : covers k (active_spend k (rows w)) (server w)) by (split; [done|lia]). specialize (H3 Hcov). lia.
Qed.
