(* ===== verification/BudgetPgMem.v ===== *)
(** Schedules of the deployed budget subsystem, for witnesses and examples. *)

From stdpp Require Import relations.
From S2P Require Import Prelude GoStrings GoTime Contracts Runtime Engine Hold HoldStore Budget Counter Reserver Spend Window Pg HoldPg BudgetPg ReconcilePg Samples.

Inductive budget_event :=
| BArrive (th : budget_thread)
| BStep (n : nat) (f : fault) (at_ : time)
| BClock (ms : Z).

(** The rows a sweep reads, all of them. *)
Definition scan_of (t : Rows) : list row_key := (map_to_list t).*1.

Lemma scan_of_nodup t : NoDup (scan_of t).
Proof. apply NoDup_fst_map_to_list. Qed.

(** One event, whatever the assumptions on steps say. *)
Definition budget_run (e : budget_event) (s : deployed) : deployed :=
  match e with
  | BArrive th => {| dp_redis := dp_redis s; dp_rows := dp_rows s; dp_threads := th :: dp_threads s |}
  | BStep n f at_ =>
    match dp_threads s !! n with
    | None => s
    | Some th =>
      let '(th', r', t') := budget_exec micros (15 * Minute) f at_ at_ 256 (scan_of (dp_rows s)) th (dp_redis s) (dp_rows s) in
      {| dp_redis := r'; dp_rows := t'; dp_threads := take n (dp_threads s) ++ th' :: drop (S n) (dp_threads s) |}
    end
  | BClock ms =>
    {| dp_redis := {| rs_keys := rs_keys (dp_redis s); rs_now := Z.max (rs_now (dp_redis s)) ms; rs_up := rs_up (dp_redis s) |};
       dp_rows := dp_rows s; dp_threads := dp_threads s |}
  end.

(** What an event overruns and hides. *)
Definition event_costs (e : budget_event) (s : deployed) : list (string * Z) * list (string * Z) :=
  match e with
  | BStep n f _ => match dp_threads s !! n with Some th => (overrun f th (dp_rows s), unseen f th (dp_rows s)) | None => ([], []) end
  | _ => ([], [])
  end.

(** The events the relation of the system has. *)
Definition in_time (th : budget_thread) (r : redis) : bool :=
  match th with BCount u _ _ _ _ => Z.abs (rs_now r * 1000000 - u) <=? slack | _ => true end.

(** A deployment with what its run has overrun and hidden. *)
Record run := { run_overrun : list (string * Z); run_hidden : list (string * Z); run_state : deployed }.

Definition budget_play (s : run) (e : budget_event) : run :=
  let go := {| run_overrun := (event_costs e (run_state s)).1 ++ run_overrun s; run_hidden := (event_costs e (run_state s)).2 ++ run_hidden s;
               run_state := budget_run e (run_state s) |} in
  match e with
  | BStep n f _ =>
    match dp_threads (run_state s) !! n with
    | Some th => if in_time th (dp_redis (run_state s)) then go else s
    | None => s
    end
  | _ => go
  end.

Definition history100 : run -> Prop := fun s => history micros (15 * Minute) (fun _ => 10000) (run_overrun s) (run_hidden s) (run_state s).

Definition may_arrive (e : budget_event) : Prop := match e with BArrive th => arrives (fun _ => 10000) th | _ => True end.

Lemma budget_play_history es s : Forall may_arrive es -> history100 s -> history100 (foldl budget_play s es).
Proof.
  intros Hes. revert s. induction Hes as [|e es He _ IH]; intros s Hs; [done|]. cbn [foldl]. apply IH. clear IH. destruct s as [x y [r t ths]]. unfold history100 in *.
  destruct e as [th|n f at_|ms]; cbn -[budget_exec] in *.
  - apply (hist_step _ _ _ x y _ [] [] _ Hs). by constructor.
  - destruct (ths !! n) as [th|] eqn:En; [|done]. destruct (in_time th r) eqn:Ei; [|done]. cbn -[budget_exec].
    destruct (budget_exec _ _ _ _ _ _ _ _ _ _) as [[th' r'] t'] eqn:Ex. eapply hist_step; [exact Hs|].
    rewrite <- (take_drop_middle ths n th En) at 1. eapply bs_exec; [|exact (scan_of_nodup t)|exact Ex].
    destruct th; try done. cbn in Ei |- *. by apply Z.leb_le.
  - apply (hist_step _ _ _ x y _ [] [] _ Hs). apply bs_redis. split; [done|]. cbn. lia.
Qed.

(** A day budget of 100.00. *)
Definition day_budget : BudgetDecl := {| bd_ID := "b1"; bd_Agents := []; bd_Window := "day"; bd_Limit := "100"; bd_Currency := "USD" |}.

Definition ask (id amount : string) : budget_thread := BReserve "org" id (sample_request "a" amount) day_budget.

Definition empty_deployment : deployed :=
  {| dp_redis := {| rs_keys := ∅; rs_now := t0 / 1000000; rs_up := true |}; dp_rows := ∅; dp_threads := [] |}.

Definition started : run := {| run_overrun := []; run_hidden := []; run_state := empty_deployment |}.

Lemma started_history : history100 started.
Proof. by apply hist_init. Qed.

Lemma ask_may_arrive id amount : amount_ok redis_cap amount -> may_arrive (BArrive (ask id amount)).
Proof. intros Ha. constructor. split; [exact Ha|]. intros u l Hl. vm_compute in Hl. injection Hl as <-. by vm_compute. Qed.

(** Run the newest thread [n] times. *)
Definition steps (n : nat) (at_ : time) : list budget_event := repeat (BStep 0 Live at_) n.

(** Three reservations of 60.00, the second refused and the first voided before
    the third; the third is captured, and the counter outlives its day. *)
Definition spending_day : list budget_event :=
  [BArrive (ask "d1" "60")] ++ steps 3 t0 ++ [BArrive (ask "d2" "60")] ++ steps 3 t0 ++
  [BArrive (BStore (PCall (PgVoid "org" "d1")))] ++ steps 4 (t0 + Second) ++
  [BArrive (ask "d3" "60")] ++ steps 3 (t0 + 2 * Second) ++
  [BArrive (BStore (PCall (PgCapture "org" "d3")))] ++ steps 3 (t0 + 3 * Second).

Definition day_key : string := counterKey "org" "b1" "2026-03-02".

Definition day_state (s : deployed) : Z * Z := (active_spend day_key (dp_rows s), redis_val (dp_redis s) day_key).

Definition played (es : list budget_event) : run := foldl budget_play started es.

Definition expiry : list budget_event := [BClock (t0 / 1000000 + 48 * 3600 * 1000)].

Example spending_day_books :
  day_state (run_state (played spending_day)) = (6000, 6000) /\ day_state (run_state (played (spending_day ++ expiry))) = (6000, 0) /\
  run_overrun (played (spending_day ++ expiry)) = [].
Proof. split_and!; vm_compute; reflexivity. Qed.

Lemma day_key_text : counterKey "org" "b1" (WindowKey "day" t0) = day_key.
Proof. vm_compute. reflexivity. Qed.

Lemma lim100_ok (k : string) : 0 <= (fun _ : string => 10000) k <= redis_cap.
Proof. by vm_compute. Qed.

(** The answer to an insert that ran is lost.  The reserver takes the amount off
    the counter while the ledger keeps the hold: the next reservation passes,
    and a capture of each spends 120.00 of 100.00. *)
Definition lost_insert : list budget_event :=
  [BArrive (ask "d1" "60")] ++ steps 2 t0 ++ [BStep 0 (Lost "connection reset") t0] ++ steps 1 t0 ++ [BArrive (ask "d2" "60")] ++ steps 3 t0 ++
  [BArrive (BStore (PCall (PgCapture "org" "d1")))] ++ steps 3 (t0 + Second) ++ [BArrive (BStore (PCall (PgCapture "org" "d2")))] ++ steps 3 (t0 + Second).

Example lost_insert_oversells :
  let s := played lost_insert in
  day_state (run_state s) = (12000, 6000) /\ run_overrun s = [(day_key, 6000)] /\
  (h_State <$> (map_to_list (dp_rows (run_state s))).*2) = [StateCaptured; StateCaptured].
Proof. vm_compute. split_and!; reflexivity. Qed.

(** A void commits between the two halves of a sweep that chose its hold: the
    amount is given back twice, and 140.00 of 100.00 are held. *)
Definition sweep_race : list budget_event :=
  [BArrive (ask "d1" "60")] ++ steps 3 t0 ++ [BArrive (ask "d2" "40")] ++ steps 3 (t0 + Minute) ++
  [BArrive (BStore (PCall (PgVoid "org" "d1"))); BStep 0 Live (t0 + 899 * Second); BArrive BSweep; BStep 0 Live (t0 + 900 * Second)] ++
  repeat (BStep 1 Live (t0 + 901 * Second)) 3 ++ steps 2 (t0 + 902 * Second) ++ [BArrive (ask "d3" "100")] ++ steps 3 (t0 + 903 * Second).

(** A capture commits there: the ledger forgets 60.00 that were spent. *)
Definition sweep_race_captured : list budget_event :=
  [BArrive (ask "d1" "60")] ++ steps 3 t0 ++
  [BArrive (BStore (PCall (PgCapture "org" "d1"))); BStep 0 Live (t0 + 899 * Second); BArrive BSweep; BStep 0 Live (t0 + 900 * Second)] ++
  repeat (BStep 1 Live (t0 + 901 * Second)) 2 ++ steps 2 (t0 + 902 * Second) ++ [BArrive (ask "d3" "100")] ++ steps 3 (t0 + 903 * Second).

Example sweep_race_oversells :
  (day_state (run_state (played sweep_race)) = (14000, 10000) /\ run_overrun (played sweep_race) = [(day_key, 6000)]) /\
  (day_state (run_state (played sweep_race_captured)) = (10000, 10000) /\ run_hidden (played sweep_race_captured) = [(day_key, 6000)] /\
   run_overrun (played sweep_race_captured) = [(day_key, 6000)]).
Proof. vm_compute. split_and!; reflexivity. Qed.

Lemma ask_may_arrive' id amount c : toCents amount = Some c -> (0 <=? c) && (c <=? redis_cap) = true -> may_arrive (BArrive (ask id amount)).
Proof. intros Hc Hr. apply ask_may_arrive. intros c' Hc'. rewrite Hc in Hc'. injection Hc' as <-. breflect. lia. Qed.

Ltac arrivals := cbn [app repeat]; repeat (apply Forall_cons_iff; split; [first [exact I | by eapply ask_may_arrive' | constructor]|]); constructor.

Lemma sweep_race_history : history100 (played sweep_race).
Proof. apply budget_play_history; [unfold sweep_race, steps; arrivals | exact started_history]. Qed.

Lemma spending_day_history : history100 (played (spending_day ++ expiry)).
Proof. apply budget_play_history; [unfold spending_day, expiry, steps; arrivals | exact started_history]. Qed.

(** A day within its limit, and one that a race takes past it. *)
Lemma deployed_never_oversells_witness :
  (let s := played (spending_day ++ expiry) in run_overrun s = [] /\ active_spend day_key (dp_rows (run_state s)) + pend day_key (run_hidden s) <= 10000) /\
  (let s := played sweep_race in run_overrun s = [(day_key, 6000)] /\ active_spend day_key (dp_rows (run_state s)) = 14000 /\
     active_spend day_key (dp_rows (run_state s)) + pend day_key (run_hidden s) <= 10000 + 6000).
Proof.
  assert (Hgen : forall s, history100 s -> active_spend day_key (dp_rows (run_state s)) + pend day_key (run_hidden s) <= 10000 + pend day_key (run_overrun s)).
  { intros s Hs. pose proof (deployed_never_oversells micros (15 * Minute) (fun _ => 10000) lim100_ok _ _ _ Hs "org" "b1" "day" t0 eq_refl) as H.
    cbv zeta in H. rewrite day_key_text in H. exact (proj1 (proj2 H)). }
  split.
  - assert (Hx : run_overrun (played (spending_day ++ expiry)) = []) by (vm_compute; reflexivity). pose proof (Hgen _ spending_day_history) as H.
    cbv zeta. split; [exact Hx|]. rewrite Hx in H. exact H.
  - assert (Hx : run_overrun (played sweep_race) = [(day_key, 6000)]) by (vm_compute; reflexivity). pose proof (Hgen _ sweep_race_history) as H.
    cbv zeta. split; [exact Hx|]. split; [vm_compute; reflexivity|]. rewrite Hx, pend_one, String.eqb_refl in H. exact H.
Defined.

(** * The reconciler on a deployment of its own *)

Record alone := { al_clock : time; al_redis : redis; al_rows : Rows }.

#[local] Instance alone_runtime : Runtime alone := {| now w := (al_clock w, w); rand_Read n w := (repeat 0 n, w) |}.

Definition on_alone {A} (f : redis -> A * redis) : io alone A := fun w =>
  let '(a, r) := f (al_redis w) in (a, {| al_clock := al_clock w; al_redis := r; al_rows := al_rows w |}).

Definition alone_counter : Counter alone :=
  {| counter_Reserve key amount limit ttl sticky := on_alone (Redis_Reserve key amount limit ttl sticky);
     counter_Release key amount := on_alone (Redis_Release key amount);
     counter_Set key cents ttl := on_alone (Redis_Set key cents ttl);
     counter_Get key := on_alone (Redis_Get key) |}.

(** The reconciler makes no other call than the sweep. *)
Definition alone_holds : HoldStore alone :=
  let unused {A} : io alone (result hold_error A) := mret (Err (ErrStore "not called")) in
  {| store_Place _ := unused; store_Capture _ _ := unused; store_Void _ _ := unused; store_Get _ _ := unused;
     store_ExpireDue at_ n := fun w =>
       let '(out, t) := Pg_ExpireDue micros at_ (Z.to_nat n) (scan_of (al_rows w)) (al_rows w) in
       (Ok out, {| al_clock := al_clock w; al_redis := al_redis w; al_rows := t |});
     store_ListActiveByWindow _ _ _ := unused |}.

Definition alone_reconciler : Reconciler alone := NewReconciler alone_counter alone_holds 2.

#[local] Instance alone_live : LiveDeployment micros alone_reconciler al_rows al_redis (fun w => scan_of (al_rows w)).
Proof.
  split.
  - intros at_ n w. destruct (Pg_ExpireDue _ _ _ _ _) as [out t] eqn:E. eexists. cbn. rewrite E. done.
  - intros key amount w. cbn. unfold on_alone. destruct (Redis_Release key amount (al_redis w)). done.
  - done.
  - intros w. split; [apply scan_of_nodup|]. intros k [h Hk]. unfold scan_of. apply list_elem_of_fmap. exists (k, h). split; [done|]. by apply elem_of_map_to_list.
Defined.

#[local] Instance alone_rows_frame : Frame al_rows.
Proof. by split. Defined.
#[local] Instance alone_redis_frame : Frame al_redis.
Proof. by split. Defined.

(** Three holds of 20.00 that nobody settles. *)
Definition forgetting : list budget_event :=
  [BArrive (ask "d1" "20")] ++ steps 3 t0 ++ [BArrive (ask "d2" "20")] ++ steps 3 t0 ++ [BArrive (ask "d3" "20")] ++ steps 3 t0.
Definition forgotten : deployed := run_state (played forgetting).

Definition later : alone := {| al_clock := t0 + 16 * Minute; al_redis := dp_redis forgotten; al_rows := dp_rows forgotten |}.

Lemma forgotten_reachable : reachable budget_init (budget_step micros (15 * Minute) (fun _ => 10000)) forgotten.
Proof.
  eapply history_reachable; [apply (budget_play_history forgetting); [unfold forgetting, steps; arrivals | exact started_history] | vm_compute; reflexivity].
Qed.

Example two_ticks : day_state forgotten = (6000, 6000) /\
  (let w := (Reconciler_Run alone_reconciler 1 later).2 in (active_spend day_key (al_rows w), redis_val (al_redis w) day_key)) = (2000, 2000) /\
  (let w := (Reconciler_Run alone_reconciler 2 later).2 in (active_spend day_key (al_rows w), redis_val (al_redis w) day_key)) = (0, 0).
Proof. split; [vm_compute; reflexivity|]. split; vm_compute; reflexivity. Qed.

Lemma three_waiting : (size (waiting (reading micros later) (al_rows later)) <= 2 * 2)%nat.
Proof. apply Nat.leb_le. vm_compute. reflexivity. Qed.

Lemma later_shape : dp_redis forgotten = al_redis later /\ dp_rows forgotten = al_rows later /\ rs_up (al_redis later) = true.
Proof. unfold later. cbn [al_redis al_rows]. split; [exact eq_refl|]. split; [exact eq_refl|]. vm_compute. reflexivity. Qed.

Lemma reconciler_returns_budget_witness :
  waiting (reading micros later) (al_rows (Reconciler_Run alone_reconciler 2 later).2) = ∅.
Proof.
  pose proof forgotten_reachable as Hr. destruct later_shape as (Er & Et & Hup). pose proof three_waiting as Hn.
  destruct forgotten as [r t ths]. cbn [dp_redis dp_rows] in Er, Et. subst r t. revert Hr Hup Hn. generalize later. intros w Hr Hup Hn.
  exact (proj1 (reconciler_returns_budget micros alone_reconciler al_rows al_redis (fun w => scan_of (al_rows w)) (15 * Minute) (fun _ => 10000) lim100_ok
    w ths 2 Hr Hup Hn)).
Defined.
