(* ===== verification/RateLimit.v ===== *)
(** Per-key rate limiting ([internal/ratelimit]): a burst counter per second and
    a window counter per minute, in memory ([ratelimit.go]) and in Redis
    ([redis.go]).  Counts are integers without a width: a counter would need
    2^63 hits within one epoch to wrap. *)

From S2P Require Import Prelude GoStrings GoTime Counter.

Record Limits := { PerMinute : Z; PerSecond : Z }.

Definition ScopeWindow : string := "window".
Definition ScopeBurst : string := "burst".

Record Decision := {
  rl_Allowed : bool;
  rl_RetryAfter : duration;
  rl_Scope : string;
  rl_Limit : Z;
  rl_Remaining : Z
}.

Definition reject (retry : duration) (scope : string) (limit : Z) : Decision :=
  {| rl_Allowed := false; rl_RetryAfter := retry; rl_Scope := scope; rl_Limit := limit; rl_Remaining := 0 |}.
Definition allow (limit remaining : Z) : Decision :=
  {| rl_Allowed := true; rl_RetryAfter := 0; rl_Scope := ""; rl_Limit := limit; rl_Remaining := remaining |}.

Abbreviation TierTable := (gmap string Limits).

Definition DefaultTiers : TierTable :=
  {[ "default" := {| PerMinute := 60; PerSecond := 10 |};
     "pro" := {| PerMinute := 600; PerSecond := 50 |};
     "free" := {| PerMinute := 20; PerSecond := 5 |} ]}.

Definition Resolve (t : TierTable) (tier : string) : Limits :=
  match t !! tier with
  | Some l => l
  | None =>
    match t !! "default" with
    | Some l => l
    | None => {| PerMinute := 60; PerSecond := 10 |}
    end
  end.

(** Go's [%] on a possibly negative Unix time is the truncated remainder. *)
Definition retryAfterForMinute (now : time) : duration :=
  let rem := 60 - Z.rem (Unix now) 60 in
  (if rem <=? 0 then 1 else rem) * Second.

(** * In memory *)

Record counter := { ct_epoch : Z; ct_count : Z }.

Record MemLimiter := { ml_windows : gmap string counter; ml_bursts : gmap string counter }.

Definition NewMemLimiter : MemLimiter := {| ml_windows := ∅; ml_bursts := ∅ |}.

Definition hit (m : gmap string counter) (key : string) (epoch : Z) : Z * gmap string counter :=
  let c :=
    match m !! key with
    | Some c => if ct_epoch c =? epoch then c else {| ct_epoch := epoch; ct_count := 0 |}
    | None => {| ct_epoch := epoch; ct_count := 0 |}
    end in
  let c := {| ct_epoch := ct_epoch c; ct_count := ct_count c + 1 |} in
  (ct_count c, <[key := c]> m).

(** [now.Unix()/60] is Go's truncated division. *)
Definition unix_minute (now : time) : Z := Z.quot (Unix now) 60.

Definition allow_window (now : time) (keyID : string) (lim : Limits) (l : MemLimiter) : Decision * MemLimiter :=
  if 0 <? PerMinute lim then
    let '(n, w) := hit (ml_windows l) keyID (unix_minute now) in
    let l := {| ml_windows := w; ml_bursts := ml_bursts l |} in
    if PerMinute lim <? n then (reject (retryAfterForMinute now) ScopeWindow (PerMinute lim), l)
    else (allow (PerMinute lim) (PerMinute lim - n), l)
  else (allow 0 0, l).

Definition Allow (now : time) (keyID : string) (lim : Limits) (l : MemLimiter) : Decision * MemLimiter :=
  if 0 <? PerSecond lim then
    let '(n, b) := hit (ml_bursts l) keyID (Unix now) in
    let l := {| ml_windows := ml_windows l; ml_bursts := b |} in
    if PerSecond lim <? n then (reject Second ScopeBurst (PerSecond lim), l)
    else allow_window now keyID lim l
  else allow_window now keyID lim l.

(** * Redis *)

(** [incrExpireScript]; [ttl] is in seconds. *)
Definition incrExpireScript (key : string) (ttl : Z) (s : redis) : result string Z * redis :=
  let '(v, e) := match rget s key with Some p => p | None => (0, None) end in
  if negb (in_int64 (v + 1)) then (Err "increment or decrement would overflow", s)
  else
    let c := v + 1 in
    let e := if c =? 1 then Some (rs_now s + ttl * 1000) else e in
    (Ok c, set_keys (<[key := (c, e)]> (rs_keys s)) s).

Definition incr (key : string) (ttl : duration) (s : redis) : result string Z * redis :=
  if negb (rs_up s) then (Err "ratelimit: incr", s) else incrExpireScript key (whole_seconds ttl) s.

Definition sec_key (keyID : string) (sec : Z) : string := "rl:sec:" +:+ keyID +:+ ":" +:+ FormatInt sec.
Definition min_key (keyID : string) (min : Z) : string := "rl:min:" +:+ keyID +:+ ":" +:+ FormatInt min.

Definition Redis_allow_window (now : time) (keyID : string) (lim : Limits) (s : redis) : result string Decision * redis :=
  if 0 <? PerMinute lim then
    let '(r, s) := incr (min_key keyID (unix_minute now)) (61 * Second) s in
    match r with
    | Err e => (Err e, s)
    | Ok n =>
      if PerMinute lim <? n then (Ok (reject (retryAfterForMinute now) ScopeWindow (PerMinute lim)), s)
      else (Ok (allow (PerMinute lim) (PerMinute lim - n)), s)
    end
  else (Ok (allow 0 0), s).

Definition Redis_Allow (now : time) (keyID : string) (lim : Limits) (s : redis) : result string Decision * redis :=
  if 0 <? PerSecond lim then
    let '(r, s) := incr (sec_key keyID (Unix now)) (2 * Second) s in
    match r with
    | Err e => (Err e, s)
    | Ok n =>
      if PerSecond lim <? n then (Ok (reject Second ScopeBurst (PerSecond lim)), s)
      else Redis_allow_window now keyID lim s
    end
  else Redis_allow_window now keyID lim s.

(** * Traces of calls *)

Record call := { cl_now : time; cl_key : string; cl_lim : Limits }.

Fixpoint run_calls (cs : list call) (l : MemLimiter) : list Decision :=
  match cs with
  | [] => []
  | c :: cs => let '(d, l) := Allow (cl_now c) (cl_key c) (cl_lim c) l in d :: run_calls cs l
  end.

(** How many calls of a key are allowed in one epoch. *)
Definition allowed_in (epoch : time -> Z) (key : string) (s : Z) (cs : list call) (ds : list Decision) : Z :=
  sum_Z (zip_with (fun c d => if String.eqb (cl_key c) key && (epoch (cl_now c) =? s) && rl_Allowed d then 1 else 0) cs ds).

(** Calls in the order of the clock, from an instant on. *)
Fixpoint clock_ordered (t : time) (cs : list call) : Prop :=
  match cs with
  | [] => True
  | c :: cs => t <= cl_now c /\ clock_ordered (cl_now c) cs
  end.

(** * Lemmas *)

(** What a counter has already granted in an epoch. *)
Definition used (m : gmap string counter) (key : string) (s : Z) : Z :=
  match m !! key with Some c => if ct_epoch c =? s then ct_count c else 0 | None => 0 end.

Lemma hit_spec m key epoch :
  let '(n, m') := hit m key epoch in
  n = used m key epoch + 1 /\ used m' key epoch = n /\
  (forall s, s <> epoch -> used m' key s = 0) /\ (forall k s, k <> key -> used m' k s = used m k s).
Proof.
  unfold hit, used. destruct (m !! key) as [c|] eqn:E.
  - destruct (Z.eqb_spec (ct_epoch c) epoch) as [He|He]; cbn; split_and!; try done.
    + by rewrite lookup_insert_eq, He, Z.eqb_refl.
    + intros s Hs. rewrite lookup_insert_eq. cbn. rewrite (proj2 (Z.eqb_neq _ _)); [done|lia].
    + intros k s Hk. by rewrite lookup_insert_ne.
    + by rewrite lookup_insert_eq, Z.eqb_refl.
    + intros s Hs. rewrite lookup_insert_eq. cbn. rewrite (proj2 (Z.eqb_neq _ _)); [done|lia].
    + intros k s Hk. by rewrite lookup_insert_ne.
  - cbn. split_and!; try done.
    + by rewrite lookup_insert_eq, Z.eqb_refl.
    + intros s Hs. rewrite lookup_insert_eq. cbn. rewrite (proj2 (Z.eqb_neq _ _)); [done|lia].
    + intros k s Hk. by rewrite lookup_insert_ne.
Qed.

(** One call, as seen by the burst layer and by the window layer. *)
Lemma Allow_burst now key lim l :
  let '(d, l') := Allow now key lim l in
  if 0 <? PerSecond lim then
    used (ml_bursts l') key (Unix now) = used (ml_bursts l) key (Unix now) + 1 /\
    (forall s, s <> Unix now -> used (ml_bursts l') key s = 0) /\
    (forall k s, k <> key -> used (ml_bursts l') k s = used (ml_bursts l) k s) /\
    (rl_Allowed d = true -> used (ml_bursts l') key (Unix now) <= PerSecond lim)
  else ml_bursts l' = ml_bursts l.
Proof.
  assert (Hw : forall l, ml_bursts (allow_window now key lim l).2 = ml_bursts l).
  { intros l0. unfold allow_window. destruct (0 <? PerMinute lim); [|done].
    destruct (hit (ml_windows l0) key (unix_minute now)) as [n w]. by destruct (PerMinute lim <? n). }
  unfold Allow. destruct (0 <? PerSecond lim) eqn:E0.
  - pose proof (hit_spec (ml_bursts l) key (Unix now)) as Hh.
    destruct (hit (ml_bursts l) key (Unix now)) as [n b]. destruct Hh as (-> & Hu & Hs & Hk).
    destruct (Z.ltb_spec (PerSecond lim) (used (ml_bursts l) key (Unix now) + 1)) as [Hlt|Hle].
    + cbn. by split_and!.
    + pose proof (Hw {| ml_windows := ml_windows l; ml_bursts := b |}) as Hb.
      destruct (allow_window now key lim _) as [d l']. cbn [snd ml_bursts] in Hb. subst b. split_and!; try done. intros _. lia.
  - pose proof (Hw l) as Hb. by destruct (allow_window now key lim l) as [d l'].
Qed.

Lemma Allow_window now key lim l :
  let '(d, l') := Allow now key lim l in
  if 0 <? PerMinute lim then
    (ml_windows l' = ml_windows l /\ rl_Allowed d = false) \/
    (used (ml_windows l') key (unix_minute now) = used (ml_windows l) key (unix_minute now) + 1 /\
     (forall s, s <> unix_minute now -> used (ml_windows l') key s = 0) /\
     (forall k s, k <> key -> used (ml_windows l') k s = used (ml_windows l) k s) /\
     (rl_Allowed d = true -> used (ml_windows l') key (unix_minute now) <= PerMinute lim))
  else ml_windows l' = ml_windows l.
Proof.
  assert (Hw : forall l0,
    let '(d, l') := allow_window now key lim l0 in
    if 0 <? PerMinute lim then
      used (ml_windows l') key (unix_minute now) = used (ml_windows l0) key (unix_minute now) + 1 /\
      (forall s, s <> unix_minute now -> used (ml_windows l') key s = 0) /\
      (forall k s, k <> key -> used (ml_windows l') k s = used (ml_windows l0) k s) /\
      (rl_Allowed d = true -> used (ml_windows l') key (unix_minute now) <= PerMinute lim)
    else ml_windows l' = ml_windows l0).
  { intros l0. unfold allow_window. destruct (0 <? PerMinute lim) eqn:E0; [|done].
    pose proof (hit_spec (ml_windows l0) key (unix_minute now)) as Hh.
    destruct (hit (ml_windows l0) key (unix_minute now)) as [n w]. destruct Hh as (-> & Hu & Hs & Hk).
    destruct (Z.ltb_spec (PerMinute lim) (used (ml_windows l0) key (unix_minute now) + 1)); cbn; split_and!; try done. intros _. lia. }
  unfold Allow. destruct (0 <? PerSecond lim).
  - destruct (hit (ml_bursts l) key (Unix now)) as [n b]. destruct (PerSecond lim <? n).
    + destruct (0 <? PerMinute lim); [by left|done].
    + specialize (Hw {| ml_windows := ml_windows l; ml_bursts := b |}).
      destruct (allow_window now key lim _) as [d l']. destruct (0 <? PerMinute lim); [by right|done].
  - specialize (Hw l). destruct (allow_window now key lim l) as [d l']. destruct (0 <? PerMinute lim); [by right|done].
Qed.

Lemma allowed_in_cons epoch key s c cs d ds :
  allowed_in epoch key s (c :: cs) (d :: ds) =
  (if String.eqb (cl_key c) key && (epoch (cl_now c) =? s) && rl_Allowed d then 1 else 0) + allowed_in epoch key s cs ds.
Proof. done. Qed.

Lemma clock_ordered_later t t' cs : t' <= t -> clock_ordered t cs -> clock_ordered t' cs.
Proof. intros Ht. destruct cs as [|c cs]; [done|]. cbn. intros [H1 H2]. split; [lia|done]. Qed.

(** Nothing is granted in an epoch the clock has left. *)
Lemma allowed_in_past epoch key s cs l t :
  (forall a b, a <= b -> epoch a <= epoch b) -> clock_ordered t cs -> s < epoch t -> allowed_in epoch key s cs (run_calls cs l) = 0.
Proof.
  intros Hmono. revert t l. induction cs as [|c cs IH]; intros t l; [done|]. cbn [clock_ordered run_calls]. intros [Ht Hcs] Hs.
  destruct (Allow (cl_now c) (cl_key c) (cl_lim c) l) as [d l']. rewrite allowed_in_cons.
  pose proof (Hmono _ _ Ht). rewrite (IH (cl_now c)); [|done|lia].
  rewrite (proj2 (Z.eqb_neq (epoch (cl_now c)) s)) by lia. by rewrite andb_false_r.
Qed.

(** A layer of the limiter: the counters it keeps, the limit it applies, and
    what one call does to it. *)
Record layer := {
  ly_epoch : time -> Z;
  ly_counters : MemLimiter -> gmap string counter;
  ly_limit : Limits -> Z
}.

Definition layer_ok (y : layer) : Prop :=
  (forall a b, a <= b -> ly_epoch y a <= ly_epoch y b) /\
  forall now key lim l,
    let '(d, l') := Allow now key lim l in
    if 0 <? ly_limit y lim then
      (ly_counters y l' = ly_counters y l /\ rl_Allowed d = false) \/
      (used (ly_counters y l') key (ly_epoch y now) = used (ly_counters y l) key (ly_epoch y now) + 1 /\
       (forall s, s <> ly_epoch y now -> used (ly_counters y l') key s = 0) /\
       (forall k s, k <> key -> used (ly_counters y l') k s = used (ly_counters y l) k s) /\
       (rl_Allowed d = true -> used (ly_counters y l') key (ly_epoch y now) <= ly_limit y lim))
    else ly_counters y l' = ly_counters y l.

Definition burst_layer : layer := {| ly_epoch := Unix; ly_counters := ml_bursts; ly_limit := PerSecond |}.
Definition window_layer : layer := {| ly_epoch := unix_minute; ly_counters := ml_windows; ly_limit := PerMinute |}.

Lemma burst_layer_ok : layer_ok burst_layer.
Proof.
  split; cbn.
  - intros a b Hab. unfold Unix, nanos. zlia.
  - intros now key lim l. pose proof (Allow_burst now key lim l) as H. destruct (Allow now key lim l) as [d l'].
    destruct (0 <? PerSecond lim); [by right|done].
Qed.

Lemma window_layer_ok : layer_ok window_layer.
Proof.
  split; cbn.
  - intros a b Hab. unfold unix_minute, Unix, nanos. apply Z.quot_le_mono; zlia.
  - intros now key lim l. apply Allow_window.
Qed.

Lemma layer_other y now key lim l k s :
  layer_ok y -> k <> key -> used (ly_counters y (Allow now key lim l).2) k s = used (ly_counters y l) k s.
Proof.
  intros [_ Hl] Hk. specialize (Hl now key lim l). destruct (Allow now key lim l) as [d l']. cbn.
  destruct (0 <? ly_limit y lim); [|by rewrite Hl]. destruct Hl as [[-> _]|(_ & _ & Hkk & _)]; [done | by apply Hkk].
Qed.

(** The counters of a state hold nothing for epochs after the clock's. *)
Definition not_ahead (y : layer) (key : string) (t : time) (l : MemLimiter) : Prop :=
  forall s, 0 <= used (ly_counters y l) key s /\ (ly_epoch y t < s -> used (ly_counters y l) key s = 0).

(** The calls from here on can be granted only what the counter has left. *)
Lemma layer_bound y key lim cs l t :
  layer_ok y -> clock_ordered t cs -> 0 < ly_limit y lim ->
  Forall (fun c => cl_key c = key -> cl_lim c = lim) cs -> not_ahead y key t l ->
  forall s, allowed_in (ly_epoch y) key s cs (run_calls cs l) <=
            ly_limit y lim - Z.min (ly_limit y lim) (used (ly_counters y l) key s).
Proof.
  intros Hy Hord HL Hlim. revert l t Hord. induction cs as [|c cs IH]; intros l t Hord Hu s.
  { cbn. unfold allowed_in. cbn. lia. }
  apply Forall_cons_iff in Hlim as [Hc Hlim]. cbn in Hord. destruct Hord as [Ht Hord].
  cbn [run_calls]. pose proof Hy as [Hmono Hstep]. specialize (Hstep (cl_now c) (cl_key c) (cl_lim c) l).
  pose proof (layer_other y (cl_now c) (cl_key c) (cl_lim c) l key) as Hother. pose proof (Hmono _ _ Ht) as Het.
  destruct (Allow (cl_now c) (cl_key c) (cl_lim c) l) as [d l'] eqn:EA. rewrite allowed_in_cons. cbn [snd] in Hother.
  assert (Hu1 : not_ahead y key (cl_now c) l) by (intros s'; destruct (Hu s'); split; [done|]; intros; auto with lia).
  destruct (String.eqb_spec (cl_key c) key) as [Hk|Hk]; cbn [andb].
  - rewrite Hk in *. rewrite (Hc eq_refl) in *. rewrite (proj2 (Z.ltb_lt _ _) HL) in Hstep.
    destruct Hstep as [[Hsame Hd]|(Hn & Hz & _ & Hd)].
    + rewrite Hd, andb_false_r. rewrite <- Hsame. rewrite Z.add_0_l. apply (IH Hlim l' (cl_now c)); [done|].
      unfold not_ahead. by rewrite Hsame.
    + destruct (Hu (ly_epoch y (cl_now c))) as [Hu0 _]. destruct (Hu s) as [Hus Hfut].
      assert (Hu' : not_ahead y key (cl_now c) l').
      { intros s'. destruct (decide (s' = ly_epoch y (cl_now c))) as [->|Hne]; [|by rewrite Hz]. split; lia. }
      pose proof (IH Hlim l' (cl_now c) Hord Hu' s) as Hrest.
      destruct (Z.eqb_spec (ly_epoch y (cl_now c)) s) as [Hs|Hs]; cbn [andb].
      * subst s. rewrite Hn in *. destruct (rl_Allowed d); [specialize (Hd eq_refl)|]; lia.
      * rewrite Hz in Hrest by congruence. destruct (Z.lt_ge_cases s (ly_epoch y (cl_now c))) as [Hlt|Hge].
        -- rewrite (allowed_in_past _ _ _ _ _ (cl_now c)) by done. lia.
        -- rewrite Hfut by lia. lia.
  - rewrite Z.add_0_l. rewrite <- (Hother s) by done. apply (IH Hlim l' (cl_now c)); [done|].
    intros s'. rewrite Hother by done. apply Hu1.
Qed.

(** * Properties *)

(** C33: The limits hold.  Over any sequence of calls in clock order from a fresh
    limiter, interleaved with any other keys, a key is allowed at most its
    per-second limit in any second and at most its per-minute limit in any
    minute. *)
Theorem rate_limit_bound key lim t cs
  (Hord : clock_ordered t cs) (Hlim : Forall (fun c => cl_key c = key -> cl_lim c = lim) cs) :
  (0 < PerSecond lim -> forall s, allowed_in Unix key s cs (run_calls cs NewMemLimiter) <= PerSecond lim) /\
  (0 < PerMinute lim -> forall m, allowed_in unix_minute key m cs (run_calls cs NewMemLimiter) <= PerMinute lim).
Proof.
  split; intros HL s.
  - pose proof (layer_bound burst_layer key lim cs NewMemLimiter t burst_layer_ok Hord HL Hlim ltac:(done) s) as H.
    change (used (ly_counters burst_layer NewMemLimiter) key s) with 0 in H. cbn in H. lia.
  - pose proof (layer_bound window_layer key lim cs NewMemLimiter t window_layer_ok Hord HL Hlim ltac:(done) s) as H.
    change (used (ly_counters window_layer NewMemLimiter) key s) with 0 in H. cbn in H. lia.
Qed.

(** The limiter after [k] calls at one instant. *)
Definition granted (key : string) (lim : Limits) (now : time) (k : Z) (l : MemLimiter) : Prop :=
  (0 < PerSecond lim -> used (ml_bursts l) key (Unix now) = k) /\
  (0 < PerMinute lim ->
     used (ml_windows l) key (unix_minute now) = if 0 <? PerSecond lim then Z.min k (PerSecond lim) else k).

(** What the [k]-th call at one instant must be answered. *)
Definition answered (lim : Limits) (now : time) (k : Z) (d : Decision) : Prop :=
  rl_Allowed d = (if 0 <? PerSecond lim then k <=? PerSecond lim else true) &&
                 (if 0 <? PerMinute lim then k <=? PerMinute lim else true) /\
  (rl_Allowed d = false ->
     (rl_Scope d = ScopeBurst /\ rl_RetryAfter d = Second /\ rl_Limit d = PerSecond lim) \/
     (rl_Scope d = ScopeWindow /\ rl_RetryAfter d = retryAfterForMinute now /\ rl_Limit d = PerMinute lim)).

Lemma Allow_window_answered key lim now k l :
  0 <= k -> (0 < PerSecond lim -> k < PerSecond lim) ->
  (0 < PerMinute lim -> used (ml_windows l) key (unix_minute now) = k) ->
  let '(d, l') := allow_window now key lim l in
  ml_bursts l' = ml_bursts l /\ answered lim now (k + 1) d /\
  (0 < PerMinute lim -> used (ml_windows l') key (unix_minute now) = k + 1).
Proof.
  intros Hk Hs Hw. unfold allow_window, answered.
  assert (Hsec : (if 0 <? PerSecond lim then k + 1 <=? PerSecond lim else true) = true)
    by (destruct (Z.ltb_spec 0 (PerSecond lim)); [apply Z.leb_le; auto with lia|done]).
  rewrite Hsec. destruct (Z.ltb_spec 0 (PerMinute lim)) as [Hp|Hp]; [|split; [done|split; [by split|lia]]].
  specialize (Hw Hp). pose proof (hit_spec (ml_windows l) key (unix_minute now)) as Hh.
  destruct (hit (ml_windows l) key (unix_minute now)) as [m w]. destruct Hh as (-> & Hu & _). rewrite Hw in *.
  destruct (Z.ltb_spec (PerMinute lim) (k + 1)); cbn; split_and!; try done.
  - symmetry. apply Z.leb_gt. lia.
  - auto.
  - symmetry. apply Z.leb_le. lia.
Qed.

Lemma Allow_answered key lim now k l :
  0 <= k -> granted key lim now k l ->
  let '(d, l') := Allow now key lim l in answered lim now (k + 1) d /\ granted key lim now (k + 1) l'.
Proof.
  intros Hk [Hb Hw]. unfold Allow. destruct (Z.ltb_spec 0 (PerSecond lim)) as [Hs|Hs].
  - specialize (Hb Hs). pose proof (hit_spec (ml_bursts l) key (Unix now)) as Hh.
    destruct (hit (ml_bursts l) key (Unix now)) as [m b]. destruct Hh as (-> & Hu & _). rewrite Hb in *.
    destruct (Z.ltb_spec (PerSecond lim) (k + 1)) as [Hgt|Hle].
    + unfold answered, granted. cbn. rewrite (proj2 (Z.ltb_lt _ _) Hs), (proj2 (Z.leb_gt (k + 1) _)) by lia.
      split; [split; [done|auto]|]. split; [done|]. intros Hp. rewrite (Hw Hp). lia.
    + pose proof (Allow_window_answered key lim now k {| ml_windows := ml_windows l; ml_bursts := b |} Hk ltac:(lia)) as Ha.
      cbn [ml_windows] in Ha. specialize (Ha ltac:(intros Hp; rewrite (Hw Hp); lia)).
      destruct (allow_window now key lim _) as [d l']. destruct Ha as (Hb' & Ha & Hw'). split; [done|]. split.
      * intros _. rewrite Hb'. exact Hu.
      * intros Hp. rewrite (Hw' Hp), (proj2 (Z.ltb_lt _ _) Hs). lia.
  - pose proof (Allow_window_answered key lim now k l Hk ltac:(lia)) as Ha.
    specialize (Ha Hw).
    destruct (allow_window now key lim _) as [d l']. destruct Ha as (Hb' & Ha & Hw'). split; [done|]. split; [lia|].
    by rewrite (proj2 (Z.ltb_ge _ _) Hs).
Qed.

Lemma run_answered key lim now n : forall k l, 0 <= k -> granted key lim now k l ->
  forall i d, run_calls (repeat {| cl_now := now; cl_key := key; cl_lim := lim |} n) l !! i = Some d ->
  answered lim now (k + Z.of_nat i + 1) d.
Proof.
  induction n as [|n IH]; intros k l Hk Hg i d; [done|]. cbn [repeat run_calls cl_now cl_key cl_lim].
  pose proof (Allow_answered key lim now k l Hk Hg) as Ha. destruct (Allow now key lim l) as [d0 l']. destruct Ha as [Ha Hg'].
  destruct i as [|i]; cbn [lookup list_lookup].
  - intros [= <-]. by rewrite Z.add_0_r.
  - intros Hd. specialize (IH (k + 1) l' ltac:(lia) Hg' i d Hd). by replace (k + Z.of_nat (S i) + 1) with (k + 1 + Z.of_nat i + 1) by lia.
Qed.

(** No spurious rejection.  From a limiter that holds nothing for the key in
    the current second and minute, the [k]-th of any number of calls at one
    instant is allowed exactly when [k] is within the limits that are enabled; a
    rejection names the layer and its limit, with one second to wait, or the
    rest of the minute. *)
Theorem rate_limit_exact key lim now l n
  (Hb : used (ml_bursts l) key (Unix now) = 0) (Hw : used (ml_windows l) key (unix_minute now) = 0)
  i d (Hd : run_calls (repeat {| cl_now := now; cl_key := key; cl_lim := lim |} n) l !! i = Some d) :
  let k := Z.of_nat i + 1 in
  rl_Allowed d = (if 0 <? PerSecond lim then k <=? PerSecond lim else true) &&
                 (if 0 <? PerMinute lim then k <=? PerMinute lim else true) /\
  (rl_Allowed d = false ->
     (rl_Scope d = ScopeBurst /\ rl_RetryAfter d = Second /\ rl_Limit d = PerSecond lim) \/
     (rl_Scope d = ScopeWindow /\ rl_RetryAfter d = retryAfterForMinute now /\ rl_Limit d = PerMinute lim)).
Proof.
  apply (run_answered key lim now n 0 l) in Hd; [by rewrite Z.add_0_l in Hd|done|].
  split; intros _; [done|]. rewrite Hw. destruct (Z.ltb_spec 0 (PerSecond lim)); lia.
Qed.

(** A rejected caller is told to wait a positive time of at most a minute,
    and after it the window has rolled over. *)
Theorem retryAfter_rolls_over now (Hnow : 0 <= now) :
  0 < retryAfterForMinute now <= 60 * Second /\
  unix_minute now < unix_minute (Add now (retryAfterForMinute now)) .
Proof.
  unfold retryAfterForMinute, unix_minute, Unix, Add, Second, nanos in *.
  rewrite Z.rem_mod_nonneg by zlia.
  destruct (Z.leb_spec (60 - (now / 1000000000) mod 60) 0); [zlia|].
  rewrite !Z.quot_div_nonneg by zlia. zlia.
Qed.

(** * Redis refines memory *)

(** Text after the last colon determines the rest. *)
Lemma last_colon a b x y :
  no_char ":" x = true -> no_char ":" y = true -> a +:+ String ":" x = b +:+ String ":" y -> a = b /\ x = y.
Proof.
  intros Hx Hy. revert b. induction a as [|c a IH]; intros [|d b]; rewrite ?str_app_nil, ?str_app_cons; intros H.
  - by injection H as ->.
  - injection H as <- H. subst x. unfold no_char in Hx. rewrite str_all_app in Hx. cbn in Hx. by rewrite andb_false_r in Hx.
  - injection H as -> H. subst y. unfold no_char in Hy. rewrite str_all_app in Hy. cbn in Hy. by rewrite andb_false_r in Hy.
  - injection H as -> H. by destruct (IH b H) as [-> ->].
Qed.

Lemma FormatInt_nonneg z : 0 <= z -> FormatInt z = fmt_nat z.
Proof. intros Hz. unfold FormatInt. by destruct (Z.ltb_spec z 0); [lia|]. Qed.

Definition key_fn_ok (mk : string -> Z -> string) : Prop :=
  forall k e k' e', 0 <= e -> 0 <= e' -> mk k e = mk k' e' -> k = k' /\ e = e'.

Lemma suffixed_key_ok p : key_fn_ok (fun k e => p +:+ k +:+ ":" +:+ FormatInt e).
Proof.
  intros k e k' e' He He' H. rewrite !FormatInt_nonneg in H by done.
  assert (Hn : forall z, 0 <= z -> no_char ":" (fmt_nat z) = true) by (intros z Hz; by apply digits_no_char, fmt_nat_digits).
  assert (Hc : (p +:+ k) +:+ String ":" (fmt_nat e) = (p +:+ k') +:+ String ":" (fmt_nat e')) by (rewrite <- !str_app_assoc; exact H).
  apply last_colon in Hc as [Hk Hf]; [|by apply Hn..]. split.
  - clear -Hk. induction p as [|c p IH]; [done|]. rewrite !str_app_cons in Hk. injection Hk as Hk. by apply IH.
  - by apply fmt_nat_inj.
Qed.

(** The in-memory counters against the keys of Redis: the current epoch has the
    in-memory count, alive to the epoch's end, or no key at all; later epochs
    have no key.  [n] bounds the counts. *)
Definition agrees (mk : string -> Z -> string) (len n : Z) (m : gmap string counter) (e : Z) (s : redis) : Prop :=
  forall key,
    (forall ep, e < ep -> rs_keys s !! mk key ep = None) /\
    match m !! key with
    | Some c =>
      ct_epoch c <= e /\
      if ct_epoch c =? e
      then exists x, rs_keys s !! mk key e = Some (ct_count c, Some x) /\ len * (e + 1) * 1000 <= x /\ 1 <= ct_count c <= n
      else rs_keys s !! mk key e = None
    | None => rs_keys s !! mk key e = None
    end.

Lemma agrees_later mk len n m e e' s : e <= e' -> agrees mk len n m e s -> agrees mk len n m e' s.
Proof.
  intros He Ha key. destruct (Ha key) as [Hf Hk]. destruct (decide (e = e')) as [<-|Hne]; [by split|].
  split; [intros ep Hep; apply Hf; lia|]. pose proof (Hf e' ltac:(lia)) as Hn.
  destruct (m !! key) as [c|]; [|done]. destruct Hk as [Hce _]. split; [lia|].
  by rewrite (proj2 (Z.eqb_neq _ _)) by lia.
Qed.

(** Keys outside the layer's may change. *)
Lemma agrees_frame mk len n m e s s' :
  (forall k ep, rs_keys s' !! mk k ep = rs_keys s !! mk k ep) -> agrees mk len n m e s -> agrees mk len n m e s'.
Proof. intros Hk Ha key. destruct (Ha key) as [Hf Hc]. split; [intros ep Hep; rewrite Hk; auto|]. by rewrite Hk. Qed.

Lemma agrees_weaken mk len n n' m e s : n <= n' -> agrees mk len n m e s -> agrees mk len n' m e s.
Proof.
  intros Hn Ha key. destruct (Ha key) as [Hf Hk]. split; [done|]. destruct (m !! key) as [c|]; [|done].
  destruct Hk as [Hce Hk]. split; [done|]. destruct (ct_epoch c =? e); [|done].
  destruct Hk as (x & Hx & Hl & Hc). exists x. split_and!; try done; lia.
Qed.

(** What Redis serves for the current epoch. *)
Lemma agrees_rget mk len n m key e s :
  agrees mk len n m e s -> rs_now s < len * (e + 1) * 1000 -> 0 <= n ->
  exists x, 0 <= used m key e <= n /\
    rget s (mk key e) = (if used m key e =? 0 then None else Some (used m key e, Some x)) /\
    (used m key e <> 0 -> len * (e + 1) * 1000 <= x).
Proof.
  intros Ha Hnow Hn. destruct (Ha key) as [_ Hk]. unfold used, rget.
  destruct (m !! key) as [c|]; [|exists 0; rewrite Hk; by split_and!].
  destruct Hk as [Hce Hk]. destruct (ct_epoch c =? e); [|exists 0; rewrite Hk; by split_and!].
  destruct Hk as (x & Hx & Hl & Hc). exists x. rewrite Hx. unfold expired.
  rewrite (proj2 (Z.leb_gt _ _)), (proj2 (Z.eqb_neq _ _)) by lia. split_and!; try done; lia.
Qed.

(** One increment of Redis is one [hit] in memory. *)
Lemma incr_hit mk len n m key e ttl s :
  key_fn_ok mk -> agrees mk len n m e s -> rs_up s = true -> 0 <= e -> 0 <= n < max_int64 ->
  rs_now s < len * (e + 1) * 1000 -> len * (e + 1) * 1000 <= rs_now s + whole_seconds ttl * 1000 ->
  let '(c, m') := hit m key e in
  exists s', incr (mk key e) ttl s = (Ok c, s') /\ agrees mk len (n + 1) m' e s' /\ rs_up s' = true /\ rs_now s' = rs_now s /\
    (forall k, k <> mk key e -> rs_keys s' !! k = rs_keys s !! k).
Proof.
  intros Hmk Ha Hup He Hn Hnow Httl.
  destruct (agrees_rget mk len n m key e s Ha Hnow ltac:(lia)) as (x & Hu & Hr & Hx).
  pose proof (hit_spec m key e) as Hh. destruct (hit m key e) as [c m'] eqn:Ehit. destruct Hh as (-> & Hu' & Hz & Hoth).
  unfold incr, incrExpireScript. rewrite Hup, Hr. cbn [negb].
  set (u := used m key e) in *. set (e0 := if u =? 0 then None else Some x).
  assert (match (if u =? 0 then None else Some (u, Some x)) with Some p => p | None => (0, None) end = (u, e0)) as ->
    by (unfold e0; destruct (Z.eqb_spec u 0) as [->|]; done).
  assert (in_int64 (u + 1) = true) as -> by (unfold_int64; lia). cbn [negb].
  eexists. split; [done|]. unfold set_keys. cbn [rs_up rs_now rs_keys]. split; [|split; [done|split; [done|]]].
  - assert (m' = <[key := {| ct_epoch := e; ct_count := u + 1 |}]> m) as ->.
    { unfold hit in Ehit. injection Ehit as _ <-. f_equal. unfold u, used. destruct (m !! key) as [c|]; [|done].
      by destruct (Z.eqb_spec (ct_epoch c) e) as [<-|]. }
    intros k. destruct (Ha k) as [Hf Hk]. unfold set_keys. cbn [rs_keys]. split.
    + intros ep Hep. rewrite lookup_insert_ne by (intros H; apply Hmk in H as [_ ->]; lia). by apply Hf.
    + destruct (decide (k = key)) as [->|Hne].
      * rewrite !lookup_insert_eq. cbn [ct_epoch ct_count]. split; [done|]. rewrite Z.eqb_refl.
        exists (if u =? 0 then rs_now s + whole_seconds ttl * 1000 else x). unfold e0.
        destruct (Z.eqb_spec u 0) as [Hu0|Hu0].
        -- rewrite Hu0. cbn. split_and!; [done|lia..].
        -- rewrite (proj2 (Z.eqb_neq (u + 1) 1)) by lia. split_and!; [done|auto|lia..].
      * rewrite !lookup_insert_ne by first [done | intros H; apply Hmk in H as [-> _]; [done|lia..]].
        destruct (m !! k) as [c|]; [|done]. destruct Hk as [Hce Hk]. split; [done|]. destruct (ct_epoch c =? e); [|done].
        destruct Hk as (x' & Hx' & Hl & Hc). exists x'. split_and!; try done; lia.
  - intros k Hk. by apply lookup_insert_ne.
Qed.

(** The same call on both sides, with the server's clock set to the caller's. *)
Definition at_clock (now : time) (s : redis) : redis :=
  {| rs_keys := rs_keys s; rs_now := now / 1000000; rs_up := rs_up s |}.

Fixpoint run_redis (cs : list call) (s : redis) : list (result string Decision) :=
  match cs with
  | [] => []
  | c :: cs =>
    let '(d, s) := Redis_Allow (cl_now c) (cl_key c) (cl_lim c) (at_clock (cl_now c) s) in
    d :: run_redis cs s
  end.

Definition simulates (n : Z) (now : time) (l : MemLimiter) (s : redis) : Prop :=
  rs_up s = true /\ agrees sec_key 1 n (ml_bursts l) (Unix now) s /\ agrees min_key 60 n (ml_windows l) (unix_minute now) s.

Lemma sec_key_ok : key_fn_ok sec_key.
Proof. apply (suffixed_key_ok "rl:sec:"). Qed.
Lemma min_key_ok : key_fn_ok min_key.
Proof. apply (suffixed_key_ok "rl:min:"). Qed.

Lemma window_simulates n now key lim l s :
  0 <= now -> 0 <= n < max_int64 -> simulates n now l s -> rs_now s = now / 1000000 ->
  let '(d, l') := allow_window now key lim l in
  exists s', Redis_allow_window now key lim s = (Ok d, s') /\ simulates (n + 1) now l' s'.
Proof.
  intros Hnow Hn (Hup & Hs & Hm) Hclk. unfold allow_window, Redis_allow_window.
  destruct (0 <? PerMinute lim).
  - assert (Hmin : unix_minute now = now / 1000000000 / 60) by (unfold unix_minute, Unix, nanos; apply Z.quot_div_nonneg; zlia).
    pose proof (incr_hit min_key 60 n (ml_windows l) key (unix_minute now) (61 * Second) s min_key_ok Hm Hup) as H.
    rewrite Hclk, Hmin in H. change (whole_seconds (61 * Second)) with 61 in H.
    specialize (H ltac:(zlia) Hn ltac:(zlia) ltac:(zlia)). rewrite <- Hmin in H.
    destruct (hit (ml_windows l) key (unix_minute now)) as [c w]. destruct H as (s' & -> & Ha' & Hup' & _ & Hfr).
    assert (Hsim : simulates (n + 1) now {| ml_windows := w; ml_bursts := ml_bursts l |} s').
    { split; [done|]. split; [|done]. apply (agrees_weaken _ _ n); [lia|]. eapply agrees_frame; [|exact Hs].
      intros k ep. apply Hfr. unfold sec_key, min_key. discriminate. }
    destruct (PerMinute lim <? c); by exists s'.
  - exists s. split; [done|]. split; [done|]. split; by apply (agrees_weaken _ _ n); [lia|].
Qed.

Lemma Allow_simulates n now key lim l s :
  0 <= now -> 0 <= n -> n + 1 < max_int64 -> simulates n now l s -> rs_now s = now / 1000000 ->
  let '(d, l') := Allow now key lim l in
  exists s', Redis_Allow now key lim s = (Ok d, s') /\ simulates (n + 2) now l' s'.
Proof.
  intros Hnow Hn Hn' Hsim Hclk. unfold Allow, Redis_Allow. destruct (0 <? PerSecond lim).
  - destruct Hsim as (Hup & Hs & Hm). pose proof (incr_hit sec_key 1 n (ml_bursts l) key (Unix now) (2 * Second) s sec_key_ok Hs Hup) as H.
    unfold Unix, nanos in *. rewrite Hclk in H. change (whole_seconds (2 * Second)) with 2 in H.
    specialize (H ltac:(zlia) ltac:(lia) ltac:(zlia) ltac:(zlia)).
    destruct (hit (ml_bursts l) key (now / 1000000000)) as [c b]. destruct H as (s' & -> & Ha' & Hup' & Hclk' & Hfr).
    assert (Hsim : simulates (n + 1) now {| ml_windows := ml_windows l; ml_bursts := b |} s').
    { split; [done|]. split; [done|]. apply (agrees_weaken _ _ n); [lia|]. eapply agrees_frame; [|exact Hm].
      intros k ep. apply Hfr. unfold sec_key, min_key. discriminate. }
    destruct (PerSecond lim <? c).
    + exists s'. split; [done|]. destruct Hsim as (? & ? & ?). split; [done|]. split; by apply (agrees_weaken _ _ (n + 1)); [lia|].
    + pose proof (window_simulates (n + 1) now key lim _ s' Hnow ltac:(lia) Hsim ltac:(congruence)) as Hw.
      replace (n + 2) with (n + 1 + 1) by lia. exact Hw.
  - pose proof (window_simulates n now key lim l s Hnow ltac:(lia) Hsim Hclk) as Hw.
    destruct (allow_window now key lim l) as [d l']. destruct Hw as (s' & -> & Hsim'). exists s'. split; [done|].
    destruct Hsim' as (? & ? & ?). split; [done|]. split; by apply (agrees_weaken _ _ (n + 1)); [lia|].
Qed.

Lemma run_simulates cs : forall t0 s l n,
  0 <= t0 -> clock_ordered t0 cs -> 0 <= n -> n + 2 * Z.of_nat (length cs) < max_int64 -> simulates n t0 l s ->
  run_redis cs s = Ok <$> run_calls cs l.
Proof.
  induction cs as [|c cs IH]; intros t0 s l n Ht Hord Hz Hn (Hup & Hs & Hm); [done|]. cbn [run_redis run_calls].
  cbn [clock_ordered length] in *. destruct Hord as [Hle Hord].
  assert (Hsim : simulates n (cl_now c) l (at_clock (cl_now c) s)).
  { split; [done|]. split.
    - eapply agrees_frame; [done|]. eapply agrees_later; [|exact Hs]. by apply burst_layer_ok.
    - eapply agrees_frame; [done|]. eapply agrees_later; [|exact Hm]. by apply window_layer_ok. }
  pose proof (Allow_simulates n (cl_now c) (cl_key c) (cl_lim c) l _ ltac:(lia) Hz ltac:(lia) Hsim eq_refl) as Ha.
  destruct (Allow (cl_now c) (cl_key c) (cl_lim c) l) as [d l']. destruct Ha as (s' & -> & Hsim').
  cbn. f_equal. apply (IH (cl_now c) s' l' (n + 2)); try done; lia.
Qed.

(** C29: The Redis limiter is the in-memory one.  With a server that answers and
    shares the callers' clock, any sequence of calls in clock order gets from
    Redis the decisions the in-memory limiter gives: the counters are per
    second and per minute keys that expire only after their epoch, and no two
    keys collide. *)
Theorem redis_limiter_refines_memory cs t0
  (Ht : 0 <= t0) (Hord : clock_ordered t0 cs) (Hlen : 2 * Z.of_nat (length cs) < max_int64) :
  run_redis cs {| rs_keys := ∅; rs_now := 0; rs_up := true |} = Ok <$> run_calls cs NewMemLimiter.
Proof.
  apply (run_simulates cs t0 _ _ 0); done.
Qed.

(** * Witnesses *)

Definition lim2 : Limits := {| PerMinute := 3; PerSecond := 2 |}.
Definition call_at (ms : Z) (k : string) : call := {| cl_now := ms * 1000000; cl_key := k; cl_lim := lim2 |}.
Definition sample_calls : list call :=
  [call_at 0 "a"; call_at 10 "b"; call_at 20 "a"; call_at 30 "a"; call_at 1000 "a"; call_at 1500 "a"; call_at 61000 "a"].

Example sample_decisions :
  rl_Allowed <$> run_calls sample_calls NewMemLimiter = [true; true; true; false; true; false; true].
Proof. vm_compute. reflexivity. Qed.

Lemma sample_ordered : clock_ordered 0 sample_calls.
Proof. repeat (split; [by vm_compute|]). exact I. Qed.

Lemma rate_limit_bound_witness : allowed_in Unix "a" 0 sample_calls (run_calls sample_calls NewMemLimiter) <= PerSecond lim2.
Proof.
  exact (proj1 (rate_limit_bound "a" lim2 0 sample_calls sample_ordered ltac:(repeat constructor)) eq_refl 0).
Defined.

Lemma rate_limit_exact_witness :
  run_calls (repeat (call_at 0 "a") 3) NewMemLimiter !! 2%nat = Some (reject Second ScopeBurst 2) /\
  rl_Allowed (reject Second ScopeBurst 2) = ((3 <=? 2) && (3 <=? 3)).
Proof.
  assert (E : run_calls (repeat (call_at 0 "a") 3) NewMemLimiter !! 2%nat = Some (reject Second ScopeBurst 2))
    by (vm_compute; reflexivity).
  split; [exact E|].
  exact (proj1 (rate_limit_exact "a" lim2 (0 * 1000000) NewMemLimiter 3 ltac:(by vm_compute) ltac:(by vm_compute) 2%nat _ E)).
Defined.

Lemma redis_limiter_refines_memory_witness :
  run_redis sample_calls {| rs_keys := ∅; rs_now := 0; rs_up := true |} = Ok <$> run_calls sample_calls NewMemLimiter.
Proof. apply (redis_limiter_refines_memory sample_calls 0); [lia | exact sample_ordered | by vm_compute]. Defined.
