(* ===== verification/Sha2.v ===== *)
(** SHA-256 (FIPS 180-4), the standard library's [crypto/sha256.Sum256], on
    32-bit words kept as [Z]: an executable instance of the class the models of
    signing and authentication take. *)

From S2P Require Import Prelude GoStrings Signing.

Definition mask32 : Z := 4294967295.
Definition add32 (a b : Z) : Z := Z.land (a + b) mask32.
Definition rotr (n x : Z) : Z := Z.lor (Z.shiftr x n) (Z.land (Z.shiftl x (32 - n)) mask32).

Definition round_constants : list Z :=
  [
    1116352408; 1899447441; 3049323471; 3921009573; 961987163; 1508970993; 2453635748; 2870763221;
    3624381080; 310598401; 607225278; 1426881987; 1925078388; 2162078206; 2614888103; 3248222580; 3835390401;
    4022224774; 264347078; 604807628; 770255983; 1249150122; 1555081692; 1996064986; 2554220882; 2821834349;
    2952996808; 3210313671; 3336571891; 3584528711; 113926993; 338241895; 666307205; 773529912; 1294757372;
    1396182291; 1695183700; 1986661051; 2177026350; 2456956037; 2730485921; 2820302411; 3259730800;
    3345764771; 3516065817; 3600352804; 4094571909; 275423344; 430227734; 506948616; 659060556; 883997877;
    958139571; 1322822218; 1537002063; 1747873779; 1955562222; 2024104815; 2227730452; 2361852424;
    2428436474; 2756734187; 3204031479; 3329325298 ].

Definition initial_hash : list Z :=
  [
    1779033703; 3144134277; 1013904242; 2773480762; 1359893119; 2600822924; 528734635; 1541459225 ].

Fixpoint byte_list (s : string) : list Z :=
  match s with EmptyString => [] | String c s => byte_val c :: byte_list s end.

Definition of_bytes (l : list Z) : string := foldr (fun z s => String (chr z) s) EmptyString l.

(** The message, a one bit, zeros up to 56 mod 64, and the bit length. *)
Definition padded (l : list Z) : list Z :=
  let n := Z.of_nat (length l) in
  l ++ [128] ++ repeat 0 (Z.to_nat ((55 - n) mod 64)) ++
  ((fun i => Z.land (Z.shiftr (8 * n) (8 * i)) 255) <$> [7; 6; 5; 4; 3; 2; 1; 0]).

Fixpoint words (l : list Z) : list Z :=
  match l with
  | a :: b :: c :: d :: r => (((a * 256 + b) * 256 + c) * 256 + d) :: words r
  | _ => []
  end.

(** The next word of the schedule from the last sixteen, latest first. *)
Definition next_word (w : list Z) : Z :=
  let w2 := nth 1 w 0 in let w7 := nth 6 w 0 in let w15 := nth 14 w 0 in let w16 := nth 15 w 0 in
  let s0 := Z.lxor (Z.lxor (rotr 7 w15) (rotr 18 w15)) (Z.shiftr w15 3) in
  let s1 := Z.lxor (Z.lxor (rotr 17 w2) (rotr 19 w2)) (Z.shiftr w2 10) in
  add32 (add32 w16 s0) (add32 w7 s1).

Fixpoint extend (n : nat) (w : list Z) : list Z :=
  match n with O => w | S n => extend n (next_word w :: w) end.

Definition schedule (block : list Z) : list Z := rev (extend 48 (rev block)).

Definition round_ (st : list Z) (kw : Z * Z) : list Z :=
  match st with
  | [a; b; c; d; e; f; g; h] =>
    let s1 := Z.lxor (Z.lxor (rotr 6 e) (rotr 11 e)) (rotr 25 e) in
    let ch := Z.lxor (Z.land e f) (Z.land (Z.lxor e mask32) g) in
    let t1 := add32 (add32 h s1) (add32 ch (add32 kw.1 kw.2)) in
    let s0 := Z.lxor (Z.lxor (rotr 2 a) (rotr 13 a)) (rotr 22 a) in
    let maj := Z.lxor (Z.lxor (Z.land a b) (Z.land a c)) (Z.land b c) in
    [add32 t1 (add32 s0 maj); a; b; c; add32 d t1; e; f; g]
  | _ => st
  end.

Definition compress (st block : list Z) : list Z :=
  zip_with add32 st (foldl round_ st (zip round_constants (schedule block))).

Fixpoint blocks (n : nat) (w : list Z) (st : list Z) : list Z :=
  match n with O => st | S n => blocks n (drop 16 w) (compress st (take 16 w)) end.

Definition Sum256 (s : string) : string :=
  let w := words (padded (byte_list s)) in
  let st := blocks (length w / 16) w initial_hash in
  of_bytes (concat ((fun x => (fun i => Z.land (Z.shiftr x (8 * i)) 255) <$> [3; 2; 1; 0]) <$> st)).

Definition sha2 : Sha256 := {| sha256 := Sum256 |}.

Example Sum256_abc :
  hex_encode (Sum256 "abc") = "ba7816bf8f01cfea414140de5dae2223b00361a396177a9cb410ff61f20015ad".
Proof. vm_compute. reflexivity. Qed.

Example Sum256_two_blocks :
  hex_encode (Sum256 "abcdbcdecdefdefgefghfghighijhijkijkljklmklmnlmnomnopnopq") =
  "248d6a61d20638b8e5c026930c3e6039a33ce45964ff2167f6ecedd419db06c1".
Proof. vm_compute. reflexivity. Qed.

(** * A digest has 32 bytes *)

Lemma of_bytes_length l : String.length (of_bytes l) = length l.
Proof. induction l as [|z l IH]; [done|]. change (S (String.length (of_bytes l)) = S (length l)). by rewrite IH. Qed.

Lemma round_length st kw : length (round_ st kw) = length st.
Proof. unfold round_. do 8 (destruct st as [|? st]; [done|]). by destruct st. Qed.

Lemma compress_length st b : length (compress st b) = length st.
Proof.
  unfold compress. rewrite length_zip_with. assert (H : forall l st, length (foldl round_ st l) = length st).
  { induction l as [|kw l IH]; intros s; [done|]. cbn. by rewrite IH, round_length. }
  rewrite H. lia.
Qed.

Lemma blocks_length n w st : length (blocks n w st) = length st.
Proof. revert w st. induction n as [|n IH]; intros w st; [done|]. cbn. by rewrite IH, compress_length. Qed.

Definition sha2_laws : @Sha256Laws sha2.
Proof.
  split. intros s. change (String.length (Sum256 s) = 32%nat). unfold Sum256. rewrite of_bytes_length.
  pose proof (blocks_length (length (words (padded (byte_list s))) / 16) (words (padded (byte_list s))) initial_hash) as H.
  cbv zeta. revert H. generalize (blocks (length (words (padded (byte_list s))) / 16) (words (padded (byte_list s))) initial_hash).
  intros l Hl. change (length initial_hash) with 8%nat in Hl.
  do 8 (destruct l as [|? l]; [done|]). by destruct l.
Qed.
