(* ===== verification/RedisKv.v ===== *)
(** Two pieces shared by the components that keep state outside the process:
    a part of a world behind a lens, and the string commands of a Redis server
    ([GET], [SET] with an expiry, [DEL]) as the clients use them. *)

From S2P Require Import Prelude GoTime.

(** * Parts of a world *)

(** [get] and [put] address a part of the world. *)
Class Lens {W S : Type} (get : W -> S) (put : S -> W -> W) := { get_put x w : get (put x w) = x }.

(** Run on the part. *)
Definition zoom {W S A : Type} (get : W -> S) (put : S -> W -> W) (f : S -> A * S) : io W A :=
  fun w => let '(a, x) := f (get w) in (a, put x w).

Lemma zoom_eq {W S A} (get : W -> S) (put : S -> W -> W) (f : S -> A * S) w : zoom get put f w = ((f (get w)).1, put (f (get w)).2 w).
Proof. unfold zoom. by destruct (f (get w)). Qed.

(** * Strings on a server *)

(** Values with an optional expiry instant in milliseconds, the server's clock,
    and whether it answers. *)
Record redis_kv := { kv_keys : gmap string (string * option Z); kv_now : Z; kv_up : bool }.

Definition kv_get (s : redis_kv) (k : string) : option string :=
  match kv_keys s !! k with
  | Some (v, Some e) => if e <=? kv_now s then None else Some v
  | Some (v, None) => Some v
  | None => None
  end.

(** The expiry goes out in milliseconds, at least one; a lifetime that is not
    positive sends none. *)
Definition ttl_ms (ttl : duration) : Z := Z.max 1 (Z.quot ttl 1000000).

Definition kv_set (k v : string) (ttl : duration) (s : redis_kv) : redis_kv :=
  {| kv_keys := <[k := (v, if 0 <? ttl then Some (kv_now s + ttl_ms ttl) else None)]> (kv_keys s); kv_now := kv_now s; kv_up := kv_up s |}.

Definition kv_del (k : string) (s : redis_kv) : redis_kv :=
  {| kv_keys := delete k (kv_keys s); kv_now := kv_now s; kv_up := kv_up s |}.

Lemma kv_get_set k v ttl s : kv_get (kv_set k v ttl s) k = Some v.
Proof.
  unfold kv_get. cbn. rewrite lookup_insert_eq. destruct (0 <? ttl); [|done]. unfold ttl_ms.
  destruct (Z.leb_spec (kv_now s + Z.max 1 (Z.quot ttl 1000000)) (kv_now s)); [lia|done].
Qed.

Lemma kv_get_set_ne k k' v ttl s : k <> k' -> kv_get (kv_set k v ttl s) k' = kv_get s k'.
Proof. intros Hne. unfold kv_get. cbn. by rewrite lookup_insert_ne. Qed.

Lemma kv_get_del k s : kv_get (kv_del k s) k = None.
Proof. unfold kv_get. cbn. by rewrite lookup_delete_eq. Qed.
