(* ===== verification/Auth.v ===== *)
(** Request authentication ([internal/auth/auth.go]): API keys, the HMAC request
    signature and the replay check.  SHA-256 is the class [Sha256]; HMAC is
    written out over it.  A request's headers are the canonical map of
    [net/http], its body a string of bytes. *)

From S2P Require Import Prelude GoStrings GoTime Runtime Signing.

Definition EnvLive : string := "live".
Definition EnvTest : string := "test".
Definition StatusActive : string := "active".
Definition StatusRevoked : string := "revoked".
Definition prefixLive : string := "azn_live_".
Definition prefixTest : string := "azn_test_".
Definition canonScheme : string := "azn-hmac/1".
Definition secretBytes : nat := 32.
Definition keyIDHashPrefixLen : nat := 16.

Record KeyRecord := {
  KeyID : string;
  KeyHashHex : string;
  OrgID : string;
  Tier : string;
  Env : string;
  Status : string;
  Shadow : bool
}.

Record Principal := { pr_OrgID : string; pr_KeyID : string; pr_Tier : string; pr_Env : string; pr_Shadow : bool }.

Record Error := { err_Status : Z; err_Code : string; err_Title : string; err_Detail : string }.

Definition CodeUnauthorized : string := "unauthorized".
Definition CodeForbidden : string := "forbidden".
Definition CodeReplayDetected : string := "replay_detected".
Definition CodeUnavailable : string := "auth_unavailable".

Definition errUnauthorized (detail : string) : Error :=
  {| err_Status := 401; err_Code := CodeUnauthorized; err_Title := "Unauthorized"; err_Detail := detail |}.
Definition errForbidden (detail : string) : Error :=
  {| err_Status := 403; err_Code := CodeForbidden; err_Title := "Forbidden"; err_Detail := detail |}.
Definition errReplay : Error :=
  {| err_Status := 401; err_Code := CodeReplayDetected; err_Title := "Unauthorized";
     err_Detail := "Request nonce has already been used." |}.
Definition errUnavailable : Error :=
  {| err_Status := 503; err_Code := CodeUnavailable; err_Title := "Authentication unavailable";
     err_Detail := "Could not verify the request. Please retry." |}.

Inductive key_error := ErrKeyNotFound | KeyStoreFailed (msg : string).

(** * Standard library *)

(** [http.Header], keys in canonical form; [Get] is the first value or "". *)
Abbreviation Header := (gmap string (list string)).

Definition Header_Get (h : Header) (k : string) : string :=
  match h !! k with Some (v :: _) => v | _ => "" end.

(** The UTF-8 encodings of the runes [unicode.IsSpace] accepts. *)
Definition bytes (l : list Z) : string := foldr (fun z s => String (chr z) s) EmptyString l.

Definition space_encodings : list string :=
  bytes <$> [ [9]; [10]; [11]; [12]; [13]; [32]; [194; 133]; [194; 160]; [225; 154; 128];
    [226; 128; 128]; [226; 128; 129]; [226; 128; 130]; [226; 128; 131]; [226; 128; 132]; [226; 128; 133];
    [226; 128; 134]; [226; 128; 135]; [226; 128; 136]; [226; 128; 137]; [226; 128; 138];
    [226; 128; 168]; [226; 128; 169]; [226; 128; 175]; [226; 129; 159]; [227; 128; 128] ].

Fixpoint rev_onto (s acc : string) : string :=
  match s with EmptyString => acc | String c s => rev_onto s (String c acc) end.
Definition str_rev (s : string) : string := rev_onto s EmptyString.

(** Strip leading elements of [encs], at most [fuel] of them. *)
Fixpoint strip_any (fuel : nat) (encs : list string) (s : string) : string :=
  match fuel with
  | O => s
  | S fuel =>
    match find_first (HasPrefix s) encs with
    | Some p => match strip_prefix p s with Some r => strip_any fuel encs r | None => s end
    | None => s
    end
  end.

Definition TrimSpace (s : string) : string :=
  let s := strip_any (String.length s) space_encodings s in
  str_rev (strip_any (String.length s) (str_rev <$> space_encodings) (str_rev s)).

(** [strings.EqualFold] against an ASCII string without [k] and [s], the letters
    that fold outside ASCII. *)
Definition EqualFold (s t : string) : bool := String.eqb (str_map lower s) (str_map lower t).

(** [time.Unix(secs, 0)]: seconds since year 1 in an int64. *)
Definition time_Unix (secs : Z) : time := of_unix (wrap64 (secs + 62135596800) - 62135596800).

(** [strings.ToLower(base32.StdEncoding.WithPadding(NoPadding).EncodeToString)]. *)
Definition b32_char (d : Z) : Ascii.ascii := if d <? 26 then chr (97 + d) else chr (50 + (d - 26)).

(** The first [n] base-32 digits of a 40-bit number. *)
Fixpoint b32_digits (n : nat) (v : Z) (r : string) : string :=
  match n with
  | O => r
  | S n => String (b32_char (v / 34359738368 mod 32)) (b32_digits n (v * 32) r)
  end.

Fixpoint b32_lower (b : list Z) : string :=
  match b with
  | x1 :: x2 :: x3 :: x4 :: x5 :: r =>
    b32_digits 8 ((((x1 * 256 + x2) * 256 + x3) * 256 + x4) * 256 + x5) (b32_lower r)
  | [x1; x2; x3; x4] => b32_digits 7 ((((x1 * 256 + x2) * 256 + x3) * 256 + x4) * 256) ""
  | [x1; x2; x3] => b32_digits 5 (((x1 * 256 + x2) * 256 + x3) * 65536) ""
  | [x1; x2] => b32_digits 4 ((x1 * 256 + x2) * 16777216) ""
  | [x1] => b32_digits 2 (x1 * 4294967296) ""
  | [] => ""
  end.

(** * Keys *)

Section auth.
Context `{Sha256}.

Definition KeyIDOf (rawKey hashHex : string) : string :=
  let prefix := if HasPrefix rawKey prefixTest then prefixTest else prefixLive in
  prefix +:+ String.substring 0 keyIDHashPrefixLen hashHex.

Definition parseKey (rawKey : string) : result Error (string * string) :=
  if negb (HasPrefix rawKey prefixLive) && negb (HasPrefix rawKey prefixTest) then Err (errUnauthorized "Invalid API key.")
  else
    let hashHex := hex_encode (sha256 rawKey) in
    Ok (KeyIDOf rawKey hashHex, hashHex).

Definition bearerKey (header : Header) : result Error string :=
  let authz := Header_Get header "Authorization" in
  if negb (String.eqb authz "") then
    if (7 <? String.length authz)%nat && EqualFold (String.substring 0 7 authz) "Bearer " then
      Ok (TrimSpace (String.substring 7 (String.length authz - 7) authz))
    else Err (errUnauthorized "Authorization header must be 'Bearer <api_key>'.")
  else
    let k := Header_Get header "X-Api-Key" in
    if negb (String.eqb k "") then Ok (TrimSpace k)
    else Err (errUnauthorized "Missing API key.").

Record GeneratedKey := { gk_Plaintext : string; gk_Record : KeyRecord }.

(** [NewKey] once the entropy is read. *)
Definition new_key (prefix env orgID tier : string) (buf : list Z) : GeneratedKey :=
  let rawKey := prefix +:+ b32_lower buf in
  let hashHex := hex_encode (sha256 rawKey) in
  {| gk_Plaintext := rawKey;
     gk_Record := {| KeyID := KeyIDOf rawKey hashHex; KeyHashHex := hashHex; OrgID := orgID; Tier := tier; Env := env;
                     Status := StatusActive; Shadow := true |} |}.

Definition NewKey `{Runtime W} (env orgID tier : string) : io W (result string GeneratedKey) :=
  if String.eqb env EnvTest then buf ← rand_Read secretBytes; mret (Ok (new_key prefixTest env orgID tier buf))
  else if String.eqb env EnvLive then buf ← rand_Read secretBytes; mret (Ok (new_key prefixLive env orgID tier buf))
  else mret (Err "auth: unknown env").

(** * The request signature *)

Definition newline : Ascii.ascii := chr 10.
Definition nl : string := String newline EmptyString.

Definition canonicalString (method path timestamp nonce body : string) : string :=
  canonScheme +:+ nl +:+ str_map upper method +:+ nl +:+ path +:+ nl +:+ timestamp +:+ nl +:+ nonce +:+ nl +:+
  hex_encode (sha256 body).

(** HMAC with a block of 64 bytes. *)
Fixpoint pad_right (n : nat) (s : string) : string :=
  match n, s with
  | O, _ => EmptyString
  | S n, EmptyString => String (chr 0) (pad_right n EmptyString)
  | S n, String c s => String c (pad_right n s)
  end.

Definition xor_all (b : Z) (s : string) : string := str_map (fun c => chr (Z.lxor b (byte_val c))) s.

Definition computeMAC (rawKey msg : string) : string :=
  let k := if (64 <? String.length rawKey)%nat then sha256 rawKey else rawKey in
  let k := pad_right 64 k in
  sha256 (xor_all 92 k +:+ sha256 (xor_all 54 k +:+ msg)).

Definition Sign (rawKey method path timestamp nonce body : string) : string :=
  hex_encode (computeMAC rawKey (canonicalString method path timestamp nonce body)).

(** The skew test of [verifySignature]: [skew = -skew] wraps. *)
Definition skew_of (now ts : time) : duration :=
  let skew := Sub now ts in
  if skew <? 0 then sub64 0 skew else skew.

(** [verifySignature] up to the clock reading, and from it on. *)
Definition signature_headers (header : Header) : result Error Z :=
  let tsRaw := Header_Get header "X-Timestamp" in
  let nonce := Header_Get header "X-Nonce" in
  let sigHex := Header_Get header "X-Signature" in
  if String.eqb tsRaw "" || String.eqb nonce "" || String.eqb sigHex "" then
    Err (errUnauthorized "Missing X-Timestamp, X-Nonce, or X-Signature header.")
  else if (String.length nonce <? 8)%nat || (128 <? String.length nonce)%nat then
    Err (errUnauthorized "X-Nonce must be 8..128 characters.")
  else match ParseInt tsRaw with
  | None => Err (errUnauthorized "X-Timestamp must be Unix seconds.")
  | Some tsSecs => Ok tsSecs
  end.

Definition check_signature (maxSkew : duration) (t : time) (tsSecs : Z) (method path : string) (header : Header)
    (body rawKey : string) : result Error unit :=
  let tsRaw := Header_Get header "X-Timestamp" in
  let nonce := Header_Get header "X-Nonce" in
  if maxSkew <? skew_of t (time_Unix tsSecs) then
    Err (errUnauthorized "Request timestamp is outside the allowed skew window.")
  else match hex_decode (Header_Get header "X-Signature") with
  | None => Err (errUnauthorized "X-Signature must be lowercase hex.")
  | Some presentedMAC =>
    if negb (String.eqb (computeMAC rawKey (canonicalString method path tsRaw nonce body)) presentedMAC) then
      Err (errUnauthorized "Request signature is invalid.")
    else Ok tt
  end.

(** * The authenticator *)

Section authenticator.
Context {W : Type} `{Runtime W}.

Record KeyStore := { LookupByID : string -> io W (result key_error KeyRecord) }.

Record NonceStore := { Remember : string -> string -> duration -> io W (result string bool) }.

Record Authenticator := { keys : KeyStore; nonces : NonceStore; maxSkew : duration; nonceTTL : duration }.

Record Config := { cfg_MaxSkew : duration; cfg_NonceTTL : duration }.

Definition New (ks : KeyStore) (ns : NonceStore) (cfg : Config) : Authenticator :=
  {| keys := ks; nonces := ns; maxSkew := cfg_MaxSkew cfg;
     nonceTTL := if cfg_NonceTTL cfg <? mul64 2 (cfg_MaxSkew cfg) then mul64 2 (cfg_MaxSkew cfg) else cfg_NonceTTL cfg |}.

Definition verifySignature (a : Authenticator) (method path : string) (header : Header) (body rawKey : string)
    : io W (result Error unit) :=
  match signature_headers header with
  | Err e => mret (Err e)
  | Ok tsSecs =>
    t ← now;
    mret (check_signature (maxSkew a) t tsSecs method path header body rawKey)
  end.

(** The credential checks of [Authenticate] on the record the store returned. *)
Definition check_record (keyHashHex : string) (rec : KeyRecord) : result Error unit :=
  match hex_decode (KeyHashHex rec) with
  | None => Err errUnavailable
  | Some storedHash =>
    match hex_decode keyHashHex with
    | None => Err (errUnauthorized "Invalid API key.")
    | Some presentedHash =>
      if negb (String.eqb storedHash presentedHash) then Err (errUnauthorized "Invalid API key.")
      else if String.eqb (Status rec) StatusRevoked then Err (errForbidden "This API key has been revoked.")
      else if negb (String.eqb (Status rec) StatusActive) then Err (errForbidden "This API key is not active.")
      else Ok tt
    end
  end.

Definition principal_of (rec : KeyRecord) : Principal :=
  {| pr_OrgID := OrgID rec; pr_KeyID := KeyID rec; pr_Tier := Tier rec; pr_Env := Env rec; pr_Shadow := Shadow rec |}.

(** The replay check, last. *)
Definition check_nonce (a : Authenticator) (header : Header) (rec : KeyRecord) : io W (result Error Principal) :=
  r ← Remember (nonces a) (KeyID rec) (Header_Get header "X-Nonce") (nonceTTL a);
  mret match r with
       | Err _ => Err errUnavailable
       | Ok fresh => if fresh : bool then Ok (principal_of rec) else Err errReplay
       end.

Definition Authenticate (a : Authenticator) (method path : string) (header : Header) (body : string)
    : io W (result Error Principal) :=
  match bearerKey header with
  | Err e => mret (Err e)
  | Ok rawKey =>
    match parseKey rawKey with
    | Err e => mret (Err e)
    | Ok (keyID, keyHashHex) =>
      r ← LookupByID (keys a) keyID;
      match r with
      | Err ErrKeyNotFound => mret (Err (errUnauthorized "Invalid API key."))
      | Err (KeyStoreFailed _) => mret (Err errUnavailable)
      | Ok rec =>
        match check_record keyHashHex rec with
        | Err e => mret (Err e)
        | Ok _ =>
          v ← verifySignature a method path header body rawKey;
          match v with
          | Err e => mret (Err e)
          | Ok _ => check_nonce a header rec
          end
        end
      end
    end
  end.
End authenticator.
End auth.

Arguments KeyStore : clear implicits.
Arguments NonceStore : clear implicits.
Arguments Authenticator : clear implicits.

(** * In-memory stores ([memory.go], [admin.go]) *)

Record memInfo := { createdAt : time; revokedAt : option time }.

Record MemKeyStore := { ms_keys : gmap string KeyRecord; ms_info : gmap string memInfo }.

(** [NewMemKeyStore]; [at_] are the clock readings, one per record. *)
Definition NewMemKeyStore (records : list (KeyRecord * time)) : MemKeyStore :=
  foldl (fun m '(r, t) =>
    {| ms_keys := <[KeyID r := r]> (ms_keys m);
       ms_info := <[KeyID r := {| createdAt := t; revokedAt := None |}]> (ms_info m) |})
    {| ms_keys := ∅; ms_info := ∅ |} records.

Definition Put (r : KeyRecord) (m : MemKeyStore) : MemKeyStore :=
  {| ms_keys := <[KeyID r := r]> (ms_keys m); ms_info := ms_info m |}.

Definition Mem_LookupByID (keyID : string) (m : MemKeyStore) : result key_error KeyRecord :=
  match ms_keys m !! keyID with Some r => Ok r | None => Err ErrKeyNotFound end.

Record KeyInfo := {
  ki_KeyID : string;
  ki_OrgID : string;
  ki_Tier : string;
  ki_Env : string;
  ki_Status : string;
  ki_Shadow : bool;
  ki_CreatedAt : time;
  ki_RevokedAt : option time
}.

Definition CreateKey (rec : KeyRecord) (created : time) (m : MemKeyStore) : MemKeyStore :=
  {| ms_keys := <[KeyID rec := rec]> (ms_keys m);
     ms_info := <[KeyID rec := {| createdAt := created; revokedAt := None |}]> (ms_info m) |}.

(** [m.info[id]]: the zero value when absent. *)
Definition meta_of (m : MemKeyStore) (id : string) : memInfo :=
  default {| createdAt := zero_time; revokedAt := None |} (ms_info m !! id).

Definition infoOf (m : MemKeyStore) (id : string) (rec : KeyRecord) : KeyInfo :=
  {| ki_KeyID := KeyID rec; ki_OrgID := OrgID rec; ki_Tier := Tier rec; ki_Env := Env rec; ki_Status := Status rec;
     ki_Shadow := Shadow rec; ki_CreatedAt := createdAt (meta_of m id); ki_RevokedAt := revokedAt (meta_of m id) |}.

Definition created_desc (a b : KeyInfo) : bool := negb (After (ki_CreatedAt b) (ki_CreatedAt a)).

Definition sortByCreatedDesc (xs : list KeyInfo) : list KeyInfo := sort_by created_desc xs.

(** The keys come in the map's iteration order before the stable sort. *)
Definition ListKeys (orgID : string) (m : MemKeyStore) : list KeyInfo :=
  sortByCreatedDesc (omap (fun '(id, rec) => if String.eqb (OrgID rec) orgID then Some (infoOf m id rec) else None)
                          (map_to_list (ms_keys m))).

Definition set_status (st : string) (rec : KeyRecord) : KeyRecord :=
  {| KeyID := KeyID rec; KeyHashHex := KeyHashHex rec; OrgID := OrgID rec; Tier := Tier rec; Env := Env rec;
     Status := st; Shadow := Shadow rec |}.

Definition RevokeKey (orgID keyID : string) (at_ : time) (m : MemKeyStore) : result key_error KeyInfo * MemKeyStore :=
  match ms_keys m !! keyID with
  | Some rec =>
    if negb (String.eqb (OrgID rec) orgID) then (Err ErrKeyNotFound, m)
    else
      let rec := set_status StatusRevoked rec in
      let m' := {| ms_keys := <[keyID := rec]> (ms_keys m);
                   ms_info := <[keyID := {| createdAt := createdAt (meta_of m keyID); revokedAt := Some at_ |}]> (ms_info m) |} in
      (Ok (infoOf m' keyID rec), m')
  | None => (Err ErrKeyNotFound, m)
  end.

Abbreviation MemNonces := (gmap string time).

Definition nonce_key (keyID nonce : string) : string := keyID +:+ String (chr 0) nonce.

Definition Mem_Remember (t : time) (keyID nonce : string) (ttl : duration) (seen : MemNonces) : bool * MemNonces :=
  let k := nonce_key keyID nonce in
  match seen !! k with
  | Some exp => if After exp t then (false, seen) else (true, <[k := Add t ttl]> seen)
  | None => (true, <[k := Add t ttl]> seen)
  end.
