(* ===== verification/AuthProps.v ===== *)
(** What request authentication guarantees: the canonical string is unambiguous,
    only a validly signed request is accepted or consumes a nonce, a replay
    needs a slow server, a minted key works and a revoked one does not. *)

From S2P Require Import Prelude GoStrings GoTime Runtime Signing Auth.

(** * The canonical string *)

(** Splitting at the last occurrence of a character. *)
Lemma str_last_char_inj c a b r s :
  no_char c r = true -> no_char c s = true -> a +:+ String c r = b +:+ String c s -> a = b /\ r = s.
Proof.
  intros Hr Hs. assert (Hno : forall x t u, no_char c t = true -> t <> x +:+ String c u).
  { intros x t u Ht ->. unfold no_char in Ht. rewrite str_all_app in Ht. cbn in Ht.
    rewrite Ascii.eqb_refl, andb_false_r in Ht. done. }
  revert b. induction a as [|x a IH]; intros [|y b].
  - rewrite !str_app_nil. intros [= ->]. done.
  - rewrite str_app_nil, str_app_cons. intros [= -> E]. by destruct (Hno b r s Hr).
  - rewrite str_app_nil, str_app_cons. intros [= -> E]. by destruct (Hno a s r Hs).
  - rewrite !str_app_cons. intros [= -> E]. destruct (IH _ E) as [-> ->]. done.
Qed.

Lemma hex_no_newline s : no_char newline (hex_encode s) = true.
Proof.
  assert (H : forall d, 0 <= d < 16 -> Ascii.eqb (hex_char d) newline = false).
  { intros d Hd. apply Ascii.eqb_neq. intros E. apply (f_equal byte_val) in E. unfold hex_char, newline in E.
    destruct (d <? 10) eqn:Ed; breflect; rewrite !byte_val_chr in E by lia; lia. }
  induction s as [|c s IH]; [done|]. unfold no_char in *. cbn [hex_encode str_all]. pose proof (byte_val_range c).
  rewrite !H, IH by zlia. done.
Qed.

Lemma upper_newline c : Ascii.eqb (upper c) newline = Ascii.eqb c newline.
Proof. destruct c as [[] [] [] [] [] [] [] []]; reflexivity. Qed.

Lemma no_newline_upper s : no_char newline s = true -> no_char newline (str_map upper s) = true.
Proof.
  induction s as [|c s IH]; [done|]. unfold no_char in *. cbn. rewrite upper_newline. intros [-> H]%andb_true_iff. by apply IH.
Qed.

(** What is signed is what is meant.  Two requests with the same canonical
    string have the same upper-cased method, path, timestamp, nonce and body
    hash, even when the path contains newlines: the method and the header
    values contain none, and the string is read from both ends. *)
Theorem canonicalString_injective `{Sha256} m p t n b m' p' t' n' b'
  (Hm : no_char newline m = true) (Hm' : no_char newline m' = true)
  (Ht : no_char newline t = true) (Ht' : no_char newline t' = true)
  (Hn : no_char newline n = true) (Hn' : no_char newline n' = true)
  (E : canonicalString m p t n b = canonicalString m' p' t' n' b') :
  str_map upper m = str_map upper m' /\ p = p' /\ t = t' /\ n = n' /\ sha256 b = sha256 b'.
Proof.
  unfold canonicalString in E.
  assert (E1 : str_map upper m +:+ nl +:+ (p +:+ nl +:+ t +:+ nl +:+ n +:+ nl +:+ hex_encode (sha256 b)) =
               str_map upper m' +:+ nl +:+ (p' +:+ nl +:+ t' +:+ nl +:+ n' +:+ nl +:+ hex_encode (sha256 b'))).
  { apply (f_equal (strip_prefix (canonScheme +:+ nl))) in E. rewrite !(str_app_assoc canonScheme nl) in E.
    rewrite !strip_prefix_app in E. by injection E. }
  clear E. apply str_app_char_inj in E1 as [EU E1]; [|by apply no_newline_upper..].
  change (p +:+ nl +:+ t +:+ nl +:+ n +:+ nl +:+ hex_encode (sha256 b) =
          p' +:+ nl +:+ t' +:+ nl +:+ n' +:+ nl +:+ hex_encode (sha256 b')) in E1.
  rewrite !str_app_assoc in E1. rewrite <- !(str_app_assoc _ nl (hex_encode _)) in E1.
  apply str_last_char_inj in E1 as [E1 Eb]; [|apply hex_no_newline..].
  rewrite <- !(str_app_assoc _ nl n), <- !(str_app_assoc _ nl n') in E1. apply str_last_char_inj in E1 as [E1 En]; [|done..].
  rewrite <- !(str_app_assoc _ nl t), <- !(str_app_assoc _ nl t') in E1. apply str_last_char_inj in E1 as [Ep Et]; [|done..].
  apply hex_encode_inj in Eb. done.
Qed.

(** * What an acceptance means *)

Section accept.
Context `{Sha256} {W : Type} `{Runtime W}.

(** The request carries the key whose hash the record stores, the key is
    active, the timestamp is within the skew of the server's reading [t], and
    the signature is the key's MAC of this very request. *)
Definition signed_request (a : Authenticator W) (t : time) (method path : string) (h : Header) (body : string) (rec : KeyRecord) : Prop :=
  exists rawKey ts,
    bearerKey h = Ok rawKey /\ hex_decode (KeyHashHex rec) = Some (sha256 rawKey) /\ Status rec = StatusActive /\
    ParseInt (Header_Get h "X-Timestamp") = Some ts /\ skew_of t (time_Unix ts) <= maxSkew a /\
    8 <= Z.of_nat (String.length (Header_Get h "X-Nonce")) <= 128 /\
    hex_decode (Header_Get h "X-Signature") =
      Some (computeMAC rawKey (canonicalString method path (Header_Get h "X-Timestamp") (Header_Get h "X-Nonce") body)).

(** The world when the nonce is checked, after the record and the clock were
    read. *)
Definition reads (a : Authenticator W) (h : Header) (w : W) (rec : KeyRecord) (t : time) (w2 : W) : Prop :=
  exists rawKey keyID hashHex w1,
    bearerKey h = Ok rawKey /\ parseKey rawKey = Ok (keyID, hashHex) /\
    LookupByID (keys a) keyID w = (Ok rec, w1) /\ now w1 = (t, w2).

Lemma signature_headers_ok h ts :
  signature_headers h = Ok ts ->
  ParseInt (Header_Get h "X-Timestamp") = Some ts /\ 8 <= Z.of_nat (String.length (Header_Get h "X-Nonce")) <= 128.
Proof.
  unfold signature_headers. destruct (_ || _ || _); [done|]. destruct (_ || _) eqn:E; [done|].
  apply orb_false_iff in E as [E1 E2]. apply Nat.ltb_ge in E1, E2.
  destruct (ParseInt _); [|done]. intros [= ->]. split; [done|lia].
Qed.

Lemma check_record_ok rawKey keyID hashHex rec :
  parseKey rawKey = Ok (keyID, hashHex) -> check_record hashHex rec = Ok tt ->
  hex_decode (KeyHashHex rec) = Some (sha256 rawKey) /\ Status rec = StatusActive.
Proof.
  unfold parseKey, check_record. destruct (_ && _); [done|]. intros [= _ <-]. rewrite hex_decode_encode.
  destruct (hex_decode (KeyHashHex rec)) as [s|]; [|done]. destruct (String.eqb_spec s (sha256 rawKey)) as [->|]; [|done]. cbn [negb].
  destruct (String.eqb _ _); [done|]. by destruct (String.eqb_spec (Status rec) StatusActive) as [->|].
Qed.

Lemma check_signature_ok mx t ts m p h b rawKey :
  check_signature mx t ts m p h b rawKey = Ok tt ->
  skew_of t (time_Unix ts) <= mx /\
  hex_decode (Header_Get h "X-Signature") =
    Some (computeMAC rawKey (canonicalString m p (Header_Get h "X-Timestamp") (Header_Get h "X-Nonce") b)).
Proof.
  unfold check_signature. destruct (Z.ltb_spec mx (skew_of t (time_Unix ts))); [done|].
  destruct (hex_decode _) as [mac|]; [|done]. destruct (String.eqb_spec (computeMAC rawKey (canonicalString m p (Header_Get h "X-Timestamp") (Header_Get h "X-Nonce") b)) mac) as [->|]; [done|].
  done.
Qed.

(** A request either stops before the nonce check with an error, having only
    read, or is signed and gets the nonce check's answer. *)
Lemma Authenticate_cases (a : Authenticator W) m p h b w :
  (exists e, (Authenticate a m p h b w).1 = Err e /\
     ((Authenticate a m p h b w).2 = w \/
      exists keyID, (Authenticate a m p h b w).2 = (LookupByID (keys a) keyID w).2 \/
                    (Authenticate a m p h b w).2 = (now (LookupByID (keys a) keyID w).2).2)) \/
  (exists rec t w2, reads a h w rec t w2 /\ signed_request a t m p h b rec /\
     Authenticate a m p h b w = check_nonce a h rec w2).
Proof.
  unfold Authenticate. destruct (bearerKey h) as [rawKey|e] eqn:Eb; [|left; exists e; auto].
  destruct (parseKey rawKey) as [[keyID hashHex]|e] eqn:Ek; [|left; exists e; auto].
  rewrite bind_let. destruct (LookupByID (keys a) keyID w) as [[rec|ke] w1] eqn:El; cbn [fst snd].
  2:{ left. destruct ke; cbn; eexists; (split; [done|]); right; exists keyID; rewrite El; auto. }
  destruct (check_record hashHex rec) as [[]|e] eqn:Ec; [|left; exists e; cbn; split; [done|]; right; exists keyID; rewrite El; auto].
  unfold verifySignature. destruct (signature_headers h) as [ts|e] eqn:Es.
  2:{ left. exists e. cbn. split; [done|]. right. exists keyID. rewrite El. auto. }
  rewrite !bind_let. destruct (now w1) as [t w2] eqn:En. cbn [fst snd mret io_ret].
  destruct (check_signature (maxSkew a) t ts m p h b rawKey) as [[]|e] eqn:Eg.
  2:{ left. exists e. split; [done|]. right. exists keyID. right. rewrite El. cbn [snd]. by rewrite En. }
  right. exists rec, t, w2. split; [by exists rawKey, keyID, hashHex, w1|]. split; [|done].
  destruct (check_record_ok _ _ _ _ Ek Ec) as [Hh Hst]. destruct (signature_headers_ok _ _ Es) as [Hts Hn].
  destruct (check_signature_ok _ _ _ _ _ _ _ _ Eg) as [Hsk Hmac]. by exists rawKey, ts.
Qed.

Lemma check_nonce_ok (a : Authenticator W) h rec w pr w' :
  check_nonce a h rec w = (Ok pr, w') ->
  pr = principal_of rec /\ Remember (nonces a) (KeyID rec) (Header_Get h "X-Nonce") (nonceTTL a) w = (Ok true, w').
Proof.
  unfold check_nonce. rewrite bind_let.
  destruct (Remember _ _ _ _ w) as [r w2]. cbn [fst snd]. destruct r as [[]|e]; intros E; [by injection E as <- <-|discriminate..].
Qed.
End accept.

(** C7: Acceptance needs a signature, and so does using up a nonce.  A request is
    accepted only if it carries the secret of an active stored key and that
    key's MAC of its own method, path, timestamp, nonce and body, with the
    timestamp in the skew of a clock reading; the principal is the record's.
    And the part of the world that lookups and the clock leave alone, such as
    the nonces seen, is touched only by such a request. *)
Theorem Authenticate_only_signed `{Sha256} {W V : Type} (view : W -> V) `{Frame W V view} (a : Authenticator W) m p h b w r w'
  (Hlook : forall id w, view (LookupByID (keys a) id w).2 = view w)
  (E : Authenticate a m p h b w = (r, w')) (Hr : is_ok r = true \/ view w' <> view w) :
  exists rec t w2, reads a h w rec t w2 /\ view w2 = view w /\ signed_request a t m p h b rec /\
    (forall pr, r = Ok pr -> pr = principal_of rec).
Proof.
  destruct (Authenticate_cases a m p h b w) as [(e & Ee & Hw)|(rec & t & w2 & Hreads & Hs & Eq)].
  - rewrite E in Ee, Hw. cbn in Ee, Hw. subst r. destruct Hr as [Hr|Hr]; [done|]. destruct Hr.
    destruct Hw as [->|(id & [-> | ->])]; [done|apply Hlook|]. by rewrite now_frame, Hlook.
  - exists rec, t, w2. split; [done|]. split.
    { destruct Hreads as (rawKey & id & hh & w1 & _ & _ & El & En). rewrite (now_frame_eq (view:=view) _ _ _ En).
      pose proof (Hlook id w) as Hv. by rewrite El in Hv. }
    split; [done|]. intros pr ->. rewrite Eq in E. by apply check_nonce_ok in E as [-> _].
Qed.

(** * Replays *)

(** What a nonce store promises: the clock does not run backwards; a nonce
    reported fresh is remembered until [ttl] after an instant of the call; and
    one remembered is not fresh until [slack] before its expiry. *)
Class NonceStoreSpec {W} (N : NonceStore W) (clk : W -> time) (remembers : W -> string -> string -> time -> Prop) (slack : duration) := {
  slack_nonneg : 0 <= slack;
  remember_clock k n ttl w : clk w <= clk (Remember N k n ttl w).2;
  remember_keeps k n ttl w k' n' e :
    0 <= ttl -> remembers w k' n' e -> clk (Remember N k n ttl w).2 < e -> remembers (Remember N k n ttl w).2 k' n' e;
  remember_fresh k n ttl w w' :
    Remember N k n ttl w = (Ok true, w') ->
    exists t, clk w <= t <= clk w' /\ remembers w' k n (t + ttl) /\ forall e, remembers w k n e -> e - slack <= t
}.

Section replay.
Context `{Sha256} {W : Type} `{Runtime W}.
Context (clk : W -> time) (remembers : W -> string -> string -> time -> Prop) (slack : duration).

(** Time passes; a nonce is kept at least until it expires. *)
Definition evolves (w w' : W) : Prop :=
  clk w <= clk w' /\ forall k n e, remembers w k n e -> clk w' < e -> remembers w' k n e.

Class Clocked := {
  now_reads w : clk w <= (now w).1 <= clk (now w).2;
  now_evolves w : evolves w (now w).2
}.

Lemma evolves_trans w1 w2 w3 : evolves w1 w2 -> evolves w2 w3 -> evolves w1 w3.
Proof using Type. intros [C1 R1] [C2 R2]. split; [lia|]. intros k n e Hr Hc. apply R2; [apply R1; [done|lia]|done]. Qed.

Context `{!Clocked} (a : Authenticator W) `{!NonceStoreSpec (nonces a) clk remembers slack}.
Context (lookup_evolves : forall id w, evolves w (LookupByID (keys a) id w).2).

(** An accepted request: when it was read, when its nonce was recorded. *)
Lemma accepted_times m p h b w pr w' :
  Authenticate a m p h b w = (Ok pr, w') ->
  exists ts tv tr w2,
    ParseInt (Header_Get h "X-Timestamp") = Some ts /\ skew_of tv (time_Unix ts) <= maxSkew a /\
    clk w <= tv <= tr /\ tr <= clk w' /\ evolves w w2 /\ clk w2 <= tr /\
    remembers w' (pr_KeyID pr) (Header_Get h "X-Nonce") (tr + nonceTTL a) /\
    forall e, remembers w2 (pr_KeyID pr) (Header_Get h "X-Nonce") e -> e - slack <= tr.
Proof using All.
  intros E. destruct (Authenticate_cases a m p h b w) as [(e & Ee & _)|(rec & t & w2 & Hreads & Hs & Eq)]; [by rewrite E in Ee|].
  rewrite E in Eq. symmetry in Eq. apply check_nonce_ok in Eq as [-> Er].
  destruct Hs as (rawKey & ts & _ & _ & _ & Hts & Hsk & _). destruct Hreads as (rk & id & hh & w1 & _ & _ & El & En).
  pose proof (lookup_evolves id w) as Hl. rewrite El in Hl. cbn in Hl.
  pose proof (now_reads w1) as Hn. pose proof (now_evolves w1) as Hn2. rewrite En in Hn, Hn2. cbn in Hn, Hn2.
  destruct (remember_fresh _ _ _ _ _ Er) as (tr & Htr & Hmem & Hfresh).
  pose proof (evolves_trans _ _ _ Hl Hn2) as Hev. destruct Hl as [Hc _].
  exists ts, t, tr, w2. cbn. split_and!; try done; try lia.
Qed.

Lemma skew_of_close t ts mx :
  - 2 ^ 62 <= t < 2 ^ 62 -> - 2 ^ 62 <= of_unix ts < 2 ^ 62 -> skew_of t (time_Unix ts) <= mx -> - mx <= t - of_unix ts <= mx.
Proof using Type.
  intros Ht Hts. assert (Hu : time_Unix ts = of_unix ts).
  { unfold time_Unix. rewrite wrap64_small; [f_equal; lia|]. unfold of_unix, nanos in *. unfold_int64. lia. }
  rewrite Hu. unfold skew_of, Sub. assert (in_int64 (t - of_unix ts) = true) as -> by (unfold_int64; lia).
  destruct (Z.ltb_spec (t - of_unix ts) 0); [|lia].
  unfold sub64. rewrite wrap64_small by (unfold_int64; lia). lia.
Qed.

(** C8: Replays are refused.  Let a request be accepted, and let one with the
    same timestamp and nonce be presented later for the same key, whatever
    happened in between.  It is refused if it is answered before the nonce
    lifetime has passed since the first one arrived (less the store's clock
    resolution), and it is refused if it arrives more than twice the skew after
    the first one was answered.  So what [New] ensures, a lifetime of at least
    twice the skew, leaves a replay only the instants around that boundary, and
    answering it must take at least the lifetime less twice the skew.  Clocks and
    timestamp are within 146 years of 1970; the skew of a timestamp beyond wraps
    ([AuthMem.far_future_is_in_skew]). *)
Theorem replay_needs_delay m p h b w0 pr w1 w2 m' p' h' b' r w3
  (Httl : 0 <= nonceTTL a)
  (E1 : Authenticate a m p h b w0 = (Ok pr, w1)) (Hev : evolves w1 w2)
  (E2 : Authenticate a m' p' h' b' w2 = (r, w3))
  (Hnonce : Header_Get h' "X-Nonce" = Header_Get h "X-Nonce")
  (Hstamp : Header_Get h' "X-Timestamp" = Header_Get h "X-Timestamp")
  (Hclk : - 2 ^ 62 <= clk w0 /\ clk w3 < 2 ^ 62)
  (Hts : forall ts, ParseInt (Header_Get h "X-Timestamp") = Some ts -> - 2 ^ 62 <= of_unix ts < 2 ^ 62) :
  ((clk w3 - clk w0 < nonceTTL a - slack \/ 2 * maxSkew a < clk w2 - clk w1 \/ clk w3 - clk w2 < nonceTTL a - 2 * maxSkew a - slack) ->
   forall pr', r = Ok pr' -> pr_KeyID pr' <> pr_KeyID pr).
Proof using All.
  intros Hwhen pr' -> Hkey.
  destruct (accepted_times _ _ _ _ _ _ _ E1) as (ts & tv & tr & wa & Hp & Hs & Ht & Htr & _ & _ & Hrem & _).
  destruct (accepted_times _ _ _ _ _ _ _ E2) as (ts' & tv' & tr' & wb & Hp' & Hs' & Ht' & Htr' & Hevb & Hcb & _ & Hfresh).
  rewrite Hstamp, Hp in Hp'. injection Hp' as <-. rewrite Hkey, Hnonce in Hfresh.
  specialize (Hts ts Hp). pose proof Hev as [Hc12 _]. pose proof (slack_nonneg (N:=nonces a)) as Hsl.
  apply skew_of_close in Hs; [|lia|done]. apply skew_of_close in Hs'; [|lia|done].
  enough (tr + nonceTTL a - slack <= tr') by lia.
  destruct (Z.le_gt_cases (tr + nonceTTL a) (clk wb)) as [Hle|Hgt]; [lia|].
  specialize (Hfresh (tr + nonceTTL a)). destruct (evolves_trans _ _ _ Hev Hevb) as [_ Hk].
  exact (Hfresh (Hk _ _ _ Hrem Hgt)).
Qed.
End replay.

(** * A minted key works *)

(** Printable ASCII without the space. *)
Definition graphic (c : Ascii.ascii) : bool := in_range 33 126 (byte_val c).

Lemma strip_any_none fuel encs s : Forall (fun p => HasPrefix s p = false) encs -> strip_any fuel encs s = s.
Proof. intros Hs. destruct fuel; [done|]. cbn. by rewrite (proj2 (find_first_none _ _)). Qed.

Definition no_graphic_start (encs : list string) : bool :=
  forallb (fun p => match p with String d _ => negb (graphic d) | EmptyString => false end) encs.

Lemma graphic_not_stripped encs fuel s :
  no_graphic_start encs = true -> str_all graphic s = true -> s <> "" -> strip_any fuel encs s = s.
Proof.
  intros He Hs Hne. apply strip_any_none. destruct s as [|c s]; [done|]. cbn in Hs. apply andb_true_iff in Hs as [Hc _].
  apply list.Forall_forall. intros p Hp. unfold no_graphic_start in He. rewrite forallb_forall in He.
  apply list_elem_of_In, He in Hp. destruct p as [|d p]; [done|]. apply negb_true_iff in Hp.
  destruct (HasPrefix (String c s) (String d p)) eqn:E; [|done]. apply HasPrefix_spec in E as [r E].
  rewrite str_app_cons in E. injection E as -> _. congruence.
Qed.

Lemma rev_onto_all p s acc : str_all p (rev_onto s acc) = str_all p s && str_all p acc.
Proof. revert acc. induction s as [|c s IH]; intros acc; cbn; [done|]. rewrite IH. cbn. by destruct (p c), (str_all p s). Qed.

Lemma rev_onto_rev s acc t : rev_onto (rev_onto s acc) t = rev_onto acc (s +:+ t).
Proof. revert acc. induction s as [|c s IH]; intros acc; [done|]. cbn [rev_onto]. by rewrite IH. Qed.

Lemma str_rev_rev s : str_rev (str_rev s) = s.
Proof. unfold str_rev. rewrite rev_onto_rev. cbn. apply str_app_nil_r. Qed.

Lemma TrimSpace_graphic s : str_all graphic s = true -> TrimSpace s = s.
Proof.
  intros Hs. destruct (decide (s = "")) as [->|Hne]; [done|]. unfold TrimSpace.
  rewrite (graphic_not_stripped space_encodings) by (done || by vm_compute).
  rewrite graphic_not_stripped; [apply str_rev_rev|by vm_compute| |].
  - unfold str_rev. rewrite rev_onto_all, Hs. done.
  - intros E. apply Hne. by rewrite <- (str_rev_rev s), E.
Qed.

Lemma b32_char_graphic d : 0 <= d < 32 -> graphic (b32_char d) = true.
Proof.
  intros Hd. unfold graphic, b32_char, in_range. destruct (Z.ltb_spec d 26); rewrite byte_val_chr by lia; lia.
Qed.

Lemma b32_digits_graphic n v r : str_all graphic r = true -> str_all graphic (b32_digits n v r) = true.
Proof.
  intros Hr. revert v. induction n as [|n IH]; intros v; [done|]. cbn [b32_digits str_all].
  rewrite b32_char_graphic by (apply Z.mod_pos_bound; lia). apply IH.
Qed.

Lemma b32_lower_graphic b : str_all graphic (b32_lower b) = true.
Proof.
  assert (H : forall k b, (length b <= k)%nat -> str_all graphic (b32_lower b) = true); [|by apply (H (length b))].
  induction k as [|k IH]; intros [|x1 [|x2 [|x3 [|x4 [|x5 r]]]]] Hl; cbn [b32_lower length] in *; try done;
    try lia; apply b32_digits_graphic; try done. apply IH. lia.
Qed.

(** The headers a client sends. *)
Definition client_headers `{Sha256} (rawKey method path : string) (ts : Z) (nonce body : string) : Header :=
  {[ "Authorization" := ["Bearer " +:+ rawKey]; "X-Timestamp" := [FormatInt ts]; "X-Nonce" := [nonce];
     "X-Signature" := [Sign rawKey method path (FormatInt ts) nonce body] ]}.

Lemma substring_app a b : String.substring (String.length a) (String.length b) (a +:+ b) = b.
Proof.
  induction a as [|c a IH]; [|exact IH]. cbn [String.length]. rewrite str_app_nil. induction b as [|c b IH]; [done|].
  cbn. by rewrite IH.
Qed.

Lemma bearer_roundtrip key h :
  h !! "Authorization" = Some ["Bearer " +:+ key] -> str_all graphic key = true -> key <> "" -> bearerKey h = Ok key.
Proof.
  intros Ha Hk Hne. unfold bearerKey, Header_Get. rewrite Ha.
  change (String.eqb ("Bearer " +:+ key) "") with false. cbn [negb].
  change (EqualFold (String.substring 0 7 ("Bearer " +:+ key)) "Bearer ") with
    (String.eqb (str_map lower ("Bearer " +:+ String.substring 0 0 key)) (str_map lower "Bearer ")).
  assert (String.substring 0 0 key = "") as -> by (by destruct key).
  assert (Hl : String.length ("Bearer " +:+ key) = (7 + String.length key)%nat) by (rewrite str_app_length; done).
  rewrite Hl. assert ((7 <? 7 + String.length key)%nat = true) as ->.
  { apply Nat.ltb_lt. destruct key; [done|]. cbn. lia. }
  replace (7 + String.length key - 7)%nat with (String.length key) by lia.
  change 7%nat with (String.length "Bearer ") at 1. rewrite (substring_app "Bearer " key).
  by rewrite (TrimSpace_graphic key Hk).
Qed.

(** What a minted key is. *)
Lemma NewKey_ok `{Sha256} `{Runtime W} env org tier w g w' :
  NewKey env org tier w = (Ok g, w') ->
  str_all graphic (gk_Plaintext g) = true /\ gk_Plaintext g <> "" /\
  parseKey (gk_Plaintext g) = Ok (KeyID (gk_Record g), KeyHashHex (gk_Record g)) /\
  KeyHashHex (gk_Record g) = hex_encode (sha256 (gk_Plaintext g)) /\ Status (gk_Record g) = StatusActive /\
  principal_of (gk_Record g) =
    {| pr_OrgID := org; pr_KeyID := KeyID (gk_Record g); pr_Tier := tier; pr_Env := env; pr_Shadow := true |}.
Proof.
  unfold NewKey. assert (Hn : forall prefix buf, prefix = prefixTest \/ prefix = prefixLive ->
    let g := new_key prefix env org tier buf in
    str_all graphic (gk_Plaintext g) = true /\ gk_Plaintext g <> "" /\
    parseKey (gk_Plaintext g) = Ok (KeyID (gk_Record g), KeyHashHex (gk_Record g))).
  { intros prefix buf Hp. cbn. split_and!.
    - rewrite str_all_app, b32_lower_graphic. by destruct Hp as [-> | ->].
    - by destruct Hp as [-> | ->].
    - unfold parseKey. assert (HasPrefix (prefix +:+ b32_lower buf) prefix = true) as Hpre by (apply HasPrefix_spec; eauto).
      assert (negb (HasPrefix (prefix +:+ b32_lower buf) prefixLive) && negb (HasPrefix (prefix +:+ b32_lower buf) prefixTest) = false)
        as -> by (destruct Hp; subst prefix; rewrite Hpre; cbn; by rewrite ?andb_false_r). done. }
  destruct (Hn prefixTest (rand_Read secretBytes w).1) as (? & ? & ?); [by left|].
  destruct (Hn prefixLive (rand_Read secretBytes w).1) as (? & ? & ?); [by right|].
  destruct (String.eqb env EnvTest); [|destruct (String.eqb env EnvLive); [|done]];
    rewrite bind_let; intros E; injection E as <- <-; done.
Qed.

Lemma signed_headers_ok `{Sha256Laws} key m p ts nonce b :
  in_int64 ts = true -> 8 <= Z.of_nat (String.length nonce) <= 128 ->
  signature_headers (client_headers key m p ts nonce b) = Ok ts.
Proof.
  intros Hts Hn. unfold signature_headers. change (Header_Get _ "X-Timestamp") with (FormatInt ts).
  change (Header_Get _ "X-Nonce") with nonce.
  change (Header_Get _ "X-Signature") with (Sign key m p (FormatInt ts) nonce b).
  assert (String.eqb (FormatInt ts) "" = false) as ->.
  { apply String.eqb_neq. intros E. pose proof (ParseInt_FormatInt ts Hts) as Hp. by rewrite E in Hp. }
  assert (String.eqb nonce "" = false) as -> by (apply String.eqb_neq; intros ->; cbn in Hn; lia).
  assert (String.eqb (Sign key m p (FormatInt ts) nonce b) "" = false) as ->.
  { apply String.eqb_neq. intros E. apply (f_equal String.length) in E. unfold Sign, computeMAC in E.
    rewrite hex_encode_length, sha256_size in E. done. }
  cbn [orb]. assert ((String.length nonce <? 8)%nat = false) as -> by (apply Nat.ltb_ge; lia).
  assert ((128 <? String.length nonce)%nat = false) as -> by (apply Nat.ltb_ge; lia).
  cbn [orb]. by rewrite ParseInt_FormatInt.
Qed.

Lemma signed_check_ok `{Sha256} mx t key m p ts nonce b :
  skew_of t (time_Unix ts) <= mx -> check_signature mx t ts m p (client_headers key m p ts nonce b) b key = Ok tt.
Proof.
  intros Hs. unfold check_signature. rewrite (proj2 (Z.ltb_ge _ _)) by done.
  change (Header_Get _ "X-Timestamp") with (FormatInt ts). change (Header_Get _ "X-Nonce") with nonce.
  change (Header_Get _ "X-Signature") with (Sign key m p (FormatInt ts) nonce b).
  unfold Sign. by rewrite hex_decode_encode, String.eqb_refl.
Qed.

(** A stored record that carries the hash of a minted key, and is active, lets
    its holder in as its principal. *)
Lemma signed_authenticates `{Sha256Laws} `{Runtime W} (a : Authenticator W) env org tier g w0 w1 rec ts nonce m p b w2 w3 t w4 w5
  (Hg : NewKey env org tier w0 = (Ok g, w1))
  (Hid : KeyID rec = KeyID (gk_Record g)) (Hhex : KeyHashHex rec = KeyHashHex (gk_Record g)) (Hact : Status rec = StatusActive)
  (Hl : LookupByID (keys a) (KeyID rec) w2 = (Ok rec, w3))
  (Hnow : now w3 = (t, w4)) (Hts : in_int64 ts = true) (Hskew : skew_of t (time_Unix ts) <= maxSkew a)
  (Hnonce : 8 <= Z.of_nat (String.length nonce) <= 128)
  (Hfresh : Remember (nonces a) (KeyID rec) nonce (nonceTTL a) w4 = (Ok true, w5)) :
  Authenticate a m p (client_headers (gk_Plaintext g) m p ts nonce b) b w2 = (Ok (principal_of rec), w5).
Proof.
  destruct (NewKey_ok _ _ _ _ _ _ Hg) as (Hgr & Hne & Hparse & Hhash & Hst & Hpr). unfold Authenticate.
  rewrite (bearer_roundtrip (gk_Plaintext g)), Hparse, bind_let, <- Hid, Hl by done. cbn [fst snd].
  unfold check_record. rewrite Hhex, Hhash, !hex_decode_encode, String.eqb_refl, Hact. cbn [negb].
  change (String.eqb StatusActive StatusRevoked) with false. change (String.eqb StatusActive StatusActive) with true. cbn [negb].
  unfold verifySignature. rewrite signed_headers_ok by done. rewrite !bind_let, Hnow. cbn [fst snd mret io_ret].
  rewrite signed_check_ok by done. unfold check_nonce. rewrite bind_let. change (Header_Get _ "X-Nonce") with nonce.
  by rewrite Hfresh.
Qed.

(** Issue, sign, accept.  A key minted for an organisation, once its record
    is stored, authenticates every request its holder signs with a fresh nonce
    and a timestamp in the skew, for any method, path and body, as an
    advisory-mode principal of that organisation and tier. *)
Theorem minted_key_authenticates `{Sha256Laws} `{Runtime W} (a : Authenticator W) env org tier g w0 w1 ts nonce m p b w2 w3 t w4 w5
  (Hg : NewKey env org tier w0 = (Ok g, w1))
  (Hl : LookupByID (keys a) (KeyID (gk_Record g)) w2 = (Ok (gk_Record g), w3))
  (Hnow : now w3 = (t, w4)) (Hts : in_int64 ts = true) (Hskew : skew_of t (time_Unix ts) <= maxSkew a)
  (Hnonce : 8 <= Z.of_nat (String.length nonce) <= 128)
  (Hfresh : Remember (nonces a) (KeyID (gk_Record g)) nonce (nonceTTL a) w4 = (Ok true, w5)) :
  Authenticate a m p (client_headers (gk_Plaintext g) m p ts nonce b) b w2 =
  (Ok {| pr_OrgID := org; pr_KeyID := KeyID (gk_Record g); pr_Tier := tier; pr_Env := env; pr_Shadow := true |}, w5).
Proof.
  destruct (NewKey_ok _ _ _ _ _ _ Hg) as (Hgr & Hne & Hparse & Hhash & Hst & Hpr). rewrite <- Hpr.
  by eapply signed_authenticates.
Qed.

(** * Key administration *)

Lemma created_desc_total x y : created_desc x y = true \/ created_desc y x = true.
Proof. unfold created_desc, After. lia. Qed.
Lemma created_desc_trans x y z : created_desc x y = true -> created_desc y z = true -> created_desc x z = true.
Proof. unfold created_desc, After. lia. Qed.

(** The listing: an organisation's keys, no other's, newest first. *)
Lemma ListKeys_spec org m :
  StronglySorted (fun x y => ki_CreatedAt y <= ki_CreatedAt x) (ListKeys org m) /\
  forall ki, ki ∈ ListKeys org m <-> exists id rec, ms_keys m !! id = Some rec /\ OrgID rec = org /\ ki = infoOf m id rec.
Proof.
  split.
  - unfold ListKeys, sortByCreatedDesc. pose proof (sort_by_sorted _ created_desc_total created_desc_trans) as Hs.
    specialize (Hs (omap (fun '(id, rec) => if String.eqb (OrgID rec) org then Some (infoOf m id rec) else None) (map_to_list (ms_keys m)))).
    revert Hs. generalize (sort_by created_desc) as f. intros f Hs. induction Hs as [|x l Hl IH Hx]; [constructor|].
    constructor; [done|]. eapply list.Forall_impl; [exact Hx|]. unfold created_desc, After. intros y Hy. cbn in Hy. lia.
  - intros ki. unfold ListKeys, sortByCreatedDesc. rewrite sort_by_elem, list_elem_of_omap. split.
    + intros ([id rec] & Hin & E). apply elem_of_map_to_list in Hin.
      destruct (String.eqb_spec (OrgID rec) org) as [Ho|]; [|done]. injection E as <-. eauto.
    + intros (id & rec & Hk & Ho & ->). exists (id, rec). split; [by apply elem_of_map_to_list|]. by rewrite Ho, String.eqb_refl.
Qed.

(** A revoked record lets no one in, and tells only the holder of its secret
    why. *)
Lemma revoked_record_refused `{Sha256} `{Runtime W} (a : Authenticator W) m p h b w rawKey id hashHex rec w1 :
  bearerKey h = Ok rawKey -> parseKey rawKey = Ok (id, hashHex) -> LookupByID (keys a) id w = (Ok rec, w1) -> Status rec = StatusRevoked ->
  exists e, Authenticate a m p h b w = (Err e, w1) /\
    (e = errForbidden "This API key has been revoked." <-> hex_decode (KeyHashHex rec) = Some (sha256 rawKey)).
Proof.
  intros Hb Hp Hl Hs. unfold Authenticate. rewrite Hb, Hp, bind_let, Hl. cbn [fst snd].
  assert (hashHex = hex_encode (sha256 rawKey)) as ->.
  { unfold parseKey in Hp. destruct (_ && _); [done|]. by injection Hp as _ ->. }
  unfold check_record. rewrite hex_decode_encode, Hs.
  destruct (hex_decode (KeyHashHex rec)) as [st|] eqn:Eh; [|eexists; split; [reflexivity|]; done].
  destruct (String.eqb_spec st (sha256 rawKey)) as [->|Hne]; cbn [negb].
  - change (String.eqb StatusRevoked StatusRevoked) with true. by eexists.
  - eexists. split; [reflexivity|]. split; [done|]. congruence.
Qed.

(** Revocation is immediate at the store, and only its own organisation's.
    After it, the listing shows the key revoked at that time and every other
    key is as it was; a request presenting the key is refused before its
    signature or nonce is looked at, with a 403 exactly when the secret is the
    right one; and a key of another organisation cannot be revoked. *)
Theorem revoked_key_refused `{Sha256} `{Runtime W} (a : Authenticator W) org id at_ ms r ms' (E : RevokeKey org id at_ ms = (r, ms')) :
  match r with
  | Err e => e = ErrKeyNotFound /\ ms' = ms /\ (forall rec, ms_keys ms !! id = Some rec -> OrgID rec <> org)
  | Ok info =>
    ki_Status info = StatusRevoked /\ ki_RevokedAt info = Some at_ /\ info ∈ ListKeys org ms' /\
    (forall id', id' <> id -> ms_keys ms' !! id' = ms_keys ms !! id' /\ ms_info ms' !! id' = ms_info ms !! id') /\
    (forall m p h b rawKey hashHex w w1,
       bearerKey h = Ok rawKey -> parseKey rawKey = Ok (id, hashHex) -> LookupByID (keys a) id w = (Mem_LookupByID id ms', w1) ->
       exists e, Authenticate a m p h b w = (Err e, w1) /\
         (e = errForbidden "This API key has been revoked." <->
          exists rec, ms_keys ms !! id = Some rec /\ hex_decode (KeyHashHex rec) = Some (sha256 rawKey)))
  end.
Proof.
  unfold RevokeKey in E. destruct (ms_keys ms !! id) as [rec|] eqn:Ek; [|by injection E as <- <-].
  destruct (String.eqb_spec (OrgID rec) org) as [Ho|Ho]; cbn [negb] in E; injection E as <- <-; [|by split_and!; [..|intros ? [= <-]]].
  set (ms' := {| ms_keys := _ |}). assert (Hk' : ms_keys ms' !! id = Some (set_status StatusRevoked rec)) by apply lookup_insert_eq.
  assert (Hi' : ms_info ms' !! id = Some {| createdAt := createdAt (meta_of ms id); revokedAt := Some at_ |}) by apply lookup_insert_eq.
  split_and!.
  - done.
  - unfold infoOf, meta_of. cbn [ki_RevokedAt]. by rewrite Hi'.
  - apply ListKeys_spec. by exists id, (set_status StatusRevoked rec).
  - intros id' Hne. split; by apply lookup_insert_ne.
  - intros m p h b rawKey hashHex w w1 Hb Hp Hl. unfold Mem_LookupByID in Hl. rewrite Hk' in Hl.
    destruct (revoked_record_refused a m p h b w rawKey id hashHex _ w1 Hb Hp Hl eq_refl) as (e & Ha & He).
    exists e. split; [done|]. rewrite He. cbn. split; [intros Hd; by exists rec|]. by intros (rec' & [= <-] & Hd).
Qed.
