(* ===== verification/AuthMem.v ===== *)
(** The authenticator over the in-memory stores: they meet the interface, and
    concrete requests exercise the properties of [AuthProps.v]. *)

From S2P Require Import Prelude GoStrings GoTime Runtime Signing Samples Sha2 Auth AuthProps.

#[local] Existing Instance sha2.

Abbreviation aworld := (sworld (MemKeyStore * MemNonces)).
#[local] Instance aruntime : Runtime aworld := sample_runtime _.

Definition mem_keys : KeyStore aworld := {| LookupByID id w := (Mem_LookupByID id (sw_store w).1, w) |}.

Definition mem_nonces : NonceStore aworld :=
  {| Remember k n ttl w :=
       let '(t, w) := now w in
       let '(fresh, seen) := Mem_Remember t k n ttl (sw_store w).2 in
       (Ok fresh, {| sw_clock := sw_clock w; sw_store := ((sw_store w).1, seen) |}) |}.

Definition remembered (w : aworld) (k n : string) (e : time) : Prop :=
  exists e', (sw_store w).2 !! nonce_key k n = Some e' /\ e <= e'.

#[local] Instance mem_nonces_spec : NonceStoreSpec mem_nonces sw_clock remembered 0.
Proof.
  split.
  - lia.
  - intros k n ttl w. cbn. unfold Mem_Remember. destruct ((sw_store w).2 !! _) as [e|]; [destruct (After _ _)|]; cbn; lia.
  - intros k n ttl w k' n' e Httl (e' & Hk & He) _. cbn. unfold Mem_Remember, remembered, After, Add.
    destruct ((sw_store w).2 !! nonce_key k n) as [e2|] eqn:E; [destruct (Z.ltb_spec (sw_clock w) e2)|]; cbn; [by exists e'| |];
      (destruct (decide (nonce_key k n = nonce_key k' n')) as [Hc|Hc];
       [rewrite Hc, lookup_insert_eq; eexists; split; [done|]; rewrite Hc in E; rewrite E in Hk; simplify_eq; lia
       |exists e'; by rewrite lookup_insert_ne]).
  - intros k n ttl w w' E. exists (sw_clock w). cbn in E. unfold Mem_Remember, remembered, After, Add in *.
    destruct ((sw_store w).2 !! nonce_key k n) as [e2|] eqn:E2; [destruct (Z.ltb_spec (sw_clock w) e2)|]; cbn in E; simplify_eq;
      cbn; rewrite lookup_insert_eq; (split_and!; [lia|lia|eexists; split; [done|lia]|]); intros e (e' & Hk & He); simplify_eq; lia.
Qed.

#[local] Instance mem_clocked : Clocked sw_clock remembered.
Proof. split; intros w; cbn; [lia|]. split; [cbn; lia|]. by intros k n e H _. Qed.

Lemma mem_keys_evolves id w : evolves sw_clock remembered w (LookupByID mem_keys id w).2.
Proof. split; [done|]. by intros k n e H _. Qed.

(** * Sample data *)

Definition a0 : Authenticator aworld := New mem_keys mem_nonces {| cfg_MaxSkew := 5 * Minute; cfg_NonceTTL := 11 * Minute |}.

(** The defaults of [internal/config]: the lifetime is twice the skew. *)
Definition a_default : Authenticator aworld := New mem_keys mem_nonces {| cfg_MaxSkew := 5 * Minute; cfg_NonceTTL := 10 * Minute |}.

Definition k0 : GeneratedKey := new_key prefixLive EnvLive "org1" "pro" (repeat 7 32).
Definition w_start : aworld := world0 (CreateKey (gk_Record k0) t0 {| ms_keys := ∅; ms_info := ∅ |}, ∅).

Definition at_time (t : time) (w : aworld) : aworld := {| sw_clock := t; sw_store := sw_store w |}.

Definition h0 (ts : Z) : Header := client_headers (gk_Plaintext k0) "POST" "/v1/authorize" ts "nonce-001" "{}".
Definition send (a : Authenticator aworld) (ts : Z) : io aworld (result Error Principal) :=
  Authenticate a "POST" "/v1/authorize" (h0 ts) "{}".

Definition p0 : Principal :=
  {| pr_OrgID := "org1"; pr_KeyID := KeyID (gk_Record k0); pr_Tier := "pro"; pr_Env := EnvLive; pr_Shadow := true |}.

Example key_id_text : KeyID (gk_Record k0) = "azn_live_b69065107f6254d2".
Proof. vm_compute. reflexivity. Qed.

Example accepted_once : (send a0 1772445600 w_start).1 = Ok p0 /\ (send a0 1772445600 (send a0 1772445600 w_start).2).1 = Err errReplay.
Proof. vm_compute. done. Qed.

(** With the lifetime at twice the skew, what [New] ensures and the default, a
    request stamped five minutes ahead is accepted, and accepted again ten
    minutes later. *)
Example replay_at_the_boundary :
  (send a_default (1772445600 + 300) w_start).1 = Ok p0 /\
  (send a_default (1772445600 + 300) (at_time (t0 + 10 * Minute) (send a_default (1772445600 + 300) w_start).2)).1 = Ok p0.
Proof. vm_compute. done. Qed.

(** A timestamp 293 years ahead passes: the difference saturates at the least
    int64 and its negation wraps.  The signed request can be replayed whenever
    its nonce has expired. *)
Example far_future_is_in_skew :
  maxSkew a0 < 293 * 31556952 * Second /\
  (send a0 (1772445600 + 293 * 31556952) w_start).1 = Ok p0 /\
  (send a0 (1772445600 + 293 * 31556952) (at_time (t0 + 24 * Hour) (send a0 (1772445600 + 293 * 31556952) w_start).2)).1 = Ok p0.
Proof. vm_compute. done. Qed.

(** * Witnesses *)

Lemma canonicalString_injective_witness : canonicalString "post" "/a" "1" "n" "" = canonicalString "POST" "/a" "1" "n" "" /\ "/a" = "/a".
Proof.
  assert (E : canonicalString "post" "/a" "1" "n" "" = canonicalString "POST" "/a" "1" "n" "") by (vm_compute; reflexivity).
  split; [exact E|].
  exact (proj1 (proj2 (canonicalString_injective "post" "/a" "1" "n" "" "POST" "/a" "1" "n" "" eq_refl eq_refl eq_refl eq_refl eq_refl eq_refl E))).
Defined.

Lemma Authenticate_only_signed_witness :
  exists rec t w2, reads a0 (h0 1772445600) w_start rec t w2 /\ (sw_store w2).2 = (sw_store w_start).2 /\
    signed_request a0 t "POST" "/v1/authorize" (h0 1772445600) "{}" rec /\
    (forall pr, (send a0 1772445600 w_start).1 = Ok pr -> pr = principal_of rec).
Proof.
  assert (Hok : is_ok (send a0 1772445600 w_start).1 = true) by (vm_compute; reflexivity).
  exact (@Authenticate_only_signed _ _ _ (fun w => (sw_store w).2) aruntime ltac:(split; reflexivity) a0 "POST" "/v1/authorize" (h0 1772445600) "{}" w_start
    (send a0 1772445600 w_start).1 (send a0 1772445600 w_start).2 ltac:(intros; reflexivity) (surjective_pairing _) (or_introl Hok)).
Defined.

Lemma at_time_evolves t w : (sw_clock w <=? t) = true -> evolves sw_clock remembered w (at_time t w).
Proof. intros Ht. split; [by apply Z.leb_le|]. by intros k n e H _. Defined.

Lemma stamp_near ts : ParseInt (Header_Get (h0 (1772445600 + 300)) "X-Timestamp") = Some ts -> - 2 ^ 62 <= of_unix ts < 2 ^ 62.
Proof.
  assert (E : ParseInt (Header_Get (h0 (1772445600 + 300)) "X-Timestamp") = Some 1772445900) by (vm_compute; reflexivity).
  rewrite E. intros [= <-]. by vm_compute.
Defined.

(** The replay nine minutes later, and the one after eleven. *)
Lemma replay_needs_delay_witness :
  let w1 := (send a_default (1772445600 + 300) w_start).2 in
  (send a_default (1772445600 + 300) w_start).1 = Ok p0 /\ nonceTTL a_default = 2 * maxSkew a_default /\
  (forall pr', (send a_default (1772445600 + 300) (at_time (t0 + 9 * Minute) w1)).1 = Ok pr' -> pr_KeyID pr' <> pr_KeyID p0) /\
  (forall pr', (send a_default (1772445600 + 300) (at_time (t0 + 11 * Minute) w1)).1 = Ok pr' -> pr_KeyID pr' <> pr_KeyID p0).
Proof.
  intros w1. assert (Hok : (send a_default (1772445600 + 300) w_start).1 = Ok p0) by (vm_compute; reflexivity).
  pose proof (fun t => at_time_evolves t w1) as Hev.
  assert (Hrun : forall t, let r := send a_default (1772445600 + 300) (at_time t w1) in
    (sw_clock w1 <=? t) = true -> (sw_clock r.2 <? 2 ^ 62) = true ->
    (sw_clock r.2 - sw_clock w_start <? nonceTTL a_default) || (2 * maxSkew a_default <? t - sw_clock w1) = true ->
    forall pr', r.1 = Ok pr' -> pr_KeyID pr' <> pr_KeyID p0).
  { intros t r Ht Hc Hw.
    refine (replay_needs_delay sw_clock remembered 0 a_default mem_keys_evolves "POST" "/v1/authorize" (h0 (1772445600 + 300)) "{}" w_start
      p0 w1 (at_time t w1) "POST" "/v1/authorize" (h0 (1772445600 + 300)) "{}" r.1 r.2 _ _ (Hev t Ht) (surjective_pairing _) eq_refl eq_refl _ stamp_near _).
    - vm_compute. discriminate.
    - apply injective_projections; [exact Hok | reflexivity].
    - split; [vm_compute; discriminate | apply Z.ltb_lt; exact Hc].
    - apply orb_true_iff in Hw as [Hw|Hw]; apply Z.ltb_lt in Hw; [left; rewrite Z.sub_0_r; exact Hw|right; left; exact Hw]. }
  split; [exact Hok|]. split; [vm_compute; reflexivity|]. split; apply Hrun; vm_compute; reflexivity.
Defined.

#[local] Ltac pair_eval := apply injective_projections; [vm_compute; reflexivity | reflexivity].

Lemma minted_key_authenticates_witness :
  Authenticate a0 "POST" "/v1/authorize" (h0 1772445600) "{}" w_start =
  (Ok {| pr_OrgID := "org1"; pr_KeyID := KeyID (gk_Record k0); pr_Tier := "pro"; pr_Env := EnvLive; pr_Shadow := true |},
   (send a0 1772445600 w_start).2).
Proof.
  exact (@minted_key_authenticates sha2 sha2_laws _ aruntime a0 EnvLive "org1" "pro" k0 w_start w_start 1772445600 "nonce-001" "POST" "/v1/authorize" "{}"
    w_start w_start t0 (now w_start).2 (send a0 1772445600 w_start).2
    eq_refl ltac:(pair_eval) eq_refl eq_refl ltac:(by vm_compute) ltac:(by vm_compute) ltac:(pair_eval)).
Defined.

Lemma revoked_key_refused_witness :
  let id := KeyID (gk_Record k0) in
  let r := RevokeKey "org1" id (t0 + 1) (sw_store w_start).1 in
  is_ok r.1 = true /\
  match r.1 with Ok info => ki_Status info = StatusRevoked | Err _ => False end.
Proof.
  intros id r. assert (Hok : is_ok r.1 = true) by (vm_compute; reflexivity). split; [exact Hok|].
  pose proof (revoked_key_refused a0 "org1" id (t0 + 1) (sw_store w_start).1 r.1 r.2 (surjective_pairing r)) as H.
  destruct r.1 as [info|e]; [exact (proj1 H) | discriminate Hok].
Defined.
