(* ===== verification/AuthRedis.v ===== *)
(** Redis behind authentication ([internal/auth/redis.go]): the nonce store
    ([SET NX] with an expiry), which meets the interface of [AuthProps.v] up to
    the server's millisecond, and the cached key store. *)

From S2P Require Import Prelude GoStrings GoTime Runtime Signing Auth AuthProps Counter RedisKv.

Definition noncePrefix : string := "authnonce:".
Definition redis_nonce_key (keyID nonce : string) : string := noncePrefix +:+ keyID +:+ ":" +:+ nonce.

(** The expiry a client sends: whole seconds as [EX], else milliseconds as
    [PX]; a zero lifetime sends none. *)
Definition expiry_ms (ttl : duration) : Z :=
  if (Z.abs ttl <? Second) || negb (Z.rem ttl Second =? 0) then (if (0 <? ttl) && (ttl <? 1000000) then 1 else Z.quot ttl 1000000) else whole_seconds ttl * 1000.

Definition SetNX (key : string) (v : Z) (ttl : duration) (s : redis) : bool * redis :=
  match rget s key with
  | Some _ => (false, s)
  | None => (true, set_keys (<[key := (v, if ttl =? 0 then None else Some (rs_now s + expiry_ms ttl))]> (rs_keys s)) s)
  end.

Definition Redis_Remember (keyID nonce : string) (ttl : duration) (s : redis) : result string bool * redis :=
  if negb (rs_up s) then (Err "auth: nonce setnx", s)
  else let '(ok, s) := SetNX (redis_nonce_key keyID nonce) 1 ttl s in (Ok ok, s).

Definition RedisNonceStore : NonceStore redis := {| Remember := Redis_Remember |}.

(** * The cached key store *)

Section cached.
Context {W : Type}.

Record KeyCache := {
  cache_Get : string -> io W (result string (option KeyRecord));
  cache_Set : KeyRecord -> duration -> io W (result string unit)
}.

Record CachedKeyStore := { cache : KeyCache; source : KeyStore W; cache_ttl : duration }.

Definition Cached_LookupByID (s : CachedKeyStore) (keyID : string) : io W (result key_error KeyRecord) :=
  hit ← cache_Get (cache s) keyID;
  match hit with
  | Err e => mret (Err (KeyStoreFailed e))
  | Ok (Some rec) => mret (Ok rec)
  | Ok None =>
    r ← LookupByID (source s) keyID;
    match r with
    | Err e => mret (Err e)
    | Ok rec => _ ← cache_Set (cache s) rec (cache_ttl s); mret (Ok rec)
    end
  end.

(** A lookup never makes a record up: it is the cache's or the source's, and
    what it writes to the cache is the source's. *)
Lemma Cached_LookupByID_sound s id w rec w' :
  Cached_LookupByID s id w = (Ok rec, w') ->
  (cache_Get (cache s) id w = (Ok (Some rec), w')) \/
  (exists w1 w2, cache_Get (cache s) id w = (Ok None, w1) /\ LookupByID (source s) id w1 = (Ok rec, w2) /\
                 w' = (cache_Set (cache s) rec (cache_ttl s) w2).2).
Proof.
  unfold Cached_LookupByID. rewrite bind_let. destruct (cache_Get (cache s) id w) as [r1 w1]. cbn [fst snd].
  destruct r1 as [[r|]|e]; intros E; [left; by injection E as -> ->| |discriminate].
  rewrite bind_let in E. destruct (LookupByID (source s) id w1) as [r2 w2] eqn:El. cbn [fst snd] in E.
  destruct r2 as [r|e]; [|discriminate]. rewrite bind_let in E. injection E as -> <-. right. by exists w1, w2.
Qed.
End cached.

Arguments KeyCache : clear implicits.
Arguments CachedKeyStore : clear implicits.

(** ** The cache on a server *)

Class KeyCodec := { marshal_key : KeyRecord -> string; unmarshal_key : string -> option KeyRecord }.

Section keycache.
Context `{KeyCodec}.

Definition keyCachePrefix : string := "authkey:".

(** A corrupt entry is a miss. *)
Definition KeyCache_Get (keyID : string) (s : redis_kv) : result string (option KeyRecord) :=
  if negb (kv_up s) then Err "auth: key cache get" else Ok (kv_get s (keyCachePrefix +:+ keyID) ≫= unmarshal_key).

Definition KeyCache_Set (rec : KeyRecord) (ttl : duration) (s : redis_kv) : result string unit * redis_kv :=
  if negb (kv_up s) then (Err "auth: key cache set", s) else (Ok tt, kv_set (keyCachePrefix +:+ KeyID rec) (marshal_key rec) ttl s).

Definition KeyCache_Invalidate (keyID : string) (s : redis_kv) : result string unit * redis_kv :=
  if negb (kv_up s) then (Err "auth: key cache del", s) else (Ok tt, kv_del (keyCachePrefix +:+ keyID) s).

Context {W : Type} (get : W -> redis_kv) (put : redis_kv -> W -> W).

Definition RedisKeyCache : KeyCache W :=
  {| cache_Get id := zoom get put (fun s => (KeyCache_Get id s, s));
     cache_Set rec ttl := zoom get put (KeyCache_Set rec ttl) |}.

Definition RedisKeyCache_Invalidate (keyID : string) : io W (result string unit) := zoom get put (KeyCache_Invalidate keyID).
End keycache.

(** * The nonce store meets its interface *)

(** The server's clock, in nanoseconds. *)
Definition redis_clock (s : redis) : time := rs_now s * 1000000.

Definition redis_remembered (s : redis) (k n : string) (e : time) : Prop :=
  exists x, rs_keys s !! redis_nonce_key k n = Some (1, Some x) /\ e <= (x + 1) * 1000000.

Lemma expiry_ms_enough ttl : 0 <= ttl -> ttl < expiry_ms ttl * 1000000 + 1000000.
Proof.
  intros Ht. unfold expiry_ms, whole_seconds, Second, nanos.
  destruct (Z.ltb_spec (Z.abs ttl) 1000000000); cbn [orb].
  { destruct (_ && _) eqn:E; breflect; [|rewrite Z.quot_div_nonneg by lia]; zlia. }
  rewrite Z.rem_mod_nonneg by lia. destruct (Z.eqb_spec (ttl mod 1000000000) 0); cbn [negb]; [|destruct (_ && _) eqn:E; breflect; [zlia|]]; rewrite Z.quot_div_nonneg by lia; zlia.
Qed.

(** On a nonzero lifetime; the keys of the namespace are written only here. *)
Lemma redis_remember_fresh k n ttl s s' :
  0 < ttl -> Redis_Remember k n ttl s = (Ok true, s') ->
  redis_remembered s' k n (redis_clock s + ttl) /\ rs_now s' = rs_now s /\
  forall e, redis_remembered s k n e -> e - 1000000 <= redis_clock s.
Proof.
  intros Ht. unfold Redis_Remember, SetNX. destruct (rs_up s); [|done]. cbn [negb].
  destruct (rget s (redis_nonce_key k n)) as [p|] eqn:Er; intros E; [done|]. injection E as <-. unfold redis_remembered, redis_clock.
  split; [|split; [done|]].
  - cbn. rewrite lookup_insert_eq, (proj2 (Z.eqb_neq ttl 0)) by lia. eexists. split; [done|].
    pose proof (expiry_ms_enough ttl ltac:(lia)). lia.
  - intros e (x & Hx & He). unfold rget in Er. rewrite Hx in Er. cbn in Er. destruct (Z.leb_spec x (rs_now s)); [lia|done].
Qed.
