(* ===== verification/AuthPg.v ===== *)
(** The Postgres key store ([internal/auth/postgres.go]) on the table
    [api_keys], a map by its primary key.  Each method is one statement, which
    can be refused, and whose answer can be lost after it ran.  [stored] is what
    a [timestamptz] column keeps of an instant. *)

From stdpp Require Import relations.
From S2P Require Import Prelude GoStrings GoTime Runtime Signing Auth Pg.

Record key_row := { kr_rec : KeyRecord; kr_created : time; kr_revoked : option time }.

Abbreviation KeyRows := (gmap string key_row).

(** What the columns accept. *)
Definition key_fits (rec : KeyRecord) : bool :=
  forallb text_ok [KeyID rec; KeyHashHex rec; OrgID rec; Tier rec] && mem_str (Env rec) [EnvLive; EnvTest] && mem_str (Status rec) [StatusActive; StatusRevoked].

(** Another row under the key id, or with the hash. *)
Definition key_taken (rec : KeyRecord) (t : KeyRows) : bool :=
  match t !! KeyID rec with Some _ => true | None => existsb (fun x => String.eqb (KeyHashHex (kr_rec x.2)) (KeyHashHex rec)) (map_to_list t) end.

Definition info_of (row : key_row) : KeyInfo :=
  {| ki_KeyID := KeyID (kr_rec row); ki_OrgID := OrgID (kr_rec row); ki_Tier := Tier (kr_rec row); ki_Env := Env (kr_rec row);
     ki_Status := Status (kr_rec row); ki_Shadow := Shadow (kr_rec row); ki_CreatedAt := kr_created row; ki_RevokedAt := kr_revoked row |}.

Section pg.
Context (stored : time -> time).

(** * The statements *)

Definition select_key (id : string) (t : KeyRows) : result key_error KeyRecord :=
  if negb (text_ok id) then Err (KeyStoreFailed "auth: key lookup")
  else match t !! id with Some row => Ok (kr_rec row) | None => Err ErrKeyNotFound end.

Definition insert_key (rec : KeyRecord) (created : time) (t : KeyRows) : result string unit * KeyRows :=
  if negb (key_fits rec) || key_taken rec t then (Err "auth: key create", t)
  else (Ok tt, <[KeyID rec := {| kr_rec := rec; kr_created := created; kr_revoked := None |}]> t).

(** [ORDER BY created_at DESC]; [scan] is the order the table is read in. *)
Definition select_keys (org : string) (scan : list string) (t : KeyRows) : result string (list KeyInfo) :=
  if negb (text_ok org) then Err "auth: key list"
  else Ok (sort_by (fun a b => ki_CreatedAt b <=? ki_CreatedAt a)
             (info_of <$> filter (fun row => OrgID (kr_rec row) = org) (omap (fun id => t !! id) scan))).

Definition revoke_row (at_ : time) (row : key_row) : key_row :=
  {| kr_rec := set_status StatusRevoked (kr_rec row); kr_created := kr_created row; kr_revoked := Some (stored at_) |}.

Definition update_key (org id : string) (at_ : time) (t : KeyRows) : result key_error KeyInfo * KeyRows :=
  if negb (text_ok org && text_ok id) then (Err (KeyStoreFailed "auth: key revoke"), t)
  else match t !! id with
  | Some row =>
    if String.eqb (OrgID (kr_rec row)) org then (Ok (info_of (revoke_row at_ row)), <[id := revoke_row at_ row]> t) else (Err ErrKeyNotFound, t)
  | None => (Err ErrKeyNotFound, t)
  end.

(** * The methods *)

Definition on_keys {E A} (fail : string -> E) (f : fault) (s : KeyRows -> result E A * KeyRows) (t : KeyRows) : result E A * KeyRows :=
  match f with
  | Live => s t
  | Refused m => (Err (fail m), t)
  | Lost m => (Err (fail m), (s t).2)
  end.

Definition Pg_LookupByID (f : fault) (id : string) (t : KeyRows) : result key_error KeyRecord :=
  (on_keys KeyStoreFailed f (fun t => (select_key id t, t)) t).1.

(** The creation time is the database's clock. *)
Definition Pg_Insert (f : fault) (db_now : time) (rec : KeyRecord) (t : KeyRows) : result string unit * KeyRows :=
  on_keys id f (insert_key rec (stored db_now)) t.

Definition Pg_CreateKey (f : fault) (rec : KeyRecord) (created : time) (t : KeyRows) : result string unit * KeyRows :=
  on_keys id f (insert_key rec (stored created)) t.

Definition Pg_ListKeys (f : fault) (scan : list string) (org : string) (t : KeyRows) : result string (list KeyInfo) :=
  (on_keys id f (fun t => (select_keys org scan t, t)) t).1.

Definition Pg_RevokeKey (f : fault) (org id : string) (at_ : time) (t : KeyRows) : result key_error KeyInfo * KeyRows :=
  on_keys KeyStoreFailed f (update_key org id at_) t.

(** One statement of any instance. *)
Inductive key_step : KeyRows -> KeyRows -> Prop :=
| ks_insert f db_now rec t : key_step t (Pg_Insert f db_now rec t).2
| ks_create f rec created t : key_step t (Pg_CreateKey f rec created t).2
| ks_revoke f org id at_ t : key_step t (Pg_RevokeKey f org id at_ t).2.

(** The store as the authenticator takes it, over a world with the rows; [how]
    is what becomes of its statements. *)
Definition pg_key_store {W} (rows : W -> KeyRows) (how : W -> fault) : KeyStore W :=
  {| LookupByID id w := (Pg_LookupByID (how w) id (rows w), w) |}.
End pg.
