(* ===== verification/Keygen.v ===== *)
(** The command that mints an API key ([cmd/authz-keygen]): what it prints, and
    what it stores.  The flags are its arguments; the environment and the
    connection to the database are parameters. *)

From S2P Require Import Prelude GoStrings GoTime Runtime Signing Auth AuthProps Pg AuthPg.

Record flags := { fl_env : string; fl_org : string; fl_tier : string; fl_insert : bool; fl_enforce : bool }.

(** The defaults of the flags. *)
Definition default_flags : flags := {| fl_env := EnvTest; fl_org := ""; fl_tier := "default"; fl_insert := false; fl_enforce := false |}.

Definition fmt_bool (b : bool) : string := if b then "true" else "false".

Definition set_shadow (b : bool) (rec : KeyRecord) : KeyRecord :=
  {| KeyID := KeyID rec; KeyHashHex := KeyHashHex rec; OrgID := OrgID rec; Tier := Tier rec; Env := Env rec; Status := Status rec; Shadow := b |}.

Definition key_lines (plaintext : string) (rec : KeyRecord) : list string :=
  [ "API KEY (store securely — shown only once):"; "  " +:+ plaintext; "";
    "key_id:     " +:+ KeyID rec; "key_sha256: " +:+ KeyHashHex rec; "org_id:     " +:+ OrgID rec; "tier:       " +:+ Tier rec;
    "env:        " +:+ Env rec;
    "shadow:     " +:+ fmt_bool (Shadow rec) +:+ (if Shadow rec then "  (advisory/log-only — flip with -enforce to enforce)" else ""); "" ].

(** The values are put between quotes as they are. *)
Definition insert_lines (rec : KeyRecord) : list string :=
  [ "-- persist with:"; "INSERT INTO api_keys (key_id, key_sha256, org_id, tier, env, status, shadow)";
    "VALUES ('" +:+ KeyID rec +:+ "', '" +:+ KeyHashHex rec +:+ "', '" +:+ OrgID rec +:+ "', '" +:+ Tier rec +:+ "', '" +:+ Env rec +:+
    "', 'active', " +:+ fmt_bool (Shadow rec) +:+ ");" ].

(** How the process ends: its exit code, its output, the table. *)
Record ended := { exit_code : Z; stdout : list string; table : KeyRows }.

Section keygen.
Context `{Sha256} {W : Type} `{Runtime W} (stored : time -> time).

(** [dsn] is [DATABASE_URL], [connects] whether the pool opens, [how] what
    becomes of the insert, [db_now] the database's clock. *)
Definition keygen (fl : flags) (dsn : string) (connects : bool) (how : fault) (db_now : time) (t : KeyRows) : io W ended :=
  if String.eqb (fl_org fl) "" then mret {| exit_code := 2; stdout := []; table := t |}
  else
    gk ← NewKey (fl_env fl) (fl_org fl) (fl_tier fl);
    mret match gk with
    | Err _ => {| exit_code := 1; stdout := []; table := t |}
    | Ok gk =>
      let rec := set_shadow (negb (fl_enforce fl)) (gk_Record gk) in
      let lines := key_lines (gk_Plaintext gk) rec in
      if negb (fl_insert fl) then {| exit_code := 0; stdout := lines ++ insert_lines rec; table := t |}
      else if String.eqb dsn "" then {| exit_code := 2; stdout := lines; table := t |}
      else if negb connects then {| exit_code := 1; stdout := lines; table := t |}
      else match Pg_Insert stored how db_now rec t with
           | (Err _, t) => {| exit_code := 1; stdout := lines; table := t |}
           | (Ok _, t) => {| exit_code := 0; stdout := lines ++ ["inserted into api_keys."]; table := t |}
           end
    end.

(** An inserted key works.  When [authz-keygen -insert] exits with 0, the
    table has one new row, which has the key's hash and not the key; and a
    client that signs with the printed key, with a fresh nonce and a timestamp
    in the skew, is let in by every authenticator over the table as the
    organisation, tier and environment asked for, enforcing exactly when
    [-enforce] was given. *)
Theorem keygen_key_works `{!Sha256Laws} fl dsn connects how db_now t w e w1 (a : Authenticator W) rows ts nonce m p b w2 tm w4 w5
  (He : keygen fl dsn connects how db_now t w = (e, w1)) (Hok : exit_code e = 0) (Hins : fl_insert fl = true)
  (Ha : keys a = pg_key_store rows (fun _ => Live)) (Hrows : rows w2 = table e)
  (Hnow : now w2 = (tm, w4)) (Hts : in_int64 ts = true) (Hskew : skew_of tm (time_Unix ts) <= maxSkew a)
  (Hnonce : 8 <= Z.of_nat (String.length nonce) <= 128)
  (Hfresh : forall id, Remember (nonces a) id nonce (nonceTTL a) w4 = (Ok true, w5)) :
  exists gk rec, nth_error (stdout e) 1 = Some ("  " +:+ gk_Plaintext gk) /\ KeyHashHex rec = hex_encode (sha256 (gk_Plaintext gk)) /\
    table e = <[KeyID rec := {| kr_rec := rec; kr_created := stored db_now; kr_revoked := None |}]> t /\ t !! KeyID rec = None /\
    Authenticate a m p (client_headers (gk_Plaintext gk) m p ts nonce b) b w2 =
      (Ok {| pr_OrgID := fl_org fl; pr_KeyID := KeyID rec; pr_Tier := fl_tier fl; pr_Env := fl_env fl; pr_Shadow := negb (fl_enforce fl) |}, w5).
Proof.
  unfold keygen in He. destruct (String.eqb (fl_org fl) ""); [injection He as <- _; done|]. rewrite bind_let in He.
  destruct (NewKey _ _ _ w) as [[gk|e0] w0] eqn:Eg; cbn [fst snd] in He; [|injection He as <- _; done]. rewrite Hins in He. cbn [negb] in He.
  destruct (NewKey_ok _ _ _ _ _ _ Eg) as (_ & _ & _ & Hhash & Hst & Hpr).
  destruct (String.eqb dsn ""); [injection He as <- _; done|]. destruct (negb connects); [injection He as <- _; done|].
  set (rec := set_shadow _ _) in He. destruct (Pg_Insert stored how db_now rec t) as [r t'] eqn:Ei.
  destruct r as [[]|msg]; injection He as <- _; [|done]. exists gk, rec. cbn [stdout table nth_error app key_lines].
  unfold Pg_Insert in Ei. destruct how; cbn in Ei; [|done..]. unfold insert_key in Ei. destruct (negb (key_fits rec) || key_taken rec t) eqn:Eb; [done|].
  injection Ei as <-. apply orb_false_iff in Eb as [Hfit Ht]. unfold key_taken in Ht. destruct (t !! KeyID rec) eqn:Ek; [done|].
  split_and!; [done | exact Hhash | done | done|].
  assert (Hid : text_ok (KeyID rec) = true).
  { apply negb_false_iff in Hfit. unfold key_fits in Hfit. cbn [forallb] in Hfit. by destruct (text_ok (KeyID rec)). }
  replace {| pr_OrgID := fl_org fl; pr_KeyID := KeyID rec; pr_Tier := fl_tier fl; pr_Env := fl_env fl; pr_Shadow := negb (fl_enforce fl) |} with (principal_of rec).
  2:{ unfold principal_of in *. injection Hpr as Ho Hti Hen _. cbn. by rewrite Ho, Hti, Hen. }
  eapply (signed_authenticates a _ _ _ gk w w0 rec ts nonce m p b w2 w2 tm w4 w5); try done.
  rewrite Ha. cbn [pg_key_store LookupByID]. unfold Pg_LookupByID. cbn [on_keys fst]. unfold select_key. rewrite Hid. cbn [negb].
  cbn [table] in Hrows. by rewrite Hrows, lookup_insert_eq.
Qed.
End keygen.

(** An organisation with a quote ends the literal of the printed statement. *)
Example printed_statement_is_not_quoted `{Sha256} :
  nth_error (insert_lines (set_shadow false (gk_Record (new_key prefixTest EnvTest "acme', 'enterprise', 'live', 'active', false) --" "free" [])))) 2 =
  Some ("VALUES ('" +:+ KeyID (gk_Record (new_key prefixTest EnvTest "" "" [])) +:+ "', '" +:+ KeyHashHex (gk_Record (new_key prefixTest EnvTest "" "" [])) +:+
        "', 'acme', 'enterprise', 'live', 'active', false) --', 'free', 'test', 'active', false);").
Proof. unfold insert_lines. cbn [nth_error]. cbn [set_shadow new_key gk_Record KeyID KeyHashHex OrgID Tier Env Shadow fmt_bool]. by rewrite <- ?str_app_assoc. Qed.
