(* ===== verification/AuthPgProps.v ===== *)
(** What the Postgres key store guarantees: a key keeps its secret and its
    organisation and never comes back from revocation, whatever statements
    follow; and it answers as the in-memory store does. *)

From stdpp Require Import relations.
From S2P Require Import Prelude GoStrings GoTime Runtime Signing Auth AuthProps Pg AuthPg.

Section props.
Context (stored : time -> time).

(** * The life of a key *)

(** Statements change a row's status and revocation stamp only, to revoked. *)
Definition row_evolves (a b : key_row) : Prop :=
  kr_created b = kr_created a /\ (kr_rec b = kr_rec a \/ kr_rec b = set_status StatusRevoked (kr_rec a)).

Record rows_ok (t : KeyRows) : Prop := {
  ro_id id row : t !! id = Some row -> KeyID (kr_rec row) = id;
  ro_hash id id' row row' : t !! id = Some row -> t !! id' = Some row' -> KeyHashHex (kr_rec row) = KeyHashHex (kr_rec row') -> id = id';
  ro_stamp id row : t !! id = Some row -> is_Some (kr_revoked row) -> Status (kr_rec row) = StatusRevoked
}.

Definition rows_evolve (t t' : KeyRows) : Prop := forall id row, t !! id = Some row -> exists row', t' !! id = Some row' /\ row_evolves row row'.

Lemma row_evolves_refl a : row_evolves a a.
Proof using Type. split; auto. Qed.

Lemma row_evolves_trans a b c : row_evolves a b -> row_evolves b c -> row_evolves a c.
Proof using Type.
  intros [C1 R1] [C2 R2]. split; [congruence|]. destruct R2 as [-> | ->]; [done|]. right. destruct R1 as [-> | ->]; [done|]. by destruct (kr_rec a).
Qed.

Lemma rows_evolve_refl t : rows_evolve t t.
Proof using Type. intros id row Hr. exists row. split; [done|apply row_evolves_refl]. Qed.

Lemma rows_evolve_trans t1 t2 t3 : rows_evolve t1 t2 -> rows_evolve t2 t3 -> rows_evolve t1 t3.
Proof using Type.
  intros E1 E2 id row Hr. destruct (E1 id row Hr) as (row2 & Hr2 & Hv). destruct (E2 id row2 Hr2) as (row3 & Hr3 & Hv2). exists row3.
  split; [done|by eapply row_evolves_trans].
Qed.

Lemma insert_key_ok rec created t : rows_ok t -> rows_ok (insert_key rec created t).2 /\ rows_evolve t (insert_key rec created t).2.
Proof using Type.
  intros W. unfold insert_key. destruct (negb (key_fits rec) || key_taken rec t) eqn:Eb; [split; [done|apply rows_evolve_refl]|]. cbn [snd].
  apply orb_false_iff in Eb as [_ Et]. unfold key_taken in Et. destruct (t !! KeyID rec) as [r|] eqn:Ek; [done|].
  assert (Hfresh : forall id row, t !! id = Some row -> KeyHashHex (kr_rec row) <> KeyHashHex rec).
  { intros id row Hr Heq. apply not_true_iff_false in Et. apply Et, existsb_exists. exists (id, row). split; [by apply list_elem_of_In, elem_of_map_to_list|]. cbn.
    by apply String.eqb_eq. }
  split.
  - split.
    + intros id row Hr. apply lookup_insert_Some in Hr as [[<- <-]|[_ Hr]]; [done|]. by apply (ro_id _ W).
    + intros id id' row row' Hr Hr' Hh. apply lookup_insert_Some in Hr as [[<- <-]|[_ Hr]]; apply lookup_insert_Some in Hr' as [[<- <-]|[_ Hr']]; [done| | |].
      * by destruct (Hfresh _ _ Hr').
      * by destruct (Hfresh _ _ Hr).
      * by eapply (ro_hash _ W).
    + intros id row Hr. apply lookup_insert_Some in Hr as [[<- <-]|[_ Hr]]; [by intros [x Hx]|]. by eapply (ro_stamp _ W).
  - intros id row Hr. exists row. split; [|apply row_evolves_refl]. rewrite lookup_insert_ne; [done|]. congruence.
Qed.

Lemma update_key_ok org id at_ t : rows_ok t -> rows_ok (update_key stored org id at_ t).2 /\ rows_evolve t (update_key stored org id at_ t).2.
Proof using Type.
  intros W. unfold update_key. destruct (negb _); [split; [done|apply rows_evolve_refl]|]. destruct (t !! id) as [r|] eqn:Ek; [|split; [done|apply rows_evolve_refl]].
  destruct (String.eqb _ _); [|split; [done|apply rows_evolve_refl]]. cbn [snd].
  assert (Hh : forall i row, <[id := revoke_row stored at_ r]> t !! i = Some row -> exists row0, t !! i = Some row0 /\ KeyHashHex (kr_rec row0) = KeyHashHex (kr_rec row) /\ KeyID (kr_rec row0) = KeyID (kr_rec row)).
  { intros i row Hr. apply lookup_insert_Some in Hr as [[<- <-]|[_ Hr]]; eauto. }
  split.
  - split.
    + intros i row Hr. destruct (Hh _ _ Hr) as (row0 & Hr0 & _ & <-). by apply (ro_id _ W).
    + intros i i' row row' Hr Hr' He. destruct (Hh _ _ Hr) as (r0 & Hr0 & H0 & _). destruct (Hh _ _ Hr') as (r1 & Hr1 & H1 & _). eapply (ro_hash _ W); [done..|congruence].
    + intros i row Hr. apply lookup_insert_Some in Hr as [[<- <-]|[_ Hr]]; [done|]. by eapply (ro_stamp _ W).
  - intros i row Hr. destruct (decide (i = id)) as [->|Hne].
    + assert (r = row) as -> by congruence. exists (revoke_row stored at_ row). rewrite lookup_insert_eq. split; [done|]. split; [done|]. by right.
    + exists row. rewrite lookup_insert_ne by done. split; [done|apply row_evolves_refl].
Qed.

Lemma on_keys_snd {E A} (fail : string -> E) f (s : KeyRows -> result E A * KeyRows) t : (on_keys fail f s t).2 = t \/ (on_keys fail f s t).2 = (s t).2.
Proof using Type. destruct f; cbn; auto. Qed.

Lemma key_step_ok t t' : key_step stored t t' -> rows_ok t -> rows_ok t' /\ rows_evolve t t'.
Proof using Type.
  intros [f db_now rec t0|f rec created t0|f org id at_ t0] W; unfold Pg_Insert, Pg_CreateKey, Pg_RevokeKey;
    match goal with |- context [on_keys ?fl ?f ?s ?t] => destruct (on_keys_snd fl f s t) as [-> | ->] end;
    first [split; [done|apply rows_evolve_refl] | by apply insert_key_ok | by apply update_key_ok].
Qed.

Lemma key_steps_ok t t' : rtc (key_step stored) t t' -> rows_ok t -> rows_ok t' /\ rows_evolve t t'.
Proof using Type.
  induction 1 as [t|t t1 t2 Hs _ IH]; intros W; [split; [done|apply rows_evolve_refl]|]. destruct (key_step_ok _ _ Hs W) as [W1 E1]. destruct (IH W1) as [W2 E2].
  split; [done|by eapply rows_evolve_trans].
Qed.

Lemma no_rows_ok : rows_ok ∅.
Proof using Type. split; intros *; by rewrite lookup_empty. Qed.
End props.

(** C19: The life of a key over Postgres.  Whatever statements of any instances
    follow, refused, unanswered or not: a key keeps its id, secret, organisation,
    tier, environment, mode and creation time, and at most becomes revoked; no
    two keys have the same secret; and once a revocation was answered, or took
    effect without an answer, every request with the key is refused before its
    signature and nonce are looked at, by every authenticator over the rows. *)
Theorem pg_key_lifecycle `{Sha256} `{Runtime World} stored t (Hr : rtc (key_step stored) ∅ t) :
  (forall t' id row, rtc (key_step stored) t t' -> t !! id = Some row ->
     exists row', t' !! id = Some row' /\ kr_created row' = kr_created row /\
       (kr_rec row' = kr_rec row \/ kr_rec row' = set_status StatusRevoked (kr_rec row))) /\
  (forall id id' row row', t !! id = Some row -> t !! id' = Some row' -> KeyHashHex (kr_rec row) = KeyHashHex (kr_rec row') -> id = id') /\
  (forall f org id at_ t1 t2 info (a : Authenticator World) rows how m p h b rawKey hashHex w,
     update_key stored org id at_ t = (Ok info, t1) -> (f = Live \/ exists msg, f = Lost msg) ->
     rtc (key_step stored) (Pg_RevokeKey stored f org id at_ t).2 t2 ->
     keys a = pg_key_store rows how -> rows w = t2 -> bearerKey h = Ok rawKey -> parseKey rawKey = Ok (id, hashHex) ->
     ki_Status info = StatusRevoked /\ exists e, Authenticate a m p h b w = (Err e, w)).
Proof.
  destruct (key_steps_ok stored _ _ Hr no_rows_ok) as [W _]. split_and!.
  - intros t' id row Hs Hrow. destruct (key_steps_ok stored _ _ Hs W) as [_ He]. destruct (He id row Hrow) as (row' & Hrow' & ? & ?). eauto.
  - apply (ro_hash _ W).
  - intros f org id at_ t1 t2 info a rows how m p h b rawKey hashHex w E Hf Hs Ha Hw Hb Hp.
    assert (E2 : (Pg_RevokeKey stored f org id at_ t).2 = t1) by (unfold Pg_RevokeKey; destruct Hf as [-> |[msg ->]]; cbn; by rewrite E).
    rewrite E2 in Hs. destruct (update_key_ok stored org id at_ t W) as [W1 _]. rewrite E in W1. cbn [snd] in W1.
    destruct (key_steps_ok stored _ _ Hs W1) as [_ He].
    assert (Hrow : exists row, t1 !! id = Some row /\ Status (kr_rec row) = StatusRevoked /\ info = info_of row).
    { unfold update_key in E. destruct (negb _); [done|]. destruct (t !! id) as [row|]; [|done]. destruct (String.eqb _ _); [|done].
      injection E as <- <-. exists (revoke_row stored at_ row). by rewrite lookup_insert_eq. }
    destruct Hrow as (row & Hrow & Hst & ->). split; [done|]. destruct (He id row Hrow) as (row' & Hrow' & _ & Hrec).
    assert (Hst' : Status (kr_rec row') = StatusRevoked) by (by destruct Hrec as [-> | ->]).
    destruct (Pg_LookupByID (how w) id (rows w)) as [rec|e] eqn:El.
    + assert (rec = kr_rec row') as ->.
      { unfold Pg_LookupByID in El. destruct (how w); cbn in El; try done. unfold select_key in El. destruct (negb _); [done|].
        rewrite Hw, Hrow' in El. by injection El. }
      assert (Hl : LookupByID (keys a) id w = (Ok (kr_rec row'), w)) by (rewrite Ha; cbn; by rewrite El).
      destruct (revoked_record_refused a m p h b w rawKey id hashHex _ w Hb Hp Hl Hst') as (e & He' & _). by exists e.
    + assert (Hl : LookupByID (keys a) id w = (Err e, w)) by (rewrite Ha; cbn; by rewrite El).
      unfold Authenticate. rewrite Hb, Hp, bind_let, Hl. cbn [fst snd]. destruct e; by eexists.
Qed.

(** * The store against the in-memory store *)

Inductive key_op :=
| KLookup (id : string)
| KCreate (rec : KeyRecord) (created : time)
| KList (org : string) (scan : list string)
| KRevoke (org id : string) (at_ : time).

Inductive key_answer :=
| RKey (r : result key_error KeyRecord)
| RDone (r : result string unit)
| RList (r : result string (list KeyInfo))
| RInfo (r : result key_error KeyInfo).

Definition mem_key_op (o : key_op) (m : MemKeyStore) : key_answer * MemKeyStore :=
  match o with
  | KLookup id => (RKey (Mem_LookupByID id m), m)
  | KCreate rec created => (RDone (Ok tt), CreateKey rec created m)
  | KList org _ => (RList (Ok (ListKeys org m)), m)
  | KRevoke org id at_ => let '(r, m) := RevokeKey org id at_ m in (RInfo r, m)
  end.

Lemma newest_first l : StronglySorted (fun x y => ki_CreatedAt y <= ki_CreatedAt x) (sort_by (fun a b => ki_CreatedAt b <=? ki_CreatedAt a) l).
Proof.
  assert (Hs : StronglySorted (fun a b => (ki_CreatedAt b <=? ki_CreatedAt a) = true) (sort_by (fun a b => ki_CreatedAt b <=? ki_CreatedAt a) l)).
  { apply sort_by_sorted; intros; lia. }
  revert Hs. generalize (sort_by (fun a b => ki_CreatedAt b <=? ki_CreatedAt a) l). intros l'. induction 1 as [|x l0 _ IH Hx]; constructor; [done|].
  eapply list.Forall_impl; [exact Hx|]. cbn. intros; lia.
Qed.

Section refinement.
Context (stored : time -> time).

Definition pg_key_op (o : key_op) (t : KeyRows) : key_answer * KeyRows :=
  match o with
  | KLookup id => (RKey (Pg_LookupByID Live id t), t)
  | KCreate rec created => let '(r, t) := Pg_CreateKey stored Live rec created t in (RDone r, t)
  | KList org scan => (RList (Pg_ListKeys Live scan org t), t)
  | KRevoke org id at_ => let '(r, t) := Pg_RevokeKey stored Live org id at_ t in (RInfo r, t)
  end.

(** Listings agree up to the order of keys of the same instant. *)
Definition same_answer (a b : key_answer) : Prop :=
  match a, b with
  | RList (Ok l), RList (Ok l') =>
    l ≡ₚ l' /\ StronglySorted (fun x y => ki_CreatedAt y <= ki_CreatedAt x) l /\ StronglySorted (fun x y => ki_CreatedAt y <= ki_CreatedAt x) l'
  | _, _ => a = b
  end.

(** Texts that fit, times that are kept, fresh ids and secrets, and a scan that
    reads every row once. *)
Definition key_op_fits (o : key_op) (t : KeyRows) : Prop :=
  match o with
  | KLookup id => text_ok id = true
  | KCreate rec created => key_fits rec = true /\ key_taken rec t = false /\ stored created = created
  | KList org scan => text_ok org = true /\ NoDup scan /\ forall id, is_Some (t !! id) -> id ∈ scan
  | KRevoke org id at_ => text_ok org && text_ok id = true /\ stored at_ = at_
  end.

Definition same_keys (t : KeyRows) (m : MemKeyStore) : Prop :=
  forall id, ms_keys m !! id = kr_rec <$> t !! id /\
    forall row, t !! id = Some row -> KeyID (kr_rec row) = id /\ ms_info m !! id = Some {| createdAt := kr_created row; revokedAt := kr_revoked row |}.

Lemma same_info t m id row : same_keys t m -> t !! id = Some row -> infoOf m id (kr_rec row) = info_of row.
Proof using Type. intros S Hr. destruct (proj2 (S id) row Hr) as [_ Hi]. unfold infoOf, info_of, meta_of. by rewrite Hi. Qed.

Lemma list_agrees t m org scan :
  same_keys t m -> key_op_fits (KList org scan) t -> same_answer (RList (Pg_ListKeys Live scan org t)) (RList (Ok (ListKeys org m))).
Proof using Type.
  intros S (Ht & Hnd & Hscan). unfold Pg_ListKeys. cbn [on_keys fst]. unfold select_keys. rewrite Ht. cbn [negb same_answer].
  destruct (ListKeys_spec org m) as [Hsort _]. split_and!; [|apply newest_first|exact Hsort].
  unfold ListKeys, sortByCreatedDesc. rewrite !sort_by_perm.
  assert (Hl : forall l, NoDup l -> (forall id, is_Some (t !! id) -> id ∈ l) -> omap (fun id => t !! id) l ≡ₚ (map_to_list t).*2).
  { intros l Hn Hin. apply scan_rows_perm; done. }
  rewrite (Hl scan Hnd Hscan). clear Hl Hscan Hnd scan.
  assert (Hm : ms_keys m = kr_rec <$> t) by (apply map_eq; intros id; by rewrite lookup_fmap, (proj1 (S id))).
  rewrite Hm, map_to_list_fmap. clear Hm. assert (Hall : Forall (fun p => t !! p.1 = Some p.2) (map_to_list t)).
  { apply list.Forall_forall. intros [k x] Hin. by apply elem_of_map_to_list in Hin. }
  induction Hall as [|[k row] l Hr _ IH]; [done|]. rewrite !fmap_cons, filter_cons. cbn [omap list_omap prod_map fst snd id] in *. rewrite (same_info _ _ _ _ S Hr).
  destruct (String.eqb_spec (OrgID (kr_rec row)) org) as [Ho|Ho]; [rewrite decide_True by done; cbn; by rewrite IH|by rewrite decide_False].
Qed.

Lemma key_op_same o t m :
  same_keys t m -> key_op_fits o t -> same_answer (pg_key_op o t).1 (mem_key_op o m).1 /\ same_keys (pg_key_op o t).2 (mem_key_op o m).2.
Proof using Type.
  intros S Hf. destruct o as [k|rec created|org scan|org k at_]; cbn [pg_key_op mem_key_op] in *.
  - split; [|done]. cbn in Hf |- *. unfold Pg_LookupByID, Mem_LookupByID. cbn [on_keys fst]. unfold select_key. rewrite Hf, (proj1 (S k)). by destruct (t !! k).
  - destruct Hf as (Hfit & Ht & Hc). unfold Pg_CreateKey, insert_key. cbn [on_keys]. rewrite Hfit, Ht, Hc. cbn. split; [done|].
    intros k. cbn. destruct (decide (k = KeyID rec)) as [->|Hne].
    + rewrite !lookup_insert_eq. split; [done|]. by intros row [= <-].
    + rewrite !lookup_insert_ne by done. apply S.
  - split; [|done]. by apply list_agrees.
  - destruct Hf as [Ht Hat]. unfold Pg_RevokeKey, RevokeKey. cbn [on_keys]. unfold update_key. rewrite Ht, (proj1 (S k)). cbn [negb].
    destruct (t !! k) as [row|] eqn:Er; [|done]. cbn [fmap option_fmap option_map]. destruct (String.eqb (OrgID (kr_rec row)) org); [|done]. cbn [negb fst snd].
    destruct (proj2 (S k) row Er) as [Hk Hi].
    assert (S' : same_keys (<[k := revoke_row stored at_ row]> t)
      {| ms_keys := <[k := set_status StatusRevoked (kr_rec row)]> (ms_keys m);
         ms_info := <[k := {| createdAt := createdAt (meta_of m k); revokedAt := Some at_ |}]> (ms_info m) |}).
    { intros k'. cbn. destruct (decide (k' = k)) as [->|Hne]; [|rewrite !lookup_insert_ne by done; apply S].
      rewrite !lookup_insert_eq. split; [done|]. intros row' [= <-]. split; [exact Hk|]. unfold meta_of. rewrite Hi. cbn. by rewrite Hat. }
    split; [|exact S']. cbn [same_answer]. do 2 f_equal. symmetry.
    apply (same_info _ _ k (revoke_row stored at_ row) S'). by rewrite lookup_insert_eq.
Qed.

(** Run a sequence on both. *)
Fixpoint all_answers_agree (os : list key_op) (t : KeyRows) (m : MemKeyStore) : Prop :=
  match os with
  | [] => True
  | o :: os => same_answer (pg_key_op o t).1 (mem_key_op o m).1 /\ all_answers_agree os (pg_key_op o t).2 (mem_key_op o m).2
  end.

Fixpoint all_keys_fit (os : list key_op) (t : KeyRows) : Prop :=
  match os with [] => True | o :: os => key_op_fits o t /\ all_keys_fit os (pg_key_op o t).2 end.

(** The Postgres key store answers as the in-memory store.  From empty
    stores, any sequence of lookups, creations, listings and revocations that fit
    the columns and use fresh ids and secrets gets the same answers from both,
    listings newest first and up to the order of keys of one instant. *)
Theorem pg_keys_refine_memory os (Hf : all_keys_fit os ∅) : all_answers_agree os ∅ (NewMemKeyStore []).
Proof using Type.
  assert (S : same_keys ∅ (NewMemKeyStore [])) by (intros k; split; [done|]; intros row; by rewrite lookup_empty).
  revert S Hf. generalize (∅ : KeyRows), (NewMemKeyStore []). induction os as [|o os IH]; intros t m S Hf; [done|].
  destruct Hf as [Hf Hrest]. destruct (key_op_same o t m S Hf) as [Ha S']. split; [done|]. by apply IH.
Qed.
End refinement.
