(* ===== verification/AuthPgMem.v ===== *)
(** The Postgres key store on concrete data: the witnesses of [AuthPgProps.v]. *)

From stdpp Require Import relations.
From S2P Require Import Prelude GoStrings GoTime Runtime Signing Samples Sha2 Auth AuthProps AuthMem Pg AuthPg AuthPgProps.

#[local] Existing Instance sha2.

Abbreviation kworld := (sworld KeyRows).
#[local] Instance kruntime : Runtime kworld := sample_runtime _.

Definition row_store : KeyStore kworld := pg_key_store sw_store (fun _ => Live).
Definition no_nonces : NonceStore kworld := {| Remember k n ttl w := (Ok true, w) |}.
Definition a_pg : Authenticator kworld := New row_store no_nonces {| cfg_MaxSkew := 5 * Minute; cfg_NonceTTL := 11 * Minute |}.

Definition id0 : string := KeyID (gk_Record k0).
Definition created_rows : KeyRows := (Pg_CreateKey micros Live (gk_Record k0) t0 ∅).2.

(** The answer to the revocation is lost; the same key is not created again. *)
Definition revoked_rows : KeyRows := (Pg_RevokeKey micros (Lost "connection reset") "org1" id0 (t0 + 1) created_rows).2.
Definition later_rows : KeyRows := (Pg_CreateKey micros Live (gk_Record k0) t0 revoked_rows).2.

Definition send_pg (rows : KeyRows) : result Error Principal :=
  (Authenticate a_pg "POST" "/v1/authorize" (h0 1772445600) "{}" (world0 rows)).1.

Example pg_accepts_then_refuses : send_pg created_rows = Ok p0 /\ send_pg later_rows = Err (errForbidden "This API key has been revoked.").
Proof. vm_compute. done. Qed.

Lemma pg_key_lifecycle_witness :
  exists e, Authenticate a_pg "POST" "/v1/authorize" (h0 1772445600) "{}" (world0 later_rows) = (Err e, world0 later_rows).
Proof.
  assert (Hr : rtc (key_step micros) ∅ created_rows) by (apply rtc_once, (ks_create micros Live)).
  destruct (pg_key_lifecycle (World:=kworld) micros created_rows Hr) as (_ & _ & Hrev).
  assert (E : is_ok (update_key micros "org1" id0 (t0 + 1) created_rows).1 = true) by (vm_compute; reflexivity).
  destruct (update_key micros "org1" id0 (t0 + 1) created_rows) as [[info|e] t1] eqn:Eu; [|discriminate E].
  refine (proj2 (Hrev (Lost "connection reset") "org1" id0 (t0 + 1) t1 later_rows info a_pg sw_store (fun _ => Live) "POST" "/v1/authorize" (h0 1772445600) "{}"
    (gk_Plaintext k0) (KeyHashHex (gk_Record k0)) (world0 later_rows) Eu _ _ eq_refl eq_refl _ _)).
  - right. by eexists.
  - apply rtc_once. exact (ks_create micros Live (gk_Record k0) t0 revoked_rows).
  - vm_compute. reflexivity.
  - vm_compute. reflexivity.
Defined.

Definition key2 : KeyRecord := gk_Record (new_key prefixTest EnvTest "org1" "free" (repeat 9 32)).

Definition key_calls : list key_op :=
  [KCreate (gk_Record k0) 1000; KCreate key2 2000; KLookup id0; KList "org1" [id0; KeyID key2]; KRevoke "org2" id0 3000; KRevoke "org1" id0 3000;
   KLookup id0; KList "org1" [KeyID key2; id0]].

Lemma covers t (scan : list string) : forallb (fun p => mem_str p.1 scan) (map_to_list t) = true -> forall id, is_Some ((t : KeyRows) !! id) -> id ∈ scan.
Proof.
  intros Ha id [row Hr]. rewrite forallb_forall in Ha. specialize (Ha (id, row)). cbn in Ha.
  assert (Hin : In (id, row) (map_to_list t)) by (by apply list_elem_of_In, elem_of_map_to_list). apply Ha in Hin. unfold mem_str in Hin.
  apply existsb_exists in Hin as (y & Hy & ->%String.eqb_eq). by apply list_elem_of_In.
Qed.

Lemma pg_keys_refine_memory_witness : all_answers_agree micros key_calls ∅ (NewMemKeyStore []).
Proof.
  apply (pg_keys_refine_memory micros key_calls). cbn [all_keys_fit key_calls key_op_fits].
  repeat (split; [repeat split; first [vm_compute; reflexivity | apply (bool_decide_unpack _); vm_compute; reflexivity | apply covers; vm_compute; reflexivity]|]).
  exact I.
Defined.
