(* ===== verification/AuditLog.v ===== *)
(** The append-only decision log ([internal/audit]): records and their hash
    chain ([audit.go]), field encryption ([crypto.go]) and the in-memory store
    ([memory.go]).  AES-256-GCM is the class [Aead]; canonicalization is
    [Jcs]. *)

From S2P Require Import Prelude GoStrings GoTime Contracts Base64 Runtime Signing Sha2.

Definition GenesisPrev : string := "rh_genesis/1".
Definition recordHashPrefix : string := "rh_".

Record Record_ := {
  Seq : Z;
  DecisionID : string;
  OrgID : string;
  APIKeyID : string;
  AgentID : string;
  Action : string;
  Amount : string;
  Currency : string;
  TargetType : string;
  TargetID : string;
  Jurisdiction : string;
  Verdict : string;
  PolicyVersionHash : string;
  Explanation_ : Explanation;
  Obligations : list Obligation;
  Signature_ : Signature;
  LatencyMs : Z;
  EvaluatedAt : string;
  Shadow : bool;
  PrevHash : string;
  RecordHash : string;
  RetainUntil : time;
  CreatedAt : time
}.

Inductive audit_error := AuditNotFound | HashFailed | CryptoFailed (msg : string) | StoreError (msg : string).

(** A nil slice and an empty one are the same [list]: the normalisations of
    [RecordFromDecision] and [ComputeRecordHash] are the identity here. *)
Definition RecordFromDecision (orgID apiKeyID : string) (req : AuthorizeRequest) (dec : Decision) : Record_ :=
  {| Seq := 0; DecisionID := dec_DecisionID dec; OrgID := orgID; APIKeyID := apiKeyID; AgentID := req_AgentID req;
     Action := req_Action req; Amount := req_Amount req; Currency := req_Currency req;
     TargetType := tgt_Type (req_Target req); TargetID := tgt_ID (req_Target req);
     Jurisdiction := req_Jurisdiction req; Verdict := dec_Verdict dec;
     PolicyVersionHash := dec_PolicyVersionHash dec; Explanation_ := dec_Explanation dec;
     Obligations := dec_Obligations dec; Signature_ := dec_Signature dec; LatencyMs := dec_LatencyMs dec;
     EvaluatedAt := dec_EvaluatedAt dec; Shadow := dec_Shadow dec; PrevHash := ""; RecordHash := "";
     RetainUntil := zero_time; CreatedAt := zero_time |}.

Definition Record_Decision (r : Record_) (signatureVerified : bool) : Decision :=
  {| dec_DecisionID := DecisionID r; dec_Verdict := Verdict r; dec_PolicyVersionHash := PolicyVersionHash r;
     dec_Explanation := Explanation_ r; dec_Obligations := Obligations r; dec_LatencyMs := LatencyMs r;
     dec_EvaluatedAt := EvaluatedAt r; dec_Signature := Signature_ r; dec_Shadow := Shadow r;
     dec_RecordHash := RecordHash r; dec_SignatureVerified := Some signatureVerified |}.

Definition Signature_json (s : Signature) : json :=
  JObj [ ("algorithm", jstr (sig_Algorithm s)); ("key_id", jstr (sig_KeyID s)); ("value", jstr (sig_Value s));
         ("canonicalization", jstr (sig_Canonicalization s)) ].

(** [hashView] as [encoding/json] writes it. *)
Definition hashView (prev : string) (r : Record_) : json :=
  JObj [ ("prev_hash", jstr prev); ("decision_id", jstr (DecisionID r)); ("org_id", jstr (OrgID r));
         ("api_key_id", jstr (APIKeyID r)); ("agent_id", jstr (AgentID r)); ("action", jstr (Action r));
         ("amount", jstr (Amount r)); ("currency", jstr (Currency r)); ("target_type", jstr (TargetType r));
         ("target_id", jstr (TargetID r)); ("jurisdiction", jstr (Jurisdiction r)); ("verdict", jstr (Verdict r));
         ("policy_version_hash", jstr (PolicyVersionHash r)); ("explanation", Explanation_json (Explanation_ r));
         ("obligations", JArr (Obligation_json <$> Obligations r)); ("signature", Signature_json (Signature_ r));
         ("latency_ms", jint (LatencyMs r)); ("evaluated_at", jstr (EvaluatedAt r)); ("shadow", JBool (Shadow r)) ].

Section hash.
Context `{Sha256} `{Jcs}.

Definition ComputeRecordHash (prev : string) (r : Record_) : result audit_error string :=
  match canon (hashView prev r) with
  | None => Err HashFailed
  | Some c => Ok (recordHashPrefix +:+ hex_encode (sha256 c))
  end.

Definition VerifyChainLink (r : Record_) : result audit_error bool :=
  want ← ComputeRecordHash (PrevHash r) r;
  Ok (String.eqb want (RecordHash r)).
End hash.

(** * Field encryption ([crypto.go]) *)

(** AES-256-GCM under a 32-byte key: [Seal key nonce plaintext]. *)
Class Aead := {
  Seal : string -> string -> string -> string;
  Open : string -> string -> string -> option string
}.

(** Opening under the same key and nonce undoes sealing. *)
Class AeadLaws `{Aead} := { open_seal key nonce pt : Open key nonce (Seal key nonce pt) = Some pt }.

Definition NonceSize : nat := 12.

(** [base64.StdEncoding] from the URL alphabet: two letters differ, and the
    last group is padded. *)
Definition std_char (c : Ascii.ascii) : Ascii.ascii :=
  if Ascii.eqb c "-" then "+"%char else if Ascii.eqb c "_" then "/"%char else c.
Definition url_char (c : Ascii.ascii) : Ascii.ascii :=
  if Ascii.eqb c "+" then "-"%char else if Ascii.eqb c "/" then "_"%char else c.

Definition StdEncode (s : string) : string :=
  let e := str_map std_char (EncodeToString s) in
  e +:+ match (String.length e mod 4)%nat with 2%nat => "==" | 3%nat => "=" | _ => "" end.

(** Drop up to [n] padding characters from the end. *)
Fixpoint drop_pad (s : string) : string * nat :=
  match s with
  | EmptyString => (EmptyString, O)
  | String c s =>
    let '(b, n) := drop_pad s in
    if String.eqb b "" && Ascii.eqb c "=" && (n <? 2)%nat then (EmptyString, S n) else (String c b, n)
  end.

Definition StdDecode (s : string) : option string :=
  let s := drop_newlines s in
  if negb (String.length s mod 4 =? 0)%nat then None
  else
    let b := (drop_pad s).1 in
    if str_all (fun c => negb (Ascii.eqb c "-" || Ascii.eqb c "_")) b then decode_quads (str_map url_char b) else None.

Definition cipherPrefix : string := "enc:v1:".

(** The Go interface. *)
Record Encryptor (W : Type) := {
  Encrypt : string -> io W (result audit_error string);
  Decrypt : string -> result audit_error string
}.
Arguments Encrypt {W} _ _.
Arguments Decrypt {W} _ _.

Definition NopEncryptor {W} : Encryptor W :=
  {| Encrypt plaintext := mret (Ok plaintext);
     Decrypt stored :=
       if HasPrefix stored cipherPrefix then Err (CryptoFailed "audit: value is encrypted but no encryption key is configured")
       else Ok stored |}.

Section aesgcm.
Context `{Aead} {W : Type} `{Runtime W}.

Definition AESGCM_Encrypt (key plaintext : string) : io W (result audit_error string) :=
  bs ← rand_Read NonceSize;
  let nonce := of_bytes bs in
  mret (Ok (cipherPrefix +:+ StdEncode (nonce +:+ Seal key nonce plaintext))).

Definition AESGCM_Decrypt (key stored : string) : result audit_error string :=
  match strip_prefix cipherPrefix stored with
  | None => Ok stored
  | Some enc =>
    match StdDecode enc with
    | None => Err (CryptoFailed "audit: decode ciphertext")
    | Some raw =>
      if (String.length raw <? NonceSize)%nat then Err (CryptoFailed "audit: ciphertext too short")
      else match Open key (String.substring 0 NonceSize raw) (String.substring NonceSize (String.length raw - NonceSize) raw) with
      | None => Err (CryptoFailed "audit: decrypt")
      | Some pt => Ok pt
      end
    end
  end.

Definition NewAESGCM (key : string) : result audit_error (Encryptor W) :=
  if negb (String.length key =? 32)%nat then Err (CryptoFailed "audit: encryption key must be 32 bytes")
  else Ok {| Encrypt := AESGCM_Encrypt key; Decrypt := AESGCM_Decrypt key |}.
End aesgcm.

Definition set_fields (amount ttype tid : string) (r : Record_) : Record_ :=
  {| Seq := Seq r; DecisionID := DecisionID r; OrgID := OrgID r; APIKeyID := APIKeyID r; AgentID := AgentID r;
     Action := Action r; Amount := amount; Currency := Currency r; TargetType := ttype; TargetID := tid;
     Jurisdiction := Jurisdiction r; Verdict := Verdict r; PolicyVersionHash := PolicyVersionHash r;
     Explanation_ := Explanation_ r; Obligations := Obligations r; Signature_ := Signature_ r; LatencyMs := LatencyMs r;
     EvaluatedAt := EvaluatedAt r; Shadow := Shadow r; PrevHash := PrevHash r; RecordHash := RecordHash r;
     RetainUntil := RetainUntil r; CreatedAt := CreatedAt r |}.

Definition set_chain (seq : Z) (prev hash : string) (created : time) (r : Record_) : Record_ :=
  {| Seq := seq; DecisionID := DecisionID r; OrgID := OrgID r; APIKeyID := APIKeyID r; AgentID := AgentID r;
     Action := Action r; Amount := Amount r; Currency := Currency r; TargetType := TargetType r; TargetID := TargetID r;
     Jurisdiction := Jurisdiction r; Verdict := Verdict r; PolicyVersionHash := PolicyVersionHash r;
     Explanation_ := Explanation_ r; Obligations := Obligations r; Signature_ := Signature_ r; LatencyMs := LatencyMs r;
     EvaluatedAt := EvaluatedAt r; Shadow := Shadow r; PrevHash := prev; RecordHash := hash;
     RetainUntil := RetainUntil r; CreatedAt := created |}.

Definition encryptInto {W} (enc : Encryptor W) (r : Record_) : io W (result audit_error Record_) :=
  a ← Encrypt enc (Amount r);
  match a with
  | Err e => mret (Err e)
  | Ok a =>
    t ← Encrypt enc (TargetType r);
    match t with
    | Err e => mret (Err e)
    | Ok t =>
      i ← Encrypt enc (TargetID r);
      match i with
      | Err e => mret (Err e)
      | Ok i => mret (Ok (set_fields a t i r))
      end
    end
  end.

Definition decryptInto {W} (enc : Encryptor W) (r : Record_) : result audit_error Record_ :=
  a ← Decrypt enc (Amount r);
  t ← Decrypt enc (TargetType r);
  i ← Decrypt enc (TargetID r);
  Ok (set_fields a t i r).

(** * Listing *)

Record Filter := {
  f_AgentID : string;
  f_Verdict : string;
  f_From : time;
  f_To : time;
  f_Limit : Z;
  f_Cursor : Z
}.

Record Page := { Records : list Record_; NextCursor : Z }.

Definition DefaultListLimit : Z := 50.
Definition MaxListLimit : Z := 200.

Definition clampLimit (n : Z) : Z :=
  if n <=? 0 then DefaultListLimit else if MaxListLimit <? n then MaxListLimit else n.

Definition matches (r : Record_) (f : Filter) : bool :=
  if negb (String.eqb (f_AgentID f) "") && negb (String.eqb (AgentID r) (f_AgentID f)) then false
  else if negb (String.eqb (f_Verdict f) "") && negb (String.eqb (Verdict r) (f_Verdict f)) then false
  else if negb (IsZero (f_From f)) || negb (IsZero (f_To f)) then
    match parse_rfc3339 (EvaluatedAt r) with
    | None => false
    | Some ts =>
      if negb (IsZero (f_From f)) && Before ts (f_From f) then false
      else if negb (IsZero (f_To f)) && negb (Before ts (f_To f)) then false
      else true
    end
  else true.

(** * The in-memory store ([memory.go]) *)

Record MemStore := { seq : Z; byOrg : gmap string (list Record_) }.

Definition NewMemStore : MemStore := {| seq := 0; byOrg := ∅ |}.

(** [m.byOrg[org]]: nil when absent. *)
Definition of_org (m : MemStore) (org : string) : list Record_ := default [] (byOrg m !! org).

Definition chain_tail (l : list Record_) : string :=
  match list.last l with Some r => RecordHash r | None => GenesisPrev end.

Section store.
Context `{Sha256} `{Jcs} {W : Type} `{Runtime W} (enc : Encryptor W).

(** Past the duplicate check and the hash: number, stamp, encrypt, store. *)
Definition append_new (prev hash : string) (r : Record_) (m : MemStore) : io W (result audit_error Record_ * MemStore) :=
  let m := {| seq := seq m + 1; byOrg := byOrg m |} in
  created ← (if IsZero (CreatedAt r) then now else mret (CreatedAt r));
  let stored := set_chain (seq m) prev hash created r in
  e ← encryptInto enc stored;
  match e with
  | Err err => mret (Err err, m)
  | Ok sealed =>
    mret (Ok (set_chain (seq m) prev hash created r),
          {| seq := seq m; byOrg := <[OrgID r := of_org m (OrgID r) ++ [sealed]]> (byOrg m) |})
  end.

(** Returns the caller's record with its chain fields assigned. *)
Definition Append (r : Record_) (m : MemStore) : io W (result audit_error Record_ * MemStore) :=
  if existsb (fun ex => String.eqb (DecisionID ex) (DecisionID r)) (of_org m (OrgID r)) then mret (Ok r, m)
  else
    let prev := chain_tail (of_org m (OrgID r)) in
    match ComputeRecordHash prev r with
    | Err e => mret (Err e, m)
    | Ok hash => append_new prev hash r m
    end.

Definition Get (orgID decisionID : string) (m : MemStore) : result audit_error Record_ :=
  match find_first (fun ex => String.eqb (DecisionID ex) decisionID) (of_org m orgID) with
  | Some ex => decryptInto enc ex
  | None => Err AuditNotFound
  end.

Definition seq_desc (a b : Record_) : bool := Seq b <=? Seq a.

(** The loop of [List] over the records, newest first. *)
Fixpoint list_loop (f : Filter) (limit : Z) (idx page : list Record_) : result audit_error Page :=
  match idx with
  | [] => Ok {| Records := page; NextCursor := 0 |}
  | ex :: idx =>
    if (0 <? f_Cursor f) && (f_Cursor f <=? Seq ex) then list_loop f limit idx page
    else if negb (matches ex f) then list_loop f limit idx page
    else if Z.of_nat (length page) =? limit then
      Ok {| Records := page; NextCursor := match list.last page with Some r => Seq r | None => 0 end |}
    else
      out ← decryptInto enc ex;
      list_loop f limit idx (page ++ [out])
  end.

Definition List_ (orgID : string) (f : Filter) (m : MemStore) : result audit_error Page :=
  list_loop f (clampLimit (f_Limit f)) (sort_by seq_desc (of_org m orgID)) [].
End store.
