(* ===== verification/AuditProps.v ===== *)
(** What the decision log guarantees: fields read back, every chain of a store
    is linked and append-only, a chain is determined by its last hash, and the
    pages of a listing are the matching records, newest first. *)

From S2P Require Import Prelude GoStrings GoTime Contracts Base64 Runtime Signing AuditLog.

(** * Encryption reads back *)

(** Plaintexts that are [good] decrypt to themselves. *)
Class EncryptorSpec {W} (enc : Encryptor W) (good : string -> Prop) := {
  decrypt_encrypt x w c w' : good x -> Encrypt enc x w = (Ok c, w') -> Decrypt enc c = Ok x
}.

(** Without a key, a value that looks encrypted does not read back. *)
Definition unmarked (x : string) : Prop := HasPrefix x cipherPrefix = false.

#[export] Instance NopEncryptor_spec {W} : EncryptorSpec (W:=W) NopEncryptor unmarked.
Proof. split. intros x w c w' Hx E. cbn in *. injection E as <- <-. by rewrite Hx. Qed.

Example nop_does_not_read_back : forall W (w : W),
  (Encrypt NopEncryptor "enc:v1:acme" w).1 = Ok "enc:v1:acme" /\ is_ok (Decrypt (W:=W) NopEncryptor "enc:v1:acme") = false.
Proof. done. Qed.

Definition is_b64 (c : Ascii.ascii) : bool := match b64_val c with Some _ => true | None => false end.

Lemma b64_encode_shape s :
  str_all is_b64 (EncodeToString s) = true /\ (String.length (EncodeToString s) mod 4 <> 1)%nat.
Proof.
  assert (Hc : forall d, 0 <= d < 64 -> is_b64 (b64_char d) = true) by (intros d Hd; unfold is_b64; by rewrite b64_val_char).
  revert s. apply blocks_ind.
  - done.
  - intros a. pose proof (byte_val_range a). cbn [EncodeToString str_all]. rewrite !Hc by zlia. split; [done|]. cbn. lia.
  - intros a b. pose proof (byte_val_range a). pose proof (byte_val_range b). cbn [EncodeToString str_all].
    rewrite !Hc by zlia. split; [done|]. cbn. lia.
  - intros a b c r [IH1 IH2]. pose proof (byte_val_range a). pose proof (byte_val_range b). pose proof (byte_val_range c).
    cbn [EncodeToString str_all]. rewrite !Hc by zlia. split; [done|].
    cbn [String.length]. replace (S (S (S (S (String.length (EncodeToString r))))))%nat with (String.length (EncodeToString r) + 1 * 4)%nat by lia.
    by rewrite Nat.Div0.mod_add.
Qed.

Lemma std_char_b64 c : is_b64 c = true ->
  Ascii.eqb (std_char c) "=" = false /\ is_newline (std_char c) = false /\
  Ascii.eqb (std_char c) "-" = false /\ Ascii.eqb (std_char c) "_" = false /\ url_char (std_char c) = c.
Proof. destruct c as [[] [] [] [] [] [] [] []]; vm_compute; intros H; try discriminate H; repeat split. Qed.

Definition std_ok (c : Ascii.ascii) : bool :=
  negb (Ascii.eqb c "=") && negb (is_newline c) && negb (Ascii.eqb c "-" || Ascii.eqb c "_").

Lemma std_map_ok e : str_all is_b64 e = true -> str_all std_ok (str_map std_char e) = true /\ str_map url_char (str_map std_char e) = e.
Proof.
  induction e as [|c e IH]; [done|]. cbn. intros [Hc He]%andb_true_iff. destruct (IH He) as [H1 H2].
  destruct (std_char_b64 c Hc) as (E1 & E2 & E3 & E4 & E5). unfold std_ok at 1. by rewrite E1, E2, E3, E4, E5, H1, H2.
Qed.

Lemma str_map_length f s : String.length (str_map f s) = String.length s.
Proof. induction s as [|c s IH]; cbn; [done|]. by rewrite IH. Qed.

Lemma drop_pad_app e p : str_all std_ok e = true -> p = "" \/ p = "=" \/ p = "==" -> (drop_pad (e +:+ p)).1 = e.
Proof.
  intros He Hp. assert (H : exists n, drop_pad (e +:+ p) = (e, n) /\ (n <= 2)%nat); [|by destruct H as (n & -> & _)].
  induction e as [|c e IH].
  - rewrite str_app_nil. destruct Hp as [-> |[-> | ->]]; [exists 0%nat|exists 1%nat|exists 2%nat]; (split; [reflexivity|lia]).
  - cbn in He. apply andb_true_iff in He as [Hc He]. destruct (IH He) as (n & E & Hn). rewrite str_app_cons. cbn. rewrite E.
    unfold std_ok in Hc. destruct (Ascii.eqb c "="); [done|]. rewrite andb_false_r. cbn. eauto.
Qed.

Lemma drop_newlines_none s : str_all (fun c => negb (is_newline c)) s = true -> drop_newlines s = s.
Proof. induction s as [|c s IH]; [done|]. cbn. intros [Hc Hs]%andb_true_iff. destruct (is_newline c); [done|]. by rewrite IH. Qed.

Lemma StdDecode_StdEncode s : StdDecode (StdEncode s) = Some s.
Proof.
  destruct (b64_encode_shape s) as [Hb Hl]. unfold StdEncode. set (e := str_map std_char (EncodeToString s)).
  destruct (std_map_ok _ Hb) as [Hok Hback]. fold e in Hok, Hback.
  assert (He : String.length e = String.length (EncodeToString s)) by apply str_map_length. rewrite He.
  set (p := match _ with 2%nat => "==" | 3%nat => "=" | _ => "" end).
  assert (Hp : (p = "" \/ p = "=" \/ p = "==") /\ ((String.length (e +:+ p)) mod 4 = 0)%nat).
  { rewrite str_app_length, He. unfold p. pose proof (Nat.mod_upper_bound (String.length (EncodeToString s)) 4 ltac:(lia)).
    destruct (String.length (EncodeToString s) mod 4)%nat as [|[|[|[|n]]]] eqn:E; try lia; (split; [auto|]);
      rewrite <- Nat.Div0.add_mod_idemp_l, E; reflexivity. }
  destruct Hp as [Hp Hmod]. unfold StdDecode. rewrite drop_newlines_none.
  2:{ rewrite str_all_app. rewrite (str_all_impl std_ok) by (done || (unfold std_ok; intros c Hc; by destruct (is_newline c); rewrite ?andb_false_r in Hc)).
      by destruct Hp as [-> |[-> | ->]]. }
  rewrite Hmod. cbn [Nat.eqb negb]. rewrite drop_pad_app by done.
  rewrite (str_all_impl std_ok) by (done || (unfold std_ok; intros c Hc; by destruct (Ascii.eqb c "-" || Ascii.eqb c "_"); rewrite ?andb_false_r in Hc)).
  rewrite Hback. apply decode_quads_encode.
Qed.

Lemma of_bytes_size l : String.length (Sha2.of_bytes l) = length l.
Proof. apply Sha2.of_bytes_length. Qed.

Lemma substring_self s : String.substring 0 (String.length s) s = s.
Proof. induction s as [|c s IH]; [done|]. cbn. by rewrite IH. Qed.

Lemma substring_prefix a b : String.substring 0 (String.length a) (a +:+ b) = a.
Proof. induction a as [|c a IH]; [by destruct b|]. rewrite str_app_cons. cbn. by rewrite IH. Qed.

Lemma substring_suffix a b : String.substring (String.length a) (String.length b) (a +:+ b) = b.
Proof. induction a as [|c a IH]; [apply substring_self|]. exact IH. Qed.

(** AES-GCM reads back every plaintext, for an entropy source that fills its
    buffer. *)
Lemma AESGCM_spec `{AeadLaws} `{Runtime W} key enc :
  (forall n w, length (rand_Read n w).1 = n) -> NewAESGCM (W:=W) key = Ok enc -> EncryptorSpec enc (fun _ => True).
Proof.
  intros Hn. unfold NewAESGCM. destruct (negb _); [done|]. intros [= <-]. split. intros x w c w' _.
  cbn [Encrypt Decrypt]. unfold AESGCM_Encrypt. rewrite bind_let. intros [= <- <-]. unfold AESGCM_Decrypt.
  rewrite strip_prefix_app, StdDecode_StdEncode. set (nonce := Sha2.of_bytes _).
  assert (Hl : String.length nonce = NonceSize) by (unfold nonce; rewrite of_bytes_size; apply Hn).
  rewrite str_app_length, Hl. rewrite (proj2 (Nat.ltb_ge _ _)) by lia.
  replace (NonceSize + String.length (Seal key nonce x) - NonceSize)%nat with (String.length (Seal key nonce x)) by lia.
  rewrite <- Hl, substring_prefix, substring_suffix, open_seal. done.
Qed.

(** * The hash chain *)

Section chain.
Context `{Sha256} `{Jcs} {W : Type} `{Runtime W} (enc : Encryptor W) (good : string -> Prop) `{!EncryptorSpec enc good}.

Definition good_record (r : Record_) : Prop := good (Amount r) /\ good (TargetType r) /\ good (TargetID r).

(** The stored record [ex] reads as [r]. *)
Definition opens (ex r : Record_) : Prop := decryptInto enc ex = Ok r.

(** Each record names its predecessor's hash, and carries its own. *)
Fixpoint linked (prev : string) (l : list Record_) : Prop :=
  match l with
  | [] => True
  | r :: l => PrevHash r = prev /\ ComputeRecordHash prev r = Ok (RecordHash r) /\ linked (RecordHash r) l
  end.

Lemma linked_snoc prev l r :
  linked prev l -> PrevHash r = match list.last l with Some x => RecordHash x | None => prev end ->
  ComputeRecordHash (PrevHash r) r = Ok (RecordHash r) -> linked prev (l ++ [r]).
Proof using Type.
  revert prev. induction l as [|x l IH]; intros prev; cbn [linked app].
  - intros _ -> Hc. done.
  - intros (Hp & Hx & Hl) Hr Hc. split_and!; [done..|]. apply IH; [done| |done]. rewrite last_cons in Hr. by destruct (list.last l).
Qed.

Lemma linked_elem prev l r : linked prev l -> r ∈ l -> ComputeRecordHash (PrevHash r) r = Ok (RecordHash r).
Proof using Type.
  revert prev. induction l as [|x l IH]; intros prev; [by intros _ Hin0%not_elem_of_nil|]. cbn. intros (<- & Hx & Hl) [->|Hin]%elem_of_cons; [done|].
  by eapply IH.
Qed.

Lemma encryptInto_opens r w ex w' : good_record r -> encryptInto enc r w = (Ok ex, w') -> opens ex r.
Proof using All.
  intros (Ha & Ht & Hi). unfold encryptInto. rewrite bind_let. destruct (Encrypt enc (Amount r) w) as [[a|e] w1] eqn:Ea; cbn [fst snd]; [|intros ?; discriminate].
  rewrite bind_let. destruct (Encrypt enc (TargetType r) w1) as [[t|e] w2] eqn:Et; cbn [fst snd]; [|intros ?; discriminate].
  rewrite bind_let. destruct (Encrypt enc (TargetID r) w2) as [[i|e] w3] eqn:Ei; cbn [fst snd]; [|intros ?; discriminate].
  intros [= <- <-]. unfold opens, decryptInto. cbn [set_fields Amount TargetType TargetID].
  rewrite (decrypt_encrypt _ _ _ _ Ha Ea), (decrypt_encrypt _ _ _ _ Ht Et), (decrypt_encrypt _ _ _ _ Hi Ei). by destruct r.
Qed.

(** Decryption changes the three sensitive fields only. *)
Lemma opens_fields ex r : opens ex r -> r = set_fields (Amount r) (TargetType r) (TargetID r) ex.
Proof using Type.
  unfold opens, decryptInto. destruct (Decrypt enc (Amount ex)); [|done]. cbn. destruct (Decrypt enc (TargetType ex)); [|done]. cbn.
  destruct (Decrypt enc (TargetID ex)); [|done]. cbn. by intros [= <-].
Qed.

Definition chain_ok (org : string) (n : Z) (stored plain : list Record_) : Prop :=
  Forall2 opens stored plain /\ linked GenesisPrev plain /\
  StronglySorted (fun a b => Seq a < Seq b) plain /\
  Forall (fun r => OrgID r = org /\ 0 < Seq r <= n) plain /\ NoDup (DecisionID <$> plain).

Definition store_ok (m : MemStore) : Prop :=
  0 <= seq m /\ forall org, exists plain, chain_ok org (seq m) (of_org m org) plain.

Lemma chain_tail_opens stored plain : Forall2 opens stored plain -> chain_tail stored = chain_tail plain.
Proof using Type.
  unfold chain_tail. induction 1 as [|ex r stored plain Ho Hl IH]; [done|].
  destruct Hl as [|ex2 r2 stored plain Ho2 Hl]; [|exact IH]. cbn. by rewrite (opens_fields _ _ Ho).
Qed.

Lemma opens_ids stored plain : Forall2 opens stored plain -> DecisionID <$> stored = DecisionID <$> plain.
Proof using Type. induction 1 as [|ex r stored plain Ho Hl IH]; [done|]. cbn. rewrite IH. f_equal. by rewrite (opens_fields _ _ Ho). Qed.

(** What one append does to the store. *)
Lemma Append_cases r m w res m' w' :
  Append enc r m w = ((res, m'), w') ->
  (byOrg m' = byOrg m /\ (seq m' = seq m \/ seq m' = seq m + 1) /\ (is_ok res = true -> DecisionID r ∈ DecisionID <$> of_org m (OrgID r))) \/
  (exists ex prev hash created,
     seq m' = seq m + 1 /\ prev = chain_tail (of_org m (OrgID r)) /\ ComputeRecordHash prev r = Ok hash /\
     res = Ok (set_chain (seq m + 1) prev hash created r) /\
     (DecisionID r ∉ DecisionID <$> of_org m (OrgID r)) /\
     (good_record r -> opens ex (set_chain (seq m + 1) prev hash created r)) /\
     byOrg m' = <[OrgID r := of_org m (OrgID r) ++ [ex]]> (byOrg m)).
Proof using All.
  unfold Append. destruct (existsb _ _) eqn:Ed.
  { intros [= <- <- _]. left. split_and!; [done|auto|]. intros _. apply existsb_exists in Ed as (x & Hx & Hid).
    apply String.eqb_eq in Hid as <-. apply list_elem_of_fmap_2. by apply list_elem_of_In. }
  destruct (ComputeRecordHash _ r) as [hash|e] eqn:Eh; [|intros [= <- <- _]; left; by split_and!; auto].
  unfold append_new. rewrite bind_let. generalize ((if IsZero (CreatedAt r) then now else mret (CreatedAt r)) w). intros [created w1].
  cbn [fst snd seq byOrg]. rewrite bind_let. destruct (encryptInto enc _ w1) as [[ex|e] w2] eqn:Ee; cbn [fst snd];
    intros [= <- <- <-]; [right|left; by split_and!; auto]. exists ex, (chain_tail (of_org m (OrgID r))), hash, created. cbn [seq byOrg].
  split_and!; try done. 2:{ intros Hg. eapply encryptInto_opens; [|exact Ee]. exact Hg. }
  intros (x & Hx & Hin)%list_elem_of_fmap. apply not_true_iff_false in Ed. apply Ed, existsb_exists. exists x.
  split; [by apply list_elem_of_In|]. by rewrite Hx, String.eqb_refl.
Qed.

Lemma chain_ok_later org n n' stored plain : n <= n' -> chain_ok org n stored plain -> chain_ok org n' stored plain.
Proof using Type.
  intros Hn (C1 & C2 & C3 & C4 & C5). split_and!; try done. eapply list.Forall_impl; [exact C4|]. cbn. intros r [? ?]. split; [done|lia].
Qed.

Lemma StronglySorted_snoc {A} (R : A -> A -> Prop) l x : StronglySorted R l -> Forall (fun y => R y x) l -> StronglySorted R (l ++ [x]).
Proof using Type.
  induction 1 as [|y l Hl IH Hy]; intros Hx; cbn; [by repeat constructor|]. apply Forall_cons_iff in Hx as [Hyx Hx].
  constructor; [by apply IH|]. apply Forall_app. split; [done|]. by repeat constructor.
Qed.

Lemma chain_ok_append org n stored plain r ex hash created :
  0 <= n -> chain_ok org n stored plain -> OrgID r = org -> DecisionID r ∉ DecisionID <$> stored ->
  ComputeRecordHash (chain_tail stored) r = Ok hash -> opens ex (set_chain (n + 1) (chain_tail stored) hash created r) ->
  chain_ok org (n + 1) (stored ++ [ex]) (plain ++ [set_chain (n + 1) (chain_tail stored) hash created r]).
Proof using Type.
  intros Hn (C1 & C2 & C3 & C4 & C5) Ho Hd Hh Hex. split_and!.
  - apply Forall2_app; [done|]. by repeat constructor.
  - apply linked_snoc; [done| |exact Hh]. cbn. rewrite (chain_tail_opens _ _ C1). done.
  - apply StronglySorted_snoc; [done|]. eapply list.Forall_impl; [exact C4|]. cbn. intros x [_ Hx]. lia.
  - apply Forall_app. split; [|by repeat constructor; cbn; [|lia..]]. eapply list.Forall_impl; [exact C4|]. cbn. intros x [? ?]. split; [done|lia].
  - rewrite fmap_app. apply list.NoDup_app. split_and!; [done| |by apply NoDup_singleton].
    intros x Hx Hin. apply list_elem_of_singleton in Hin. subst x. apply Hd. by rewrite (opens_ids _ _ C1).
Qed.

Lemma Append_ok r m w res m' w' :
  good_record r -> store_ok m -> Append enc r m w = ((res, m'), w') ->
  store_ok m' /\ forall org, of_org m org `prefix_of` of_org m' org.
Proof using All.
  intros Hg [Hseq Hm] E. apply Append_cases in E as [(Hb & Hs & _)|(ex & prev & hash & created & Hs & -> & Hh & _ & Hd & Hex & Hb)].
  - unfold store_ok, of_org. rewrite Hb. split; [|by intros org].
    split; [lia|]. intros org. destruct (Hm org) as [plain Hp]. exists plain. eapply chain_ok_later; [|exact Hp]. lia.
  - unfold store_ok. assert (Hof : forall org, of_org m' org = if decide (org = OrgID r) then of_org m (OrgID r) ++ [ex] else of_org m org).
    { intros org. unfold of_org at 1. rewrite Hb. destruct (decide (org = OrgID r)) as [->|Hne]; [by rewrite lookup_insert_eq|].
      by rewrite lookup_insert_ne. }
    split; [split; [lia|]|]; intros org; rewrite Hof; destruct (decide (org = OrgID r)) as [->|Hne]; [| |by eexists|done].
    + destruct (Hm (OrgID r)) as [plain Hp]. eexists. rewrite Hs. eapply chain_ok_append; eauto.
    + destruct (Hm org) as [plain Hp]. exists plain. eapply chain_ok_later; [|exact Hp]. lia.
Qed.

Fixpoint append_all (rs : list Record_) (m : MemStore) (w : W) : MemStore * W :=
  match rs with
  | [] => (m, w)
  | r :: rs => let '((_, m), w) := Append enc r m w in append_all rs m w
  end.

Lemma append_all_ok rs m w : Forall good_record rs -> store_ok m -> store_ok (append_all rs m w).1.
Proof using All.
  intros Hrs. revert m w. induction Hrs as [|r rs Hr Hrs IH]; intros m w Hm; [done|]. cbn.
  destruct (Append enc r m w) as [[res m'] w'] eqn:E. destruct (Append_ok r m w res m' w' Hr Hm E) as [Hm' _]. by apply IH.
Qed.

Lemma empty_ok : store_ok NewMemStore.
Proof using Type. split; [done|]. intros org. exists []. split_and!; repeat constructor. Qed.

Lemma Get_found org id m plain r :
  chain_ok org (seq m) (of_org m org) plain -> Get enc org id m = Ok r -> r ∈ plain /\ DecisionID r = id.
Proof using All.
  intros (C1 & _) E. unfold Get in E. destruct (find_first _ _) as [ex|] eqn:Ef; [|done].
  apply find_first_some in Ef as (l1 & l2 & El & Hid & _). apply String.eqb_eq in Hid.
  assert (Hin : ex ∈ of_org m org) by (rewrite El; set_solver). rewrite list_elem_of_lookup in Hin. destruct Hin as [i Hi].
  destruct (Forall2_lookup_l _ _ _ _ _ C1 Hi) as (r' & Hr' & Ho). unfold opens in Ho. rewrite E in Ho. injection Ho as <-.
  split; [by eapply list_elem_of_lookup_2|]. by rewrite (opens_fields _ _ E).
Qed.
Lemma Get_complete org n m plain r :
  chain_ok org n (of_org m org) plain -> r ∈ plain -> Get enc org (DecisionID r) m = Ok r.
Proof using Type.
  intros (C1 & _ & _ & _ & C5) Hin. unfold Get.
  destruct (find_first (fun ex => String.eqb (DecisionID ex) (DecisionID r)) (of_org m org)) as [ex|] eqn:Ef.
  - apply find_first_some in Ef as (l1 & l2 & El & Hid & _). apply String.eqb_eq in Hid. rewrite El in C1.
    apply Forall2_app_inv_l in C1 as (p1 & p2 & _ & C2 & ->). inversion C2 as [|? r' ? p3 Ho _]; subst.
    assert (Hr : r' = r); [|by subst]. assert (Hd : DecisionID r' = DecisionID r) by (by rewrite (opens_fields _ _ Ho)).
    rewrite fmap_app in C5. cbn in C5.
    apply list.NoDup_app in C5 as (_ & Hdis & C5). apply list.NoDup_cons in C5 as [Hn _].
    apply elem_of_app in Hin as [Hin|[->|Hin]%elem_of_cons]; [exfalso|done|exfalso].
    + apply (Hdis (DecisionID r)); [by apply list_elem_of_fmap_2|]. rewrite Hd. by left.
    + apply Hn. rewrite Hd. by apply list_elem_of_fmap_2.
  - exfalso. apply find_first_none in Ef. rewrite list.Forall_forall in Ef.
    assert (Hs : DecisionID r ∈ DecisionID <$> of_org m org) by (rewrite (opens_ids _ _ C1); by apply list_elem_of_fmap_2).
    apply list_elem_of_fmap in Hs as (ex & Hid & Hex). specialize (Ef ex Hex). cbn in Ef. by rewrite Hid, String.eqb_refl in Ef.
Qed.

Lemma append_all_prefix rs m w org : Forall good_record rs -> store_ok m -> of_org m org `prefix_of` of_org (append_all rs m w).1 org.
Proof using All.
  intros Hrs. revert m w. induction Hrs as [|r rs Hr Hrs IH]; intros m w Hm; [done|]. cbn.
  destruct (Append enc r m w) as [[res m'] w'] eqn:E. destruct (Append_ok r m w res m' w' Hr Hm E) as [Hm' Hp].
  etrans; [apply Hp|]. by apply IH.
Qed.

(** A record that was appended is found under its id, after any appends. *)
Lemma appended_reads_back r m w stored m' w' after w'' :
  good_record r -> Forall good_record after -> store_ok m -> DecisionID r ∉ DecisionID <$> of_org m (OrgID r) ->
  Append enc r m w = ((Ok stored, m'), w') ->
  Get enc (OrgID r) (DecisionID r) (append_all after m' w'').1 = Ok stored.
Proof using All.
  intros Hg Hafter Hm Hnew E. destruct (Append_ok r m w _ m' w' Hg Hm E) as [Hm' _].
  destruct (append_all_ok after m' w'' Hafter Hm') as [_ Hch]. destruct (Hch (OrgID r)) as (plain & Hpl).
  pose proof (append_all_prefix after m' w'' (OrgID r) Hafter Hm') as [tl Htl].
  apply Append_cases in E as [(_ & _ & Hno)|(ex & prev & hash & created & _ & _ & _ & Hst & _ & Hex & Hb)]; [by destruct Hnew; apply Hno|].
  injection Hst as ->. specialize (Hex Hg).
  replace (DecisionID r) with (DecisionID (set_chain (seq m + 1) prev hash created r)) by done.
  eapply Get_complete; [exact Hpl|]. destruct Hpl as [C1 _]. rewrite Htl in C1. unfold of_org in C1 at 1. rewrite Hb, lookup_insert_eq in C1.
  cbn [default from_option] in C1. apply Forall2_app_inv_l in C1 as (p1 & p2 & C1 & _ & ->).
  apply Forall2_app_inv_l in C1 as (q1 & q2 & _ & C2 & ->). inversion C2 as [|x0 r0 l0 k0 Ho Hl]; subst.
  unfold opens in Ho, Hex. rewrite Hex in Ho. injection Ho as <-. rewrite !elem_of_app, elem_of_cons. tauto.
Qed.
End chain.

(** C20: The log is a chain per organisation.  After any appends, from the empty
    store and for any organisations and decisions (also repeated, failing or
    interleaved ones), the records of each organisation read as a list in which
    every record names its predecessor's hash, the first the genesis value, and
    carries the hash of its own content; sequence numbers increase and no
    decision appears twice.  A record read by id verifies, and a further append
    only adds at the end. *)
Theorem chain_integrity `{Sha256} `{Jcs} {W : Type} `{Runtime W} (enc : Encryptor W) (good : string -> Prop) `{!EncryptorSpec enc good}
  rs w m w' (Hrs : Forall (good_record good) rs) (E : append_all enc rs NewMemStore w = (m, w')) :
  (forall org, exists plain, Forall2 (opens enc) (of_org m org) plain /\ linked GenesisPrev plain /\
     StronglySorted (fun a b => Seq a < Seq b) plain /\ Forall (fun r => OrgID r = org) plain /\ NoDup (DecisionID <$> plain)) /\
  (forall org id r, Get enc org id m = Ok r -> OrgID r = org /\ DecisionID r = id /\ VerifyChainLink r = Ok true) /\
  (forall r w, good_record good r -> forall org, of_org m org `prefix_of` of_org (Append enc r m w).1.2 org).
Proof.
  pose proof (append_all_ok enc good rs NewMemStore w Hrs (empty_ok enc)) as Hok. rewrite E in Hok. cbn in Hok.
  pose proof Hok as [Hseq Hch]. split_and!.
  - intros org. destruct (Hch org) as (plain & C1 & C2 & C3 & C4 & C5). exists plain. split_and!; try done.
    eapply list.Forall_impl; [exact C4|]. by intros x [? _].
  - intros org id r Hget. destruct (Hch org) as (plain & Hplain). destruct (Get_found enc good org id m plain r Hplain Hget) as [Hin Hid].
    destruct Hplain as (_ & C2 & _ & C4 & _). rewrite list.Forall_forall in C4. destruct (C4 r Hin) as [Ho _]. split_and!; [done..|].
    unfold VerifyChainLink. rewrite (linked_elem _ _ _ C2 Hin). cbn. by rewrite String.eqb_refl.
  - intros r w0 Hr. destruct (Append enc r m w0) as [[res m'] w1] eqn:Ea. cbn. exact (proj2 (Append_ok enc good r m w0 res m' w1 Hr Hok Ea)).
Qed.

(** * A chain is determined by its last hash *)

(** The bytes a record's hash covers. *)
Definition hashed_bytes `{Jcs} (r : Record_) : option string := canon (hashView (PrevHash r) r).

(** Two records whose different bytes have one hash. *)
Definition collide `{Sha256} `{Jcs} (a b : Record_) : Prop :=
  exists x y, hashed_bytes a = Some x /\ hashed_bytes b = Some y /\ x <> y /\ sha256 x = sha256 y.

Lemma record_hash_inj `{Sha256Laws} `{Jcs} a b h :
  ComputeRecordHash (PrevHash a) a = Ok h -> ComputeRecordHash (PrevHash b) b = Ok h -> hashed_bytes a = hashed_bytes b \/ collide a b.
Proof.
  unfold ComputeRecordHash, collide, hashed_bytes. destruct (canon (hashView (PrevHash a) a)) as [x|]; [|done].
  destruct (canon (hashView (PrevHash b) b)) as [y|]; [|done].
  intros [= <-] [= E]. apply hex_encode_inj in E. destruct (decide (x = y)) as [->|Hne]; [by left|]. right. by exists x, y.
Qed.

Lemma record_hash_not_genesis `{Sha256Laws} `{Jcs} p a : ComputeRecordHash p a <> Ok GenesisPrev.
Proof.
  unfold ComputeRecordHash. destruct (canon (hashView p a)) as [x|]; [|done]. intros [= E]. apply (f_equal String.length) in E.
  rewrite str_app_length, hex_encode_length, sha256_size in E. done.
Qed.

Lemma linked_snoc_inv `{Sha256} `{Jcs} p l r :
  linked p (l ++ [r]) -> linked p l /\ PrevHash r = match list.last l with Some x => RecordHash x | None => p end /\
  ComputeRecordHash (PrevHash r) r = Ok (RecordHash r).
Proof.
  revert p. induction l as [|x l IH]; intros p; cbn [app linked].
  - intros (-> & Hc & _). done.
  - intros (Hp & Hx & Hl). destruct (IH _ Hl) as (Hl' & Hr & Hc). split_and!; try done. rewrite Hr, last_cons. by destruct (list.last l).
Qed.

Definition ascii7 (c : Ascii.ascii) : bool := byte_val c <? 128.

Lemma to_valid_ascii s : str_all ascii7 s = true -> to_valid s = s.
Proof.
  unfold to_valid. induction s as [|c s IH]; [done|]. cbn [str_all]. intros [Hc Hs]%andb_true_iff.
  cbn [String.length to_valid_go]. unfold decode_rune. unfold ascii7 in Hc. rewrite Hc.
  replace (S (String.length s) - 1)%nat with (String.length s) by lia.
  assert (String.substring 0 1 (String c s) = String c "") as -> by (by destruct s).
  assert (String.substring 1 (String.length s) (String c s) = s) as -> by apply substring_self.
  by rewrite IH.
Qed.

Lemma hex_ascii s : str_all ascii7 (hex_encode s) = true.
Proof.
  assert (H : forall d, 0 <= d < 16 -> ascii7 (hex_char d) = true).
  { intros d Hd. unfold ascii7, hex_char. destruct (Z.ltb_spec d 10); rewrite byte_val_chr by lia; lia. }
  induction s as [|c s IH]; [done|]. cbn. pose proof (byte_val_range c). by rewrite !H, IH by zlia.
Qed.

Lemma record_hash_ascii `{Sha256} `{Jcs} p r h : ComputeRecordHash p r = Ok h -> str_all ascii7 h = true.
Proof.
  unfold ComputeRecordHash. destruct (canon _); [|done]. intros [= <-]. by rewrite str_all_app, hex_ascii.
Qed.

Lemma prev_ascii `{Sha256} `{Jcs} l r :
  linked GenesisPrev l -> PrevHash r = match list.last l with Some x => RecordHash x | None => GenesisPrev end -> str_all ascii7 (PrevHash r) = true.
Proof.
  intros Hl ->. destruct (list.last l) as [x|] eqn:E; [|done]. apply last_Some_elem_of in E. 
  eapply record_hash_ascii. eapply linked_elem; [exact Hl|exact E].
Qed.

(** C21: The last hash commits to the whole log.  Two linked chains with the same
    last hash have the same length and agree, record by record, on both hashes
    and on the canonical bytes of everything hashed; otherwise a record of each
    is at hand whose bytes are a SHA-256 collision.  So no record can be changed, dropped, inserted or
    reordered without changing the last hash. *)
Theorem chain_tamper_evident `{Sha256Laws} `{JcsLaws} l1 l2
  (L1 : linked GenesisPrev l1) (L2 : linked GenesisPrev l2) (Htail : chain_tail l1 = chain_tail l2) :
  Forall2 (fun a b => hashed_bytes a = hashed_bytes b /\ PrevHash a = PrevHash b /\ RecordHash a = RecordHash b) l1 l2 \/
  exists a b, a ∈ l1 /\ b ∈ l2 /\ collide a b.
Proof.
  revert l2 L1 L2 Htail. induction l1 as [|a l1 IH] using rev_ind; intros l2; destruct l2 as [|b l2 _] using rev_ind; intros L1 L2 Htail.
  - left. constructor.
  - apply linked_snoc_inv in L2 as (_ & _ & Hc). unfold chain_tail in Htail. rewrite last_snoc in Htail. cbn in Htail.
    rewrite <- Htail in Hc. by apply record_hash_not_genesis in Hc.
  - apply linked_snoc_inv in L1 as (_ & _ & Hc). unfold chain_tail in Htail. rewrite last_snoc in Htail. cbn in Htail.
    rewrite Htail in Hc. by apply record_hash_not_genesis in Hc.
  - apply linked_snoc_inv in L1 as (Hl1 & Hp1 & Hc1). apply linked_snoc_inv in L2 as (Hl2 & Hp2 & Hc2).
    unfold chain_tail in Htail. rewrite !last_snoc in Htail. pose proof Hc2 as Hc. rewrite <- Htail in Hc.
    destruct (record_hash_inj _ _ _ Hc1 Hc) as [Hb|Hcol]; [|right; exists a, b; split_and!; [set_solver|set_solver|exact Hcol]].
    pose proof (prev_ascii _ _ Hl1 Hp1) as Ha1. pose proof (prev_ascii _ _ Hl2 Hp2) as Ha2.
    assert (Hprev : PrevHash a = PrevHash b).
    { unfold hashed_bytes in Hb. unfold ComputeRecordHash in Hc1. destruct (canon (hashView (PrevHash a) a)) as [c|] eqn:Ec; [|done]. symmetry in Hb.
      unfold hashView, jstr in Ec, Hb. rewrite (to_valid_ascii (PrevHash a)) in Ec by done. rewrite (to_valid_ascii (PrevHash b)) in Hb by done.
      apply (canon_member _ _ _ _ _ _ Ec Hb); [set_solver|set_solver|by apply to_valid_ascii..]. }
    destruct (IH l2 Hl1 Hl2) as [HF|(a' & b' & Ha' & Hb' & Hcol)]; [|left|right; exists a', b'; split_and!; [set_solver|set_solver|exact Hcol]].
    { unfold chain_tail. by rewrite <- Hp1, <- Hp2. }
    apply Forall2_app; [done|]. by repeat constructor.
Qed.

(** * Listings *)

Definition with_cursor (c : Z) (f : Filter) : Filter :=
  {| f_AgentID := f_AgentID f; f_Verdict := f_Verdict f; f_From := f_From f; f_To := f_To f; f_Limit := f_Limit f; f_Cursor := c |}.

Section listing.
Context {W : Type} (enc : Encryptor W).

(** Follow the cursors from a page on, at most [fuel] pages. *)
Fixpoint follow (fuel : nat) (org : string) (f : Filter) (m : MemStore) : result audit_error (list (list Record_)) :=
  match fuel with
  | O => Ok []
  | S fuel =>
    p ← List_ enc org f m;
    if NextCursor p =? 0 then Ok [Records p]
    else
      rest ← follow fuel org (with_cursor (NextCursor p) f) m;
      Ok (Records p :: rest)
  end.

(** What a page from a cursor on may show. *)
Definition eligible (f : Filter) (c : Z) (ex : Record_) : bool := (negb (0 <? c) || (Seq ex <? c)) && matches ex f.

Definition shown (f : Filter) (c : Z) (l : list Record_) : list Record_ := filter (fun ex => eligible f c ex = true) l.

Lemma shown_cons f c ex l : shown f c (ex :: l) = if eligible f c ex then ex :: shown f c l else shown f c l.
Proof using Type. unfold shown. rewrite filter_cons. by destruct (eligible f c ex). Qed.

Context (dec : Record_ -> Record_).

(** One page: the first of what is eligible, with a cursor exactly when more is. *)
Lemma list_loop_spec f limit idx page :
  0 < limit -> Z.of_nat (length page) <= limit -> Forall (fun ex => decryptInto enc ex = Ok (dec ex)) idx ->
  let el := shown f (f_Cursor f) idx in
  let k := Z.to_nat (limit - Z.of_nat (length page)) in
  list_loop enc f limit idx page =
  Ok {| Records := page ++ (dec <$> take k el);
        NextCursor := if Z.of_nat (length el) <=? Z.of_nat k then 0
                      else match list.last (page ++ (dec <$> take k el)) with Some r => Seq r | None => 0 end |}.
Proof using Type.
  intros Hlim. revert page. induction idx as [|ex idx IH]; intros page Hpage Hdec; cbn zeta.
  { cbn. rewrite firstn_nil. cbn. rewrite app_nil_r, (proj2 (Z.leb_le _ _)) by lia. done. }
  apply Forall_cons_iff in Hdec as [Hex Hdec]. cbn [list_loop]. rewrite shown_cons. unfold eligible.
  assert (negb (0 <? f_Cursor f) || (Seq ex <? f_Cursor f) = negb ((0 <? f_Cursor f) && (f_Cursor f <=? Seq ex))) as ->
    by (destruct (Z.ltb_spec 0 (f_Cursor f)), (Z.ltb_spec (Seq ex) (f_Cursor f)), (Z.leb_spec (f_Cursor f) (Seq ex)); cbn; lia).
  destruct ((0 <? f_Cursor f) && (f_Cursor f <=? Seq ex)); cbn [negb andb]; [by apply IH|].
  destruct (matches ex f); cbn [negb]; [|by apply IH].
  destruct (Z.eqb_spec (Z.of_nat (length page)) limit) as [Hfull|Hroom].
  - replace (limit - Z.of_nat (length page)) with 0 by lia. cbn [Z.to_nat take fmap list_fmap]. rewrite app_nil_r. cbn [length].
    rewrite (proj2 (Z.leb_gt _ _)) by lia. done.
  - rewrite Hex. cbn [mbind result_bind]. rewrite IH; [|rewrite length_app; cbn; lia|done]. cbn zeta.
    rewrite length_app. cbn [length]. replace (Z.to_nat (limit - Z.of_nat (length page))) with (S (Z.to_nat (limit - Z.of_nat (length page + 1)))) by lia.
    cbn [take fmap list_fmap length]. rewrite <- app_assoc. cbn [app]. do 2 f_equal.
    match goal with |- (if ?a then _ else _) = (if ?b then _ else _) => assert (a = b) as ->; [|done] end.
    rewrite !Nat2Z.inj_succ. destruct (Z.leb_spec (Z.of_nat (length (shown f (f_Cursor f) idx))) (Z.of_nat (Z.to_nat (limit - Z.of_nat (length page + 1)))));
      symmetry; [apply Z.leb_le; lia | apply Z.leb_gt; lia].
Qed.

Definition desc (l : list Record_) : Prop := StronglySorted (fun a b => Seq b < Seq a) l.

Lemma shown_sorted f c l : desc l -> desc (shown f c l).
Proof using Type.
  induction 1 as [|ex l Hl IH Hex]; [constructor|]. rewrite shown_cons. destruct (eligible f c ex); [|done].
  constructor; [done|]. apply list.Forall_forall. intros x Hx. apply list_elem_of_filter in Hx as [_ Hx].
  rewrite list.Forall_forall in Hex. by apply Hex.
Qed.

Lemma matches_cursor ex c f : matches ex (with_cursor c f) = matches ex f.
Proof using Type. done. Qed.

Lemma shown_ext f c c' l : Forall (fun y => eligible f c y = eligible f c' y) l -> shown f c l = shown f c' l.
Proof using Type. induction 1 as [|y l Hy _ IH]; [done|]. by rewrite !shown_cons, Hy, IH. Qed.

(** Behind the cursor of a page's last record is what the page left. *)
Lemma shown_after f c l e1 x e2 : desc l -> 0 < Seq x -> shown f c l = e1 ++ x :: e2 -> shown f (Seq x) l = e2.
Proof using Type.
  clear dec. intros Hd Hx. assert (Hbig : forall ex, Seq x <= Seq ex -> eligible f (Seq x) ex = false).
  { intros ex Hle. unfold eligible. by rewrite (proj2 (Z.ltb_lt 0 (Seq x))), (proj2 (Z.ltb_ge (Seq ex) (Seq x))) by done. }
  revert e1. induction Hd as [|ex l Hl IH Hex]; intros e1 E; [by destruct e1|].
  rewrite shown_cons in *. rewrite list.Forall_forall in Hex.
  assert (Hlt : forall e, shown f c l = e ++ x :: e2 -> Seq x < Seq ex).
  { intros e Ee. apply Hex. assert (Hin : x ∈ shown f c l) by (rewrite Ee; set_solver). by apply list_elem_of_filter in Hin as [_ Hin]. }
  destruct (eligible f c ex) eqn:Eex.
  - destruct e1 as [|e e1]; injection E as -> E.
    + rewrite (Hbig x), <- E by lia. symmetry. apply shown_ext, list.Forall_forall. intros y Hy. specialize (Hex y Hy).
      unfold eligible in *. rewrite (proj2 (Z.ltb_lt 0 (Seq x))), (proj2 (Z.ltb_lt (Seq y) (Seq x))) by done. cbn [negb orb].
      apply andb_true_iff in Eex as [Eex _]. apply orb_true_iff in Eex as [-> |Hc%Z.ltb_lt]; [done|].
      rewrite (proj2 (Z.ltb_lt (Seq y) c)) by lia. by rewrite orb_true_r.
    + rewrite Hbig by (specialize (Hlt _ E); lia). by eapply IH.
  - rewrite Hbig by (specialize (Hlt _ E); lia). by eapply IH.
Qed.

Lemma follow_spec fuel org m f :
  Forall (fun ex => decryptInto enc ex = Ok (dec ex) /\ 0 < Seq ex /\ Seq (dec ex) = Seq ex) (sort_by seq_desc (of_org m org)) ->
  desc (sort_by seq_desc (of_org m org)) ->
  (length (shown f (f_Cursor f) (sort_by seq_desc (of_org m org))) < fuel)%nat ->
  exists pages, follow fuel org f m = Ok pages /\
    mjoin pages = dec <$> shown f (f_Cursor f) (sort_by seq_desc (of_org m org)) /\
    Forall (fun p => Z.of_nat (length p) <= clampLimit (f_Limit f)) pages.
Proof using Type.
  intros Hall Hd. revert f. induction fuel as [|fuel IH]; intros f Hfuel; [lia|]. set (idx := sort_by _ _) in *.
  assert (Hlim : 0 < clampLimit (f_Limit f)) by (unfold clampLimit, DefaultListLimit, MaxListLimit; repeat case_match; lia).
  cbn [follow]. unfold List_. fold idx. rewrite list_loop_spec; [|done|cbn; lia|by eapply list.Forall_impl; [exact Hall|intros ? [? _]]].
  cbn zeta. cbn [length app]. rewrite Z.sub_0_r. set (el := shown f (f_Cursor f) idx) in *. set (k := Z.to_nat (clampLimit (f_Limit f))).
  cbn [mbind result_bind NextCursor Records]. destruct (Z.leb_spec (Z.of_nat (length el)) (Z.of_nat k)) as [Hle|Hgt].
  - cbn [Z.eqb]. eexists. split; [done|]. rewrite take_ge by lia. cbn. rewrite app_nil_r. split; [done|]. repeat constructor.
    rewrite length_fmap. lia.
  - assert (Hsplit : exists e1 x, take k el = e1 ++ [x]).
    { assert (Hl0 : length (take k el) = k) by (apply length_take_le; lia).
      destruct (take k el) as [|x0 t0 _] using rev_ind; [cbn in Hl0; lia|eauto]. }
    destruct Hsplit as (e1 & x & Etk). rewrite Etk, fmap_app. cbn [fmap list_fmap]. rewrite last_snoc.
    assert (Hel : el = e1 ++ x :: drop k el).
    { rewrite <- (take_drop k el) at 1. rewrite Etk, <- app_assoc. done. }
    assert (Hin : x ∈ idx).
    { assert (H : x ∈ el) by (rewrite Hel; set_solver). by apply list_elem_of_filter in H as [_ H]. }
    rewrite list.Forall_forall in Hall. destruct (Hall x Hin) as (_ & Hpos & ->). rewrite (proj2 (Z.eqb_neq _ _)) by lia.
    pose proof (shown_after f (f_Cursor f) idx e1 x (drop k el) Hd Hpos Hel) as Hafter.
    destruct (IH (with_cursor (Seq x) f)) as (pages & -> & Hj & Hp).
    { change (f_Cursor (with_cursor (Seq x) f)) with (Seq x).
      change (shown (with_cursor (Seq x) f) (Seq x) idx) with (shown f (Seq x) idx). rewrite Hafter, length_drop. lia. }
    change (f_Cursor (with_cursor (Seq x) f)) with (Seq x) in Hj.
    change (shown (with_cursor (Seq x) f) (Seq x) idx) with (shown f (Seq x) idx) in Hj. rewrite Hafter in Hj.
    eexists. split; [done|]. split.
    + assert (Hjc : forall (p : list Record_) ps, mjoin (p :: ps) = p ++ mjoin ps) by done.
      rewrite Hjc, Hj. rewrite Hel at 2. rewrite fmap_app. cbn [fmap list_fmap]. by rewrite <- app_assoc.
    + constructor; [|exact Hp]. assert (Hl : length ((dec <$> e1) ++ [dec x]) = length (take k el)).
      { rewrite Etk, !length_app, length_fmap. done. }
      cbn [Records]. rewrite Hl, length_take. lia.
Qed.
End listing.

Lemma sort_ascending l :
  StronglySorted (fun a b => Seq a < Seq b) l -> sort_by seq_desc l = reverse l.
Proof.
  induction 1 as [|x l Hl IH Hx]; [done|]. change (insert_by seq_desc x (sort_by seq_desc l) = reverse (x :: l)). rewrite reverse_cons, IH.
  assert (Hr : Forall (fun y => Seq x < Seq y) (reverse l)) by (by rewrite reverse_Permutation).
  clear -Hr. induction Hr as [|y l' Hy _ IH]; [done|]. cbn. unfold seq_desc at 1. rewrite (proj2 (Z.leb_gt _ _)) by done. by rewrite IH.
Qed.

Lemma reverse_descending l : StronglySorted (fun a b => Seq a < Seq b) l -> desc (reverse l).
Proof.
  induction 1 as [|x l Hl IH Hx]; [constructor|]. rewrite reverse_cons. unfold desc. apply StronglySorted_snoc; [done|].
  by rewrite reverse_Permutation.
Qed.

Lemma shown_dec f dec l :
  f_Cursor f = 0 -> Forall (fun ex => matches (dec ex) f = matches ex f) l ->
  dec <$> shown f (f_Cursor f) l = filter (fun r => matches r f = true) (dec <$> l).
Proof.
  intros Hc. rewrite Hc. induction 1 as [|ex l Hex _ IH]; [done|]. rewrite shown_cons. unfold eligible. cbn [negb Z.ltb Z.compare orb andb].
  rewrite fmap_cons, filter_cons, Hex, <- IH. by destruct (matches ex f).
Qed.

(** Paging loses nothing.  On a store built by appends, following the cursors
    of a listing to the end visits exactly the organisation's records that
    match the filter, decrypted, each once and newest first, on pages no longer
    than the clamped limit, which is between 1 and 200. *)
Theorem paging_complete `{Sha256} `{Jcs} {W : Type} `{Runtime W} (enc : Encryptor W) (good : string -> Prop) `{!EncryptorSpec enc good}
  rs w m w' org f (Hrs : Forall (good_record good) rs) (E : append_all enc rs NewMemStore w = (m, w')) (Hc : f_Cursor f = 0) :
  exists plain pages, Forall2 (opens enc) (of_org m org) plain /\
    follow enc (S (length plain)) org f m = Ok pages /\
    mjoin pages = filter (fun r => matches r f = true) (reverse plain) /\
    Forall (fun p => Z.of_nat (length p) <= clampLimit (f_Limit f)) pages /\ 1 <= clampLimit (f_Limit f) <= 200.
Proof.
  pose proof (append_all_ok enc good rs NewMemStore w Hrs (empty_ok enc)) as Hok. rewrite E in Hok. cbn in Hok.
  destruct Hok as [_ Hch]. destruct (Hch org) as (plain & C1 & _ & C3 & C4 & _). exists plain.
  set (dec := fun ex => match decryptInto enc ex with Ok r => r | Err _ => ex end).
  assert (Hdec : forall ex r, opens enc ex r -> dec ex = r) by (unfold opens, dec; by intros ex r ->).
  assert (Hpl : plain = dec <$> of_org m org).
  { clear -C1 Hdec. induction C1 as [|ex r l l' Ho _ IH]; [done|]. cbn. by rewrite (Hdec _ _ Ho), <- IH. }
  assert (Hsq : forall ex r, opens enc ex r -> Seq r = Seq ex) by (intros ex r Ho; by rewrite (opens_fields enc _ _ Ho)).
  assert (Hasc : StronglySorted (fun a b => Seq a < Seq b) (of_org m org)).
  { clear -C1 C3 Hsq. induction C1 as [|ex r l l' Ho Hl IH]; [constructor|]. apply StronglySorted_inv in C3 as [C3 Hr].
    constructor; [by apply IH|]. clear -Hl Hr Ho Hsq. induction Hl as [|ex2 r2 l l' Ho2 _ IH]; [constructor|].
    apply Forall_cons_iff in Hr as [Hr2 Hr]. constructor; [|by apply IH]. by rewrite <- (Hsq _ _ Ho), <- (Hsq _ _ Ho2). }
  pose proof (sort_ascending _ Hasc) as Hsort.
  assert (Hall : Forall (fun ex => decryptInto enc ex = Ok (dec ex) /\ 0 < Seq ex /\ Seq (dec ex) = Seq ex) (of_org m org)).
  { clear -C1 C4 Hdec Hsq. induction C1 as [|ex r l l' Ho _ IH]; [constructor|]. apply Forall_cons_iff in C4 as [[_ Hp] C4].
    constructor; [|by apply IH]. rewrite (Hdec _ _ Ho), <- (Hsq _ _ Ho). unfold opens in Ho. split; [done|]. split; [lia|done]. }
  destruct (follow_spec enc dec (S (length plain)) org m f) as (pages & Hf & Hj & Hp); rewrite ?Hsort.
  - by rewrite reverse_Permutation.
  - by apply reverse_descending.
  - rewrite Hpl, length_fmap. unfold shown. pose proof (length_filter (fun ex => eligible f (f_Cursor f) ex = true) (reverse (of_org m org))) as Hl.
    rewrite length_reverse in Hl. lia.
  - exists pages. split_and!; try done.
    2,3: unfold clampLimit, DefaultListLimit, MaxListLimit; repeat case_match; lia.
    rewrite Hj, Hsort, Hpl, <- fmap_reverse. apply shown_dec; [done|]. rewrite reverse_Permutation.
    clear -C1 Hdec. induction C1 as [|ex r l l' Ho _ IH]; constructor; [|done]. rewrite (Hdec _ _ Ho).
    assert (Hs : forall a t i, matches (set_fields a t i ex) f = matches ex f) by reflexivity.
    pose proof (opens_fields enc _ _ Ho) as Hr. rewrite Hr. apply Hs.
Qed.
