(* ===== verification/AuditMem.v ===== *)
(** The decision log on concrete data: a canonicalizer and a cipher that meet
    the interfaces, sample records, and the witnesses of [AuditProps.v]. *)

From S2P Require Import Prelude GoStrings GoTime Contracts Runtime Signing Samples Sha2 AuthProps AuditLog AuditProps.

#[local] Existing Instances sha2 sha2_laws.

(** A canonicalizer that leads with the first member's text. *)
Fixpoint render (j : json) : string :=
  match j with
  | JNull => "null"
  | JBool b => if b then "true" else "false"
  | JNum q => FormatInt (Qnum q) +:+ "/" +:+ FormatInt (Zpos (Qden q))
  | JStr s => "s" +:+ hex_encode s
  | JArr l => "[" +:+ (fix go l := match l with [] => "]" | x :: l => render x +:+ "," +:+ go l end) l
  | JObj l => "{" +:+ (fix go l := match l with [] => "}" | (k, x) :: l => k +:+ ":" +:+ render x +:+ "," +:+ go l end) l
  end.

#[local] Instance sample_jcs : Jcs :=
  {| canon j := match j with
                | JObj ((_, JStr s) :: l) => Some (hex_encode s +:+ "." +:+ render (JObj l))
                | _ => Some (render j)
                end |}.

Lemma hex_no_dot s : no_char "." (hex_encode s) = true.
Proof.
  assert (H : forall d, 0 <= d < 16 -> Ascii.eqb (hex_char d) "." = false).
  { intros d Hd. apply Ascii.eqb_neq. intros E. apply (f_equal byte_val) in E. unfold hex_char in E.
    change (byte_val ".") with 46 in E. destruct (d <? 10) eqn:Ed; breflect; rewrite !byte_val_chr in E by lia; lia. }
  induction s as [|c s IH]; [done|]. unfold no_char in *. cbn [hex_encode str_all]. pose proof (byte_val_range c).
  rewrite !H, IH by zlia. done.
Qed.

#[local] Instance sample_jcs_laws : JcsLaws.
Proof.
  split. intros k s t l l' c Hc Hc' _ _ _ _. cbn -[hex_encode render] in Hc, Hc'. rewrite <- Hc' in Hc. injection Hc as E.
  apply (str_app_char_inj "."%char) in E as [E _]; [by apply hex_encode_inj|apply hex_no_dot..].
Qed.

#[local] Instance aurt : Runtime (sworld unit) := sample_runtime unit.
Abbreviation nop := (@NopEncryptor (sworld unit)).

Definition sample_record (org id amount : string) : Record_ :=
  RecordFromDecision org "key1" (sample_request "agent1" amount)
    {| dec_DecisionID := id; dec_Verdict := VerdictApprove; dec_PolicyVersionHash := "h";
       dec_Explanation := {| exp_Summary := "ok"; exp_MatchedRules := [] |}; dec_Obligations := []; dec_LatencyMs := 3;
       dec_EvaluatedAt := "2026-03-02T10:00:00Z"; dec_Signature := empty_signature; dec_Shadow := false;
       dec_RecordHash := ""; dec_SignatureVerified := None |}.

(** The second decision twice, and another organisation's in between. *)
Definition sample_log : list Record_ :=
  [sample_record "org1" "d1" "10.00"; sample_record "org1" "d2" "20.00"; sample_record "org2" "d3" "5.00";
   sample_record "org1" "d2" "99.00"; sample_record "org1" "d4" "30.00"].

Definition logged : MemStore := (append_all nop sample_log NewMemStore (world0 tt)).1.

Lemma sample_log_good : Forall (good_record unmarked) sample_log.
Proof. unfold sample_log. repeat (constructor; [by repeat split|]). constructor. Defined.

Example logged_ids :
  (DecisionID <$> of_org logged "org1", Seq <$> of_org logged "org1", DecisionID <$> of_org logged "org2") =
  (["d1"; "d2"; "d4"], [1; 2; 4], ["d3"]).
Proof. vm_compute. reflexivity. Qed.

Definition everything : Filter := {| f_AgentID := ""; f_Verdict := ""; f_From := zero_time; f_To := zero_time; f_Limit := 2; f_Cursor := 0 |}.

Example two_pages :
  match follow nop 9 "org1" everything logged with Ok ps => map (map DecisionID) ps | Err _ => [] end = [["d4"; "d2"]; ["d1"]].
Proof. vm_compute. reflexivity. Qed.

(** Reading one record checks its own hash only: after a change of the amount,
    which the signature does not cover, recomputing the hash satisfies the
    check; the chain breaks at the next record, which no reader compares. *)
Definition rehashed (r : Record_) (amount : string) : Record_ :=
  let r := set_fields amount (TargetType r) (TargetID r) r in
  match ComputeRecordHash (PrevHash r) r with
  | Ok h => set_chain (Seq r) (PrevHash r) h (CreatedAt r) r
  | Err _ => r
  end.

Example rehashed_record_verifies :
  match Get nop "org1" "d2" logged with
  | Ok r =>
    VerifyChainLink r = Ok true /\ VerifyChainLink (rehashed r "2000.00") = Ok true /\
    signedView (Record_Decision (rehashed r "2000.00") false) = signedView (Record_Decision r false) /\
    RecordHash (rehashed r "2000.00") <> RecordHash r
  | Err _ => False
  end.
Proof. vm_compute. split_and!; [reflexivity..|discriminate]. Qed.

(** The creation and retention times are stored but not hashed. *)
Example times_not_hashed : forall p r c, ComputeRecordHash p (set_chain (Seq r) (PrevHash r) (RecordHash r) c r) = ComputeRecordHash p r.
Proof. reflexivity. Qed.

(** * Witnesses *)

Lemma chain_integrity_witness :
  is_ok (Get nop "org1" "d2" logged) = true /\ forall r, Get nop "org1" "d2" logged = Ok r -> VerifyChainLink r = Ok true.
Proof.
  split; [vm_compute; reflexivity|]. intros r Hr.
  exact (proj2 (proj2 (proj1 (proj2 (chain_integrity nop unmarked sample_log (world0 tt) logged _ sample_log_good (surjective_pairing _)))
                         "org1" "d2" r Hr))).
Defined.

Definition chain1 : list Record_ := of_org logged "org1".

Lemma chain_tamper_evident_witness :
  linked GenesisPrev chain1 /\
  (Forall2 (fun a b => hashed_bytes a = hashed_bytes b /\ PrevHash a = PrevHash b /\ RecordHash a = RecordHash b) chain1 chain1 \/
   exists a b, a ∈ chain1 /\ b ∈ chain1 /\ collide a b).
Proof.
  assert (L : linked GenesisPrev chain1) by (vm_compute; repeat split).
  split; [exact L|]. exact (chain_tamper_evident chain1 chain1 L L eq_refl).
Defined.

Lemma paging_complete_witness :
  exists plain pages, Forall2 (opens nop) (of_org logged "org1") plain /\ follow nop (S (length plain)) "org1" everything logged = Ok pages /\
    mjoin pages = filter (fun r => matches r everything = true) (reverse plain) /\
    Forall (fun p => Z.of_nat (length p) <= clampLimit 2) pages /\ 1 <= clampLimit 2 <= 200.
Proof.
  exact (paging_complete nop unmarked sample_log (world0 tt) logged _ "org1" everything sample_log_good (surjective_pairing _) eq_refl).
Defined.
