(* ===== verification/AuditPg.v ===== *)
(** The Postgres decision log ([internal/audit/postgres.go]) on the table
    [decisions].

    An append is a transaction, so it is a thread that makes one statement per
    step; transactions of any number of instances interleave at READ COMMITTED:
    a statement sees the rows committed before it.  An advisory lock on a hash
    of the organisation is held from its grant to the end of the transaction.
    Any statement can fail, which rolls the transaction back, and the answer to
    a commit can be lost after it took effect.  [stored] is what a [timestamptz]
    column keeps of an instant. *)

From stdpp Require Import relations.
From S2P Require Import Prelude GoStrings GoTime Contracts Runtime Signing AuditLog AuditProps Pg.

(** A row of [decisions]: the record with its sensitive fields sealed, and the
    parsed evaluation time. *)
Record pg_row := { row_rec : Record_; row_ts : time }.

(** The committed rows, in the order of their commits, and the last value of
    the sequence that numbers them. *)
Record pg_log := { pl_rows : list pg_row; pl_seq : Z }.

Definition rows_of (org : string) (rows : list pg_row) : list pg_row := filter (fun row => OrgID (row_rec row) = org) rows.

(** * What the columns accept *)

Definition verdicts : list string := [VerdictApprove; VerdictDeny; VerdictReview].

(** Types and checks of the table, on the record with its fields sealed. *)
Definition row_accepted (r : Record_) : bool :=
  forallb text_ok [DecisionID r; OrgID r; APIKeyID r; AgentID r; Action r; Currency r; Jurisdiction r; Amount r; TargetType r; TargetID r;
                   PolicyVersionHash r; EvaluatedAt r] &&
  mem_str (Verdict r) verdicts && (-2147483648 <=? LatencyMs r) && (LatencyMs r <=? 2147483647) &&
  jsonb_ok (Explanation_json (Explanation_ r)) && forallb (fun o => jsonb_ok (Obligation_json o)) (Obligations r) && jsonb_ok (Signature_json (Signature_ r)).

Section pg.
Context `{Sha256} `{Jcs} {W : Type} (enc : Encryptor W) (stored : time -> time) (hashtext : string -> Z).

(** * Appending *)

(** [SELECT record_hash ... ORDER BY seq DESC LIMIT 1]. *)
Definition read_tail (org : string) (rows : list pg_row) : string :=
  match sort_by seq_desc (row_rec <$> rows_of org rows) with
  | r :: _ => RecordHash r
  | [] => GenesisPrev
  end.

Definition parseEvalTS (now : time) (s : string) : time := match parse_rfc3339 s with Some t => t | None => now end.

(** The retention column: NULL for the zero time, which reads back as it. *)
Definition persisted (r : Record_) : Record_ :=
  {| Seq := Seq r; DecisionID := DecisionID r; OrgID := OrgID r; APIKeyID := APIKeyID r; AgentID := AgentID r;
     Action := Action r; Amount := Amount r; Currency := Currency r; TargetType := TargetType r; TargetID := TargetID r;
     Jurisdiction := Jurisdiction r; Verdict := Verdict r; PolicyVersionHash := PolicyVersionHash r;
     Explanation_ := Explanation_ r; Obligations := Obligations r; Signature_ := Signature_ r; LatencyMs := LatencyMs r;
     EvaluatedAt := EvaluatedAt r; Shadow := Shadow r; PrevHash := PrevHash r; RecordHash := RecordHash r;
     RetainUntil := if IsZero (RetainUntil r) then zero_time else stored (RetainUntil r); CreatedAt := CreatedAt r |}.

(** Where an append is: before [BEGIN], before the lock, before reading the
    tail, before the insert, before [COMMIT], done. *)
Inductive append_pc :=
| ABegin (r : Record_)
| ALock (r : Record_)
| ATail (r : Record_)
| AInsert (r : Record_) (prev hash : string) (sealed : Record_) (ts : time)
| ACommit (r : Record_) (row : option pg_row)
| ADone (r : Record_) (res : result audit_error Record_).

Definition record_of (th : append_pc) : Record_ :=
  match th with ABegin r | ALock r | ATail r | AInsert r _ _ _ _ | ACommit r _ | ADone r _ => r end.

(** The advisory lock a transaction holds, and the row it has not committed. *)
Definition lock_of (th : append_pc) : option Z :=
  match th with
  | ATail r | AInsert r _ _ _ _ | ACommit r _ => Some (hashtext (OrgID r))
  | _ => None
  end.

Definition pending_of (th : append_pc) : list pg_row := match th with ACommit _ (Some row) => [row] | _ => [] end.

(** The two unique indexes: (org_id, decision_id) and (org_id, prev_hash). *)
Definition same_decision (a b : Record_) : bool := String.eqb (OrgID a) (OrgID b) && String.eqb (DecisionID a) (DecisionID b).
Definition same_prev (a b : Record_) : bool := String.eqb (OrgID a) (OrgID b) && String.eqb (PrevHash a) (PrevHash b).

Definition bump (db : pg_log) : pg_log := {| pl_rows := pl_rows db; pl_seq := pl_seq db + 1 |}.

Definition commit_row (row : option pg_row) (db : pg_log) : pg_log :=
  {| pl_rows := match row with Some x => pl_rows db ++ [x] | None => pl_rows db end; pl_seq := pl_seq db |}.

(** The caller's record with what the insert assigned. *)
Definition acknowledged (row : option pg_row) (r : Record_) : Record_ :=
  match row with
  | Some x => set_chain (Seq (row_rec x)) (PrevHash (row_rec x)) (RecordHash (row_rec x)) (CreatedAt (row_rec x)) r
  | None => r
  end.

Definition inserted (n : Z) (prev hash : string) (created ts : time) (sealed : Record_) : pg_row :=
  {| row_rec := set_chain n prev hash created (persisted sealed); row_ts := stored ts |}.

(** One statement of an append, [None] while it waits; [others] are the other
    transactions, [app] and [db_now] the clocks of the process and of the
    database. *)
Definition append_exec (f : fault) (app db_now : time) (others : list append_pc) (th : append_pc) (db : pg_log) (w : W)
    : option (append_pc * pg_log * W) :=
  match th, f with
  | ABegin r, Live => Some (ALock r, db, w)
  | ALock r, Live =>
    if negb (text_ok (OrgID r)) then Some (ADone r (Err (StoreError "audit: advisory lock")), db, w)
    else if existsb (fun o => bool_decide (lock_of o = Some (hashtext (OrgID r)))) others then None else Some (ATail r, db, w)
  | ATail r, Live =>
    let prev := read_tail (OrgID r) (pl_rows db) in
    match ComputeRecordHash prev r with
    | Err e => Some (ADone r (Err e), db, w)
    | Ok hash =>
      let '(s, w) := encryptInto enc r w in
      match s with
      | Err e => Some (ADone r (Err e), db, w)
      | Ok sealed => Some (AInsert r prev hash sealed (parseEvalTS app (EvaluatedAt r)), db, w)
      end
    end
  | AInsert r prev hash sealed ts, Live =>
    let row := inserted (pl_seq db + 1) prev hash (stored db_now) ts sealed in
    let meets p rows := existsb (fun x => p (row_rec x) (row_rec row)) rows in
    if negb (row_accepted sealed) then Some (ADone r (Err (StoreError "audit: insert")), db, w)
    else if meets same_decision (others ≫= pending_of) || meets same_prev (others ≫= pending_of) then None
    else if meets same_decision (pl_rows db) then Some (ACommit r None, bump db, w)
    else if meets same_prev (pl_rows db) then Some (ADone r (Err (StoreError "audit: insert")), bump db, w)
    else Some (ACommit r (Some row), bump db, w)
  | ACommit r row, Live => Some (ADone r (Ok (acknowledged row r)), commit_row row db, w)
  | ACommit r row, Lost m => Some (ADone r (Err (StoreError m)), commit_row row db, w)
  | ADone _ _, _ => None
  | ABegin r, Refused m | ABegin r, Lost m | ALock r, Refused m | ALock r, Lost m | ATail r, Refused m | ATail r, Lost m
  | AInsert r _ _ _ _, Refused m | AInsert r _ _ _ _, Lost m | ACommit r _, Refused m => Some (ADone r (Err (StoreError m)), db, w)
  end.

(** * Reading *)

Definition Pg_Get_decision (org id : string) (rows : list pg_row) : result audit_error Record_ :=
  if negb (text_ok org && text_ok id) then Err (StoreError "invalid byte sequence")
  else match find_first (fun row => String.eqb (DecisionID (row_rec row)) id) (rows_of org rows) with
  | Some row => decryptInto enc (row_rec row)
  | None => Err AuditNotFound
  end.

(** The conditions of the listing's query. *)
Definition selects (f : Filter) (row : pg_row) : bool :=
  (String.eqb (f_AgentID f) "" || String.eqb (AgentID (row_rec row)) (f_AgentID f)) &&
  (String.eqb (f_Verdict f) "" || String.eqb (Verdict (row_rec row)) (f_Verdict f)) &&
  (IsZero (f_From f) || (stored (f_From f) <=? row_ts row)) &&
  (IsZero (f_To f) || (row_ts row <? stored (f_To f))) &&
  (negb (0 <? f_Cursor f) || (Seq (row_rec row) <? f_Cursor f)).

Fixpoint scan_rows (rows : list pg_row) : result audit_error (list Record_) :=
  match rows with
  | [] => Ok []
  | row :: rows => r ← decryptInto enc (row_rec row); rs ← scan_rows rows; Ok (r :: rs)
  end.

Definition row_desc (a b : pg_row) : bool := seq_desc (row_rec a) (row_rec b).

(** One row more than a page, to know whether there is another page. *)
Definition Pg_List (org : string) (f : Filter) (rows : list pg_row) : result audit_error Page :=
  let limit := clampLimit (f_Limit f) in
  _ ← (if forallb text_ok [org; f_AgentID f; f_Verdict f] then Ok tt else Err (StoreError "audit: list query"));
  recs ← scan_rows (take (Z.to_nat (limit + 1)) (filter (fun row => selects f row = true) (sort_by row_desc (rows_of org rows))));
  Ok (if limit <? Z.of_nat (length recs) then
        let page := take (Z.to_nat limit) recs in
        {| Records := page; NextCursor := match list.last page with Some r => Seq r | None => 0 end |}
      else {| Records := recs; NextCursor := 0 |}).

(** * Many appends *)

Record append_system := { as_db : pg_log; as_world : W; as_threads : list append_pc }.

Context (good : string -> Prop).

(** A transaction makes a statement. *)
Inductive append_run : append_system -> append_system -> Prop :=
| ar_run f app db_now th th' ths1 ths2 db db' w w' :
    append_exec f app db_now (ths1 ++ ths2) th db w = Some (th', db', w') ->
    append_run {| as_db := db; as_world := w; as_threads := ths1 ++ th :: ths2 |}
               {| as_db := db'; as_world := w'; as_threads := ths1 ++ th' :: ths2 |}.

(** Or a call arrives, or the sequence skips. *)
Inductive append_step : append_system -> append_system -> Prop :=
| as_arrive r db w ths : good_record good r ->
    append_step {| as_db := db; as_world := w; as_threads := ths |} {| as_db := db; as_world := w; as_threads := ABegin r :: ths |}
| as_run s s' : append_run s s' -> append_step s s'
| as_skip n db w ths : 0 <= n ->
    append_step {| as_db := db; as_world := w; as_threads := ths |}
                {| as_db := {| pl_rows := pl_rows db; pl_seq := pl_seq db + n |}; as_world := w; as_threads := ths |}.

Definition append_init (w : W) : append_system := {| as_db := {| pl_rows := []; pl_seq := 0 |}; as_world := w; as_threads := [] |}.
End pg.
