(* ===== verification/AuditPgProps.v ===== *)
(** What the Postgres decision log guarantees: whatever interleaves and fails,
    every organisation's rows are one linked chain that only grows, and what was
    acknowledged is in it; appends finish and do not deadlock; reads answer as
    the in-memory log does. *)

From stdpp Require Import relations.
From S2P Require Import Prelude GoStrings GoTime Contracts Runtime Signing AuditLog AuditProps Pg AuditPg.

(** * Rows in order *)

Abbreviation recs_of org db := (row_rec <$> rows_of org (pl_rows db)).

Lemma Forall2_ascending {W} (enc : Encryptor W) stored plain :
  Forall2 (opens enc) stored plain -> StronglySorted (fun a b => Seq a < Seq b) plain -> StronglySorted (fun a b => Seq a < Seq b) stored.
Proof.
  assert (Hsq : forall ex r, opens enc ex r -> Seq r = Seq ex) by (intros ex r Ho; by rewrite (opens_fields enc _ _ Ho)).
  induction 1 as [|ex r l l' Ho Hl IH]; intros Hs; [constructor|]. apply StronglySorted_inv in Hs as [Hs Hr]. constructor; [by apply IH|].
  clear IH Hs. induction Hl as [|ex2 r2 l l' Ho2 _ IH]; [constructor|].
  apply Forall_cons_iff in Hr as [Hr2 Hr]. constructor; [|by apply IH]. by rewrite <- (Hsq _ _ Ho), <- (Hsq _ _ Ho2).
Qed.

Lemma rows_of_snoc org rows x : rows_of org (rows ++ [x]) = rows_of org rows ++ (if decide (OrgID (row_rec x) = org) then [x] else []).
Proof. unfold rows_of. rewrite list.filter_app, filter_cons. by destruct (decide _). Qed.

Lemma reverse_head {A} (l : list A) : head (reverse l) = list.last l.
Proof. induction l as [|x l IH] using rev_ind; [done|]. by rewrite reverse_snoc, last_snoc. Qed.

Lemma sort_row_desc l : row_rec <$> sort_by row_desc l = sort_by seq_desc (row_rec <$> l).
Proof.
  assert (Hins : forall x l, row_rec <$> insert_by row_desc x l = insert_by seq_desc (row_rec x) (row_rec <$> l)).
  { intros x l'. induction l' as [|y l' IH]; [done|]. cbn. unfold row_desc at 1. destruct (seq_desc (row_rec x) (row_rec y)); cbn; [done|]. by rewrite <- IH. }
  induction l as [|x l IH]; [done|]. cbn. unfold sort_by in *. cbn. by rewrite Hins, IH.
Qed.

Lemma least_positive {A} (f : A -> nat) l :
  (0 < sum_list (f <$> l))%nat ->
  exists l1 x l2, l = l1 ++ x :: l2 /\ (0 < f x)%nat /\ Forall (fun y => f y = 0%nat \/ (f x <= f y)%nat) (l1 ++ l2).
Proof.
  induction l as [|y l IH]; cbn; [lia|]. intros Hs. destruct (decide (sum_list (f <$> l) = 0)%nat) as [Hz|Hz].
  - exists [], y, l. split_and!; [done|lia|]. clear -Hz. induction l as [|x l IH]; constructor; cbn in Hz; [left; lia|apply IH; lia].
  - destruct IH as (l1 & x & l2 & -> & Hx & Hall); [lia|].
    destruct (decide (f y = 0 \/ f x <= f y)%nat) as [Hy|Hy]; [by exists (y :: l1), x, l2; split_and!; [done..|constructor]|].
    exists [], y, (l1 ++ x :: l2). split_and!; [done|lia|]. cbn. rewrite Forall_app in *. destruct Hall as [H1 H2].
    split; [|constructor; [right; lia|]]; (eapply list.Forall_impl; [eassumption|]); cbn; lia.
Qed.

Section props.
Context `{Sha256} `{Jcs} {W : Type} `{Runtime W} (enc : Encryptor W) (good : string -> Prop) `{!EncryptorSpec enc good}.
Context (stored : time -> time) (hashtext : string -> Z).

Lemma read_tail_chain org n rows plain :
  chain_ok enc org n (row_rec <$> rows_of org rows) plain -> read_tail org rows = chain_tail (row_rec <$> rows_of org rows).
Proof using Type.
  intros (C1 & _ & C3 & _). unfold read_tail, chain_tail. rewrite (sort_ascending _ (Forall2_ascending enc _ _ C1 C3)), <- reverse_head.
  by destruct (reverse _).
Qed.

(** Sealing and keeping the retention commute with opening. *)
Lemma opens_inserted n prev hash created ts sealed r :
  opens enc sealed r -> opens enc (row_rec (inserted stored n prev hash created ts sealed)) (set_chain n prev hash created (persisted stored r)).
Proof using Type.
  intros Ho. pose proof (opens_fields enc _ _ Ho) as Hr. unfold opens, decryptInto in *. cbn [row_rec inserted set_chain persisted Amount TargetType TargetID].
  destruct (Decrypt enc (Amount sealed)); [|done]. cbn in *. destruct (Decrypt enc (TargetType sealed)); [|done]. cbn in *.
  destruct (Decrypt enc (TargetID sealed)); [|done]. cbn in *. injection Ho as <-. done.
Qed.

(** * The invariant *)

(** Its key can be asked for. *)
Definition texts_ok (r : Record_) : bool := text_ok (OrgID r) && text_ok (DecisionID r).

Lemma accepted_texts enc' sealed r : opens (W:=W) enc' sealed r -> row_accepted sealed = true -> texts_ok r = true.
Proof using Type.
  intros Ho. rewrite (opens_fields _ _ _ Ho). unfold row_accepted, texts_ok. cbn [forallb OrgID DecisionID set_fields].
  destruct (text_ok (DecisionID sealed)); [|done]. by destruct (text_ok (OrgID sealed)).
Qed.

(** A row about to be committed, for a record. *)
Definition next_row (db : pg_log) (r : Record_) (row : pg_row) : Prop :=
  let n := Seq (row_rec row) in
  let tail := chain_tail (recs_of (OrgID r) db) in
  exists hash created, 0 < n <= pl_seq db /\ Forall (fun x => Seq x < n) (recs_of (OrgID r) db) /\
    ComputeRecordHash tail r = Ok hash /\ OrgID (row_rec row) = OrgID r /\
    opens enc (row_rec row) (set_chain n tail hash created (persisted stored r)) /\ DecisionID r ∉ DecisionID <$> recs_of (OrgID r) db /\
    texts_ok r = true.

Definition logged (db : pg_log) (r : Record_) : Prop := texts_ok r = true /\ DecisionID r ∈ DecisionID <$> recs_of (OrgID r) db.

Definition append_ok (db : pg_log) (th : append_pc) : Prop :=
  match th with
  | ABegin r | ALock r | ATail r => good_record good r
  | AInsert r prev hash sealed _ =>
    good_record good r /\ prev = chain_tail (recs_of (OrgID r) db) /\ ComputeRecordHash prev r = Ok hash /\ opens enc sealed r
  | ACommit r (Some row) => next_row db r row
  | ACommit r None => logged db r
  | ADone r (Ok _) => logged db r
  | ADone _ (Err _) => True
  end.

Definition chains_ok (db : pg_log) : Prop :=
  0 <= pl_seq db /\ forall org, exists plain, chain_ok enc org (pl_seq db) (recs_of org db) plain.

Definition locks_ok (ths : list append_pc) : Prop := NoDup (omap (lock_of hashtext) ths).

Definition log_ok (s : append_system (W:=W)) : Prop :=
  chains_ok (as_db s) /\ locks_ok (as_threads s) /\ Forall (append_ok (as_db s)) (as_threads s).

(** Rows of other organisations and gaps in the sequence do not matter. *)
Lemma append_ok_frame db db' th :
  pl_seq db <= pl_seq db' -> recs_of (OrgID (record_of th)) db' = recs_of (OrgID (record_of th)) db ->
  append_ok db th -> append_ok db' th.
Proof using Type.
  intros Hn Hr. destruct th as [r|r|r|r prev hash sealed ts|r [row|]|r [r'|e]]; cbn [append_ok record_of] in *; try done; unfold logged, next_row; rewrite ?Hr; try done.
  intros (hash & created & Hs & Hrest). exists hash, created. split; [lia|done].
Qed.

Lemma recs_commit org row db :
  recs_of org (commit_row (Some row) db) = recs_of org db ++ (if decide (OrgID (row_rec row) = org) then [row_rec row] else []).
Proof using Type. cbn [commit_row pl_rows]. rewrite rows_of_snoc, fmap_app. by destruct (decide _). Qed.

(** A commit leaves alone what holds no lock on its organisation. *)
Lemma append_ok_commit db row o :
  (lock_of hashtext o <> None -> OrgID (record_of o) <> OrgID (row_rec row)) -> append_ok db o -> append_ok (commit_row (Some row) db) o.
Proof using Type.
  intros Hl Ho. assert (Hlog : forall r, logged db r -> logged (commit_row (Some row) db) r).
  { intros r [Ht Hin]. split; [done|]. rewrite recs_commit, fmap_app, elem_of_app. by left. }
  destruct o as [r|r|r|r prev hash sealed ts|r row'|r [r'|e]]; try done; try (by apply Hlog);
    (apply (append_ok_frame db); [done| |exact Ho]); rewrite recs_commit; cbn [record_of] in *;
    (destruct (decide _) as [E|_]; [|apply app_nil_r]); by destruct (Hl ltac:(done)).
Qed.

(** Committing its row extends the chain of its organisation. *)
Lemma next_row_commits db r row :
  chains_ok db -> next_row db r row -> chains_ok (commit_row (Some row) db) /\ logged (commit_row (Some row) db) r.
Proof using All.
  intros [Hn Hch] (hash & created & Hq & Hlt & Hh & Ho & Hop & Hd & Ht). destruct (Hch (OrgID r)) as (plain & Hplain).
  assert (Hprev : chain_ok enc (OrgID r) (Seq (row_rec row) - 1) (recs_of (OrgID r) db) plain).
  { destruct Hplain as (C1 & C2 & C3 & C4 & C5). split_and!; try done. clear C2 C3 C5. revert C4 Hlt. generalize (recs_of (OrgID r) db), C1. clear.
    intros l C1. induction C1 as [|ex x l l' Hx _ IH]; [constructor|]. intros [C4 C4']%Forall_cons_iff [Hl Hl']%Forall_cons_iff. constructor; [|by apply IH].
    pose proof (f_equal Seq (opens_fields enc _ _ Hx)) as E. cbn in E. split; [apply C4|]. lia. }
  set (q := Seq (row_rec row)) in *. replace q with (q - 1 + 1) in Hop by lia.
  pose proof (chain_ok_append enc (OrgID r) (q - 1) _ _ (persisted stored r) (row_rec row) hash created ltac:(lia) Hprev eq_refl Hd Hh Hop) as Hnew.
  replace (q - 1 + 1) with q in * by lia. split; [split; [done|]|].
  - intros org. rewrite recs_commit. destruct (decide (OrgID (row_rec row) = org)) as [E|E]; [|rewrite app_nil_r; apply Hch].
    assert (org = OrgID r) as -> by congruence. eexists. eapply chain_ok_later; [|exact Hnew]. cbn. lia.
  - split; [done|]. rewrite recs_commit, decide_True by done. rewrite fmap_app, elem_of_app. right.
    pose proof (f_equal DecisionID (opens_fields enc _ _ Hop)) as E. cbn in E |- *. rewrite E. by left.
Qed.

(** What one statement does. *)
Lemma append_exec_ok f app db_now others th db w th' db' w' :
  chains_ok db -> append_ok db th -> append_exec enc stored hashtext f app db_now others th db w = Some (th', db', w') ->
  record_of th' = record_of th /\
  ((pl_rows db' = pl_rows db /\ pl_seq db <= pl_seq db' /\ append_ok db' th' /\
    (lock_of hashtext th' = lock_of hashtext th \/ lock_of hashtext th' = None \/
     (lock_of hashtext th = None /\ exists k, lock_of hashtext th' = Some k /\ forall o, o ∈ others -> lock_of hashtext o <> Some k))) \/
   (exists r row, th = ACommit r (Some row) /\ next_row db r row /\ db' = commit_row (Some row) db /\
      lock_of hashtext th' = None /\ (logged db' r -> append_ok db' th'))).
Proof using All.
  intros Hch Hok. destruct th as [r|r|r|r prev hash sealed ts|r row|r res]; cbn [append_exec]; [| | | | |by destruct f].
  - destruct f; intros [= <- <- <-]; (split; [done|]); left; split_and!; try done; by left.
  - destruct f as [|m|m]; [|intros [= <- <- <-]; (split; [done|]); left; split_and!; try done; by left..].
    destruct (negb _); [intros [= <- <- <-]; (split; [done|]); left; split_and!; try done; by left|].
    destruct (existsb _ others) eqn:Ex; [done|]. intros [= <- <- <-]. split; [done|]. left. split_and!; [done..|]. right. right. split; [done|].
    eexists. split; [done|]. intros o Hin Ho. apply not_true_iff_false in Ex. apply Ex, existsb_exists. exists o. split; [by apply list_elem_of_In|].
    by rewrite bool_decide_true.
  - destruct f as [|m|m]; [|intros [= <- <- <-]; (split; [done|]); left; split_and!; try done; by right; left..]. cbv zeta.
    destruct Hch as [Hn Hch]. destruct (Hch (OrgID r)) as (plain & Hplain). rewrite (read_tail_chain _ _ _ _ Hplain).
    destruct (ComputeRecordHash _ r) as [hash|e] eqn:Eh; [|intros [= <- <- <-]; (split; [done|]); left; split_and!; try done; by right; left].
    destruct (encryptInto enc r w) as [[sealed|e] w1] eqn:Ee; intros [= <- <- <-]; (split; [done|]); left; split_and!; try done; [|by left|by right; left].
    cbn. split_and!; [done..|]. by eapply (encryptInto_opens enc good).
  - destruct f as [|m|m]; [|intros [= <- <- <-]; (split; [done|]); left; split_and!; try done; by right; left..]. cbv zeta.
    destruct (row_accepted sealed) eqn:Hacc; cbn [negb]; [|intros [= <- <- <-]; (split; [done|]); left; split_and!; try done; by right; left].
    destruct (existsb _ (others ≫= pending_of) || _); [done|]. destruct Hok as (Hg & Hp & Hh & Hs). pose proof (accepted_texts _ _ _ Hs Hacc) as Htx. set (row := inserted _ _ _ _ _ _ _) in *.
    assert (Hrec : OrgID (row_rec row) = OrgID r /\ DecisionID (row_rec row) = DecisionID r).
    { pose proof (opens_fields enc _ _ Hs) as E. split; [apply (f_equal OrgID) in E | apply (f_equal DecisionID) in E]; cbn in *; congruence. } destruct Hrec as [Hro Hrd].
    destruct (existsb _ (pl_rows db)) eqn:Ed.
    { intros [= <- <- <-]. split; [done|]. left. split_and!; [done | cbn; lia | | by left]. apply existsb_exists in Ed as (x & Hx & Hsame).
      apply andb_true_iff in Hsame as [So%String.eqb_eq Sd%String.eqb_eq]. rewrite Hro in So. rewrite Hrd in Sd. cbn. split; [done|]. rewrite <- Sd.
      apply list_elem_of_fmap_2, list_elem_of_fmap_2. apply list_elem_of_filter. split; [done|]. by apply list_elem_of_In. }
    match goal with |- context [existsb ?p (pl_rows db)] => destruct (existsb p (pl_rows db)) end; [intros [= <- <- <-]; (split; [done|]); left; split_and!; [done | cbn; lia | done | by right; left]|].
    intros [= <- <- <-]. split; [done|]. left. split_and!; [done | cbn; lia | | by left].
    assert (Hn : 0 <= pl_seq db) by apply Hch. exists hash, (stored db_now). cbn [row_rec bump pl_seq pl_rows]. subst prev. change (Seq (row_rec row)) with (pl_seq db + 1).
    split_and!; [lia | lia | | done | done | by apply opens_inserted| |done].
    + destruct (proj2 Hch (OrgID r)) as (plain & C1 & _ & _ & C4 & _). clear -C1 C4. induction C1 as [|ex x l l' Hx _ IH]; [constructor|].
      apply Forall_cons_iff in C4 as [C4 C4']. constructor; [|by apply IH]. pose proof (f_equal Seq (opens_fields enc _ _ Hx)) as E. cbn in E. lia.
    + intros (x & Hx & (y & -> & Hy)%list_elem_of_fmap)%list_elem_of_fmap. apply list_elem_of_filter in Hy as [Hyo Hy].
      apply not_true_iff_false in Ed. apply Ed, existsb_exists. exists y. split; [by apply list_elem_of_In|].
      unfold same_decision. by rewrite Hro, Hrd, Hyo, <- Hx, !String.eqb_refl.
  - destruct row as [row|]; destruct f as [|m|m]; intros [= <- <- <-]; (split; [done|]);
      first [by right; exists r, row; split_and! | left; split_and!; try done; by right; left].
Qed.

Lemma omap_middle {A B} (f : A -> option B) l1 x l2 :
  omap f (l1 ++ x :: l2) = omap f l1 ++ match f x with Some y => [y] | None => [] end ++ omap f l2.
Proof using Type. rewrite omap_app. cbn. by destruct (f x). Qed.

(** The threads around one hold other locks. *)
Lemma lock_exclusive ths1 th ths2 o k :
  locks_ok (ths1 ++ th :: ths2) -> lock_of hashtext th = Some k -> o ∈ ths1 ++ ths2 -> lock_of hashtext o <> Some k.
Proof using Type.
  unfold locks_ok. rewrite omap_middle. intros Hl Hk Ho Hok. rewrite Hk in Hl. cbn in Hl.
  assert (Hl2 : NoDup (k :: omap (lock_of hashtext) (ths1 ++ ths2))) by (rewrite omap_app; by rewrite <- Permutation_middle in Hl).
  apply list.NoDup_cons in Hl2 as [Hn _]. apply Hn, list_elem_of_omap. by exists o.
Qed.

Lemma locks_replace ths1 th th' ths2 :
  locks_ok (ths1 ++ th :: ths2) ->
  lock_of hashtext th' = lock_of hashtext th \/ lock_of hashtext th' = None \/
  (lock_of hashtext th = None /\ exists k, lock_of hashtext th' = Some k /\ forall o, o ∈ ths1 ++ ths2 -> lock_of hashtext o <> Some k) ->
  locks_ok (ths1 ++ th' :: ths2).
Proof using Type.
  unfold locks_ok. rewrite !omap_middle. intros Hl [->|[->|(Hn & k & -> & Hk)]]; [done| |].
  - cbn [app]. destruct (lock_of hashtext th); [|done]. cbn in Hl. rewrite <- Permutation_middle in Hl. by apply list.NoDup_cons in Hl as [_ Hl].
  - rewrite Hn in Hl. cbn in Hl |- *. rewrite <- Permutation_middle. apply list.NoDup_cons. split; [|done].
    rewrite <- omap_app. intros (o & Ho & Hlk)%list_elem_of_omap. by apply (Hk o).
Qed.

Lemma log_step_ok s s' : log_ok s -> append_step enc stored hashtext good s s' -> log_ok s'.
Proof using All.
  intros (Hch & Hlk & Hth) Hs. destruct Hs as [r db w ths Hg|s s' [f app db_now th th' ths1 ths2 db db' w w' E]|n db w ths Hn]; cbn [as_db as_threads] in *.
  - split; [done|]. split; [done|]. by constructor.
  - pose proof Hth as Hth0. rewrite Forall_app, Forall_cons_iff in Hth0. destruct Hth0 as (Hl1 & Ht & Hl2).
    destruct (append_exec_ok _ _ _ _ _ _ _ _ _ _ Hch Ht E) as [Hrec [(Hrows & Hseq & Hok & Hlock)|(r & row & -> & Hnext & -> & Hlock & Hok)]].
    + assert (Hfr : forall o, append_ok db o -> append_ok db' o) by (intros o; apply (append_ok_frame db db' o); first [done | by rewrite Hrows]).
      unfold log_ok; cbn [as_db as_threads]. split; [|split].
      * destruct Hch as [Hn Hch]. split; [cbn; lia|]. intros org. rewrite Hrows. destruct (Hch org) as [plain Hp]. exists plain. by eapply chain_ok_later.
      * by eapply locks_replace.
      * apply Forall_app. split; [|constructor; [done|]]; (eapply list.Forall_impl; [eassumption|done]).
    + destruct (next_row_commits db r row Hch Hnext) as [Hch' Hlog].
      assert (Hro : OrgID (row_rec row) = OrgID r) by (destruct Hnext as (? & ? & _ & _ & _ & Ho & _); exact Ho).
      assert (Hfr : forall o, o ∈ ths1 ++ ths2 -> append_ok db o -> append_ok (commit_row (Some row) db) o).
      { intros o Ho. apply append_ok_commit. intros Hlo Heq. rewrite Hro in Heq.
        destruct (lock_of hashtext o) as [k|] eqn:Ek; [|done]. apply (lock_exclusive ths1 (ACommit r (Some row)) ths2 o k Hlk); [|done|done].
        cbn. rewrite <- Heq. destruct o; cbn in *; congruence. }
      unfold log_ok; cbn [as_db as_threads]. split; [done|]. split; [eapply locks_replace; [exact Hlk|]; by right; left|].
      apply Forall_app. rewrite list.Forall_forall in Hl1, Hl2. split; [|constructor; [by apply Hok|]]; apply list.Forall_forall; intros o Ho;
        (apply Hfr; [set_solver|auto]).
  - unfold log_ok; cbn [as_db as_threads]. split; [|split; [done|]].
    + destruct Hch as [Hnn Hch]. split; [cbn in *; lia|]. intros org. destruct (Hch org) as [plain Hp]. exists plain. eapply chain_ok_later; [|exact Hp]. cbn. lia.
    + eapply list.Forall_impl; [exact Hth|]. intros o. apply (append_ok_frame db _ o); cbn; try lia; done.
Qed.

Lemma log_init_ok w : log_ok (append_init w).
Proof using Type. split_and!; [split; [done|]; intros org; exists []; split_and!; repeat constructor | constructor | constructor]. Qed.

Lemma log_reachable_ok w s : rtc (append_step enc stored hashtext good) (append_init w) s -> log_ok s.
Proof using All.
  generalize (log_init_ok w). generalize (append_init w) as s0. intros s0 Hi Hr.
  induction Hr as [s|s s1 s2 Hstep _ IH]; [done|]. by apply IH, (log_step_ok s).
Qed.

(** Rows are never changed, removed or put before others. *)
Lemma log_step_prefix s s' org :
  append_step enc stored hashtext good s s' -> rows_of org (pl_rows (as_db s)) `prefix_of` rows_of org (pl_rows (as_db s')).
Proof using Type.
  intros Hs. destruct Hs as [r db w ths Hg|s s' [f app db_now th th' ths1 ths2 db db' w w' E]|n db w ths Hn]; cbn [as_db]; [done| |done].
  assert (Hp : pl_rows db' = pl_rows db \/ exists row, pl_rows db' = pl_rows db ++ [row]).
  { destruct th as [r|r|r|r prev hash sealed ts|r [row|]|r res], f; cbn in E;
      repeat (case_match; [|try discriminate E]); try discriminate E; try (injection E as <- <- <-); cbn; eauto; repeat case_match; simplify_eq; cbn; auto. }
  destruct Hp as [->|(row & ->)]; [done|]. rewrite rows_of_snoc. by eexists.
Qed.

Lemma log_prefix s s' org :
  rtc (append_step enc stored hashtext good) s s' -> rows_of org (pl_rows (as_db s)) `prefix_of` rows_of org (pl_rows (as_db s')).
Proof using Type. induction 1 as [s|s s1 s2 Hs _ IH]; [done|]. etrans; [by apply log_step_prefix|done]. Qed.

(** * Reading by id *)

(** Reading a row by id is reading it from the in-memory log. *)
Lemma Pg_Get_mem org id rows (m : MemStore) :
  text_ok org = true -> text_ok id = true -> of_org m org = row_rec <$> rows_of org rows -> Pg_Get_decision enc org id rows = AuditLog.Get enc org id m.
Proof using Type.
  unfold Pg_Get_decision, AuditLog.Get. intros -> -> ->. cbn [negb andb]. induction (rows_of org rows) as [|x l IH]; [done|]. cbn. by destruct (String.eqb _ _).
Qed.

Definition as_store (db : pg_log) (org : string) : MemStore := {| seq := pl_seq db; byOrg := {[org := recs_of org db]} |}.

Lemma as_store_of_org db org : of_org (as_store db org) org = recs_of org db.
Proof using Type. unfold of_org. cbn. by rewrite lookup_singleton_eq. Qed.

Lemma Pg_Get_verifies db org id r :
  chains_ok db -> Pg_Get_decision enc org id (pl_rows db) = Ok r -> OrgID r = org /\ DecisionID r = id /\ VerifyChainLink r = Ok true.
Proof using All.
  intros [Hn Hch]. destruct (Hch org) as (plain & Hp). intros Hg.
  assert (Ht : text_ok org && text_ok id = true) by (unfold Pg_Get_decision in Hg; by destruct (text_ok org && text_ok id)).
  apply andb_true_iff in Ht as [Ho Hi]. rewrite (Pg_Get_mem org id _ (as_store db org) Ho Hi (as_store_of_org db org)) in Hg. destruct (Get_found enc good org id (as_store db org) plain r) as [Hin Hid]; [by rewrite as_store_of_org|done|].
  destruct Hp as (_ & C2 & _ & C4 & _). rewrite list.Forall_forall in C4. split_and!; [by apply C4|done|].
  unfold VerifyChainLink. rewrite (linked_elem _ _ _ C2 Hin). cbn. by rewrite String.eqb_refl.
Qed.

Lemma logged_reads db r : chains_ok db -> logged db r -> exists x, Pg_Get_decision enc (OrgID r) (DecisionID r) (pl_rows db) = Ok x.
Proof using All.
  intros [Hn Hch] [[Ho Hi]%andb_true_iff Hl]. destruct (Hch (OrgID r)) as (plain & Hp). rewrite (opens_ids enc _ _ (proj1 Hp)) in Hl.
  apply list_elem_of_fmap in Hl as (x & Hid & Hx). exists x. rewrite (Pg_Get_mem _ _ _ (as_store db (OrgID r)) Ho Hi (as_store_of_org db _)).
  rewrite Hid. eapply (Get_complete enc); [|exact Hx]. rewrite as_store_of_org. exact Hp.
Qed.

(** * Progress *)

(** The statements an append has left. *)
Definition left_of (th : append_pc) : nat :=
  match th with ABegin _ => 5 | ALock _ => 4 | ATail _ => 3 | AInsert _ _ _ _ _ => 2 | ACommit _ _ => 1 | ADone _ _ => 0 end.

Definition append_done (th : append_pc) : Prop := match th with ADone _ _ => True | _ => False end.

Definition appends_left (s : append_system (W:=W)) : nat := sum_list (left_of <$> as_threads s).

Lemma append_exec_left f app db_now others th db w th' db' w' :
  append_exec enc stored hashtext f app db_now others th db w = Some (th', db', w') -> (left_of th' < left_of th)%nat /\ record_of th' = record_of th.
Proof using Type.
  destruct th as [r|r|r|r prev hash sealed ts|r row|r res], f; cbn [append_exec]; cbv zeta;
    repeat (case_match; [|try discriminate]); try discriminate; try (intros [= <- <- <-]; cbn; split; [lia|done]);
    repeat case_match; intros ?; simplify_eq; cbn; (split; [lia|done]).
Qed.

Lemma append_run_left s s' : append_run enc stored hashtext s s' -> (appends_left s' < appends_left s)%nat.
Proof using Type.
  intros [f app db_now th th' ths1 ths2 db db' w w' E]. apply append_exec_left in E as [Hl _]. unfold appends_left. cbn [as_threads].
  rewrite !fmap_app, !fmap_cons, !sum_list_with_app || rewrite !fmap_app, !fmap_cons, !sum_list_app. cbn. lia.
Qed.

(** Who has the fewest statements left never waits. *)
Lemma append_exec_live app db_now others th db w :
  (0 < left_of th)%nat -> Forall (fun o => left_of o = 0%nat \/ (left_of th <= left_of o)%nat) others ->
  append_exec enc stored hashtext Live app db_now others th db w <> None.
Proof using Type.
  intros Hl Ho. destruct th as [r|r|r|r prev hash sealed ts|r row|r res]; cbn [append_exec left_of] in *; cbv zeta; try done; [| | |lia].
  - destruct (negb _); [done|]. destruct (existsb _ others) eqn:Ex; [|done]. apply existsb_exists in Ex as (o & Hin & Hk%bool_decide_eq_true).
    rewrite list.Forall_forall in Ho. apply list_elem_of_In, Ho in Hin. destruct o; cbn in *; (done || lia).
  - destruct (ComputeRecordHash _ _); [|done]. by destruct (encryptInto enc r w) as [[sealed|e] w1].
  - assert (others ≫= pending_of = []) as ->.
    { clear -Ho. induction Ho as [|o l Ho _ IH]; [done|]. cbn. rewrite IH. destruct o; cbn in *; (done || lia). }
    cbn [existsb orb]. destruct (negb _); [done|]. by repeat case_match.
Qed.

Lemma append_run_progress s : (0 < appends_left s)%nat -> exists s', append_run enc stored hashtext s s'.
Proof using Type.
  destruct s as [db w ths]. unfold appends_left. cbn [as_threads]. intros Hl.
  destruct (least_positive left_of ths Hl) as (l1 & th & l2 & -> & Hth & Hmin).
  destruct (append_exec enc stored hashtext Live 0 0 (l1 ++ l2) th db w) as [[[th' db'] w']|] eqn:E; [|by destruct (append_exec_live 0 0 _ _ db w Hth Hmin)].
  eexists. by eapply ar_run.
Qed.

(** Running keeps the records that were asked for. *)
Lemma append_run_records s s' : append_run enc stored hashtext s s' -> record_of <$> as_threads s' = record_of <$> as_threads s.
Proof using Type. intros [f app db_now th th' ths1 ths2 db db' w w' E]. apply append_exec_left in E as [_ Hr]. cbn [as_threads]. by rewrite !fmap_app, !fmap_cons, Hr. Qed.

(** * Listing *)

(** Evaluation times that parse, and that the column keeps. *)
Definition time_kept (row : pg_row) : Prop := parse_rfc3339 (EvaluatedAt (row_rec row)) = Some (row_ts row).

Lemma selects_eligible f row :
  stored (f_From f) = f_From f -> stored (f_To f) = f_To f -> time_kept row ->
  selects stored f row = eligible f (f_Cursor f) (row_rec row).
Proof using Type.
  intros Hf Ht Hk. unfold selects, eligible, matches. rewrite Hf, Ht, Hk. unfold Before. generalize (String.eqb (f_AgentID f) ""), (String.eqb (AgentID (row_rec row)) (f_AgentID f)),
    (String.eqb (f_Verdict f) ""), (String.eqb (Verdict (row_rec row)) (f_Verdict f)), (IsZero (f_From f)), (IsZero (f_To f)), (negb (0 <? f_Cursor f) || (Seq (row_rec row) <? f_Cursor f)).
  intros a b c d e g h. rewrite Z.leb_antisym. destruct a, b, c, d, e, g, h, (row_ts row <? f_From f), (row_ts row <? f_To f); reflexivity.
Qed.

Definition dec_rec (ex : Record_) : Record_ := match decryptInto enc ex with Ok r => r | Err _ => ex end.

Lemma scan_rows_ok rows :
  Forall (fun row => decryptInto enc (row_rec row) = Ok (dec_rec (row_rec row))) rows -> scan_rows enc rows = Ok (dec_rec <$> (row_rec <$> rows)).
Proof using Type. induction 1 as [|row rows Hr _ IH]; [done|]. cbn [scan_rows]. by rewrite Hr, IH. Qed.

Lemma opens_all db org :
  chains_ok db -> Forall (fun row => decryptInto enc (row_rec row) = Ok (dec_rec (row_rec row))) (rows_of org (pl_rows db)).
Proof using Type.
  intros [_ Hch]. destruct (Hch org) as (plain & C1 & _). revert plain C1. induction (rows_of org (pl_rows db)) as [|row l IH]; intros plain C1; [constructor|].
  inversion C1 as [|x y l1 l2 Ho Hl]; subst. constructor; [|by eapply IH]. unfold opens in Ho. unfold dec_rec. by rewrite Ho.
Qed.

Lemma fmap_selects f rows :
  stored (f_From f) = f_From f -> stored (f_To f) = f_To f -> Forall time_kept rows ->
  row_rec <$> filter (fun row => selects stored f row = true) rows = shown f (f_Cursor f) (row_rec <$> rows).
Proof using Type.
  intros Hf Ht. induction 1 as [|row rows Hk _ IH]; [done|]. rewrite filter_cons, fmap_cons, shown_cons, (selects_eligible f row) by done.
  destruct (eligible f (f_Cursor f) (row_rec row)); [|exact IH]. rewrite decide_True by done. cbn. f_equal. exact IH.
Qed.

Lemma Pg_List_mem db org f (m : MemStore) :
  chains_ok db -> forallb text_ok [org; f_AgentID f; f_Verdict f] = true -> stored (f_From f) = f_From f -> stored (f_To f) = f_To f -> Forall time_kept (rows_of org (pl_rows db)) ->
  of_org m org = recs_of org db -> Pg_List enc stored org f (pl_rows db) = List_ enc org f m.
Proof using Type.
  intros Hch Htx Hf Ht Hk Hm. pose proof (opens_all db org Hch) as Hd. unfold Pg_List, List_. rewrite Htx. cbn [mbind result_bind]. rewrite Hm, <- sort_row_desc.
  set (rows := sort_by row_desc (rows_of org (pl_rows db))).
  assert (Hd' : Forall (fun row => decryptInto enc (row_rec row) = Ok (dec_rec (row_rec row))) rows) by (unfold rows; by rewrite sort_by_perm).
  assert (Hk' : Forall time_kept rows) by (unfold rows; by rewrite sort_by_perm). clearbody rows. clear Hd Hk Hm.
  assert (Hlim : 0 < clampLimit (f_Limit f)) by (unfold clampLimit, DefaultListLimit, MaxListLimit; repeat case_match; lia).
  rewrite (list_loop_spec enc dec_rec) by (done || (cbn; lia) || by apply Forall_fmap). cbn zeta. cbn [length app]. rewrite Z.sub_0_r.
  rewrite <- (fmap_selects f rows) by done. set (el := filter _ rows). rewrite scan_rows_ok.
  2:{ eapply Forall_take. unfold el. apply list.Forall_forall. intros x [_ Hx]%list_elem_of_filter. rewrite list.Forall_forall in Hd'. by apply Hd'. }
  cbn [mbind result_bind]. set (lim := clampLimit (f_Limit f)) in *. rewrite !length_fmap, length_take. do 2 f_equal.
  destruct (Z.leb_spec (Z.of_nat (length el)) (Z.of_nat (Z.to_nat lim))) as [Hle|Hgt].
  - rewrite (proj2 (Z.ltb_ge _ _)) by lia. rewrite !take_ge by (rewrite ?length_fmap; lia). done.
  - rewrite (proj2 (Z.ltb_lt _ _)) by lia. rewrite <- !fmap_take, take_take. by replace (Z.to_nat lim `min` Z.to_nat (lim + 1))%nat with (Z.to_nat lim) by lia.
Qed.

(** C23: Over Postgres the log is a chain per organisation, however many
    instances append at once.  In every reachable state, after any interleaving
    of transactions, refused statements and lost answers, the rows of each
    organisation open to a list in which every record names its predecessor's
    hash and carries the hash of its own content, in increasing sequence and
    without a decision twice; a record read by id verifies; an append that was
    acknowledged reads back; and no later step changes, removes or reorders a
    row. *)
Theorem pg_log_integrity w s (Hr : rtc (append_step enc stored hashtext good) (append_init w) s) :
  (forall org, exists plain, Forall2 (opens enc) (recs_of org (as_db s)) plain /\ linked GenesisPrev plain /\
     StronglySorted (fun a b => Seq a < Seq b) plain /\ Forall (fun r => OrgID r = org) plain /\ NoDup (DecisionID <$> plain)) /\
  (forall org id r, Pg_Get_decision enc org id (pl_rows (as_db s)) = Ok r -> OrgID r = org /\ DecisionID r = id /\ VerifyChainLink r = Ok true) /\
  (forall r r', ADone r (Ok r') ∈ as_threads s -> exists x, Pg_Get_decision enc (OrgID r) (DecisionID r) (pl_rows (as_db s)) = Ok x) /\
  (forall s' org, rtc (append_step enc stored hashtext good) s s' ->
     rows_of org (pl_rows (as_db s)) `prefix_of` rows_of org (pl_rows (as_db s'))).
Proof using All.
  destruct (log_reachable_ok w s Hr) as (Hch & _ & Hth). split_and!.
  - intros org. destruct Hch as [_ Hch]. destruct (Hch org) as (plain & C1 & C2 & C3 & C4 & C5). exists plain. split_and!; try done.
    eapply list.Forall_impl; [exact C4|]. by intros x [? _].
  - intros org id r. by apply Pg_Get_verifies.
  - intros r r' Hin. apply logged_reads; [done|]. rewrite list.Forall_forall in Hth. exact (Hth _ Hin).
  - intros s' org. apply log_prefix.
Qed.

(** Appends finish.  Whatever the appends under way and however the database
    fails, they make at most five statements each, no set of them waits for one
    another, and when none can run every one of them has answered. *)
Theorem pg_appends_finish s :
  (forall n s', nsteps (append_run enc stored hashtext) n s s' -> (n <= appends_left s <= 5 * length (as_threads s))%nat) /\
  (forall s', rtc (append_run enc stored hashtext) s s' ->
     record_of <$> as_threads s' = record_of <$> as_threads s /\
     (Forall append_done (as_threads s') \/ exists s'', append_run enc stored hashtext s' s'')).
Proof using Type.
  split.
  - intros n s' Hn. split; [induction Hn as [s|n s s1 s2 Hs _ IH]; [lia|apply append_run_left in Hs; lia]|].
    unfold appends_left. induction (as_threads s) as [|th l IH]; [done|]. cbn. destruct th; cbn; lia.
  - intros s' Hr. split; [induction Hr as [s|s s1 s2 Hs _ IH]; [done|by rewrite IH, (append_run_records s s1)]|].
    destruct (decide (appends_left s' = 0%nat)) as [Hz|Hz]; [left|right; apply append_run_progress; lia].
    unfold appends_left in Hz. clear Hr. induction (as_threads s') as [|th l IH]; [constructor|]. cbn in Hz.
    constructor; [destruct th; cbn in *; done || lia|apply IH; lia].
Qed.

(** A listing over Postgres is the listing of the in-memory log.  In a
    reachable state, on an organisation whose evaluation times parse and fit
    the column, and for texts and bounds that the database takes, the query,
    with its one extra row, gives the page, the order and the cursor that the
    in-memory store gives on the same records; and reading by id agrees too. *)
Theorem pg_reads_refine_memory w s org f m (Hr : rtc (append_step enc stored hashtext good) (append_init w) s)
  (Htx : forallb text_ok [org; f_AgentID f; f_Verdict f] = true) (Hk : Forall time_kept (rows_of org (pl_rows (as_db s)))) (Hf : stored (f_From f) = f_From f) (Ht : stored (f_To f) = f_To f)
  (Hm : of_org m org = recs_of org (as_db s)) :
  Pg_List enc stored org f (pl_rows (as_db s)) = List_ enc org f m /\
  forall id, text_ok id = true -> Pg_Get_decision enc org id (pl_rows (as_db s)) = AuditLog.Get enc org id m.
Proof using All.
  destruct (log_reachable_ok w s Hr) as (Hch & _ & _). split; [by apply Pg_List_mem|]. intros id Hid. apply andb_true_iff in Htx as [Ho _]. by apply Pg_Get_mem.
Qed.
End props.
