(* ===== verification/AuditWriter.v ===== *)
(** [audit/writer.go]: the asynchronous audit writer, as threads over a bounded
    channel, a read-write lock and two wait groups.  Nothing accepted is lost,
    queued records are appended in the order they were sent, no send meets a
    closed channel, and every run of finitely many calls drains the queue. *)

From S2P Require Import Prelude Runtime Signing AuditLog AuditProps AuditMem.
From stdpp Require Import relations.

Definition DefaultQueueSize : nat := 1024.

(** * State *)

(** The read-write lock: a waiting writer keeps new readers out. *)
Inductive lock_state := Free | Pending | Held.

(** The worker goroutine: waiting for the channel, with a record in hand, with
    one persisted but not yet marked done, and after its loop. *)
Inductive worker_pc := WIdle | WPersist (r : Record_) | WAck | WExited.

(** Where a call of [Enqueue], [Flush] or [Close] is. *)
Inductive call_pc :=
| EnqCall (r : Record_)
| EnqLocked (r : Record_)
| EnqSend (r : Record_)
| EnqUnlock (r : Record_)
| EnqDone (r : Record_)
| FlushCall
| FlushDone
| CloseCall
| CloseAnnounced
| CloseLocked
| CloseChannel
| CloseUnlock (again : bool)
| CloseWait
| CloseDone (timed_out : bool)
| Panicked.

(** The fields of [Writer]; [wt_sent] and [wt_log] are history: the records sent
    on the channel, and those handed to the store, with who did it. *)
Inductive origin := ByWorker | Inline.
#[export] Instance origin_eq_dec : EqDecision origin.
Proof. solve_decision. Defined.

Record Writer (W : Type) := {
  wt_ch : list Record_;
  wt_cap : nat;
  wt_ch_closed : bool;
  wt_closed : bool;
  wt_readers : nat;
  wt_lock : lock_state;
  wt_inflt : nat;
  wt_worker : worker_pc;
  wt_store : W;
  wt_sent : list Record_;
  wt_log : list (origin * Record_)
}.
Arguments wt_ch {W} _.
Arguments wt_cap {W} _.
Arguments wt_ch_closed {W} _.
Arguments wt_closed {W} _.
Arguments wt_readers {W} _.
Arguments wt_lock {W} _.
Arguments wt_inflt {W} _.
Arguments wt_worker {W} _.
Arguments wt_store {W} _.
Arguments wt_sent {W} _.
Arguments wt_log {W} _.

(** * Statements that change it *)

Section writer.
Context {W : Type}.
(** [Store.Append]; its error is logged and dropped. *)
Context (append : Record_ -> W -> W).
Implicit Types w : Writer W.

Definition set_lock (l : lock_state) (readers : nat) w : Writer W :=
  {| wt_ch := wt_ch w; wt_cap := wt_cap w; wt_ch_closed := wt_ch_closed w; wt_closed := wt_closed w; wt_readers := readers; wt_lock := l;
     wt_inflt := wt_inflt w; wt_worker := wt_worker w; wt_store := wt_store w; wt_sent := wt_sent w; wt_log := wt_log w |}.
Definition set_closed (closed ch_closed : bool) w : Writer W :=
  {| wt_ch := wt_ch w; wt_cap := wt_cap w; wt_ch_closed := ch_closed; wt_closed := closed; wt_readers := wt_readers w; wt_lock := wt_lock w;
     wt_inflt := wt_inflt w; wt_worker := wt_worker w; wt_store := wt_store w; wt_sent := wt_sent w; wt_log := wt_log w |}.
Definition set_inflt (n : nat) w : Writer W :=
  {| wt_ch := wt_ch w; wt_cap := wt_cap w; wt_ch_closed := wt_ch_closed w; wt_closed := wt_closed w; wt_readers := wt_readers w; wt_lock := wt_lock w;
     wt_inflt := n; wt_worker := wt_worker w; wt_store := wt_store w; wt_sent := wt_sent w; wt_log := wt_log w |}.
Definition set_worker (p : worker_pc) (ch : list Record_) w : Writer W :=
  {| wt_ch := ch; wt_cap := wt_cap w; wt_ch_closed := wt_ch_closed w; wt_closed := wt_closed w; wt_readers := wt_readers w; wt_lock := wt_lock w;
     wt_inflt := wt_inflt w; wt_worker := p; wt_store := wt_store w; wt_sent := wt_sent w; wt_log := wt_log w |}.
Definition send (r : Record_) w : Writer W :=
  {| wt_ch := wt_ch w ++ [r]; wt_cap := wt_cap w; wt_ch_closed := wt_ch_closed w; wt_closed := wt_closed w; wt_readers := wt_readers w; wt_lock := wt_lock w;
     wt_inflt := wt_inflt w; wt_worker := wt_worker w; wt_store := wt_store w; wt_sent := wt_sent w ++ [r]; wt_log := wt_log w |}.
Definition persist (o : origin) (r : Record_) w : Writer W :=
  {| wt_ch := wt_ch w; wt_cap := wt_cap w; wt_ch_closed := wt_ch_closed w; wt_closed := wt_closed w; wt_readers := wt_readers w; wt_lock := wt_lock w;
     wt_inflt := wt_inflt w; wt_worker := wt_worker w; wt_store := append r (wt_store w); wt_sent := wt_sent w; wt_log := wt_log w ++ [(o, r)] |}.

(** [NewWriter], started. *)
Definition NewWriter (queueSize : Z) (store : W) : Writer W :=
  {| wt_ch := []; wt_cap := if (queueSize <=? 0)%Z then DefaultQueueSize else Z.to_nat queueSize; wt_ch_closed := false; wt_closed := false;
     wt_readers := 0; wt_lock := Free; wt_inflt := 0; wt_worker := WIdle; wt_store := store; wt_sent := []; wt_log := [] |}.

(** * Steps *)

(** The loop of [Start]: [None] when it waits or has ended. *)
Definition worker_exec w : option (Writer W) :=
  match wt_worker w with
  | WIdle =>
    match wt_ch w with
    | r :: ch => Some (set_worker (WPersist r) ch w)
    | [] => if wt_ch_closed w then Some (set_worker WExited [] w) else None
    end
  | WPersist r => Some (persist ByWorker r (set_worker WAck (wt_ch w) w))
  | WAck => Some (set_inflt (pred (wt_inflt w)) (set_worker WIdle (wt_ch w) w))
  | WExited => None
  end.

(** One step of a call; [None] when it waits or has returned.  [expired] says
    that the context of a [Close] is done. *)
Definition call_exec (expired : bool) (p : call_pc) w : option (call_pc * Writer W) :=
  match p with
  | EnqCall r => match wt_lock w with Free => Some (EnqLocked r, set_lock Free (S (wt_readers w)) w) | _ => None end
  | EnqLocked r =>
    if wt_closed w then Some (EnqUnlock r, persist Inline r w) else Some (EnqSend r, set_inflt (S (wt_inflt w)) w)
  | EnqSend r =>
    if wt_ch_closed w then Some (Panicked, w)
    else if (length (wt_ch w) <? wt_cap w)%nat then Some (EnqUnlock r, send r w) else None
  | EnqUnlock r => Some (EnqDone r, set_lock (wt_lock w) (pred (wt_readers w)) w)
  | FlushCall => if (wt_inflt w =? 0)%nat then Some (FlushDone, w) else None
  | CloseCall => match wt_lock w with Free => Some (CloseAnnounced, set_lock Pending (wt_readers w) w) | _ => None end
  | CloseAnnounced => if (wt_readers w =? 0)%nat then Some (CloseLocked, set_lock Held 0 w) else None
  | CloseLocked => if wt_closed w then Some (CloseUnlock true, w) else Some (CloseChannel, set_closed true (wt_ch_closed w) w)
  | CloseChannel => if wt_ch_closed w then Some (Panicked, w) else Some (CloseUnlock false, set_closed (wt_closed w) true w)
  | CloseUnlock again => Some (if again then CloseDone false else CloseWait, set_lock Free (wt_readers w) w)
  | CloseWait =>
    match wt_worker w with
    | WExited => Some (CloseDone false, w)
    | _ => if expired then Some (CloseDone true, w) else None
    end
  | EnqDone _ | FlushDone | CloseDone _ | Panicked => None
  end.

Record system := { sys_calls : list call_pc; sys_writer : Writer W }.

(** A run without new calls, whose [Close] has no deadline. *)
Inductive run_step : system -> system -> Prop :=
| step_worker cs w w' : worker_exec w = Some w' -> run_step {| sys_calls := cs; sys_writer := w |} {| sys_calls := cs; sys_writer := w' |}
| step_call cs p p' cs' w w' : call_exec false p w = Some (p', w') ->
    run_step {| sys_calls := cs ++ p :: cs'; sys_writer := w |} {| sys_calls := cs ++ p' :: cs'; sys_writer := w' |}.

Definition starts (p : call_pc) : bool := match p with EnqCall _ | FlushCall | CloseCall => true | _ => false end.

Inductive sys_step : system -> system -> Prop :=
| sys_run s s' : run_step s s' -> sys_step s s'
| sys_expired cs p p' cs' w w' : call_exec true p w = Some (p', w') ->
    sys_step {| sys_calls := cs ++ p :: cs'; sys_writer := w |} {| sys_calls := cs ++ p' :: cs'; sys_writer := w' |}
| sys_arrive cs p w : starts p = true ->
    sys_step {| sys_calls := cs; sys_writer := w |} {| sys_calls := cs ++ [p]; sys_writer := w |}.

Definition sys_init (queueSize : Z) (store : W) : system := {| sys_calls := []; sys_writer := NewWriter queueSize store |}.

(** * Counting *)

Definition tally (f : call_pc -> nat) (cs : list call_pc) : nat := sum_list_with f cs.

(** Holding the read lock; about to send; announced as the lock's writer;
    holding the write lock; about to close the channel; past it; panicked. *)
Definition reading (p : call_pc) : nat := match p with EnqLocked _ | EnqSend _ | EnqUnlock _ => 1 | _ => 0 end.
Definition sending (p : call_pc) : nat := match p with EnqSend _ => 1 | _ => 0 end.
Definition announcing (p : call_pc) : nat := match p with CloseAnnounced => 1 | _ => 0 end.
Definition holding (p : call_pc) : nat := match p with CloseLocked | CloseChannel | CloseUnlock _ => 1 | _ => 0 end.
Definition closing (p : call_pc) : nat := match p with CloseChannel => 1 | _ => 0 end.
Definition awaiting (p : call_pc) : nat := match p with CloseUnlock false | CloseWait => 1 | _ => 0 end.
Definition panicked (p : call_pc) : nat := match p with Panicked => 1 | _ => 0 end.

(** The record of an [Enqueue] that was accepted, and of any [Enqueue]. *)
Definition accepted (p : call_pc) : list Record_ := match p with EnqUnlock r | EnqDone r => [r] | _ => [] end.
Definition requested (p : call_pc) : list Record_ := match p with EnqCall r | EnqLocked r | EnqSend r | EnqUnlock r | EnqDone r => [r] | _ => [] end.
Definition finished (p : call_pc) : bool := match p with EnqDone _ | FlushDone | CloseDone _ => true | _ => false end.

Definition in_hand (p : worker_pc) : list Record_ := match p with WPersist r => [r] | _ => [] end.
Definition busy (p : worker_pc) : nat := match p with WPersist _ | WAck => 1 | _ => 0 end.
#[local] Arguments in_hand !p /.
#[local] Arguments busy !p /.
Definition by_origin (o : origin) (log : list (origin * Record_)) : list Record_ := (filter (fun e => e.1 = o) log).*2.
#[local] Arguments by_origin : simpl never.

Lemma tally_mid f cs p cs' : tally f (cs ++ p :: cs') = (tally f cs + (f p + tally f cs'))%nat.
Proof. unfold tally. by rewrite sum_list_with_app. Qed.

Lemma tally_nil f : tally f [] = 0%nat.
Proof. done. Qed.

Lemma tally_zero f cs p : tally f cs = 0%nat -> p ∈ cs -> f p = 0%nat.
Proof. intros Hz (l1 & l2 & ->)%list_elem_of_split. rewrite tally_mid in Hz. lia. Qed.

Lemma tally_le f g cs : (forall p, f p <= g p)%nat -> (tally f cs <= tally g cs)%nat.
Proof. intros Hfg. induction cs as [|p cs IH]; unfold tally in *; cbn; [lia|]. specialize (Hfg p). lia. Qed.

#[local] Arguments tally : simpl never.

Lemma closing_le_holding cs : (tally closing cs <= tally holding cs)%nat.
Proof. apply tally_le. by intros []; cbn; lia. Qed.

Lemma sending_le_reading cs : (tally sending cs <= tally reading cs)%nat.
Proof. apply tally_le. by intros []; cbn; lia. Qed.

(** * The invariant *)

Record writer_ok (s0 : W) (s : system) : Prop := {
  ok_cap : (0 < wt_cap (sys_writer s) /\ length (wt_ch (sys_writer s)) <= wt_cap (sys_writer s))%nat;
  ok_readers : wt_readers (sys_writer s) = tally reading (sys_calls s);
  ok_announcing : tally announcing (sys_calls s) = match wt_lock (sys_writer s) with Pending => 1%nat | _ => 0%nat end;
  ok_holding : tally holding (sys_calls s) = match wt_lock (sys_writer s) with Held => 1%nat | _ => 0%nat end;
  ok_exclusive : wt_lock (sys_writer s) = Held -> wt_readers (sys_writer s) = 0%nat;
  ok_closing : tally closing (sys_calls s) = if wt_closed (sys_writer s) && negb (wt_ch_closed (sys_writer s)) then 1%nat else 0%nat;
  ok_closed : wt_ch_closed (sys_writer s) = true -> wt_closed (sys_writer s) = true;
  ok_sending : wt_closed (sys_writer s) = true -> tally sending (sys_calls s) = 0%nat;
  ok_awaiting : wt_ch_closed (sys_writer s) = false -> tally awaiting (sys_calls s) = 0%nat;
  ok_panic : tally panicked (sys_calls s) = 0%nat;
  ok_inflt : wt_inflt (sys_writer s) = (length (wt_ch (sys_writer s)) + tally sending (sys_calls s) + busy (wt_worker (sys_writer s)))%nat;
  ok_exited : wt_worker (sys_writer s) = WExited -> wt_ch (sys_writer s) = [] /\ wt_ch_closed (sys_writer s) = true;
  ok_sent : by_origin ByWorker (wt_log (sys_writer s)) ++ in_hand (wt_worker (sys_writer s)) ++ wt_ch (sys_writer s) = wt_sent (sys_writer s);
  ok_accepted : sys_calls s ≫= accepted ≡ₚ wt_sent (sys_writer s) ++ by_origin Inline (wt_log (sys_writer s));
  ok_store : wt_store (sys_writer s) = foldl (fun st r => append r st) s0 ((wt_log (sys_writer s)).*2)
}.

Lemma by_origin_same o r log : by_origin o (log ++ [(o, r)]) = by_origin o log ++ [r].
Proof. unfold by_origin. by rewrite filter_app, fmap_app, filter_cons_True by done. Qed.

Lemma by_origin_other o o' r log : o' <> o -> by_origin o (log ++ [(o', r)]) = by_origin o log.
Proof. intros Hne. unfold by_origin. by rewrite filter_app, fmap_app, filter_cons_False, app_nil_r. Qed.

Lemma by_origin_perm log : log.*2 ≡ₚ by_origin ByWorker log ++ by_origin Inline log.
Proof.
  unfold by_origin. induction log as [|[[] r] log IH]; [done|..]; rewrite !filter_cons; cbn; [by rewrite IH|].
  by rewrite IH, Permutation_middle.
Qed.

Lemma init_ok queueSize store : writer_ok store (sys_init queueSize store).
Proof.
  split; cbn; try done. destruct (Z.leb_spec queueSize 0); unfold DefaultQueueSize; lia.
Qed.

Lemma bind_mid (f : call_pc -> list Record_) cs p cs' : (cs ++ p :: cs') ≫= f ≡ₚ f p ++ ((cs ≫= f) ++ (cs' ≫= f)).
Proof. rewrite bind_app. cbn. rewrite !(assoc_L app). apply Permutation_app_tail, Permutation_app_comm. Qed.

Lemma perm_snoc_r {A} (x : A) l a b : l ≡ₚ a ++ b -> x :: l ≡ₚ a ++ b ++ [x].
Proof. intros ->. rewrite (assoc_L app). apply Permutation_cons_append. Qed.

Lemma perm_snoc_l {A} (x : A) l a b : l ≡ₚ a ++ b -> x :: l ≡ₚ (a ++ [x]) ++ b.
Proof. intros ->. rewrite <- (assoc_L app). apply Permutation_middle. Qed.

(** Every field of the invariant after a step, up to arithmetic. *)
Ltac settle := split; cbn; rewrite ?tally_mid, ?bind_mid; cbn; rewrite ?by_origin_same, ?by_origin_other, ?fmap_app by done; cbn;
  rewrite ?foldl_snoc, ?length_app; cbn; try done; try lia; try (intros; simplify_eq/=; lia); auto using perm_snoc_r, perm_snoc_l.

#[local] Arguments Nat.ltb : simpl never.

Lemma worker_ok s0 cs w w' :
  worker_exec w = Some w' -> writer_ok s0 {| sys_calls := cs; sys_writer := w |} -> writer_ok s0 {| sys_calls := cs; sys_writer := w' |}.
Proof.
  destruct w as [ch cap chc cl rd lk n wk st sent log].
  intros E [Hcap Hrd Han Hho Hex Hcl Hcc Hse Haw Hpa Hin Hxt Hst Hac Hsto]. cbn in *. unfold worker_exec in E. cbn in E.
  destruct wk as [|r| |]; [destruct ch as [|r ch]; [destruct chc; [|done]|]| | |done]; injection E as <-; cbn in *; settle.
  - by rewrite <- Hst, <- (assoc_L app).
  - by rewrite <- Hsto.
Qed.

Lemma call_ok s0 expired cs p p' cs' w w' :
  call_exec expired p w = Some (p', w') ->
  writer_ok s0 {| sys_calls := cs ++ p :: cs'; sys_writer := w |} -> writer_ok s0 {| sys_calls := cs ++ p' :: cs'; sys_writer := w' |}.
Proof.
  destruct w as [ch cap chc cl rd lk n wk st sent log].
  intros E [Hcap Hrd Han Hho Hex Hcl Hcc Hse Haw Hpa Hin Hxt Hst Hac Hsto]. cbn in *. rewrite bind_mid in Hac.
  rewrite tally_mid in Hrd, Han, Hho, Hcl, Hse, Haw, Hpa, Hin.
  pose proof (closing_le_holding cs) as L1. pose proof (closing_le_holding cs') as L2.
  pose proof (sending_le_reading cs) as L3. pose proof (sending_le_reading cs') as L4.
  destruct p; cbn in *; try done; destruct cl, chc; revert Hst Hsto.
  all: cbn in *; repeat case_match; simplify_eq/=; rewrite ?Nat.ltb_lt, ?Nat.eqb_eq in *; breflect; try specialize (Hex eq_refl); try lia; intros Hst Hsto; settle.
  all: try by rewrite Hsto.
  all: try by intros [_ ?]%Hxt.
  all: try by rewrite <- Hst, <- !(assoc_L app).
Qed.

Lemma writer_sys_step_ok s0 s s' : sys_step s s' -> writer_ok s0 s -> writer_ok s0 s'.
Proof.
  intros [s1 s2 [cs w w' E|cs p p' cs' w w' E]|cs p p' cs' w w' E|cs p w Hp].
  - by apply worker_ok.
  - by eapply call_ok.
  - by eapply call_ok.
  - intros [Hcap Hrd Han Hho Hex Hcl Hcc Hse Haw Hpa Hin Hxt Hst Hac Hsto]. cbn in *.
    destruct p; try done; split; cbn; rewrite ?tally_mid, ?tally_nil, ?bind_mid; cbn; rewrite ?app_nil_r, ?Nat.add_0_r; done.
Qed.

Lemma reachable_ok queueSize store s : rtc sys_step (sys_init queueSize store) s -> writer_ok store s.
Proof.
  intros Hr. assert (H0 := init_ok queueSize store). revert H0. induction Hr as [|s s1 s2 Hs _ IH]; [done|].
  intros H0. by apply IH, (writer_sys_step_ok _ s).
Qed.

(** * What a run ends in *)

Definition weight (p : call_pc) : nat :=
  match p with
  | EnqCall _ => 7 | EnqLocked _ => 6 | EnqSend _ => 5 | EnqUnlock _ => 1 | FlushCall => 1
  | CloseCall => 6 | CloseAnnounced => 5 | CloseLocked => 4 | CloseChannel => 3 | CloseUnlock _ => 2 | CloseWait => 1 | _ => 0
  end.
Definition worker_weight (p : worker_pc) : nat := match p with WIdle => 1 | WPersist _ => 3 | WAck => 2 | WExited => 0 end.
Definition work (s : system) : nat :=
  (tally weight (sys_calls s) + 3 * length (wt_ch (sys_writer s)) + worker_weight (wt_worker (sys_writer s)))%nat.

Lemma run_step_work s s' : run_step s s' -> (work s' < work s)%nat.
Proof.
  unfold work. intros [cs w w' E|cs p p' cs' w w' E]; cbn; destruct w as [ch cap chc cl rd lk n wk st sent log].
  - unfold worker_exec in E. cbn in E. destruct wk; repeat case_match; simplify_eq/=; lia.
  - rewrite !tally_mid. destruct p; cbn in *; repeat case_match; simplify_eq/=; rewrite ?length_app; cbn; lia.
Qed.

Lemma run_length n s s' : nsteps run_step n s s' -> (n <= work s)%nat.
Proof. induction 1 as [|n s s1 s2 Hs _ IH]; [lia|]. apply run_step_work in Hs. lia. Qed.

Lemma run_requested s0 s s' : writer_ok s0 s' -> run_step s s' -> sys_calls s' ≫= requested = sys_calls s ≫= requested.
Proof.
  intros Hok Hs. destruct Hs as [cs w w' E|cs p p' cs' w w' E]; [done|]. pose proof (ok_panic _ _ Hok) as Hp. cbn in E, Hp |- *. rewrite tally_mid in Hp. rewrite !bind_app. cbn.
  do 2 f_equal. destruct p; cbn in E; repeat case_match; simplify_eq/=; done || lia.
Qed.

Lemma tally_all f cs : (forall p, p ∈ cs -> f p = 0%nat) -> tally f cs = 0%nat.
Proof.
  intros Hz. unfold tally. induction cs as [|p cs IH]; [done|]. cbn. rewrite (Hz p) by set_solver. apply IH. set_solver.
Qed.

(** No deadlock: a state without a step has answered every call, and every
    record it accepted is with the store. *)
Lemma stuck_finished s0 s :
  writer_ok s0 s -> (forall s', ~ run_step s s') ->
  Forall (fun p => finished p = true) (sys_calls s) /\ (wt_log (sys_writer s)).*2 ≡ₚ sys_calls s ≫= accepted /\ wt_ch (sys_writer s) = [].
Proof.
  destruct s as [cs w]. intros Hok Hstuck. destruct Hok as [Hcap Hrd Han Hho Hex Hcl Hcc Hse Haw Hpa Hin Hxt Hst Hac Hsto]. cbn in *.
  assert (Hcall : forall p, p ∈ cs -> call_exec false p w = None).
  { intros p (l1 & l2 & ->)%list_elem_of_split. destruct (call_exec false p w) as [[p' w']|] eqn:E; [|done].
    destruct (Hstuck _ (step_call _ _ _ _ _ _ E)). }
  assert (Hwk : wt_ch w = [] /\ (wt_worker w = WExited \/ wt_worker w = WIdle /\ wt_ch_closed w = false)).
  { destruct (worker_exec w) as [w'|] eqn:E; [destruct (Hstuck _ (step_worker _ _ _ E))|]. unfold worker_exec in E.
    destruct (wt_worker w); [destruct (wt_ch w); [destruct (wt_ch_closed w)|]| | |]; try done; [by auto|]. destruct Hxt; auto. }
  destruct Hwk as [Hch Hwk]. rewrite Hch in *.
  assert (Hrd0 : tally reading cs = 0%nat).
  { apply tally_all. intros p Hp. specialize (Hcall p Hp). destruct p; try done; cbn in Hcall; rewrite ?Hch in Hcall; cbn in Hcall;
      repeat case_match; simplify_eq/=; try done; rewrite ?Nat.ltb_ge in *; cbn in *; lia. }
  assert (Hse0 : tally sending cs = 0%nat) by (pose proof (sending_le_reading cs); lia).
  assert (Hlk : wt_lock w = Free).
  { assert (tally announcing cs = 0%nat /\ tally holding cs = 0%nat) as [Ha Hh]. 2: { destruct (wt_lock w); congruence. }
    split; apply tally_all; intros p Hp; specialize (Hcall p Hp); destruct p; try done; cbn in Hcall; rewrite ?Hrd, ?Hrd0 in Hcall; cbn in Hcall;
      repeat case_match; simplify_eq/=. }
  assert (Hin0 : wt_inflt w = 0%nat) by (rewrite Hin, Hse0; destruct Hwk as [-> |[-> _]]; done).
  assert (Hfin : Forall (fun p => finished p = true) cs).
  { apply list.Forall_forall. intros p Hp. pose proof (Hcall p Hp) as E. pose proof (tally_zero _ _ _ Hpa Hp) as Hp0.
    pose proof (tally_zero _ _ _ Hrd0 Hp) as Hr0. destruct p; cbn in *; rewrite ?Hlk, ?Hin0, ?Hrd, ?Hrd0 in E; try done.
    - by destruct (wt_closed w).
    - by destruct (wt_ch_closed w).
    - destruct Hwk as [Hw|[Hw Hc]]; [by rewrite Hw in E|]. by pose proof (tally_zero _ _ _ (Haw Hc) Hp). }
  split; [done|]. split; [|done]. rewrite by_origin_perm, Hac, <- Hst. destruct Hwk as [-> |[-> _]]; cbn; by rewrite app_nil_r.
Qed.

Lemma finished_requested cs : Forall (fun p => finished p = true) cs -> cs ≫= requested = cs ≫= accepted.
Proof. induction 1 as [|p cs Hp _ IH]; [done|]. cbn. rewrite IH. by destruct p. Qed.

(** Every accepted record has been handed to the store. *)
Definition persisted (s : system) : Prop := (wt_log (sys_writer s)).*2 ≡ₚ sys_calls s ≫= accepted.

Lemma drained_persisted s0 s : writer_ok s0 s -> wt_inflt (sys_writer s) = 0%nat \/ wt_worker (sys_writer s) = WExited -> persisted s.
Proof.
  intros [_ _ _ _ _ _ _ _ _ _ Hin Hxt Hst Hac _] Hdone. unfold persisted. rewrite by_origin_perm, Hac, <- Hst.
  assert (wt_ch (sys_writer s) = [] /\ in_hand (wt_worker (sys_writer s)) = []) as [-> ->]; [|by rewrite app_nil_r].
  destruct Hdone as [Hz|Hw]; [|destruct (Hxt Hw) as [-> _]; by rewrite Hw].
  rewrite Hz in Hin. destruct (wt_ch (sys_writer s)), (wt_worker (sys_writer s)); cbn in Hin; done || lia.
Qed.

(** How a [Flush] or a [Close] comes to return. *)
Lemma call_returns expired p p' w w' : call_exec expired p w = Some (p', w') ->
  match p' with
  | FlushDone => wt_inflt w = 0%nat
  | CloseDone true => p = CloseWait /\ expired = true
  | CloseDone false => p = CloseUnlock true \/ wt_worker w = WExited
  | CloseUnlock true => p = CloseLocked /\ wt_closed w = true
  | _ => True
  end.
Proof. destruct p; cbn; intros E; repeat case_match; simplify_eq/=; rewrite ?Nat.eqb_eq in *; auto. Qed.

(** C25: The writer loses nothing and keeps its order.  However [Enqueue], [Flush]
    and [Close] interleave with the worker: no send or close meets a closed
    channel; the queue stays within its capacity; the records sent are those
    the worker persisted, then the one in its hand, then the queue, in this
    order; every accepted record is sent or was persisted inline; and the store
    is the result of these appends.  [Flush] and [Close] wait: at the step in
    which a [Flush] returns, every accepted record is persisted, and so at the
    step in which a [Close] returns without an error, unless it is one that
    found the writer closed by an earlier [Close]; a [Close] returns with an
    error only while it waits for the worker and its context is done. *)
Theorem writer_keeps_records queueSize store s :
  rtc sys_step (sys_init queueSize store) s ->
  let w := sys_writer s in
  (Panicked ∉ sys_calls s) /\ (length (wt_ch w) <= wt_cap w)%nat /\
  by_origin ByWorker (wt_log w) ++ in_hand (wt_worker w) ++ wt_ch w = wt_sent w /\
  sys_calls s ≫= accepted ≡ₚ wt_sent w ++ by_origin Inline (wt_log w) /\
  wt_store w = foldl (fun st r => append r st) store (wt_log w).*2 /\
  forall expired p p' w', call_exec expired p w = Some (p', w') ->
    (p' = FlushDone -> persisted s) /\
    (p' = CloseDone false -> p = CloseUnlock true \/ persisted s) /\
    (p' = CloseUnlock true -> p = CloseLocked /\ wt_closed w = true) /\
    (p' = CloseDone true -> p = CloseWait /\ expired = true).
Proof.
  intros Hok%reachable_ok w. pose proof (drained_persisted store s Hok) as Hd. destruct Hok as [Hcap Hrd Han Hho Hex Hcl Hcc Hse Haw Hpa Hin Hxt Hst Hac Hsto].
  split_and!; [intros Hp; by pose proof (tally_zero _ _ _ Hpa Hp) | apply Hcap | done..|].
  intros expired p p' w' E%call_returns. split_and!; intros ->; [by apply Hd; left|destruct E as [?|?]; [by left|right; by apply Hd; right]|done..].
Qed.

(** C24: The writer drains.  From any reachable state, if no further calls arrive,
    there are only finitely many steps, at most [work s]; and wherever they end,
    every call has returned, nothing has panicked, the queue is empty, every
    record that any [Enqueue] was called with has been handed to [Append] once,
    and the store is what these calls, in the order they were made, have made of
    it.  (An [Append] that fails is logged and its record dropped.) *)
Theorem writer_drains queueSize store s :
  rtc sys_step (sys_init queueSize store) s ->
  (forall n s', nsteps run_step n s s' -> (n <= work s)%nat) /\
  (forall s', rtc run_step s s' -> (forall s'', ~ run_step s' s'') ->
     Forall (fun p => finished p = true) (sys_calls s') /\ wt_ch (sys_writer s') = [] /\
     exists rs, rs ≡ₚ sys_calls s ≫= requested /\ wt_store (sys_writer s') = foldl (fun st r => append r st) store rs).
Proof.
  intros Hr%reachable_ok. split; [intros n s'; apply run_length|]. intros s' Hrun Hstuck.
  assert (writer_ok store s' /\ sys_calls s' ≫= requested = sys_calls s ≫= requested) as [Hok Hreq].
  { clear Hstuck. induction Hrun as [s|s s1 s2 Hs _ IH]; [done|]. assert (Hok1 : writer_ok store s1) by (by eapply writer_sys_step_ok; [apply sys_run|]).
    destruct (IH Hok1) as [Hok Hreq]. split; [done|]. by rewrite Hreq, (run_requested store _ _ Hok1 Hs). }
  destruct (stuck_finished store s' Hok Hstuck) as (Hf & Hl & Hch). split_and!; [done..|]. exists (wt_log (sys_writer s')).*2. split; [|by apply ok_store].
  by rewrite Hl, <- Hreq, finished_requested.
Qed.
End writer.
Arguments sys_calls {W} _.
Arguments sys_writer {W} _.

(** * Over the in-memory log *)

Section log.
Context {W : Type} `{Runtime W} `{Sha256} `{Jcs} (enc : Encryptor W) (good : string -> Prop) `{!EncryptorSpec enc good}.

Definition mem_append (r : Record_) (x : MemStore * W) : MemStore * W := ((Append enc r x.1 x.2).1.2, (Append enc r x.1 x.2).2).

Lemma foldl_append_all rs x : foldl (fun st r => mem_append r st) x rs = append_all enc rs x.1 x.2.
Proof.
  revert x. induction rs as [|r rs IH]; intros [m w]; [done|]. cbn. rewrite IH. unfold mem_append. cbn.
  by destruct (Append enc r m w) as [[res m'] w'].
Qed.

(** The log a writer fills is the one its history of appends builds, and so a
    well-formed chain per organisation. *)
Lemma writer_log queueSize w0 s :
  rtc (sys_step mem_append) (sys_init queueSize (NewMemStore, w0)) s ->
  let log := (wt_log (sys_writer s)).*2 in
  wt_store (sys_writer s) = append_all enc log NewMemStore w0 /\ (Forall (good_record good) log -> store_ok enc (wt_store (sys_writer s)).1).
Proof using All.
  intros Hr log. apply reachable_ok, ok_store in Hr. rewrite foldl_append_all in Hr. fold log in Hr. cbn in Hr.
  split; [done|]. intros Hg. rewrite Hr. apply (append_all_ok enc good); [done | apply (empty_ok enc)].
Qed.
End log.

(** * On concrete records *)

(** Schedules: the worker moves, a call arrives, a call moves. *)
Inductive event := EvWorker | EvArrive (p : call_pc) | EvCall (i : nat).

Section play.
Context {W : Type} (append : Record_ -> W -> W).

Definition play (s : system (W:=W)) (e : event) : system :=
  match e with
  | EvWorker => match worker_exec append (sys_writer s) with Some w => {| sys_calls := sys_calls s; sys_writer := w |} | None => s end
  | EvArrive p => if starts p then {| sys_calls := sys_calls s ++ [p]; sys_writer := sys_writer s |} else s
  | EvCall i =>
    match sys_calls s !! i with
    | Some p =>
      match call_exec append false p (sys_writer s) with
      | Some (p', w) => {| sys_calls := take i (sys_calls s) ++ p' :: drop (S i) (sys_calls s); sys_writer := w |}
      | None => s
      end
    | None => s
    end
  end.

Lemma play_reachable es s : rtc (sys_step append) s (foldl play s es).
Proof.
  revert s. induction es as [|e es IH]; intros s; [done|]. cbn. etrans; [|apply IH]. destruct s as [cs w]. destruct e as [|p|i]; cbn.
  - destruct (worker_exec append w) eqn:E; [|done]. by apply rtc_once, sys_run, step_worker.
  - destruct (starts p) eqn:E; [|done]. by apply rtc_once, sys_arrive.
  - destruct (cs !! i) as [p|] eqn:Ei; [|done]. destruct (call_exec append false p w) as [[p' w']|] eqn:E; [|done].
    rewrite <- (take_drop_middle cs i p Ei) at 1. by apply rtc_once, sys_run, step_call.
Defined.
End play.

(** A store that keeps what it is given. *)
Definition keep (r : Record_) (l : list Record_) : list Record_ := l ++ [r].

Section examples.
Context (r1 r2 r3 : Record_).

(** Two records, of which the second waits for room; a flush; a close. *)
Definition busy_day : list event :=
  [EvArrive (EnqCall r1); EvArrive (EnqCall r2); EvCall 0; EvCall 1; EvCall 0; EvCall 1; EvCall 0; EvArrive FlushCall; EvArrive CloseCall;
   EvCall 1; EvCall 2; EvCall 3].
Definition after_busy_day := foldl (play keep) (sys_init 1 []) busy_day.

(** [r2] waits for room in the channel, the flush for both, and the close for
    the readers. *)
Example busy_day_state :
  sys_calls after_busy_day = [EnqUnlock r1; EnqSend r2; FlushCall; CloseAnnounced] /\ wt_ch (sys_writer after_busy_day) = [r1] /\
  wt_inflt (sys_writer after_busy_day) = 2%nat.
Proof. done. Qed.

(** The worker runs, and then everyone. *)
Example busy_day_ends :
  let rest := repeat EvWorker 2 ++ (EvCall <$> [0; 1; 1; 3; 3; 3; 3]%nat) ++ repeat EvWorker 6 ++ (EvCall <$> [2; 3]%nat) in
  let s := foldl (play keep) after_busy_day rest in
  sys_calls s = [EnqDone r1; EnqDone r2; FlushDone; CloseDone false] /\ wt_store (sys_writer s) = [r1; r2].
Proof. done. Qed.

(** A record that is enqueued while a close drains the queue is appended before
    one that was accepted before it. *)
Example inline_overtakes :
  let s := foldl (play keep) (sys_init 1 [])
    ([EvArrive (EnqCall r1)] ++ repeat (EvCall 0) 4 ++ [EvArrive CloseCall] ++ repeat (EvCall 1) 5 ++
     [EvArrive (EnqCall r2)] ++ repeat (EvCall 2) 3 ++ repeat EvWorker 4) in
  sys_calls s = [EnqDone r1; CloseWait; EnqDone r2] /\ wt_store (sys_writer s) = [r2; r1].
Proof. done. Qed.
End examples.

Definition record1 : Record_ := sample_record "org1" "d1" "10.00".
Definition record2 : Record_ := sample_record "org1" "d2" "20.00".
Definition sample_day := after_busy_day record1 record2.

(** The day's end: the flush and the close are about to return. *)
Definition sample_evening := foldl (play keep) sample_day (repeat EvWorker 2 ++ (EvCall <$> [0; 1; 1; 3; 3; 3; 3]%nat) ++ repeat EvWorker 6).

Lemma evening_reachable : rtc (sys_step keep) (sys_init 1 []) sample_evening.
Proof. transitivity sample_day; [exact (play_reachable keep _ _)|exact (play_reachable keep _ sample_day)]. Defined.

(** Before, the flush waits; then it returns, and both records are persisted. *)
Lemma writer_keeps_records_witness :
  call_exec keep false FlushCall (sys_writer sample_day) = None /\
  call_exec keep false FlushCall (sys_writer sample_evening) = Some (FlushDone, sys_writer sample_evening) /\
  (Panicked ∉ sys_calls sample_evening) /\ persisted sample_evening /\
  wt_store (sys_writer sample_evening) = foldl (fun st r => keep r st) [] (wt_log (sys_writer sample_evening)).*2.
Proof.
  destruct (writer_keeps_records keep 1 [] sample_evening evening_reachable) as (Hp & _ & _ & _ & Hs & Hw).
  assert (Hf : call_exec keep false FlushCall (sys_writer sample_evening) = Some (FlushDone, sys_writer sample_evening)).
  { assert (Hz : wt_inflt (sys_writer sample_evening) = 0%nat) by (vm_compute; reflexivity). cbn [call_exec]. by rewrite Hz. }
  split; [reflexivity|]. split; [exact Hf|]. split; [exact Hp|]. split; [|exact Hs]. exact (proj1 (Hw _ _ _ _ Hf) eq_refl).
Defined.

Lemma writer_drains_witness :
  work sample_day = 16%nat /\
  (forall n s', nsteps (run_step keep) n sample_day s' -> (n <= work sample_day)%nat) /\
  (forall s', rtc (run_step keep) sample_day s' -> (forall s'', ~ run_step keep s' s'') ->
     Forall (fun p => finished p = true) (sys_calls s') /\ wt_ch (sys_writer s') = [] /\
     exists rs, rs ≡ₚ [record1; record2] /\ wt_store (sys_writer s') = foldl (fun st r => keep r st) [] rs).
Proof. split; [reflexivity|]. exact (writer_drains keep 1 [] sample_day (play_reachable keep _ _)). Defined.
