(* ===== verification/PolicyLoad.v ===== *)
(** The policy loader ([internal/policy]): a decoded policy file, the concrete
    predicate each document builds, and the content version.  [Parse] starts
    from the decoded [file]: the JSON text itself is read by [encoding/json]. *)

From S2P Require Import Prelude GoStrings Contracts Money Predicates Signing Engine.

Definition versionPrefix : string := "pol_".

Record predicateDoc := {
  d_ID : string;
  d_Type : string;
  d_Agents : list string;
  d_Max : string;
  d_Currency : string;
  d_Vendors : list string;
  d_AllowedActions : list string;
  d_AllowedTargets : list string;
  d_StartMinute : option Z;
  d_EndMinute : option Z;
  d_Weekdays : list Z;
  d_Allowed : gmap string (list string)
}.

Record file := { f_Version : string; f_Predicates : list predicateDoc }.

Inductive load_error :=
| IDRequired (i : nat)
| DuplicateID (i : nat) (id : string)
| BadPredicate (id type msg : string)
| VersionFailed
| UnknownField (name : string).

Definition validMinute (m : Z) : result string unit :=
  if (m <? 0) || (1440 <=? m) then Err ("must be in [0,1440), got " +:+ FormatInt m) else Ok tt.

(** The first weekday outside 0..6. *)
Definition bad_weekday (l : list Z) : option Z := find_first (fun wd => (wd <? 0) || (6 <? wd)) l.

(** The error texts; what the canonicalization library says is left out. *)
Definition load_error_str `{Unicode} (e : load_error) : string :=
  match e with
  | IDRequired i => "predicate[" +:+ fmt_nat (Z.of_nat i) +:+ "]: id is required"
  | DuplicateID i id => "predicate[" +:+ fmt_nat (Z.of_nat i) +:+ "]: duplicate id " +:+ Quote id
  | BadPredicate id type msg => "predicate " +:+ Quote id +:+ " (" +:+ type +:+ "): " +:+ msg
  | VersionFailed => "policy: canonicalize for version"
  | UnknownField name => "decode policy: json: unknown field " +:+ Quote name
  end.

Section load.
Context `{BigRat} `{Unicode}.

Definition build_time_window (d : predicateDoc) (s e : Z) : result string Predicate :=
  match validMinute s with
  | Err m => Err ("start_minute: " +:+ m)
  | Ok _ =>
    match validMinute e with
    | Err m => Err ("end_minute: " +:+ m)
    | Ok _ =>
      match bad_weekday (d_Weekdays d) with
      | Some wd => Err ("weekday " +:+ FormatInt wd +:+ " out of range (0=Sunday..6=Saturday)")
      | None => Ok (as_TimeWindow (NewTimeWindow (d_ID d) (d_Agents d) s e (d_Weekdays d)))
      end
    end
  end.

Definition build (d : predicateDoc) : result string Predicate :=
  if String.eqb (d_Type d) TypePerTransactionLimit then
    if String.eqb (d_Max d) "" then Err "max is required"
    else Ok (as_PerTransactionLimit (NewPerTransactionLimit (d_ID d) (d_Agents d) (d_Max d) (d_Currency d)))
  else if String.eqb (d_Type d) TypeVendorAllowlist then
    if decide (d_Vendors d = []) then Err "vendors must be non-empty"
    else Ok (as_VendorAllowlist (NewVendorAllowlist (d_ID d) (d_Agents d) (d_Vendors d)))
  else if String.eqb (d_Type d) TypeVendorBlocklist then
    Ok (as_VendorBlocklist (NewVendorBlocklist (d_ID d) (d_Agents d) (d_Vendors d)))
  else if String.eqb (d_Type d) TypeAgentPermission then
    if decide (d_AllowedActions d = [] /\ d_AllowedTargets d = []) then
      Err "at least one of allowed_actions or allowed_targets is required"
    else Ok (as_AgentPermission (NewAgentPermission (d_ID d) (d_Agents d) (d_AllowedActions d) (d_AllowedTargets d)))
  else if String.eqb (d_Type d) TypeTimeWindow then
    match d_StartMinute d, d_EndMinute d with
    | Some s, Some e => build_time_window d s e
    | _, _ => Err "start_minute and end_minute are required"
    end
  else if String.eqb (d_Type d) TypeJurisdictionCurrency then
    if decide (d_Allowed d = ∅) then Err "allowed map must be non-empty"
    else Ok (as_JurisdictionCurrency (NewJurisdictionCurrency (d_ID d) (d_Agents d) (d_Allowed d)))
  else if mem_str (d_Type d) [TypeRollingBudget; TypeSanctionsScreen; TypeVendorRisk] then
    Err ("predicate type " +:+ Quote (d_Type d) +:+ " is enriched/stateful and not supported by the local engine (Phase 3/enrichment)")
  else if String.eqb (d_Type d) "" then Err "type is required"
  else Err ("unknown predicate type " +:+ Quote (d_Type d)).

(** * The content version *)

Definition omit_strs (k : string) (l : list string) : list (string * json) :=
  match l with [] => [] | _ => [(k, JArr (jstr <$> l))] end.
Definition omit_ints (k : string) (l : list Z) : list (string * json) :=
  match l with [] => [] | _ => [(k, JArr (jint <$> l))] end.
Definition omit_int (k : string) (z : option Z) : list (string * json) :=
  match z with Some z => [(k, jint z)] | None => [] end.
Definition omit_lists (k : string) (m : gmap string (list string)) : list (string * json) :=
  omit_map k ((fun l => JArr (JStr <$> l)) <$> m).

(** [omitempty] fields in the struct's order. *)
Definition predicateDoc_json (d : predicateDoc) : json :=
  JObj ([ ("id", jstr (d_ID d)); ("type", jstr (d_Type d)) ] ++ omit_strs "agents" (d_Agents d) ++
        omit_str "max" (d_Max d) ++ omit_str "currency" (d_Currency d) ++ omit_strs "vendors" (d_Vendors d) ++
        omit_strs "allowed_actions" (d_AllowedActions d) ++ omit_strs "allowed_targets" (d_AllowedTargets d) ++
        omit_int "start_minute" (d_StartMinute d) ++ omit_int "end_minute" (d_EndMinute d) ++
        omit_ints "weekdays" (d_Weekdays d) ++ omit_lists "allowed" (d_Allowed d)).

Context `{Sha256} `{Jcs}.

Definition contentVersion (docs : list predicateDoc) : result load_error string :=
  match canon (JArr (predicateDoc_json <$> docs)) with
  | None => Err VersionFailed
  | Some c => Ok (versionPrefix +:+ hex_encode (sha256 c))
  end.

(** * [Parse] *)

(** The loop over the documents from index [i] on; [seen] holds the ids of the
    earlier ones. *)
Fixpoint build_all (i : nat) (seen : list string) (docs : list predicateDoc) : result load_error (list Predicate) :=
  match docs with
  | [] => Ok []
  | d :: docs =>
    if String.eqb (d_ID d) "" then Err (IDRequired i)
    else if mem_str (d_ID d) seen then Err (DuplicateID i (d_ID d))
    else match build d with
    | Err m => Err (BadPredicate (d_ID d) (d_Type d) m)
    | Ok p =>
      ps ← build_all (S i) (d_ID d :: seen) docs;
      Ok (p :: ps)
    end
  end.

Definition Parse (f : file) : result load_error Policy :=
  preds ← build_all 0 [] (f_Predicates f);
  version ← (if String.eqb (f_Version f) "" then contentVersion (f_Predicates f) else Ok (f_Version f));
  Ok {| pol_Version := version; pol_Predicates := preds; pol_Budgets := [] |}.

(** * Lemmas *)

Definition doc_ok (d : predicateDoc) : Prop := exists p, build d = Ok p.

(** What is built keeps the document's identity and scope, and is one of the six
    local predicates. *)
Lemma build_spec d p :
  build d = Ok p ->
  RuleID p = d_ID d /\ Type_ p = d_Type d /\
  (forall a, AppliesTo p a = true <-> d_Agents d = [] \/ a ∈ d_Agents d) /\ local_predicate p.
Proof using Type.
  unfold build, build_time_window. intros E.
  repeat (case_match; try discriminate); injection E as <-;
    repeat match goal with He : String.eqb _ _ = true |- _ => apply String.eqb_eq in He end;
    (split; [done|]; split; [done|]; split; [intros agt; apply (base_AppliesTo_spec (mk_base (d_ID d) (d_Agents d)))|]); constructor.
Qed.

(** The types [build] accepts. *)
Definition local_types : list string :=
  [TypePerTransactionLimit; TypeVendorAllowlist; TypeVendorBlocklist; TypeAgentPermission; TypeTimeWindow; TypeJurisdictionCurrency].

Lemma build_type d p : build d = Ok p -> d_Type d ∈ local_types.
Proof using Type. intros E. destruct (build_spec d p E) as (_ & <- & _ & Hl). unfold local_types. destruct Hl; cbn; set_solver. Qed.

Lemma build_all_ok i seen docs ps :
  build_all i seen docs = Ok ps <->
  Forall2 (fun d p => build d = Ok p) docs ps /\ Forall (fun d => d_ID d <> "") docs /\ NoDup (d_ID <$> docs) /\
  Forall (fun d => d_ID d ∉ seen) docs.
Proof using Type.
  revert i seen ps. induction docs as [|d docs IH]; intros i seen ps; cbn [build_all].
  - split; [intros [= <-]; repeat constructor|]. intros (Hf & _). by inversion Hf.
  - destruct (String.eqb_spec (d_ID d) "") as [Hid|Hid].
    { split; [done|]. intros (_ & Hn & _). by apply Forall_cons_iff in Hn as [? _]. }
    destruct (mem_str (d_ID d) seen) eqn:Em.
    { apply mem_str_spec in Em. split; [done|]. intros (_ & _ & _ & Hs). apply Forall_cons_iff in Hs as [? _]. done. }
    assert (Hns : d_ID d ∉ seen) by (intros Hin; apply mem_str_spec in Hin; congruence).
    destruct (build d) as [p|m] eqn:Eb.
    2:{ split; [done|]. intros (Hf & _). inversion Hf; congruence. }
    rewrite result_bind_ok. split.
    + intros (ps' & Hall & [= <-]). apply IH in Hall as (Hf & Hn & Hnd & Hs). split_and!; try (constructor; [done|..]); try done.
      * constructor; [|done]. intros (d' & Hd & Hin)%list_elem_of_fmap. rewrite list.Forall_forall in Hs. apply (Hs d' Hin). rewrite <- Hd. by left.
      * eapply list.Forall_impl; [exact Hs|]. cbn. set_solver.
    + intros (Hf & Hn & Hnd & Hs). inversion Hf as [|? p' ? ps' Hp Hf']; subst. rewrite Eb in Hp. injection Hp as ->.
      apply Forall_cons_iff in Hn as [_ Hn]. apply Forall_cons_iff in Hs as [_ Hs]. cbn in Hnd. apply list.NoDup_cons in Hnd as [Hnin Hnd].
      exists ps'. split; [|done]. apply IH. split_and!; try done. apply list.Forall_forall. intros d' Hd'.
      rewrite list.Forall_forall in Hs. specialize (Hs d' Hd'). intros [E|Hin]%elem_of_cons; [|done].
      apply Hnin. rewrite <- E. by apply list_elem_of_fmap_2.
Qed.

Lemma build_all_err i seen docs e :
  build_all i seen docs = Err e ->
  exists docs1 d docs2 ps, docs = docs1 ++ d :: docs2 /\ build_all i seen docs1 = Ok ps /\
    match e with
    | IDRequired j => j = (i + length docs1)%nat /\ d_ID d = ""
    | DuplicateID j id => j = (i + length docs1)%nat /\ id = d_ID d /\ (id ∈ seen \/ id ∈ d_ID <$> docs1)
    | BadPredicate id type m => id = d_ID d /\ type = d_Type d /\ build d = Err m
    | _ => False
    end.
Proof using Type.
  revert i seen. induction docs as [|d docs IH]; intros i seen; cbn [build_all]; [done|].
  destruct (String.eqb_spec (d_ID d) "") as [Hid|Hid].
  { intros [= <-]. exists [], d, docs, []. split_and!; first [done | cbn; lia]. }
  destruct (mem_str (d_ID d) seen) eqn:Em.
  { intros [= <-]. exists [], d, docs, []. split_and!; first [done | cbn; lia | left; by apply mem_str_spec]. }
  destruct (build d) as [p|m] eqn:Eb.
  2:{ intros [= <-]. exists [], d, docs, []. split_and!; done. }
  destruct (build_all (S i) (d_ID d :: seen) docs) as [ps|e'] eqn:Ea; [done|]. intros [= <-].
  destruct (IH _ _ Ea) as (docs1 & d' & docs2 & ps & -> & Hps & He). exists (d :: docs1), d', docs2, (p :: ps). split_and!.
  - done.
  - cbn [build_all]. rewrite (proj2 (String.eqb_neq _ _)), Em, Eb, Hps by done. done.
  - destruct e'; try done; cbn [length].
    + destruct He as [-> ?]. split; [lia|done].
    + destruct He as (-> & -> & Hin). split; [lia|]. split; [done|]. set_solver.
Qed.
End load.

(** A policy file loads exactly when it is well formed.  It gives a policy
    when every predicate has an id, no id is used twice, every predicate has the
    fields its type requires, and the version is stated or can be computed; then
    the predicates are those of the documents in order, each with its id, type
    and agent scope and one of the six local types.  Otherwise the error names
    the first offending predicate. *)
Theorem Parse_spec `{BigRat} `{Unicode} `{Sha256} `{Jcs} f :
  match Parse f with
  | Ok pol =>
    Forall2 (fun d p => build d = Ok p /\ RuleID p = d_ID d /\ Type_ p = d_Type d /\ local_predicate p /\
                        forall a, AppliesTo p a = true <-> d_Agents d = [] \/ a ∈ d_Agents d) (f_Predicates f) (pol_Predicates pol) /\
    NoDup (RuleID <$> pol_Predicates pol) /\ ("" ∉ RuleID <$> pol_Predicates pol) /\ pol_Budgets pol = [] /\
    (if String.eqb (f_Version f) "" then contentVersion (f_Predicates f) = Ok (pol_Version pol) else pol_Version pol = f_Version f)
  | Err VersionFailed => f_Version f = "" /\ canon (JArr (predicateDoc_json <$> f_Predicates f)) = None
  | Err e =>
    exists docs1 d docs2, f_Predicates f = docs1 ++ d :: docs2 /\ (exists ps, build_all 0 [] docs1 = Ok ps) /\
      match e with
      | IDRequired j => j = length docs1 /\ d_ID d = ""
      | DuplicateID j id => j = length docs1 /\ id = d_ID d /\ id ∈ d_ID <$> docs1
      | BadPredicate id type m => id = d_ID d /\ type = d_Type d /\ build d = Err m
      | _ => False
      end
  end.
Proof.
  unfold Parse. destruct (build_all 0 [] (f_Predicates f)) as [ps|e] eqn:Ea; cbn [mbind result_bind].
  - apply build_all_ok in Ea as (Hf & Hn & Hnd & _).
    assert (Hf2 : Forall2 (fun d p => build d = Ok p /\ RuleID p = d_ID d /\ Type_ p = d_Type d /\ local_predicate p /\
      forall a, AppliesTo p a = true <-> d_Agents d = [] \/ a ∈ d_Agents d) (f_Predicates f) ps).
    { eapply list.Forall2_impl; [exact Hf|]. intros d p E. destruct (build_spec d p E) as (? & ? & ? & ?). done. }
    assert (Hids : RuleID <$> ps = d_ID <$> f_Predicates f).
    { clear -Hf2. induction Hf2 as [|d p ds ps (_ & Hid & _) _ IH]; [done|]. cbn. by rewrite Hid, IH. }
    assert (Hne : "" ∉ d_ID <$> f_Predicates f).
    { intros (d & Hd & Hin)%list_elem_of_fmap. rewrite list.Forall_forall in Hn. by apply (Hn d Hin). }
    destruct (String.eqb_spec (f_Version f) "") as [Hv|Hv].
    + destruct (contentVersion (f_Predicates f)) as [v|e] eqn:Ev; cbn [mbind result_bind].
      * cbn. rewrite Hids. done.
      * unfold contentVersion in Ev. destruct (canon _) eqn:Ec; [done|]. injection Ev as <-. done.
    + cbn. rewrite Hids. done.
  - apply build_all_err in Ea as (docs1 & d & docs2 & ps & Hd & Hps & He). rewrite Hd. destruct e; try done.
    1,3: exists docs1, d, docs2; split_and!; [done|by exists ps|apply He..].
    destruct He as (-> & -> & [Hin|Hin]); [by apply not_elem_of_nil in Hin|]. exists docs1, d, docs2. split_and!; [done|by exists ps|done..].
Qed.
