(* ===== verification/PolicyFile.v ===== *)
(** Where a boot policy comes from ([internal/policy/policy.go]): a file, or the
    policy shipped with the binary, and what the shipped policy decides.

    [encoding/json] is an interface: it decodes a text into a [file], or says
    why not.  [default_file] is the decoded [default.policy.json]. *)

From S2P Require Import Prelude GoStrings Money Contracts Verdict Predicates Runtime Signing Engine Samples EngineProps PolicyLoad.

Class PolicyDecoder := { decode_file : string -> result string file }.

Inductive parse_error := DecodePolicy (msg : string) | BadPolicy (e : load_error).
Inductive source_error := ReadPolicy (path msg : string) | ParsePolicy (path : string) (e : parse_error).

Definition predicate_doc (id type : string) : predicateDoc :=
  {| d_ID := id; d_Type := type; d_Agents := []; d_Max := ""; d_Currency := ""; d_Vendors := []; d_AllowedActions := []; d_AllowedTargets := [];
     d_StartMinute := None; d_EndMinute := None; d_Weekdays := []; d_Allowed := ∅ |}.

Definition default_actions : list string := ["payment.create"; "payment.capture"; "payment.refund"].

Definition default_file : file :=
  {| f_Version := "";
     f_Predicates :=
       [ {| d_ID := "default-per-transaction-limit"; d_Type := "per_transaction_limit"; d_Agents := []; d_Max := "10000.00"; d_Currency := "USD";
            d_Vendors := []; d_AllowedActions := []; d_AllowedTargets := []; d_StartMinute := None; d_EndMinute := None; d_Weekdays := []; d_Allowed := ∅ |};
         {| d_ID := "default-agent-permission"; d_Type := "agent_permission"; d_Agents := []; d_Max := ""; d_Currency := ""; d_Vendors := [];
            d_AllowedActions := default_actions; d_AllowedTargets := []; d_StartMinute := None; d_EndMinute := None; d_Weekdays := []; d_Allowed := ∅ |};
         predicate_doc "default-vendor-blocklist" "vendor_blocklist";
         {| d_ID := "default-business-hours"; d_Type := "time_window"; d_Agents := []; d_Max := ""; d_Currency := ""; d_Vendors := [];
            d_AllowedActions := []; d_AllowedTargets := []; d_StartMinute := Some 0; d_EndMinute := Some 0; d_Weekdays := []; d_Allowed := ∅ |} ] |}.

Section source.
Context `{BigRat} `{Unicode} `{Sha256} `{Jcs}.

(** [Parse] of a text. *)
Definition Parse_text `{PolicyDecoder} (raw : string) : result parse_error Policy :=
  match decode_file raw with
  | Err msg => Err (DecodePolicy msg)
  | Ok f => match Parse f with Err e => Err (BadPolicy e) | Ok p => Ok p end
  end.

(** [ReadFile] is [os.ReadFile]. *)
Definition Load `{PolicyDecoder} (ReadFile : string -> result string string) (path : string) : result source_error Policy :=
  match ReadFile path with
  | Err msg => Err (ReadPolicy path msg)
  | Ok b => match Parse_text b with Err e => Err (ParsePolicy path e) | Ok p => Ok p end
  end.

Definition Default : result source_error Policy :=
  match Parse default_file with Err e => Err (ParsePolicy "embedded default" (BadPolicy e)) | Ok p => Ok p end.

(** The predicates of the shipped policy. *)
Definition default_predicates : list Predicate :=
  [ as_PerTransactionLimit (NewPerTransactionLimit "default-per-transaction-limit" [] "10000.00" "USD");
    as_AgentPermission (NewAgentPermission "default-agent-permission" [] default_actions []);
    as_VendorBlocklist (NewVendorBlocklist "default-vendor-blocklist" [] []);
    as_TimeWindow (NewTimeWindow "default-business-hours" [] 0 0 []) ].

Lemma default_builds : build_all 0 [] (f_Predicates default_file) = Ok default_predicates.
Proof using Type. reflexivity. Qed.

(** The shipped policy is always well formed; only its content version can fail,
    with the canonicalization. *)
Lemma Default_spec :
  Default = match contentVersion (f_Predicates default_file) with
            | Ok v => Ok {| pol_Version := v; pol_Predicates := default_predicates; pol_Budgets := [] |}
            | Err e => Err (ParsePolicy "embedded default" (BadPolicy e))
            end.
Proof using Type.
  unfold Default, Parse. rewrite default_builds. cbn [mbind result_bind]. change (String.eqb (f_Version default_file) "") with true. cbn [mbind result_bind].
  by destruct (contentVersion _).
Qed.

(** What it asks of a request. *)
Definition default_verdict (req : AuthorizeRequest) : string :=
  if negb (mem_str (req_Action req) default_actions) then VerdictDeny
  else if negb (String.eqb (req_Currency req) "USD") then VerdictReview
  else if rat_gt (decimal_value (req_Amount req)) (decimal_value "10000.00") then VerdictDeny else VerdictApprove.

Lemma default_combine req at_ :
  reMoney (req_Amount req) = true -> toContractVerdict (Combine (local_result (buildInput req at_) <$> default_predicates)) = default_verdict req.
Proof using Type.
  intros Hm. set (i := buildInput req at_). unfold default_predicates. cbn [fmap list_fmap].
  assert (Hblock : res_Outcome (Evaluate (as_VendorBlocklist (NewVendorBlocklist "default-vendor-blocklist" [] [])) i) = Satisfied).
  { cbn. unfold VendorBlocklist_Evaluate. by case_match. }
  assert (Hact : res_Outcome (Evaluate (as_AgentPermission (NewAgentPermission "default-agent-permission" [] default_actions [])) i) =
                 if mem_str (req_Action req) default_actions then Satisfied else Denied).
  { cbn. unfold AgentPermission_Evaluate. cbn [ap_AllowedActions ap_AllowedTargets NewAgentPermission nonempty default_actions andb]. unfold contains.
    cbn [in_Action buildInput i]. by destruct (mem_str _ _). }
  assert (Hlim : res_Outcome (Evaluate (as_PerTransactionLimit (NewPerTransactionLimit "default-per-transaction-limit" [] "10000.00" "USD")) i) =
                 if negb (String.eqb (req_Currency req) "USD") then Flagged
                 else if rat_gt (decimal_value (req_Amount req)) (decimal_value "10000.00") then Denied else Satisfied).
  { cbn [Evaluate as_PerTransactionLimit pack]. unfold PerTransactionLimit_Evaluate. cbn [ptl_MaxRaw ptl_Currency NewPerTransactionLimit in_Currency in_Amount buildInput i].
    change (parseMoney "10000.00") with (Some (decimal_value "10000.00")). unfold parseMoney. rewrite Hm, (String.eqb_sym "USD" (req_Currency req)).
    change (String.eqb "USD" "") with false. cbn [negb andb]. destruct (String.eqb (req_Currency req) "USD"); cbn [negb]; [|done]. by destruct (rat_gt _ _). }
  assert (Htw : res_Outcome (Evaluate (as_TimeWindow (NewTimeWindow "default-business-hours" [] 0 0 [])) i) = Satisfied) by reflexivity.
  unfold local_result. rewrite Htw, Hlim, Hact, Hblock. unfold default_verdict.
  destruct (mem_str (req_Action req) default_actions), (String.eqb (req_Currency req) "USD"); cbn [negb];
    destruct (rat_gt _ _); reflexivity.
Qed.
End source.

(** C38: What the shipped policy decides.  A service without a policy file and
    without a control plane answers every request with a canonical amount like
    this: DENY for an action other than the three payment actions; REVIEW for a
    currency other than USD; DENY above 10000.00 USD; APPROVE otherwise, at any
    hour, for any agent, vendor and organisation, in shadow mode or not, and
    places no hold. *)
Theorem default_policy_decides `{BigRat} `{Unicode} {W} `{Runtime W} `{Ed25519} `{Sha256} `{Jcs} (e : Engine W) pol orgID req shadow w d w'
  (Hpol : Default = Ok pol) (He : e_Policy e = pol) (Hprov : e_Provider e = None) (Hm : reMoney (req_Amount req) = true)
  (Hrun : Authorize e orgID req shadow w = (Ok d, w')) :
  dec_Verdict d = default_verdict req /\ dec_Obligations d = [] /\ contentVersion (f_Predicates default_file) = Ok (dec_PolicyVersionHash d).
Proof.
  rewrite Default_spec in Hpol. destruct (contentVersion _) as [v|er] eqn:Ev; [|done]. injection Hpol as <-.
  apply Authorize_run in Hrun as (pol & at_ & c & w1 & w2 & Hres & (wa & wb & Hc) & Hv & Hver & _ & _ & _ & _ & base & _ & Hob).
  unfold resolve_policy in Hres. rewrite Hprov, He in Hres. injection Hres as <- _.
  assert (c = None) as ->.
  { destruct c as [[b r]|]; [|done]. destruct Hc as (_ & _ & Hb & _). done. }
  split_and!; [|exact Hob|by rewrite Hver].
  rewrite Hv. cbn [consult_results]. rewrite app_nil_r. change (applicable _ _) with default_predicates.
  by rewrite default_combine.
Qed.

(** * Witness *)

#[local] Existing Instances sample_bigrat sample_unicode toy_ed25519 sample_runtime.
#[local] Instance plain_sha : Sha256 := {| sha256 s := s |}.
#[local] Instance plain_jcs : Jcs := {| canon _ := Some "{}" |}.

Definition default_policy : Policy := match Default with Ok p => p | Err _ => {| pol_Version := ""; pol_Predicates := []; pol_Budgets := [] |} end.
Definition default_engine : Engine (sworld unit) := NewEngine default_policy "k1".

Definition payment (action amount currency : string) : AuthorizeRequest :=
  {| req_AgentID := "agent"; req_Action := action; req_Amount := amount; req_Currency := currency;
     req_Target := {| tgt_Type := TargetVendor; tgt_ID := "acme" |}; req_Jurisdiction := "US"; req_Context := ∅;
     req_IdempotencyKey := "k"; req_EvaluatedAt := ""; req_CounterSnapshot := None |}.

Definition decided (req : AuthorizeRequest) : Decision :=
  match (Authorize default_engine "org" req false (world0 tt)).1 with Ok d => d | Err _ => sample_decision end.

Example default_verdicts :
  map (fun req => dec_Verdict (decided req))
    [payment "payment.create" "10000" "USD"; payment "payment.refund" "10000.01" "USD"; payment "payment.create" "1" "EUR"; payment "wire" "1" "EUR"] =
  [VerdictApprove; VerdictDeny; VerdictReview; VerdictDeny].
Proof. vm_compute. reflexivity. Qed.

Lemma default_policy_loads : Default = Ok default_policy.
Proof.
  assert (Hd : exists p, Default = Ok p) by (rewrite Default_spec; eexists; reflexivity). unfold default_policy. by destruct Hd as [p ->].
Qed.

Lemma default_policy_decides_witness :
  dec_Verdict (decided (payment "payment.create" "9999.99" "USD")) = VerdictApprove /\
  dec_PolicyVersionHash (decided (payment "payment.create" "9999.99" "USD")) = "pol_7b7d".
Proof.
  assert (Hr : exists w', Authorize default_engine "org" (payment "payment.create" "9999.99" "USD") false (world0 tt) =
    (Ok (decided (payment "payment.create" "9999.99" "USD")), w')).
  { eexists. unfold decided. vm_compute. reflexivity. }
  destruct Hr as [w' Hr].
  destruct (default_policy_decides default_engine default_policy "org" (payment "payment.create" "9999.99" "USD") false _ _ w' default_policy_loads eq_refl eq_refl ltac:(reflexivity) Hr)
    as (Hv & _ & _).
  split; [rewrite Hv; vm_compute; reflexivity|]. vm_compute. reflexivity.
Defined.
