(* ===== verification/Policyctl.v ===== *)
(** The policy control plane ([internal/policyctl]): rules, working copies and
    signed versions ([policyctl.go]), validation ([validate.go]), the in-memory
    store ([store.go]) and the service ([service.go]).

    The JSON Schema validator is third-party: [schema_problems] is what it
    reports on a document.  Rules reach this code from [encoding/json], so their
    strings are valid UTF-8 and marshalling a rule and decoding it again gives
    the same rule.  A nil and an empty list of agents are the same [list]; the
    schema treats an absent and an empty list alike. *)

From S2P Require Import Prelude GoStrings GoTime Contracts Money Predicates Runtime Ulid Signing Engine PolicyLoad.

Definition Canonicalization : string := "ti-policy-canon/1".
Definition versionPrefix : string := "polv_".
Definition StatusDraft : string := "draft".
Definition StatusPublished : string := "published".
Definition idPrefix : string := "pol_".

Record Rule := {
  r_ID : string;
  r_Type : string;
  r_Agents : list string;
  r_Max : string;
  r_Currency : string;
  r_Vendors : list string;
  r_AllowedActions : list string;
  r_AllowedTargets : list string;
  r_StartMinute : option Z;
  r_EndMinute : option Z;
  r_Weekdays : list Z;
  r_Allowed : gmap string (list string);
  r_Window : string;
  r_Limit : string;
  r_Provider : string;
  r_Threshold : option Z;
  r_FailMode : string
}.

Record Policy := {
  p_ID : string;
  p_OrgID : string;
  p_Name : string;
  p_Agents : list string;
  p_Rules : list Rule;
  p_Status : string;
  p_ActiveVersionHash : string;
  p_CreatedAt : time;
  p_UpdatedAt : time
}.

Record BundleRef := { b_OrgID : string; b_PolicyID : string; b_VersionHash : string; b_UpdatedAt : time }.

Record Version := {
  v_VersionHash : string;
  v_PolicyID : string;
  v_OrgID : string;
  v_Name : string;
  v_Agents : list string;
  v_Rules : list Rule;
  v_Signature : Signature;
  v_Author : string;
  v_ParentHash : string;
  v_PublishedAt : time
}.

Record Problem := { pb_Pointer : string; pb_Detail : string }.

Inductive policy_error :=
| ErrPolicyNotFound
| ErrVersionNotFound
| ErrPolicyExists
| ErrBundleNotFound
| ValidationError (ps : list Problem)
| CanonicalizeFailed
| StoreFailed (msg : string).

(** * The signed view *)

Definition Rule_json (r : Rule) : json :=
  JObj ([ ("id", jstr (r_ID r)); ("type", jstr (r_Type r)) ] ++ omit_strs "agents" (r_Agents r) ++
        omit_str "max" (r_Max r) ++ omit_str "currency" (r_Currency r) ++ omit_strs "vendors" (r_Vendors r) ++
        omit_strs "allowed_actions" (r_AllowedActions r) ++ omit_strs "allowed_targets" (r_AllowedTargets r) ++
        omit_int "start_minute" (r_StartMinute r) ++ omit_int "end_minute" (r_EndMinute r) ++
        omit_ints "weekdays" (r_Weekdays r) ++ omit_lists "allowed" (r_Allowed r) ++
        omit_str "window" (r_Window r) ++ omit_str "limit" (r_Limit r) ++ omit_str "provider" (r_Provider r) ++
        omit_int "threshold" (r_Threshold r) ++ omit_str "fail_mode" (r_FailMode r)).

Definition policy_signedView (policyID orgID name : string) (agents : list string) (rules : list Rule) : json :=
  JObj [ ("policy_id", jstr policyID); ("org_id", jstr orgID); ("name", jstr name);
         ("agents", JArr (jstr <$> agents)); ("rules", JArr (Rule_json <$> rules)) ].

(** * Validation *)

(** What the schema library reports on a document. *)
Class PolicySchema := { schema_problems : json -> list Problem }.

Definition localRuleTypes : list string :=
  [TypePerTransactionLimit; TypeVendorAllowlist; TypeVendorBlocklist; TypeAgentPermission; TypeTimeWindow; TypeJurisdictionCurrency].
Definition enrichedRuleTypes : list string := [TypeRollingBudget; TypeSanctionsScreen; TypeVendorRisk].

Definition policy_doc (orgID name : string) (agents : list string) (rules : list Rule) : json :=
  JObj ([ ("org_id", jstr orgID); ("name", jstr name); ("rules", JArr (Rule_json <$> rules)) ] ++ omit_strs "agents" agents).

(** The fields that the loader's document lacks, in the order in which they are
    marshalled: that of the struct, or, through a map, that of their names. *)
Definition struct_order : list string := ["window"; "limit"; "provider"; "threshold"; "fail_mode"].
Definition wire_order : list string := ["fail_mode"; "limit"; "provider"; "threshold"; "window"].

(** [omitempty]: whether the field is marshalled. *)
Definition present (r : Rule) (field : string) : bool :=
  if String.eqb field "window" then negb (String.eqb (r_Window r) "")
  else if String.eqb field "limit" then negb (String.eqb (r_Limit r) "")
  else if String.eqb field "provider" then negb (String.eqb (r_Provider r) "")
  else if String.eqb field "threshold" then match r_Threshold r with Some _ => true | None => false end
  else negb (String.eqb (r_FailMode r) "").

(** Decoding a marshalled rule into the loader's document: the first unknown
    field is the error. *)
Definition doc_of_rule (order : list string) (r : Rule) : result load_error predicateDoc :=
  match find_first (present r) order with
  | Some field => Err (UnknownField field)
  | None =>
    Ok {| d_ID := r_ID r; d_Type := r_Type r; d_Agents := r_Agents r; d_Max := r_Max r; d_Currency := r_Currency r;
          d_Vendors := r_Vendors r; d_AllowedActions := r_AllowedActions r; d_AllowedTargets := r_AllowedTargets r;
          d_StartMinute := r_StartMinute r; d_EndMinute := r_EndMinute r; d_Weekdays := r_Weekdays r; d_Allowed := r_Allowed r |}
  end.

Fixpoint docs_of_rules (order : list string) (rules : list Rule) : result load_error (list predicateDoc) :=
  match rules with
  | [] => Ok []
  | r :: rules => d ← doc_of_rule order r; ds ← docs_of_rules order rules; Ok (d :: ds)
  end.

Lemma orders_agree : wire_order ≡ₚ struct_order.
Proof. apply NoDup_Permutation; [apply (bool_decide_unpack _); vm_compute; exact I..|]. intros x. unfold wire_order, struct_order. set_solver. Qed.

Lemma docs_of_rules_order order order' rules docs : order ≡ₚ order' -> docs_of_rules order rules = Ok docs -> docs_of_rules order' rules = Ok docs.
Proof.
  intros Hp. revert docs. induction rules as [|r rules IH]; intros docs; cbn [docs_of_rules]; [done|].
  assert (Hr : forall d, doc_of_rule order r = Ok d -> doc_of_rule order' r = Ok d).
  { intros d. unfold doc_of_rule. destruct (find_first (present r) order) as [f|] eqn:E; [done|].
    apply find_first_none in E. rewrite Hp in E. by rewrite (proj2 (find_first_none _ _) E). }
  destruct (doc_of_rule order r) as [d|e]; cbn [mbind result_bind]; [|done]. rewrite (Hr d eq_refl). cbn [mbind result_bind].
  destruct (docs_of_rules order rules) as [ds|e]; cbn [mbind result_bind]; [|done]. intros [= <-]. by rewrite (IH ds eq_refl).
Qed.

(** The duplicate-id loop; [seen] maps an id to the index of its first use. *)
Fixpoint dup_problems `{Unicode} (i : nat) (seen : list (string * nat)) (rules : list Rule) : list Problem :=
  match rules with
  | [] => []
  | r :: rules =>
    if String.eqb (r_ID r) "" then dup_problems (S i) seen rules
    else match find_first (fun p => String.eqb p.1 (r_ID r)) seen with
    | Some (_, first) =>
      {| pb_Pointer := "/rules/" +:+ fmt_nat (Z.of_nat i) +:+ "/id";
         pb_Detail := "duplicate rule id " +:+ Quote (r_ID r) +:+ " (first used at /rules/" +:+ fmt_nat (Z.of_nat first) +:+ ")" |}
      :: dup_problems (S i) seen rules
    | None => dup_problems (S i) ((r_ID r, i) :: seen) rules
    end
  end.

(** The comparison of [sortProblems], as "not after". *)
Definition problem_le (a b : Problem) : bool :=
  if String.eqb (pb_Pointer a) (pb_Pointer b) then str_leb (pb_Detail a) (pb_Detail b) else str_leb (pb_Pointer a) (pb_Pointer b).

Section policyctl.
Context `{BigRat} `{Unicode} `{Sha256} `{Jcs} `{PolicySchema}.

Definition CanonicalMessage (policyID orgID name : string) (agents : list string) (rules : list Rule) : result policy_error string :=
  match canon (policy_signedView policyID orgID name agents rules) with
  | Some c => Ok c
  | None => Err CanonicalizeFailed
  end.

Definition ContentHash (policyID orgID name : string) (agents : list string) (rules : list Rule) : result policy_error string :=
  msg ← CanonicalMessage policyID orgID name agents rules;
  Ok (versionPrefix +:+ hex_encode (sha256 msg)).

(** [policy.Parse] on the marshalled rules. *)
Definition parse_rules (order : list string) (version : string) (rules : list Rule) : result load_error Engine.Policy :=
  docs ← docs_of_rules order rules;
  Parse {| f_Version := version; f_Predicates := docs |}.

Definition checkEngineParity (rules : list Rule) : option Problem :=
  match filter (fun r => mem_str (r_Type r) localRuleTypes = true) rules with
  | [] => None
  | local =>
    match parse_rules wire_order "" local with
    | Err e => Some {| pb_Pointer := "/rules"; pb_Detail := "decision engine would reject the local rules: " +:+ load_error_str e |}
    | Ok _ => None
    end
  end.

Definition Validate (orgID name : string) (agents : list string) (rules : list Rule) : result policy_error unit :=
  let problems := schema_problems (policy_doc orgID name agents rules) ++ dup_problems 0 [] rules ++
                  match checkEngineParity rules with Some p => [p] | None => [] end in
  match problems with
  | [] => Ok tt
  | _ => Err (ValidationError (sort_by problem_le problems))
  end.

Context `{Ed25519}.

Definition VerifyVersion (v : Version) (pub : string) : result policy_error unit :=
  if negb (String.eqb (sig_Canonicalization (v_Signature v)) Canonicalization) then Err (StoreFailed "policyctl: unsupported canonicalization")
  else
    msg ← CanonicalMessage (v_PolicyID v) (v_OrgID v) (v_Name v) (v_Agents v) (v_Rules v);
    match VerifyDetached pub msg (v_Signature v) with
    | Ok _ => Ok tt
    | Err _ => Err (StoreFailed "policyctl: signature")
    end.
End policyctl.

(** * The in-memory store ([store.go]) *)

Record MemStore := {
  policies : gmap string Policy;
  versions : gmap string (list Version);
  seen : gmap string (gmap string Version);
  bundles : gmap string BundleRef
}.

Definition NewMemStore : MemStore := {| policies := ∅; versions := ∅; seen := ∅; bundles := ∅ |}.

Definition key (org id : string) : string := org +:+ "|" +:+ id.

Definition CreatePolicy (p : Policy) (m : MemStore) : result policy_error unit * MemStore :=
  let k := key (p_OrgID p) (p_ID p) in
  match policies m !! k with
  | Some _ => (Err ErrPolicyExists, m)
  | None => (Ok tt, {| policies := <[k := p]> (policies m); versions := versions m; seen := seen m; bundles := bundles m |})
  end.

Definition GetPolicy (orgID id : string) (m : MemStore) : result policy_error Policy :=
  match policies m !! key orgID id with Some p => Ok p | None => Err ErrPolicyNotFound end.

Definition UpdatePolicy (p : Policy) (m : MemStore) : result policy_error unit * MemStore :=
  let k := key (p_OrgID p) (p_ID p) in
  match policies m !! k with
  | None => (Err ErrPolicyNotFound, m)
  | Some _ => (Ok tt, {| policies := <[k := p]> (policies m); versions := versions m; seen := seen m; bundles := bundles m |})
  end.

(** By key prefix, in the map's order before the stable sort. *)
Definition ListPolicies (orgID : string) (m : MemStore) : list Policy :=
  sort_by (fun a b => negb (After (p_UpdatedAt b) (p_UpdatedAt a)))
    (omap (fun '(k, p) => if HasPrefix k (orgID +:+ "|") then Some p else None) (map_to_list (policies m))).

(** [m.seen[k]]: nil when absent. *)
Definition seen_of (m : MemStore) (k : string) : gmap string Version := default ∅ (seen m !! k).

Definition PutVersion (v : Version) (m : MemStore) : bool * MemStore :=
  let k := key (v_OrgID v) (v_PolicyID v) in
  match seen_of m k !! v_VersionHash v with
  | Some _ => (false, {| policies := policies m; versions := versions m; seen := <[k := seen_of m k]> (seen m); bundles := bundles m |})
  | None =>
    (true, {| policies := policies m; versions := <[k := default [] (versions m !! k) ++ [v]]> (versions m);
              seen := <[k := <[v_VersionHash v := v]> (seen_of m k)]> (seen m); bundles := bundles m |})
  end.

Definition GetVersion (orgID policyID versionHash : string) (m : MemStore) : result policy_error Version :=
  match seen_of m (key orgID policyID) !! versionHash with Some v => Ok v | None => Err ErrVersionNotFound end.

Definition ListVersions (orgID policyID : string) (m : MemStore) : list Version :=
  sort_by (fun a b => negb (After (v_PublishedAt b) (v_PublishedAt a))) (default [] (versions m !! key orgID policyID)).

Definition SetActiveBundle (ref : BundleRef) (m : MemStore) : MemStore :=
  {| policies := policies m; versions := versions m; seen := seen m; bundles := <[b_OrgID ref := ref]> (bundles m) |}.

Definition GetActiveBundle (orgID : string) (m : MemStore) : result policy_error BundleRef :=
  match bundles m !! orgID with Some b => Ok b | None => Err ErrBundleNotFound end.

(** * The service ([service.go]) *)

(** The service's clock readings and fresh ids come with each call: [t1], [t2]
    are the readings in order, [id] a fresh id. *)
Section service.
Context `{BigRat} `{Unicode} `{Sha256} `{Jcs} `{PolicySchema} `{Ed25519} (signer : Signer).

(** Steps on the store with early return. *)
Definition rbind {A B} (m : MemStore -> result policy_error A * MemStore) (f : A -> MemStore -> result policy_error B * MemStore)
    : MemStore -> result policy_error B * MemStore :=
  fun s => match m s with (Ok a, s') => f a s' | (Err e, s') => (Err e, s') end.

Local Notation "x <~ m ; k" := (rbind m (fun x => k)) (at level 60, right associativity).

Definition pure {A} (r : result policy_error A) : MemStore -> result policy_error A * MemStore := fun s => (r, s).
Definition reads {A} (f : MemStore -> result policy_error A) : MemStore -> result policy_error A * MemStore := fun s => (f s, s).

Definition with_active (hash : string) (t : time) (p : Policy) : Policy :=
  {| p_ID := p_ID p; p_OrgID := p_OrgID p; p_Name := p_Name p; p_Agents := p_Agents p; p_Rules := p_Rules p;
     p_Status := StatusPublished; p_ActiveVersionHash := hash; p_CreatedAt := p_CreatedAt p; p_UpdatedAt := t |}.

Definition setActive (p : Policy) (hash : string) (t : time) := UpdatePolicy (with_active hash t p).

Definition pointOrgBundle (orgID policyID versionHash : string) (t : time) : MemStore -> result policy_error unit * MemStore :=
  fun s => (Ok tt, SetActiveBundle {| b_OrgID := orgID; b_PolicyID := policyID; b_VersionHash := versionHash; b_UpdatedAt := t |} s).

Definition Create (id : string) (t : time) (orgID name : string) (agents : list string) (rules : list Rule)
    : MemStore -> result policy_error Policy * MemStore :=
  if String.eqb orgID "" then pure (Err (ValidationError [{| pb_Pointer := "/org_id"; pb_Detail := "org_id is required" |}]))
  else if String.eqb name "" then pure (Err (ValidationError [{| pb_Pointer := "/name"; pb_Detail := "name is required" |}]))
  else
    let p := {| p_ID := id; p_OrgID := orgID; p_Name := name; p_Agents := agents; p_Rules := rules; p_Status := StatusDraft;
                p_ActiveVersionHash := ""; p_CreatedAt := t; p_UpdatedAt := t |} in
    _ <~ CreatePolicy p; pure (Ok p).

Definition Update (t : time) (orgID id name : string) (agents : list string) (rules : list Rule)
    : MemStore -> result policy_error Policy * MemStore :=
  p <~ reads (GetPolicy orgID id);
  let p := {| p_ID := p_ID p; p_OrgID := p_OrgID p; p_Name := if String.eqb name "" then p_Name p else name;
              p_Agents := agents; p_Rules := rules; p_Status := p_Status p; p_ActiveVersionHash := p_ActiveVersionHash p;
              p_CreatedAt := p_CreatedAt p; p_UpdatedAt := t |} in
  _ <~ UpdatePolicy p; pure (Ok p).

(** Designate a stored version active for its policy and its organisation. *)
Definition activate (p : Policy) (v : Version) (t1 t2 : time) : MemStore -> result policy_error Version * MemStore :=
  _ <~ setActive p (v_VersionHash v) t1;
  _ <~ pointOrgBundle (p_OrgID p) (p_ID p) (v_VersionHash v) t2;
  pure (Ok v).

(** Clock readings: the new version's, the working copy's, the bundle's; a
    republish makes the last two only. *)
Definition Publish (t0 t1 t2 : time) (orgID id author : string) : MemStore -> result policy_error Version * MemStore :=
  p <~ reads (GetPolicy orgID id);
  _ <~ pure (Validate (p_OrgID p) (p_Name p) (p_Agents p) (p_Rules p));
  msg <~ pure (CanonicalMessage (p_ID p) (p_OrgID p) (p_Name p) (p_Agents p) (p_Rules p));
  hash <~ pure (ContentHash (p_ID p) (p_OrgID p) (p_Name p) (p_Agents p) (p_Rules p));
  fun s =>
    match GetVersion orgID id hash s with
    | Ok existing => activate p existing t1 t2 s
    | Err ErrVersionNotFound =>
      let v := {| v_VersionHash := hash; v_PolicyID := p_ID p; v_OrgID := p_OrgID p; v_Name := p_Name p; v_Agents := p_Agents p;
                  v_Rules := p_Rules p; v_Signature := SignDetached signer Canonicalization msg; v_Author := author;
                  v_ParentHash := p_ActiveVersionHash p; v_PublishedAt := t0 |} in
      let '(_, s) := PutVersion v s in activate p v t1 t2 s
    | Err e => (Err e, s)
    end.

Definition Service_ListVersions (orgID id : string) : MemStore -> result policy_error (list Version) * MemStore :=
  _ <~ reads (GetPolicy orgID id);
  reads (fun s => Ok (ListVersions orgID id s)).

Definition Active (orgID id : string) (s : MemStore) : result policy_error Version :=
  p ← GetPolicy orgID id s;
  if String.eqb (p_ActiveVersionHash p) "" then Err ErrVersionNotFound
  else GetVersion orgID id (p_ActiveVersionHash p) s.

Definition Rollback (t1 t2 : time) (orgID id versionHash : string) : MemStore -> result policy_error Version * MemStore :=
  p <~ reads (GetPolicy orgID id);
  target <~ reads (GetVersion orgID id versionHash);
  let p := {| p_ID := p_ID p; p_OrgID := p_OrgID p; p_Name := v_Name target; p_Agents := v_Agents target; p_Rules := v_Rules target;
              p_Status := StatusPublished; p_ActiveVersionHash := v_VersionHash target; p_CreatedAt := p_CreatedAt p; p_UpdatedAt := t1 |} in
  _ <~ UpdatePolicy p;
  _ <~ pointOrgBundle (p_OrgID p) (p_ID p) (v_VersionHash target) t2;
  pure (Ok target).
End service.

(** Keys of organisations and ids that contain the separator collide. *)
Example key_collision : key "a|b" "pol_1" = key "a" "b|pol_1".
Proof. reflexivity. Qed.
