(* ===== verification/SchemaErrors.v ===== *)
(** How a policy's problems are reported ([internal/policyctl/validate.go]): the
    schema library's tree of errors, flattened to its leaves, with the other
    problems, sorted, as one error and its text. *)

From S2P Require Import Prelude GoStrings Money Contracts Signing PolicyLoad Policyctl.

(** [jsonschema.ValidationError]: where, what, and what caused it. *)
Inductive schema_error := SchemaError (InstanceLocation Message : string) (Causes : list schema_error).

Definition leaf_problem (e : schema_error) : Problem := match e with SchemaError l m _ => {| pb_Pointer := l; pb_Detail := m |} end.

(** The [walk] of [flattenSchemaError]: it appends the leaves to [out]. *)
Fixpoint walk (e : schema_error) (out : list Problem) : list Problem :=
  match e with
  | SchemaError l m [] => out ++ [{| pb_Pointer := l; pb_Detail := m |}]
  | SchemaError _ _ causes => (fix go cs out := match cs with [] => out | c :: cs => go cs (walk c out) end) causes out
  end.

Definition flattenSchemaError (e : schema_error) : list Problem :=
  match walk e [] with [] => [leaf_problem e] | out => out end.

(** The validator: [None] for a valid document. *)
Class SchemaValidator := { schema_Validate : json -> option schema_error }.

(** What [Validate] takes from it. *)
#[export] Instance validator_schema `{SchemaValidator} : PolicySchema :=
  {| schema_problems doc := match schema_Validate doc with Some e => flattenSchemaError e | None => [] end |}.

(** [ValidationError.Error]. *)
Definition ValidationError_Error (ps : list Problem) : string :=
  match ps with
  | [] => "policy is invalid"
  | _ =>
    "policy is invalid (" +:+ fmt_nat (Z.of_nat (length ps)) +:+ " problem(s)):" +:+
    foldr (fun p s => String (chr 10) "  " +:+ (if negb (String.eqb (pb_Pointer p) "") then pb_Pointer p +:+ ": " else "") +:+ pb_Detail p +:+ s) "" ps
  end.

(** * The leaves *)

Inductive leaf_of : schema_error -> schema_error -> Prop :=
| leaf_here l m : leaf_of (SchemaError l m []) (SchemaError l m [])
| leaf_below l m cs c x : c ∈ cs -> leaf_of c x -> leaf_of (SchemaError l m cs) x.

(** Induction over a tree and all its causes. *)
Lemma schema_error_rect' (P : schema_error -> Prop) :
  (forall l m cs, Forall P cs -> P (SchemaError l m cs)) -> forall e, P e.
Proof.
  intros Hp. fix F 1. intros [l m cs]. apply Hp. induction cs as [|c cs IH]; constructor; [apply F|exact IH].
Qed.

Lemma walk_causes l m c cs out : walk (SchemaError l m (c :: cs)) out = foldl (fun o c => walk c o) out (c :: cs).
Proof. cbn [walk foldl]. generalize (walk c out). induction cs as [|c' cs IH]; intros o; [done|]. cbn. apply IH. Qed.

Lemma walk_spec e out : exists new, walk e out = out ++ new /\ new <> [] /\
  forall p, p ∈ new <-> exists x, leaf_of e x /\ p = leaf_problem x.
Proof.
  revert out. induction e as [l m cs Hcs] using schema_error_rect'. intros out. destruct cs as [|c cs].
  - exists [{| pb_Pointer := l; pb_Detail := m |}]. split; [done|]. split; [done|]. intros p. rewrite list_elem_of_singleton. split.
    + intros ->. exists (SchemaError l m []). split; [constructor|done].
    + intros (x & Hx & ->). inversion Hx as [|? ? ? c' ? Hin]; subst; [done|]. by apply not_elem_of_nil in Hin.
  - rewrite walk_causes. assert (Hall : forall ds, Forall (fun c => forall out, exists new, walk c out = out ++ new /\ new <> [] /\
        forall p, p ∈ new <-> exists x, leaf_of c x /\ p = leaf_problem x) ds ->
      forall out, exists new, foldl (fun o c => walk c o) out ds = out ++ new /\ (ds <> [] -> new <> []) /\
        forall p, p ∈ new <-> exists d x, d ∈ ds /\ leaf_of d x /\ p = leaf_problem x).
    { clear. intros ds Hds. induction Hds as [|d ds Hd _ IH]; intros out.
      - exists []. rewrite app_nil_r. split; [done|]. split; [done|]. intros p. split; [by intros ?%not_elem_of_nil|]. intros (d & x & Hin & _). by apply not_elem_of_nil in Hin.
      - cbn [foldl]. destruct (Hd out) as (n1 & -> & Hne & H1). destruct (IH (out ++ n1)) as (n2 & -> & _ & H2). exists (n1 ++ n2). rewrite app_assoc. split; [done|].
        split; [intros _ [? _]%app_eq_nil; done|]. intros p. rewrite elem_of_app, H1, H2. setoid_rewrite elem_of_cons. naive_solver. }
    destruct (Hall (c :: cs) Hcs out) as (new & -> & Hne & Hp). exists new. split; [done|]. split; [by apply Hne|]. intros p. rewrite Hp. split.
    + intros (d & x & Hin & Hx & ->). exists x. split; [by econstructor|done].
    + intros (x & Hx & ->). inversion Hx as [|? ? ? d ? Hin Hd]; subst. by exists d, x.
Qed.

(** A refusal of the schema always gives problems: exactly its leaves. *)
Lemma flatten_spec e : flattenSchemaError e <> [] /\ forall p, p ∈ flattenSchemaError e <-> exists x, leaf_of e x /\ p = leaf_problem x.
Proof.
  unfold flattenSchemaError. destruct (walk_spec e []) as (new & -> & Hne & Hp). cbn [app]. destruct new; [done|]. by split.
Qed.

(** * The duplicates *)

(** [sortProblems]'s order is total and transitive. *)
Lemma problem_le_total x y : problem_le x y = true \/ problem_le y x = true.
Proof.
  unfold problem_le. destruct (String.eqb_spec (pb_Pointer x) (pb_Pointer y)) as [->|Hne]; [rewrite String.eqb_refl; apply str_leb_total|].
  rewrite (proj2 (String.eqb_neq (pb_Pointer y) (pb_Pointer x))) by done. apply str_leb_total.
Qed.

Lemma problem_le_trans x y z : problem_le x y = true -> problem_le y z = true -> problem_le x z = true.
Proof.
  unfold problem_le. intros Hxy Hyz. destruct (String.eqb_spec (pb_Pointer x) (pb_Pointer y)) as [Exy|Nxy], (String.eqb_spec (pb_Pointer y) (pb_Pointer z)) as [Eyz|Nyz].
  - rewrite Exy, Eyz, String.eqb_refl. by eapply str_leb_trans.
  - rewrite Exy. by rewrite (proj2 (String.eqb_neq _ _) Nyz).
  - rewrite <- Eyz. by rewrite (proj2 (String.eqb_neq _ _) Nxy).
  - destruct (String.eqb_spec (pb_Pointer x) (pb_Pointer z)) as [Exz|_]; [|by eapply str_leb_trans].
    rewrite Exz in Hxy. destruct Nyz. by apply String.leb_antisym.
Qed.

(** The first rule under an id. *)
Definition first_use (rules : list Rule) (id : string) (j : nat) : Prop :=
  (exists r, rules !! j = Some r /\ r_ID r = id) /\ forall j' r, rules !! j' = Some r -> r_ID r = id -> (j <= j')%nat.

Definition duplicate_problem `{Unicode} (i j : nat) (id : string) : Problem :=
  {| pb_Pointer := "/rules/" +:+ fmt_nat (Z.of_nat i) +:+ "/id";
     pb_Detail := "duplicate rule id " +:+ Quote id +:+ " (first used at /rules/" +:+ fmt_nat (Z.of_nat j) +:+ ")" |}.

(** Rule [i] repeats the id of an earlier rule, first used at [j]. *)
Definition duplicate (rules : list Rule) (i j : nat) (id : string) : Prop :=
  (exists r, rules !! i = Some r /\ r_ID r = id) /\ id <> "" /\ (j < i)%nat /\ first_use rules id j.

Lemma first_use_fun rules id j j' : first_use rules id j -> first_use rules id j' -> j = j'.
Proof. intros [(r & Hj & Hr) H1] [(r' & Hj' & Hr') H2]. specialize (H1 _ _ Hj' Hr'). specialize (H2 _ _ Hj Hr). lia. Qed.

Lemma first_use_app pre post id j : first_use pre id j -> first_use (pre ++ post) id j.
Proof.
  intros [(r & Hj & Hr) H1]. assert (Hlt := lookup_lt_Some _ _ _ Hj). split; [exists r; by rewrite lookup_app_l|].
  intros j' r' [Hj'|[Hge _]]%lookup_app_Some Hid; [by eapply H1|lia].
Qed.

(** What [seen] records of the rules before. *)
Definition seen_ok (pre : list Rule) (seen : list (string * nat)) : Prop := forall id, id <> "" ->
  match find_first (fun p => String.eqb p.1 id) seen with
  | Some (_, j) => first_use pre id j
  | None => forall j r, pre !! j = Some r -> r_ID r <> id
  end.

Lemma seen_skip pre seen r : seen_ok pre seen -> (r_ID r = "" \/ exists q, find_first (fun p => String.eqb p.1 (r_ID r)) seen = Some q) ->
  seen_ok (pre ++ [r]) seen.
Proof.
  intros Hs Hr id Hid. specialize (Hs id Hid). destruct (find_first _ seen) as [[i0 j]|] eqn:Ef; [by apply first_use_app|].
  intros j x [Hx|[_ Hx]]%lookup_app_Some; [by eapply Hs|]. destruct (j - length pre)%nat; [|done]. injection Hx as <-.
  intros <-. destruct Hr as [?|[q Hq]]; [done|congruence].
Qed.

Lemma seen_new pre seen r : seen_ok pre seen -> r_ID r <> "" -> find_first (fun p => String.eqb p.1 (r_ID r)) seen = None ->
  seen_ok (pre ++ [r]) ((r_ID r, length pre) :: seen).
Proof.
  intros Hs Hne Hf id Hid. cbn [find_first fst]. destruct (String.eqb_spec (r_ID r) id) as [E|E].
  - rewrite E in *. assert (Hn := Hs id Hid). rewrite Hf in Hn. split; [exists r; split; [|done]; rewrite lookup_app_r, Nat.sub_diag by done; done|].
    intros j' x [Hx|[Hge _]]%lookup_app_Some Hx'; [by destruct (Hn _ _ Hx)|lia].
  - specialize (Hs id Hid). destruct (find_first _ seen) as [[i0 j]|]; [by apply first_use_app|].
    intros j x [Hx|[_ Hx]]%lookup_app_Some; [by eapply Hs|]. destruct (j - length pre)%nat; [|done]. by injection Hx as <-.
Qed.

Lemma dup_problems_from `{Unicode} pre seen post p : seen_ok pre seen ->
  p ∈ dup_problems (length pre) seen post <->
  exists i j id, (length pre <= i)%nat /\ duplicate (pre ++ post) i j id /\ p = duplicate_problem i j id.
Proof.
  revert pre seen. induction post as [|r post IH]; intros pre seen Hs; cbn [dup_problems].
  { split; [by intros ?%not_elem_of_nil|]. intros (i & j & id & Hge & (([r [Hr _]] & _) & _)). rewrite app_nil_r in Hr. apply lookup_lt_Some in Hr. lia. }
  assert (Hlen : length (pre ++ [r]) = S (length pre)) by (rewrite length_app; cbn; lia).
  assert (Happ : (pre ++ [r]) ++ post = pre ++ r :: post) by by rewrite <- app_assoc.
  assert (Hat : (pre ++ r :: post) !! length pre = Some r) by by rewrite lookup_app_r, Nat.sub_diag.
  assert (Hskip : (forall j id, ~ duplicate (pre ++ r :: post) (length pre) j id) ->
    forall l : list Problem, (p ∈ l <-> exists i j id, (S (length pre) <= i)%nat /\ duplicate (pre ++ r :: post) i j id /\ p = duplicate_problem i j id) ->
    p ∈ l <-> exists i j id, (length pre <= i)%nat /\ duplicate (pre ++ r :: post) i j id /\ p = duplicate_problem i j id).
  { intros Hnot l ->. split; intros (i & j & id & Hi & Hd & Hp); exists i, j, id; (split; [|done]); [lia|].
    destruct (decide (i = length pre)) as [->|]; [by destruct (Hnot j id)|lia]. }
  destruct (String.eqb_spec (r_ID r) "") as [E0|E0].
  - apply Hskip; [intros j id [[r' [Hr Hid]] [Hne _]]; congruence|]. rewrite <- Happ, <- Hlen. apply IH, seen_skip; auto.
  - assert (Hs0 := Hs _ E0). destruct (find_first _ seen) as [[i0 first]|] eqn:Ef.
    + assert (Hd : duplicate (pre ++ r :: post) (length pre) first (r_ID r)).
      { split; [by exists r|]. split; [done|]. split; [|by apply first_use_app]. destruct Hs0 as [(x & Hx & _) _]. by apply lookup_lt_Some in Hx. }
      rewrite elem_of_cons, <- Hlen, (IH (pre ++ [r])) by (apply seen_skip; eauto). rewrite Happ, Hlen. split.
      * intros [->|(i & j & id & Hi & Hr)]; [by exists (length pre), first, (r_ID r)|]. exists i, j, id. split; [lia|done].
      * intros (i & j & id & Hi & Hr & ->). destruct (decide (i = length pre)) as [->|]; [left|right; exists i, j, id; split; [lia|done]].
        destruct Hr as ([r' [Hr Hid]] & _ & _ & Hf). assert (r' = r) as -> by congruence. subst id.
        by rewrite (first_use_fun _ _ _ _ Hf (proj2 (proj2 (proj2 Hd)))).
    + apply Hskip.
      * intros j id ([r' [Hr Hid]] & _ & Hj & (x & Hx & Hxid) & _). assert (r' = r) as -> by congruence. subst id.
        rewrite lookup_app_l in Hx by done. by destruct (Hs0 _ _ Hx).
      * rewrite <- Happ, <- Hlen. apply IH. by apply seen_new.
Qed.

Lemma dup_problems_spec `{Unicode} rules p : p ∈ dup_problems 0 [] rules <-> exists i j id, duplicate rules i j id /\ p = duplicate_problem i j id.
Proof.
  change 0%nat with (length (@nil Rule)). rewrite (dup_problems_from [] [] rules p) by (intros id _ j r Hr; done). cbn [app length].
  split; intros (i & j & id & Hr); exists i, j, id; [tauto|split; [lia|done]].
Qed.

(** * The report *)

Section report.
Context `{BigRat} `{Unicode} `{Sha256} `{Jcs} `{SchemaValidator}.

(** A problem of a policy: a leaf of the schema's refusal, a repeated rule id,
    or the refusal of the engine's loader. *)
Inductive problem_of (org name : string) (agents : list string) (rules : list Rule) : Problem -> Prop :=
| of_schema e x : schema_Validate (policy_doc org name agents rules) = Some e -> leaf_of e x -> problem_of org name agents rules (leaf_problem x)
| of_duplicate i j id : duplicate rules i j id -> problem_of org name agents rules (duplicate_problem i j id)
| of_loader p : checkEngineParity rules = Some p -> problem_of org name agents rules p.

Lemma all_problems org name agents rules p :
  p ∈ schema_problems (policy_doc org name agents rules) ++ dup_problems 0 [] rules ++ match checkEngineParity rules with Some p => [p] | None => [] end <->
  problem_of org name agents rules p.
Proof using Type.
  rewrite !elem_of_app, dup_problems_spec. unfold schema_problems, validator_schema. split.
  - intros [Hp|[(i & j & id & Hd & ->)|Hp]]; [|by constructor|].
    + destruct (schema_Validate _) as [e|] eqn:Ee; [|by apply not_elem_of_nil in Hp]. apply flatten_spec in Hp as (x & Hx & ->). by econstructor.
    + destruct (checkEngineParity rules) eqn:Ec; [|by apply not_elem_of_nil in Hp]. apply list_elem_of_singleton in Hp as ->. by constructor.
  - intros [e x He Hx|i j id Hd|q Hq]; [left|right; left; eauto|right; right].
    + rewrite He. apply flatten_spec. eauto.
    + rewrite Hq. by apply list_elem_of_singleton.
Qed.
End report.

(** C37: A refused policy is told everything that is wrong with it.  Validation
    passes exactly when the schema accepts the document, no two rules share an
    id and the engine's loader accepts the local rules; it answers with nothing
    but a validation error otherwise; and that error has, sorted by pointer and
    detail, at least one problem and no other than the leaves of the schema's
    refusal, one for each rule that repeats an id (with the rule that used it
    first), and the loader's refusal. *)
Theorem Validate_reports_all `{BigRat} `{Unicode} `{Sha256} `{Jcs} `{SchemaValidator} org name agents rules :
  (Validate org name agents rules = Ok tt <->
     schema_Validate (policy_doc org name agents rules) = None /\ (forall i j id, ~ duplicate rules i j id) /\ checkEngineParity rules = None) /\
  (is_ok (Validate org name agents rules) = false -> exists ps, Validate org name agents rules = Err (ValidationError ps) /\ ps <> [] /\
     StronglySorted (fun a b => problem_le a b = true) ps /\ forall p, p ∈ ps <-> problem_of org name agents rules p).
Proof.
  assert (Hall := all_problems org name agents rules). unfold Validate. destruct (_ ++ _ ++ _) as [|p0 ps] eqn:E.
  - split; [|done]. split; [|done]. intros _. split_and!.
    + destruct (schema_Validate _) as [e|] eqn:Ee; [|done]. destruct (flatten_spec e) as [Hne Hp].
      destruct (flattenSchemaError e) as [|q qs]; [done|]. destruct (proj1 (Hp q)) as (x & Hx & ->); [by left|].
      assert (Hn := proj2 (Hall _) (of_schema _ _ _ _ _ _ Ee Hx)). by apply not_elem_of_nil in Hn.
    + intros i j id Hd. assert (Hn := proj2 (Hall _) (of_duplicate org name agents _ _ _ _ Hd)). by apply not_elem_of_nil in Hn.
    + destruct (checkEngineParity rules) as [q|] eqn:Eq; [|done]. assert (Hn := proj2 (Hall _) (of_loader org name agents _ _ Eq)). by apply not_elem_of_nil in Hn.
  - split.
    + split; [done|]. intros (Hs & Hd & Hp). destruct (proj1 (Hall p0)) as [e x He _|i j id Hdup|q Hq]; [by left|congruence|by destruct (Hd _ _ _ Hdup)|congruence].
    + intros _. eexists. split; [done|]. split; [|split].
      * intros Hn. assert (Hin : p0 ∈ sort_by problem_le (p0 :: ps)) by (apply sort_by_elem; by left). rewrite Hn in Hin. by apply not_elem_of_nil in Hin.
      * apply sort_by_sorted; [apply problem_le_total|apply problem_le_trans].
      * intros p. by rewrite sort_by_elem.
Qed.
