(* ===== verification/PolicyctlProps.v ===== *)
(** What the control plane guarantees: versions are immutable, content-addressed
    and signed, pointers to them never dangle, and publishing activates. *)

From S2P Require Import Prelude GoStrings GoTime Contracts Money Predicates Base64 Signing Engine PolicyLoad Policyctl.

(** Without the separator in their organisations, keys are what they name. *)
Lemma policy_key_inj org id org' id' :
  no_char "|" org = true -> no_char "|" org' = true -> key org id = key org' id' -> org = org' /\ id = id'.
Proof. intros Ha Hb E. by apply (str_app_char_inj "|"). Qed.

Section props.
Context `{BigRat} `{Unicode} `{Sha256} `{Jcs} `{PolicySchema} `{Ed25519Laws} (signer : Signer).

(** The hash of its content, and a signature that verifies. *)
Definition version_ok (pub : string) (v : Version) : Prop :=
  ContentHash (v_PolicyID v) (v_OrgID v) (v_Name v) (v_Agents v) (v_Rules v) = Ok (v_VersionHash v) /\ VerifyVersion v pub = Ok tt.

Record store_wf (pub : string) (m : MemStore) : Prop := {
  wf_seen k h v : seen_of m k !! h = Some v -> v_VersionHash v = h /\ key (v_OrgID v) (v_PolicyID v) = k /\ version_ok pub v;
  wf_policy k p : policies m !! k = Some p ->
    key (p_OrgID p) (p_ID p) = k /\ (p_ActiveVersionHash p <> "" -> exists v, seen_of m k !! p_ActiveVersionHash p = Some v);
  wf_bundle org b : bundles m !! org = Some b ->
    b_OrgID b = org /\ exists v, seen_of m (key org (b_PolicyID b)) !! b_VersionHash b = Some v;
  wf_versions k : NoDup (v_VersionHash <$> default [] (versions m !! k)) /\
    forall v, v ∈ default [] (versions m !! k) <-> seen_of m k !! v_VersionHash v = Some v
}.

(** Nothing stored under a version's hash ever changes. *)
Definition keeps_versions (m m' : MemStore) : Prop := forall k h v, seen_of m k !! h = Some v -> seen_of m' k !! h = Some v.

Definition step_ok (pub : string) (m m' : MemStore) : Prop := store_wf pub m' /\ keeps_versions m m'.

Lemma step_refl pub m : store_wf pub m -> step_ok pub m m.
Proof using Type. intros W. split; [exact W|]. by intros k h v. Qed.

Lemma step_trans pub m1 m2 m3 : step_ok pub m1 m2 -> (store_wf pub m2 -> step_ok pub m2 m3) -> step_ok pub m1 m3.
Proof using Type. intros [W1 K1] Hs. destruct (Hs W1) as [W2 K2]. split; [done|]. intros k h v Hv. auto. Qed.

(** Replacing a working copy by one whose active version, if any, is stored. *)
Lemma put_policy_wf pub p m :
  store_wf pub m -> (p_ActiveVersionHash p <> "" -> exists v, seen_of m (key (p_OrgID p) (p_ID p)) !! p_ActiveVersionHash p = Some v) ->
  step_ok pub m {| policies := <[key (p_OrgID p) (p_ID p) := p]> (policies m); versions := versions m; seen := seen m; bundles := bundles m |}.
Proof using Type.
  intros W Ha. split; [|by intros k h v]. split; try apply W. cbn. intros k p' Hp.
  destruct (decide (k = key (p_OrgID p) (p_ID p))) as [->|Hne].
  - rewrite lookup_insert_eq in Hp. injection Hp as <-. done.
  - rewrite lookup_insert_ne in Hp by done. by apply (wf_policy _ _ W).
Qed.

Lemma UpdatePolicy_ok pub p m :
  store_wf pub m -> (p_ActiveVersionHash p <> "" -> exists v, seen_of m (key (p_OrgID p) (p_ID p)) !! p_ActiveVersionHash p = Some v) ->
  step_ok pub m (UpdatePolicy p m).2.
Proof using Type.
  intros W Ha. unfold UpdatePolicy. destruct (policies m !! key (p_OrgID p) (p_ID p)) as [p0|] eqn:E; [|by apply step_refl].
  by apply put_policy_wf.
Qed.

Lemma SetActiveBundle_ok pub b m v :
  store_wf pub m -> seen_of m (key (b_OrgID b) (b_PolicyID b)) !! b_VersionHash b = Some v -> step_ok pub m (SetActiveBundle b m).
Proof using Type.
  intros W Hv. split; [|by intros k h v']. split; try apply W. cbn. intros org b' Hb.
  destruct (decide (org = b_OrgID b)) as [->|Hne].
  - rewrite lookup_insert_eq in Hb. injection Hb as <-. split; [done|]. by exists v.
  - rewrite lookup_insert_ne in Hb by done. by apply (wf_bundle _ _ W).
Qed.

Lemma PutVersion_ok pub v m :
  store_wf pub m -> version_ok pub v -> seen_of m (key (v_OrgID v) (v_PolicyID v)) !! v_VersionHash v = None ->
  let m' := (PutVersion v m).2 in
  step_ok pub m m' /\ seen_of m' (key (v_OrgID v) (v_PolicyID v)) !! v_VersionHash v = Some v /\ policies m' = policies m /\ bundles m' = bundles m.
Proof using Type.
  intros W Hv Hn m'. unfold m', PutVersion. rewrite Hn. cbn [snd]. set (k0 := key (v_OrgID v) (v_PolicyID v)) in *.
  set (m2 := {| policies := _ |}).
  assert (Hseen : forall k, seen_of m2 k = if decide (k = k0) then <[v_VersionHash v := v]> (seen_of m k0) else seen_of m k).
  { intros k. unfold seen_of at 1, m2. cbn. destruct (decide (k = k0)) as [->|Hne]; [by rewrite lookup_insert_eq|by rewrite lookup_insert_ne]. }
  assert (Hkeep : keeps_versions m m2).
  { intros k h v' Hv'. rewrite Hseen. destruct (decide (k = k0)) as [->|]; [|done].
    destruct (decide (h = v_VersionHash v)) as [->|]; [congruence|]. by rewrite lookup_insert_ne. }
  split; [split; [|done]|split; [|done]].
  2:{ rewrite Hseen. destruct (decide (k0 = k0)); [apply lookup_insert_eq|done]. }
  split.
  - intros k h v' Hv'. rewrite Hseen in Hv'. destruct (decide (k = k0)) as [->|]; [|by apply (wf_seen _ _ W)].
    destruct (decide (h = v_VersionHash v)) as [->|Hne]; [rewrite lookup_insert_eq in Hv'; by injection Hv' as <-|].
    rewrite lookup_insert_ne in Hv' by done. by apply (wf_seen _ _ W).
  - intros k p Hp. destruct (wf_policy _ _ W k p Hp) as [Hk Ha]. split; [done|]. intros Hne. destruct (Ha Hne) as [v' Hv']. exists v'. by apply Hkeep.
  - intros org b Hb. destruct (wf_bundle _ _ W org b Hb) as [Ho [v' Hv']]. split; [done|]. exists v'. by apply Hkeep.
  - intros k. destruct (wf_versions _ _ W k) as [Hnd Hin]. unfold m2 at 1. cbn [versions]. rewrite !Hseen. unfold m2. cbn [versions].
    destruct (decide (k = k0)) as [->|Hne]; [|by rewrite !lookup_insert_ne].
    rewrite !lookup_insert_eq. cbn [default id from_option]. split.
    + rewrite fmap_app. apply list.NoDup_app. split_and!; [done| |by apply NoDup_singleton].
      intros h (v' & -> & Hv')%list_elem_of_fmap E. apply list_elem_of_singleton in E. apply Hin in Hv'. rewrite E in Hv'. congruence.
    + intros v'. rewrite elem_of_app, list_elem_of_singleton, Hin. destruct (decide (v_VersionHash v' = v_VersionHash v)) as [E|E].
      * rewrite E, Hn, lookup_insert_eq. split; [intros [?| ->]; done|]. intros [= ->]. by right.
      * rewrite lookup_insert_ne by done. split; [intros [?| ->]; done|]. by left.
Qed.

Lemma activate_ok pub p v t1 t2 m :
  store_wf pub m -> seen_of m (key (p_OrgID p) (p_ID p)) !! v_VersionHash v = Some v -> step_ok pub m (activate p v t1 t2 m).2.
Proof using Type.
  intros W Hv. unfold activate, rbind, setActive, pointOrgBundle, pure.
  pose proof (UpdatePolicy_ok pub (with_active (v_VersionHash v) t1 p) m W ltac:(by exists v)) as Hu.
  destruct (UpdatePolicy _ m) as [[[]|e] m1]; cbn in *; [|done].
  eapply step_trans; [exact Hu|]. intros W1. apply (SetActiveBundle_ok _ _ _ v W1). cbn. destruct Hu as [_ Hk]. by apply Hk.
Qed.

Lemma signed_version_ok seed id org name agents rules msg hash author parent t :
  sgn_priv signer = NewKeyFromSeed seed -> CanonicalMessage id org name agents rules = Ok msg -> ContentHash id org name agents rules = Ok hash ->
  version_ok (Public (NewKeyFromSeed seed))
    {| v_VersionHash := hash; v_PolicyID := id; v_OrgID := org; v_Name := name; v_Agents := agents; v_Rules := rules;
       v_Signature := SignDetached signer Canonicalization msg; v_Author := author; v_ParentHash := parent; v_PublishedAt := t |}.
Proof using Type*.
  intros Hs Hm Hh. split; [exact Hh|]. unfold VerifyVersion. cbn [v_Signature SignDetached sig_Canonicalization]. rewrite String.eqb_refl.
  cbn [negb v_PolicyID v_OrgID v_Name v_Agents v_Rules]. rewrite Hm. cbn [mbind result_bind].
  unfold VerifyDetached, SignDetached. cbn [sig_Algorithm sig_Value]. rewrite String.eqb_refl, DecodeString_EncodeToString, public_size. cbn [negb Nat.eqb PublicKeySize].
  by rewrite Hs, sign_verifies.
Qed.

(** One call of the service, with its clock readings and fresh ids. *)
Inductive op :=
| OpCreate (id : string) (t : time) (org name : string) (agents : list string) (rules : list Rule)
| OpUpdate (t : time) (org id name : string) (agents : list string) (rules : list Rule)
| OpPublish (t0 t1 t2 : time) (org id author : string)
| OpRollback (t1 t2 : time) (org id hash : string).

Definition exec (o : op) (m : MemStore) : MemStore :=
  match o with
  | OpCreate id t org name agents rules => (Create id t org name agents rules m).2
  | OpUpdate t org id name agents rules => (Update t org id name agents rules m).2
  | OpPublish t0 t1 t2 org id author => (Publish signer t0 t1 t2 org id author m).2
  | OpRollback t1 t2 org id hash => (Rollback t1 t2 org id hash m).2
  end.

Lemma exec_ok seed o m :
  sgn_priv signer = NewKeyFromSeed seed -> store_wf (Public (NewKeyFromSeed seed)) m -> step_ok (Public (NewKeyFromSeed seed)) m (exec o m).
Proof using Type*.
  intros Hs W. set (pub := Public (NewKeyFromSeed seed)) in *. destruct o as [id t org name ag rules|t org id name ag rules|t0 t1 t2 org id author|t1 t2 org id hash]; cbn [exec].
  - unfold Create. destruct (String.eqb org ""); [by apply step_refl|]. destruct (String.eqb name ""); [by apply step_refl|].
    unfold rbind, CreatePolicy, pure. cbn [p_OrgID p_ID]. destruct (policies m !! key org id) as [p0|]; [by apply step_refl|]. cbn [snd].
    apply (put_policy_wf pub {| p_ID := id; p_OrgID := org; p_ActiveVersionHash := "" |}); [done|]. done.
  - unfold Update, rbind, reads, GetPolicy, pure. destruct (policies m !! key org id) as [p|] eqn:Ep; [|by apply step_refl].
    destruct (wf_policy _ _ W _ _ Ep) as [Hk Ha]. rewrite <- Hk in Ha.
    match goal with |- context [UpdatePolicy ?q m] => pose proof (UpdatePolicy_ok pub q m W Ha) as Hu; destruct (UpdatePolicy q m) as [[[]|e] m1] end; exact Hu.
  - unfold Publish, rbind, reads, GetPolicy, pure. destruct (policies m !! key org id) as [p|] eqn:Ep; [|by apply step_refl].
    destruct (wf_policy _ _ W _ _ Ep) as [Hk _].
    destruct (Validate _ _ _ _) as [[]|e]; [|by apply step_refl].
    destruct (CanonicalMessage _ _ _ _ _) as [msg|e] eqn:Em; [|by apply step_refl].
    destruct (ContentHash _ _ _ _ _) as [hash|e] eqn:Eh; [|by apply step_refl].
    unfold GetVersion. destruct (seen_of m (key org id) !! hash) as [v|] eqn:Ev.
    + destruct (wf_seen _ _ W _ _ _ Ev) as (Hh & _). apply activate_ok; [done|]. by rewrite Hk, Hh.
    + set (v := {| v_VersionHash := hash |}).
      assert (Hvk : key (v_OrgID v) (v_PolicyID v) = key org id) by exact Hk.
      destruct (PutVersion_ok pub v m W) as (Hput & Hin & _); [by apply signed_version_ok|by rewrite Hvk|].
      destruct (PutVersion v m) as [b m1]. cbn [snd] in *. eapply step_trans; [exact Hput|]. intros W1. by apply activate_ok.
  - unfold Rollback, rbind, reads, GetPolicy, GetVersion, pure, pointOrgBundle. destruct (policies m !! key org id) as [p|] eqn:Ep; [|by apply step_refl].
    destruct (wf_policy _ _ W _ _ Ep) as [Hk _]. destruct (seen_of m (key org id) !! hash) as [v|] eqn:Ev; [|by apply step_refl].
    destruct (wf_seen _ _ W _ _ _ Ev) as (Hh & _).
    match goal with |- context [UpdatePolicy ?q m] => pose proof (UpdatePolicy_ok pub q m W) as Hu; destruct (UpdatePolicy q m) as [[[]|e] m1] end;
      specialize (Hu ltac:(intros _; exists v; cbn; by rewrite Hk, Hh)); cbn [snd] in *; [|done].
    eapply step_trans; [exact Hu|]. intros W1. apply (SetActiveBundle_ok _ _ _ v W1). cbn. destruct Hu as [_ Hkeep]. apply Hkeep. by rewrite Hk, Hh.
Qed.
End props.

Lemma run_ok `{BigRat} `{Unicode} `{Sha256} `{Jcs} `{PolicySchema} `{Ed25519Laws} signer seed ops m :
  sgn_priv signer = NewKeyFromSeed seed -> store_wf (Public (NewKeyFromSeed seed)) m ->
  step_ok (Public (NewKeyFromSeed seed)) m (foldl (fun m o => exec signer o m) m ops).
Proof.
  intros Hs. revert m. induction ops as [|o ops IH]; intros m W; [by apply step_refl|]. cbn.
  eapply step_trans; [by apply (exec_ok signer seed o m Hs W)|]. apply IH.
Qed.

Lemma NewMemStore_wf `{BigRat} `{Unicode} `{Sha256} `{Jcs} `{PolicySchema} `{Ed25519Laws} pub : store_wf pub NewMemStore.
Proof.
  split; try (unfold seen_of; cbn; intros *; by rewrite ?lookup_empty). cbn. intros k. split; [constructor|].
  unfold seen_of. cbn. intros v. rewrite !lookup_empty. cbn. rewrite lookup_empty. split; [by intros ?%not_elem_of_nil|done].
Qed.

Lemma ListVersions_elem `{BigRat} `{Unicode} `{Sha256} `{Jcs} `{PolicySchema} `{Ed25519Laws} pub m org id v :
  store_wf pub m -> v ∈ ListVersions org id m <-> GetVersion org id (v_VersionHash v) m = Ok v.
Proof.
  intros W. unfold ListVersions, GetVersion. rewrite sort_by_elem. rewrite (proj2 (wf_versions _ _ W _)).
  destruct (seen_of m (key org id) !! v_VersionHash v) as [v'|]; split; congruence.
Qed.

(** The control plane never loses or alters a version, and never points at
    one it does not have.  After any calls of the service by any organisations,
    from the empty store: a version found under a hash has that hash, which is
    the hash of its own content, and its signature verifies under the signer's
    key; a policy's active version and an organisation's active bundle resolve;
    the listing has every version exactly once; and any further calls leave
    every version as it is. *)
Theorem policy_versions_sound `{BigRat} `{Unicode} `{Sha256} `{Jcs} `{PolicySchema} `{Ed25519Laws} signer seed ops m
  (Hs : sgn_priv signer = NewKeyFromSeed seed) (Hm : m = foldl (fun m o => exec signer o m) NewMemStore ops) :
  (forall org id h v, GetVersion org id h m = Ok v ->
     v_VersionHash v = h /\ version_ok (Public (NewKeyFromSeed seed)) v /\
     forall ops2, GetVersion org id h (foldl (fun m o => exec signer o m) m ops2) = Ok v) /\
  (forall org id p, GetPolicy org id m = Ok p -> p_ActiveVersionHash p <> "" -> exists v, Active org id m = Ok v /\ v_VersionHash v = p_ActiveVersionHash p) /\
  (forall org b, GetActiveBundle org m = Ok b -> exists v, GetVersion org (b_PolicyID b) (b_VersionHash b) m = Ok v) /\
  (forall org id, NoDup (v_VersionHash <$> ListVersions org id m) /\
                  forall v, v ∈ ListVersions org id m <-> GetVersion org id (v_VersionHash v) m = Ok v).
Proof.
  assert (W : store_wf (Public (NewKeyFromSeed seed)) m) by (subst m; by apply (run_ok signer seed), NewMemStore_wf).
  clear Hm. split_and!.
  - intros org id h v Hv. unfold GetVersion in Hv. destruct (seen_of m (key org id) !! h) as [v'|] eqn:E; [|done]. injection Hv as ->.
    destruct (wf_seen _ _ W _ _ _ E) as (Hh & _ & Hok). split_and!; [done..|]. intros ops2. unfold GetVersion.
    destruct (run_ok signer seed ops2 m Hs W) as [_ Hk]. by rewrite (Hk _ _ _ E).
  - intros org id p Hp Hne. unfold Active. rewrite Hp. cbn [mbind result_bind]. rewrite (proj2 (String.eqb_neq _ _)) by done.
    unfold GetPolicy in Hp. destruct (policies m !! key org id) as [p'|] eqn:E; [|done]. injection Hp as ->.
    destruct (wf_policy _ _ W _ _ E) as [_ Ha]. destruct (Ha Hne) as [v Hv]. exists v. unfold GetVersion. rewrite Hv. split; [done|].
    by destruct (wf_seen _ _ W _ _ _ Hv).
  - intros org b Hb. unfold GetActiveBundle in Hb. destruct (bundles m !! org) as [b'|] eqn:E; [|done]. injection Hb as ->.
    destruct (wf_bundle _ _ W _ _ E) as [_ [v Hv]]. exists v. unfold GetVersion. by rewrite Hv.
  - intros org id. split; [|intros v; by eapply ListVersions_elem].
    unfold ListVersions. rewrite sort_by_perm. apply (wf_versions _ _ W).
Qed.
