(* ===== verification/PolicyPg.v ===== *)
(** The Postgres policy store ([internal/policyctl/postgres.go]) and the service
    over it ([service.go]) when calls interleave.

    The tables [policies], [policy_versions] and [org_active_bundles] are maps
    by their primary keys.  A store call is one statement; a call of the service
    is a thread that makes one store call per step, so calls of any number of
    instances interleave between them.  A statement can be refused, and its
    answer can be lost after it took effect.  [stored] is what a [timestamptz]
    column keeps of an instant. *)

From stdpp Require Import relations.
From S2P Require Import Prelude GoStrings GoTime Contracts Money Predicates Signing Engine PolicyLoad Policyctl Pg.

Record pg_tables := {
  t_policies : gmap string Policy;
  t_versions : gmap string Version;
  t_bundles : gmap string BundleRef
}.

Definition pg_empty : pg_tables := {| t_policies := ∅; t_versions := ∅; t_bundles := ∅ |}.

Definition set_policies (f : gmap string Policy -> gmap string Policy) (t : pg_tables) : pg_tables :=
  {| t_policies := f (t_policies t); t_versions := t_versions t; t_bundles := t_bundles t |}.

(** * What the columns accept *)

Definition policy_fits (p : Policy) : bool :=
  forallb text_ok [p_ID p; p_OrgID p; p_Name p; p_ActiveVersionHash p] && forallb (fun a => jsonb_ok (jstr a)) (p_Agents p) &&
  forallb (fun r => jsonb_ok (Rule_json r)) (p_Rules p) && mem_str (p_Status p) [StatusDraft; StatusPublished].

Definition version_fits (v : Version) : bool :=
  forallb text_ok [v_VersionHash v; v_PolicyID v; v_OrgID v; v_Name v; v_Author v; v_ParentHash v] &&
  forallb (fun a => jsonb_ok (jstr a)) (v_Agents v) && forallb (fun r => jsonb_ok (Rule_json r)) (v_Rules v) &&
  jsonb_ok (JObj [ ("algorithm", jstr (sig_Algorithm (v_Signature v))); ("key_id", jstr (sig_KeyID (v_Signature v)));
                   ("value", jstr (sig_Value (v_Signature v))); ("canonicalization", jstr (sig_Canonicalization (v_Signature v))) ]).

Definition bundle_fits (b : BundleRef) : bool := forallb text_ok [b_OrgID b; b_PolicyID b; b_VersionHash b].

Section store.
Context (stored : time -> time).

Definition stored_policy (p : Policy) : Policy :=
  {| p_ID := p_ID p; p_OrgID := p_OrgID p; p_Name := p_Name p; p_Agents := p_Agents p; p_Rules := p_Rules p; p_Status := p_Status p;
     p_ActiveVersionHash := p_ActiveVersionHash p; p_CreatedAt := stored (p_CreatedAt p); p_UpdatedAt := stored (p_UpdatedAt p) |}.

Definition stored_version (v : Version) : Version :=
  {| v_VersionHash := v_VersionHash v; v_PolicyID := v_PolicyID v; v_OrgID := v_OrgID v; v_Name := v_Name v; v_Agents := v_Agents v;
     v_Rules := v_Rules v; v_Signature := v_Signature v; v_Author := v_Author v; v_ParentHash := v_ParentHash v;
     v_PublishedAt := stored (v_PublishedAt v) |}.

Definition stored_bundle (b : BundleRef) : BundleRef :=
  {| b_OrgID := b_OrgID b; b_PolicyID := b_PolicyID b; b_VersionHash := b_VersionHash b; b_UpdatedAt := stored (b_UpdatedAt b) |}.

(** * The statements *)

(** [ON CONFLICT (id) DO NOTHING RETURNING id]. *)
Definition Pg_CreatePolicy (p : Policy) (t : pg_tables) : result policy_error unit * pg_tables :=
  if negb (policy_fits p) then (Err (StoreFailed "policyctl: insert policy"), t)
  else match t_policies t !! p_ID p with
  | Some _ => (Err ErrPolicyExists, t)
  | None => (Ok tt, set_policies <[p_ID p := stored_policy p]> t)
  end.

Definition Pg_GetPolicy (org id : string) (t : pg_tables) : result policy_error Policy :=
  if negb (text_ok org && text_ok id) then Err (StoreFailed "policyctl: get policy")
  else match t_policies t !! id with
  | Some p => if String.eqb (p_OrgID p) org then Ok p else Err ErrPolicyNotFound
  | None => Err ErrPolicyNotFound
  end.

(** The update leaves the key, the organisation and the creation time. *)
Definition Pg_UpdatePolicy (p : Policy) (t : pg_tables) : result policy_error unit * pg_tables :=
  if negb (policy_fits p) then (Err (StoreFailed "policyctl: update policy"), t)
  else match t_policies t !! p_ID p with
  | Some q =>
    if String.eqb (p_OrgID q) (p_OrgID p) then
      (Ok tt, set_policies <[p_ID p := {| p_ID := p_ID q; p_OrgID := p_OrgID q; p_Name := p_Name p; p_Agents := p_Agents p;
                                          p_Rules := p_Rules p; p_Status := p_Status p; p_ActiveVersionHash := p_ActiveVersionHash p;
                                          p_CreatedAt := p_CreatedAt q; p_UpdatedAt := stored (p_UpdatedAt p) |}]> t)
    else (Err ErrPolicyNotFound, t)
  | None => (Err ErrPolicyNotFound, t)
  end.

(** [scan] is the order the table is read in. *)
Definition Pg_ListPolicies (org : string) (scan : list string) (t : pg_tables) : result policy_error (list Policy) :=
  if negb (text_ok org) then Err (StoreFailed "policyctl: list policies")
  else Ok (sort_by (fun a b => p_UpdatedAt b <=? p_UpdatedAt a)
             (filter (fun p => p_OrgID p = org) (omap (fun id => t_policies t !! id) scan))).

(** [ON CONFLICT (version_hash) DO NOTHING]; the policy is a foreign key. *)
Definition Pg_PutVersion (v : Version) (t : pg_tables) : result policy_error bool * pg_tables :=
  if negb (version_fits v) then (Err (StoreFailed "policyctl: insert version"), t)
  else match t_versions t !! v_VersionHash v with
  | Some _ => (Ok false, t)
  | None =>
    match t_policies t !! v_PolicyID v with
    | None => (Err (StoreFailed "policyctl: insert version"), t)
    | Some _ =>
      (Ok true, {| t_policies := t_policies t; t_versions := <[v_VersionHash v := stored_version v]> (t_versions t); t_bundles := t_bundles t |})
    end
  end.

Definition Pg_GetVersion (org policyID hash : string) (t : pg_tables) : result policy_error Version :=
  if negb (forallb text_ok [org; policyID; hash]) then Err (StoreFailed "policyctl: get version")
  else match t_versions t !! hash with
  | Some v => if String.eqb (v_OrgID v) org && String.eqb (v_PolicyID v) policyID then Ok v else Err ErrVersionNotFound
  | None => Err ErrVersionNotFound
  end.

Definition Pg_ListVersions (org policyID : string) (scan : list string) (t : pg_tables) : result policy_error (list Version) :=
  if negb (text_ok org && text_ok policyID) then Err (StoreFailed "policyctl: list versions")
  else Ok (sort_by (fun a b => v_PublishedAt b <=? v_PublishedAt a)
             (filter (fun v => v_OrgID v = org /\ v_PolicyID v = policyID) (omap (fun h => t_versions t !! h) scan))).

(** An upsert; the policy and the version are foreign keys. *)
Definition Pg_SetActiveBundle (b : BundleRef) (t : pg_tables) : result policy_error unit * pg_tables :=
  match bundle_fits b, t_policies t !! b_PolicyID b, t_versions t !! b_VersionHash b with
  | true, Some _, Some _ =>
    (Ok tt, {| t_policies := t_policies t; t_versions := t_versions t; t_bundles := <[b_OrgID b := stored_bundle b]> (t_bundles t) |})
  | _, _, _ => (Err (StoreFailed "policyctl: set active bundle"), t)
  end.

Definition Pg_GetActiveBundle (org : string) (t : pg_tables) : result policy_error BundleRef :=
  if negb (text_ok org) then Err (StoreFailed "policyctl: get active bundle")
  else match t_bundles t !! org with Some b => Ok b | None => Err ErrBundleNotFound end.

(** What becomes of a call of the store. *)
Definition on_store {A} (f : fault) (s : pg_tables -> result policy_error A * pg_tables) (t : pg_tables) : result policy_error A * pg_tables :=
  match f with
  | Live => s t
  | Refused m => (Err (StoreFailed m), t)
  | Lost m => (Err (StoreFailed m), (s t).2)
  end.

(** * The service's calls as threads *)

Inductive svc_answer := APolicy (r : result policy_error Policy) | AVersion (r : result policy_error Version).

(** Where a call is: the store call it makes next, or done. *)
Inductive svc_pc :=
| CreateInsert (p : Policy)
| UpdateRead (org id name : string) (agents : list string) (rules : list Rule)
| UpdateWrite (p : Policy)
| PublishRead (org id author : string)
| PublishFind (org id author hash msg : string) (p : Policy)
| PublishPut (p : Policy) (v : Version)
| PublishActive (p : Policy) (v : Version)
| PublishBundle (p : Policy) (v : Version)
| RollbackRead (org id hash : string)
| RollbackFind (org id hash : string) (p : Policy)
| RollbackWrite (p : Policy) (v : Version)
| RollbackBundle (p : Policy) (v : Version)
| SvcDone (a : svc_answer).

Context `{BigRat} `{Unicode} `{Sha256} `{Jcs} `{PolicySchema} `{Ed25519} (signer : Signer).

(** Before the first store call; [id] is a fresh id. *)
Definition create_begin (id : string) (now : time) (org name : string) (agents : list string) (rules : list Rule) : svc_pc :=
  if String.eqb org "" then SvcDone (APolicy (Err (ValidationError [{| pb_Pointer := "/org_id"; pb_Detail := "org_id is required" |}])))
  else if String.eqb name "" then SvcDone (APolicy (Err (ValidationError [{| pb_Pointer := "/name"; pb_Detail := "name is required" |}])))
  else CreateInsert {| p_ID := id; p_OrgID := org; p_Name := name; p_Agents := agents; p_Rules := rules; p_Status := StatusDraft;
                       p_ActiveVersionHash := ""; p_CreatedAt := now; p_UpdatedAt := now |}.

Definition edited (now : time) (name : string) (agents : list string) (rules : list Rule) (p : Policy) : Policy :=
  {| p_ID := p_ID p; p_OrgID := p_OrgID p; p_Name := if String.eqb name "" then p_Name p else name; p_Agents := agents; p_Rules := rules;
     p_Status := p_Status p; p_ActiveVersionHash := p_ActiveVersionHash p; p_CreatedAt := p_CreatedAt p; p_UpdatedAt := now |}.

Definition minted (now : time) (hash msg author : string) (p : Policy) : Version :=
  {| v_VersionHash := hash; v_PolicyID := p_ID p; v_OrgID := p_OrgID p; v_Name := p_Name p; v_Agents := p_Agents p; v_Rules := p_Rules p;
     v_Signature := SignDetached signer Canonicalization msg; v_Author := author; v_ParentHash := p_ActiveVersionHash p; v_PublishedAt := now |}.

Definition restored (now : time) (v : Version) (p : Policy) : Policy :=
  {| p_ID := p_ID p; p_OrgID := p_OrgID p; p_Name := v_Name v; p_Agents := v_Agents v; p_Rules := v_Rules v; p_Status := StatusPublished;
     p_ActiveVersionHash := v_VersionHash v; p_CreatedAt := p_CreatedAt p; p_UpdatedAt := now |}.

Definition bundle_of (now : time) (p : Policy) (v : Version) : BundleRef :=
  {| b_OrgID := p_OrgID p; b_PolicyID := p_ID p; b_VersionHash := v_VersionHash v; b_UpdatedAt := now |}.

(** Between reading the working copy and looking for its version. *)
Definition publishable (p : Policy) : result policy_error (string * string) :=
  _ ← Validate (p_OrgID p) (p_Name p) (p_Agents p) (p_Rules p);
  msg ← CanonicalMessage (p_ID p) (p_OrgID p) (p_Name p) (p_Agents p) (p_Rules p);
  hash ← ContentHash (p_ID p) (p_OrgID p) (p_Name p) (p_Agents p) (p_Rules p);
  Ok (msg, hash).

(** One store call of a thread; [now] is what the clock reads beside it. *)
Definition svc_exec (f : fault) (now : time) (th : svc_pc) (t : pg_tables) : svc_pc * pg_tables :=
  match th with
  | CreateInsert p =>
    let '(r, t) := on_store f (Pg_CreatePolicy p) t in (SvcDone (APolicy (_ ← r; Ok p)), t)
  | UpdateRead org id name agents rules =>
    let '(r, t) := on_store f (fun t => (Pg_GetPolicy org id t, t)) t in
    (match r with Ok p => UpdateWrite (edited now name agents rules p) | Err e => SvcDone (APolicy (Err e)) end, t)
  | UpdateWrite p =>
    let '(r, t) := on_store f (Pg_UpdatePolicy p) t in (SvcDone (APolicy (_ ← r; Ok p)), t)
  | PublishRead org id author =>
    let '(r, t) := on_store f (fun t => (Pg_GetPolicy org id t, t)) t in
    (match r with
     | Ok p => match publishable p with Ok (msg, hash) => PublishFind org id author hash msg p | Err e => SvcDone (AVersion (Err e)) end
     | Err e => SvcDone (AVersion (Err e))
     end, t)
  | PublishFind org id author hash msg p =>
    let '(r, t) := on_store f (fun t => (Pg_GetVersion org id hash t, t)) t in
    (match r with
     | Ok existing => PublishActive p existing
     | Err ErrVersionNotFound => PublishPut p (minted now hash msg author p)
     | Err e => SvcDone (AVersion (Err e))
     end, t)
  | PublishPut p v =>
    let '(r, t) := on_store f (Pg_PutVersion v) t in
    (match r with Ok _ => PublishActive p v | Err e => SvcDone (AVersion (Err e)) end, t)
  | PublishActive p v =>
    let '(r, t) := on_store f (Pg_UpdatePolicy (with_active (v_VersionHash v) now p)) t in
    (match r with Ok _ => PublishBundle p v | Err e => SvcDone (AVersion (Err e)) end, t)
  | PublishBundle p v | RollbackBundle p v =>
    let '(r, t) := on_store f (Pg_SetActiveBundle (bundle_of now p v)) t in (SvcDone (AVersion (_ ← r; Ok v)), t)
  | RollbackRead org id hash =>
    let '(r, t) := on_store f (fun t => (Pg_GetPolicy org id t, t)) t in
    (match r with Ok p => RollbackFind org id hash p | Err e => SvcDone (AVersion (Err e)) end, t)
  | RollbackFind org id hash p =>
    let '(r, t) := on_store f (fun t => (Pg_GetVersion org id hash t, t)) t in
    (match r with Ok v => RollbackWrite p v | Err e => SvcDone (AVersion (Err e)) end, t)
  | RollbackWrite p v =>
    let '(r, t) := on_store f (Pg_UpdatePolicy (restored now v p)) t in
    (match r with Ok _ => RollbackBundle p v | Err e => SvcDone (AVersion (Err e)) end, t)
  | SvcDone a => (SvcDone a, t)
  end.

(** Calls that only read, with early return. *)
Definition Pg_Active (org id : string) (t : pg_tables) : result policy_error Version :=
  p ← Pg_GetPolicy org id t;
  if String.eqb (p_ActiveVersionHash p) "" then Err ErrVersionNotFound else Pg_GetVersion org id (p_ActiveVersionHash p) t.

(** * Many calls *)

Record svc_system := { ss_tables : pg_tables; ss_threads : list svc_pc }.

Definition svc_start (th : svc_pc) : Prop :=
  match th with
  | UpdateRead _ _ _ _ _ | PublishRead _ _ _ | RollbackRead _ _ _ => True
  | CreateInsert p => exists id now org name agents rules, create_begin id now org name agents rules = CreateInsert p
  | _ => False
  end.

(** The message a thread is about to publish. *)
Definition publishes (th : svc_pc) : list string := match th with PublishFind _ _ _ _ msg _ => [msg] | _ => [] end.

(** [M] are the messages that are ever published. *)
Context (M : string -> Prop).

Inductive svc_step : svc_system -> svc_system -> Prop :=
| ss_call th t ths : svc_start th ->
    svc_step {| ss_tables := t; ss_threads := ths |} {| ss_tables := t; ss_threads := th :: ths |}
| ss_exec f now ths1 th ths2 t :
    Forall M (publishes (svc_exec f now th t).1) ->
    svc_step {| ss_tables := t; ss_threads := ths1 ++ th :: ths2 |}
             {| ss_tables := (svc_exec f now th t).2; ss_threads := ths1 ++ (svc_exec f now th t).1 :: ths2 |}.
End store.
