(* ===== verification/PolicyPgProps.v ===== *)
(** What the Postgres policy store guarantees: whatever calls of the service
    interleave and fail, versions are immutable, content-addressed and signed
    and no pointer dangles; and each store call answers as the in-memory store
    does. *)

From stdpp Require Import relations.
From S2P Require Import Prelude GoStrings GoTime Contracts Money Predicates Signing Engine PolicyLoad Policyctl PolicyctlProps Pg PolicyPg.

Section props.
Context `{BigRat} `{Unicode} `{Sha256} `{JcsLaws} `{PolicySchema} `{Ed25519Laws} (stored : time -> time) (signer : Signer) (pub : string).
(** The messages ever published, on which the hash does not collide. *)
Context (M : string -> Prop) (M_inj : forall x y, M x -> M y -> sha256 x = sha256 y -> x = y).

(** * The invariant *)

Definition known_policy (t : pg_tables) (id org : string) : Prop := exists q, t_policies t !! id = Some q /\ p_OrgID q = org.

(** A version of a policy under a hash. *)
Definition known_version (t : pg_tables) (hash id org : string) : Prop :=
  exists v, t_versions t !! hash = Some v /\ v_PolicyID v = id /\ v_OrgID v = org.

Definition version_msg (v : Version) (msg : string) : Prop :=
  CanonicalMessage (v_PolicyID v) (v_OrgID v) (v_Name v) (v_Agents v) (v_Rules v) = Ok msg /\ M msg.

Definition version_row_ok (t : pg_tables) (h : string) (v : Version) : Prop :=
  v_VersionHash v = h /\ version_ok pub v /\ (exists msg, version_msg v msg) /\ known_policy t (v_PolicyID v) (v_OrgID v) /\
  forallb text_ok [h; v_PolicyID v; v_OrgID v] = true.

Definition active_ok (t : pg_tables) (p : Policy) : Prop :=
  p_ActiveVersionHash p <> "" -> known_version t (p_ActiveVersionHash p) (p_ID p) (p_OrgID p).

Record tables_ok (t : pg_tables) : Prop := {
  tok_policy id p : t_policies t !! id = Some p -> p_ID p = id /\ active_ok t p;
  tok_version h v : t_versions t !! h = Some v -> version_row_ok t h v;
  tok_bundle org b : t_bundles t !! org = Some b -> b_OrgID b = org /\ known_version t (b_VersionHash b) (b_PolicyID b) org
}.

(** Versions stay as they are, policies stay with their organisation. *)
Definition grows (t t' : pg_tables) : Prop :=
  (forall h v, t_versions t !! h = Some v -> t_versions t' !! h = Some v) /\
  (forall id org, known_policy t id org -> known_policy t' id org).

Lemma grows_refl t : grows t t.
Proof using Type. done. Qed.

Lemma grows_trans t1 t2 t3 : grows t1 t2 -> grows t2 t3 -> grows t1 t3.
Proof using Type. intros [Ha1 Ha2] [Hb1 Hb2]. split; eauto. Qed.

Lemma known_version_grows t t' h id org : grows t t' -> known_version t h id org -> known_version t' h id org.
Proof using Type. intros [Hv _] (v & Hh & ?). exists v. eauto. Qed.

Lemma active_ok_grows t t' p : grows t t' -> active_ok t p -> active_ok t' p.
Proof using Type. intros Hg Ha Hne. eauto using known_version_grows. Qed.

Lemma version_row_grows t t' h v : grows t t' -> version_row_ok t h v -> version_row_ok t' h v.
Proof using Type. intros [_ Hp] (? & ? & ? & ? & ?). split_and!; eauto. Qed.

(** * The statements keep it *)

Definition keeps (t t' : pg_tables) : Prop := tables_ok t' /\ grows t t'.

Lemma put_policy_keeps t p :
  tables_ok t -> active_ok t p -> (forall q, t_policies t !! p_ID p = Some q -> p_OrgID q = p_OrgID p) -> keeps t (set_policies <[p_ID p := p]> t).
Proof using Type.
  intros W Ha Ho. assert (Hg : grows t (set_policies <[p_ID p := p]> t)).
  { split; [done|]. intros id org (q & Hq & Hqo). unfold known_policy. cbn. destruct (decide (id = p_ID p)) as [->|Hne].
    - exists p. rewrite lookup_insert_eq. split; [done|]. by rewrite <- (Ho q Hq).
    - exists q. by rewrite lookup_insert_ne. }
  split; [|done]. split.
  - cbn. intros id q Hq. destruct (decide (id = p_ID p)) as [->|Hne].
    + rewrite lookup_insert_eq in Hq. injection Hq as <-. split; [done|]. by eapply active_ok_grows.
    + rewrite lookup_insert_ne in Hq by done. destruct (tok_policy _ W _ _ Hq) as [? ?]. split; [done|]. by eapply active_ok_grows.
  - intros h v Hv. eapply version_row_grows; [done|]. by apply (tok_version _ W).
  - intros org b Hb. destruct (tok_bundle _ W _ _ Hb) as [? ?]. split; [done|]. by eapply known_version_grows.
Qed.

Lemma create_keeps t p : tables_ok t -> p_ActiveVersionHash p = "" -> keeps t (Pg_CreatePolicy stored p t).2.
Proof using Type.
  intros W Ha. unfold Pg_CreatePolicy. destruct (negb _); [by split|]. destruct (t_policies t !! p_ID p) as [q|] eqn:E; [by split|].
  apply (put_policy_keeps t (stored_policy stored p)); [done | by intros Hne | cbn; congruence].
Qed.

Lemma update_keeps t p : tables_ok t -> active_ok t p -> keeps t (Pg_UpdatePolicy stored p t).2.
Proof using Type.
  intros W Ha. unfold Pg_UpdatePolicy. destruct (negb _); [by split|]. destruct (t_policies t !! p_ID p) as [q|] eqn:E; [|by split].
  destruct (String.eqb_spec (p_OrgID q) (p_OrgID p)) as [Ho|]; [|by split]. destruct (tok_policy _ W _ _ E) as [Hid _]. cbn [snd].
  match goal with |- keeps t (set_policies <[_ := ?r]> t) => pose proof (put_policy_keeps t r W) as Hk end. cbn [p_ID p_OrgID p_ActiveVersionHash] in Hk. rewrite Hid in Hk.
  rewrite Hid. apply Hk; [|intros q' Hq'; congruence]. unfold active_ok in *. cbn. by rewrite Ho.
Qed.

Lemma put_keeps t v msg : tables_ok t -> version_ok pub v -> version_msg v msg -> known_policy t (v_PolicyID v) (v_OrgID v) -> keeps t (Pg_PutVersion stored v t).2.
Proof using Type.
  intros W Hok Hm Hp. unfold Pg_PutVersion. destruct (version_fits v) eqn:Hf; cbn [negb]; [|by split].
  destruct (t_versions t !! v_VersionHash v) as [v0|] eqn:Ev; [by split|]. destruct (t_policies t !! v_PolicyID v) as [q|] eqn:Eq; [|by split]. cbn [snd].
  set (t' := {| t_policies := _ |}). assert (Hg : grows t t').
  { split; [|done]. intros h v' Hv'. cbn. rewrite lookup_insert_ne by congruence. done. }
  split; [|done]. split.
  - intros id p Hpq. destruct (tok_policy _ W _ _ Hpq) as [? ?]. split; [done|]. by eapply active_ok_grows.
  - cbn. intros h v' Hv'. destruct (decide (h = v_VersionHash v)) as [->|Hne].
    + rewrite lookup_insert_eq in Hv'. injection Hv' as <-. split_and!; [done | exact Hok | by exists msg | done|].
      unfold version_fits in Hf. cbn [forallb] in Hf |- *. cbn [stored_version v_PolicyID v_OrgID].
      destruct (text_ok (v_VersionHash v)); [|done]. destruct (text_ok (v_PolicyID v)); [|done]. by destruct (text_ok (v_OrgID v)).
    + rewrite lookup_insert_ne in Hv' by done. eapply version_row_grows; [done|]. by apply (tok_version _ W).
  - intros org b Hb. destruct (tok_bundle _ W _ _ Hb) as [? ?]. split; [done|]. by eapply known_version_grows.
Qed.

Lemma bundle_keeps t b : tables_ok t -> known_version t (b_VersionHash b) (b_PolicyID b) (b_OrgID b) -> keeps t (Pg_SetActiveBundle stored b t).2.
Proof using Type.
  intros W Hv. unfold Pg_SetActiveBundle. destruct (bundle_fits b); [|by split]. destruct (t_policies t !! b_PolicyID b); [|by split].
  destruct (t_versions t !! b_VersionHash b); [|by split]. cbn [snd]. split; [|done]. split; try apply W. cbn. intros org b' Hb.
  destruct (decide (org = b_OrgID b)) as [->|Hne].
  - rewrite lookup_insert_eq in Hb. by injection Hb as <-.
  - rewrite lookup_insert_ne in Hb by done. by apply (tok_bundle _ W).
Qed.

(** A version answered as stored, or as already there, is there for its policy. *)
Lemma put_known t v msg created t' :
  tables_ok t -> version_ok pub v -> version_msg v msg -> known_policy t (v_PolicyID v) (v_OrgID v) -> Pg_PutVersion stored v t = (Ok created, t') -> known_version t' (v_VersionHash v) (v_PolicyID v) (v_OrgID v).
Proof using All.
  intros W Hok [Hm HM] (qv & Hqv & Hov) E. unfold Pg_PutVersion in E. destruct (version_fits v) eqn:Hf; cbn [negb] in E; [|done].
  assert (Hp : text_ok (v_PolicyID v) = true).
  { unfold version_fits in Hf. cbn [forallb] in Hf. destruct (text_ok (v_VersionHash v)); [|done]. by destruct (text_ok (v_PolicyID v)). }
  destruct (t_versions t !! v_VersionHash v) as [v0|] eqn:Ev.
  - injection E as <- <-. destruct (tok_version _ W _ _ Ev) as (Hh0 & [Hc0 _] & (msg0 & Hm0 & HM0) & (q0 & Hq0 & Ho0) & Ht0). exists v0.
    split; [done|]. assert (msg0 = msg) as ->.
    { apply M_inj; [done..|]. destruct Hok as [Hc _]. unfold ContentHash in Hc, Hc0. rewrite Hm in Hc. rewrite Hm0 in Hc0. cbn in Hc, Hc0.
      rewrite Hh0 in Hc0. apply hex_encode_inj. rewrite <- Hc in Hc0. by injection Hc0. }
    assert (Hid : v_PolicyID v0 = v_PolicyID v).
    { unfold CanonicalMessage in Hm, Hm0. destruct (canon _) as [c|] eqn:Ec in Hm; [|done]. destruct (canon _) as [c0|] eqn:Ec0 in Hm0; [|done].
      assert (c0 = c) by congruence. subst c0. unfold policy_signedView, jstr in Ec, Ec0.
      assert (Hv : to_valid (v_PolicyID v) = v_PolicyID v) by (unfold text_ok in Hp; by apply andb_true_iff in Hp as [_ Hp%String.eqb_eq]).
      assert (Hv0 : to_valid (v_PolicyID v0) = v_PolicyID v0).
      { cbn [forallb] in Ht0. destruct (text_ok (v_VersionHash v)); [|done]. destruct (text_ok (v_PolicyID v0)) eqn:Ht; [|done].
        unfold text_ok in Ht. by apply andb_true_iff in Ht as [_ Ht%String.eqb_eq]. }
      rewrite Hv in Ec. rewrite Hv0 in Ec0. apply (canon_member _ _ _ _ _ _ Ec0 Ec); [set_solver|set_solver|done|done]. }
    split; [done|]. rewrite Hid in Hq0. congruence.
  - destruct (t_policies t !! v_PolicyID v) as [q|] eqn:Eq; [|done]. injection E as <- <-. exists (stored_version stored v). cbn. by rewrite lookup_insert_eq.
Qed.

(** * The threads *)

Definition version_of (t : pg_tables) (p : Policy) (v : Version) : Prop :=
  v_PolicyID v = p_ID p /\ v_OrgID v = p_OrgID p /\ known_version t (v_VersionHash v) (p_ID p) (p_OrgID p).

Definition thread_ok (t : pg_tables) (th : svc_pc) : Prop :=
  match th with
  | CreateInsert p => p_ActiveVersionHash p = ""
  | UpdateWrite p => active_ok t p
  | PublishFind org id _ hash msg p =>
    known_policy t (p_ID p) (p_OrgID p) /\ p_OrgID p = org /\ p_ID p = id /\
    CanonicalMessage (p_ID p) (p_OrgID p) (p_Name p) (p_Agents p) (p_Rules p) = Ok msg /\ M msg /\
    ContentHash (p_ID p) (p_OrgID p) (p_Name p) (p_Agents p) (p_Rules p) = Ok hash
  | PublishPut p v =>
    known_policy t (p_ID p) (p_OrgID p) /\ version_ok pub v /\ (exists msg, version_msg v msg) /\ v_PolicyID v = p_ID p /\ v_OrgID v = p_OrgID p
  | PublishActive p v | PublishBundle p v | RollbackWrite p v | RollbackBundle p v => version_of t p v
  | RollbackFind org id _ p => p_OrgID p = org /\ p_ID p = id
  | SvcDone (AVersion (Ok v)) => known_version t (v_VersionHash v) (v_PolicyID v) (v_OrgID v)
  | _ => True
  end.

Lemma version_of_grows t t' p v : grows t t' -> version_of t p v -> version_of t' p v.
Proof using Type. intros Hg (? & ? & ?). split_and!; eauto using known_version_grows. Qed.

Lemma thread_ok_grows t t' th : grows t t' -> thread_ok t th -> thread_ok t' th.
Proof using Type.
  intros Hg. pose proof Hg as [_ Hp]. destruct th as [p|org id name ag ru|p|org id au|org id au h m p|p v|p v|p v|org id h|org id h p|p v|p v|[r|[v|e]]];
    cbn [thread_ok]; try done; try (by apply version_of_grows); try (by apply active_ok_grows); try (by apply known_version_grows).
  - intros (? & ?). split; [by apply Hp|done].
  - intros (? & ?). split; [by apply Hp|done].
Qed.

Lemma on_store_cases {A} f (s : pg_tables -> result policy_error A * pg_tables) t r t' :
  on_store f s t = (r, t') -> (t' = t \/ t' = (s t).2) /\ (forall a, r = Ok a -> s t = (Ok a, t')).
Proof using Type. destruct f as [|m|m]; cbn; [intros ->; split; [by right | by intros a ->]| |]; intros [= <- <-]; (split; [auto|done]). Qed.

Lemma on_store_read {A} f (g : pg_tables -> result policy_error A) t r t' :
  on_store f (fun t => (g t, t)) t = (r, t') -> t' = t /\ forall a, r = Ok a -> g t = Ok a.
Proof using Type. intros E. apply on_store_cases in E as [Ht Hr]. cbn in *. split; [by destruct Ht|]. intros a Ha. specialize (Hr a Ha). congruence. Qed.

Lemma get_policy_known t org id p : tables_ok t -> Pg_GetPolicy org id t = Ok p -> p_ID p = id /\ p_OrgID p = org /\ known_policy t id org /\ active_ok t p.
Proof using Type.
  intros W. unfold Pg_GetPolicy. destruct (negb _); [done|]. destruct (t_policies t !! id) as [q|] eqn:E; [|done].
  destruct (String.eqb_spec (p_OrgID q) org) as [Ho|]; [|done]. intros [= ->]. destruct (tok_policy _ W _ _ E) as [? ?]. split_and!; [done..| |done]. by exists p.
Qed.

Lemma get_version_known t org id h v :
  tables_ok t -> Pg_GetVersion org id h t = Ok v -> v_VersionHash v = h /\ v_PolicyID v = id /\ v_OrgID v = org /\ known_version t h id org.
Proof using Type.
  intros W. unfold Pg_GetVersion. destruct (negb _); [done|]. destruct (t_versions t !! h) as [q|] eqn:E; [|done].
  destruct (String.eqb_spec (v_OrgID q) org) as [Ho|]; [|done]. destruct (String.eqb_spec (v_PolicyID q) id) as [Hi|]; [|done]. cbn. intros [= ->].
  destruct (tok_version _ W _ _ E) as [? _]. split_and!; [done..|]. by exists v.
Qed.

Context (seed : string) (Hseed : sgn_priv signer = NewKeyFromSeed seed) (Hpub : pub = Public (NewKeyFromSeed seed)).

Ltac stay W := split; [by split|].

(** One store call of a thread. *)
Lemma svc_exec_ok f now th t :
  tables_ok t -> thread_ok t th -> Forall M (publishes (svc_exec stored signer f now th t).1) ->
  keeps t (svc_exec stored signer f now th t).2 /\ thread_ok (svc_exec stored signer f now th t).2 (svc_exec stored signer f now th t).1.
Proof using All.
  intros W Hth. destruct th as [p|org id name ag ru|p|org id au|org id au h m p|p v|p v|p v|org id h|org id h p|p v|p v|a]; cbn [svc_exec thread_ok] in *.
  - destruct (on_store f (Pg_CreatePolicy stored p) t) as [r t'] eqn:E. apply on_store_cases in E as [Ht _]. cbn [fst snd]. intros _. split; [|done].
    destruct Ht as [-> | ->]; [by split|by apply create_keeps].
  - destruct (on_store _ _ t) as [r t'] eqn:E. apply on_store_read in E as [-> Hr]. cbn [fst snd]. intros _. stay W. destruct r as [p|e]; [|done].
    destruct (get_policy_known _ _ _ _ W (Hr p eq_refl)) as (? & ? & ? & Ha). exact Ha.
  - destruct (on_store f (Pg_UpdatePolicy stored p) t) as [r t'] eqn:E. apply on_store_cases in E as [Ht _]. cbn [fst snd]. intros _. split; [|done].
    destruct Ht as [-> | ->]; [by split|by apply update_keeps].
  - destruct (on_store _ _ t) as [r t'] eqn:E. apply on_store_read in E as [-> Hr]. cbn [fst snd]. destruct r as [p|e]; [|intros _; by stay W].
    destruct (get_policy_known _ _ _ _ W (Hr p eq_refl)) as (<- & <- & Hk & Ha). destruct (publishable p) as [[msg hash]|e] eqn:Ep; intros HM; stay W; [|done].
    unfold publishable in Ep. destruct (Validate _ _ _ _); [|done]. cbn [mbind result_bind] in Ep.
    destruct (CanonicalMessage _ _ _ _ _) as [msg'|] eqn:Em; [|done]. cbn [mbind result_bind] in Ep. destruct (ContentHash _ _ _ _ _) as [hash'|] eqn:Eh; [|done].
    injection Ep as -> ->. cbn [publishes] in HM. apply Forall_cons_iff in HM as [HM _]. cbn. by split_and!.
  - destruct (on_store _ _ t) as [r t'] eqn:E. apply on_store_read in E as [-> Hr]. cbn [fst snd]. intros _. destruct Hth as (Hk & <- & <- & Hm & HM & Hh). destruct r as [v|e].
    + destruct (get_version_known _ _ _ _ _ W (Hr v eq_refl)) as (Hvh & ? & ? & Hkv). stay W. cbn. split_and!; try done. by rewrite Hvh.
    + destruct e; try (by stay W). stay W. cbn. split_and!; try done; [|by exists m]. rewrite Hpub. by apply signed_version_ok.
  - destruct (on_store f (Pg_PutVersion stored v) t) as [r t'] eqn:E. apply on_store_cases in E as [Ht Hr]. cbn [fst snd]. intros _.
    destruct Hth as (Hk & Hok & (msg & Hmsg) & Hi & Ho). rewrite <- Hi, <- Ho in Hk. split; [destruct Ht as [-> | ->]; [by split|by eapply put_keeps]|].
    destruct r as [c|e]; [|done]. pose proof (put_known _ _ _ _ _ W Hok Hmsg Hk (Hr c eq_refl)) as Hkv. cbn. split_and!; try done. by rewrite <- Hi, <- Ho.
  - destruct (on_store f _ t) as [r t'] eqn:E. apply on_store_cases in E as [Ht _]. cbn [fst snd]. intros _.
    assert (Hkeep : keeps t t') by (destruct Ht as [-> | ->]; [by split|]; apply update_keeps; [done|]; intros _; apply Hth).
    split; [done|]. destruct r as [[]|e]; [|done]. eapply version_of_grows; [apply Hkeep|exact Hth].
  - destruct (on_store f _ t) as [r t'] eqn:E. apply on_store_cases in E as [Ht _]. cbn [fst snd]. intros _.
    assert (Hkeep : keeps t t') by (destruct Ht as [-> | ->]; [by split|]; apply bundle_keeps; [done|]; apply Hth).
    split; [done|]. destruct r as [[]|e]; [|done]. destruct Hth as (Hi & Ho & Hv). cbn. rewrite Hi, Ho. eapply known_version_grows; [apply Hkeep|exact Hv].
  - destruct (on_store _ _ t) as [r t'] eqn:E. apply on_store_read in E as [-> Hr]. cbn [fst snd]. intros _. stay W. destruct r as [p|e]; [|done].
    by destruct (get_policy_known _ _ _ _ W (Hr p eq_refl)) as (? & ? & _).
  - destruct (on_store _ _ t) as [r t'] eqn:E. apply on_store_read in E as [-> Hr]. cbn [fst snd]. intros _. stay W. destruct r as [v|e]; [|done].
    destruct (get_version_known _ _ _ _ _ W (Hr v eq_refl)) as (Hvh & ? & ? & Hkv). destruct Hth as [<- <-]. cbn. split_and!; try done. by rewrite Hvh.
  - destruct (on_store f _ t) as [r t'] eqn:E. apply on_store_cases in E as [Ht _]. cbn [fst snd]. intros _.
    assert (Hkeep : keeps t t') by (destruct Ht as [-> | ->]; [by split|]; apply update_keeps; [done|]; intros _; apply Hth).
    split; [done|]. destruct r as [[]|e]; [|done]. eapply version_of_grows; [apply Hkeep|exact Hth].
  - destruct (on_store f _ t) as [r t'] eqn:E. apply on_store_cases in E as [Ht _]. cbn [fst snd]. intros _.
    assert (Hkeep : keeps t t') by (destruct Ht as [-> | ->]; [by split|]; apply bundle_keeps; [done|]; apply Hth).
    split; [done|]. destruct r as [[]|e]; [|done]. destruct Hth as (Hi & Ho & Hv). cbn. rewrite Hi, Ho. eapply known_version_grows; [apply Hkeep|exact Hv].
  - intros _. by split.
Qed.

Abbreviation step := (svc_step stored signer M).

Definition system_ok (s : svc_system) : Prop := tables_ok (ss_tables s) /\ Forall (thread_ok (ss_tables s)) (ss_threads s).

Lemma svc_step_ok s s' : system_ok s -> step s s' -> system_ok s' /\ grows (ss_tables s) (ss_tables s').
Proof using All.
  intros [W Hth] Hs. destruct Hs as [th t ths Hst|f now ths1 th ths2 t HM]; unfold system_ok; cbn [ss_tables ss_threads] in *.
  - split; [|done]. split; [done|]. constructor; [|done]. destruct th; try done. destruct Hst as (id & t0 & org & name & ag & ru & E).
    unfold create_begin in E. destruct (String.eqb org ""); [done|]. destruct (String.eqb name ""); [done|]. by injection E as <-.
  - rewrite Forall_app, Forall_cons_iff in Hth. destruct Hth as (Hl1 & Ht & Hl2). destruct (svc_exec_ok f now th t W Ht HM) as [[W' Hg] Ht'].
    split; [|done]. split; [done|]. rewrite Forall_app, Forall_cons_iff. split_and!; [|done|]; (eapply list.Forall_impl; [eassumption|]); intros o; by apply thread_ok_grows.
Qed.

Lemma svc_steps_ok s s' : system_ok s -> rtc step s s' -> system_ok s' /\ grows (ss_tables s) (ss_tables s').
Proof using All.
  intros Hok Hs. induction Hs as [s|s s1 s2 Hstep _ IH]; [done|]. destruct (svc_step_ok _ _ Hok Hstep) as [Hok1 Hg].
  destruct (IH Hok1) as [Hok2 Hg2]. split; [done|]. by eapply grows_trans.
Qed.

Lemma init_system_ok : system_ok {| ss_tables := pg_empty; ss_threads := [] |}.
Proof using Type. split; [|constructor]. split; cbn; intros *; by rewrite lookup_empty. Qed.

(** A version that is known resolves. *)
Lemma known_resolves t h id org : tables_ok t -> known_version t h id org -> exists v, Pg_GetVersion org id h t = Ok v /\ v_VersionHash v = h.
Proof using Type.
  intros W (v & Hv & Hi & Ho). destruct (tok_version _ W _ _ Hv) as (Hh & _ & _ & _ & Ht). exists v. split; [|done]. unfold Pg_GetVersion.
  cbn [forallb] in Ht |- *. rewrite Hi, Ho in Ht. destruct (text_ok h); [|done]. destruct (text_ok id); [|done]. destruct (text_ok org); [|done].
  cbn. by rewrite Hv, Hi, Ho, !String.eqb_refl.
Qed.

(** C27: Over Postgres, whatever calls of the service run at once, are refused or
    lose their answers between two of their statements: a version row has the
    hash of its own content and a signature that verifies, and never changes; a
    policy's active version and an organisation's active bundle resolve to a
    version of that policy and organisation; and the version of an answered
    publish or rollback is there. *)
Theorem pg_policies_sound s (Hr : rtc step {| ss_tables := pg_empty; ss_threads := [] |} s) :
  (forall h v, t_versions (ss_tables s) !! h = Some v -> v_VersionHash v = h /\ version_ok pub v /\
     forall s', rtc step s s' -> t_versions (ss_tables s') !! h = Some v) /\
  (forall org id p, Pg_GetPolicy org id (ss_tables s) = Ok p -> p_ActiveVersionHash p <> "" ->
     exists v, Pg_Active org id (ss_tables s) = Ok v /\ v_VersionHash v = p_ActiveVersionHash p) /\
  (forall org b, Pg_GetActiveBundle org (ss_tables s) = Ok b -> exists v, Pg_GetVersion org (b_PolicyID b) (b_VersionHash b) (ss_tables s) = Ok v) /\
  (forall v, SvcDone (AVersion (Ok v)) ∈ ss_threads s -> exists v', Pg_GetVersion (v_OrgID v) (v_PolicyID v) (v_VersionHash v) (ss_tables s) = Ok v').
Proof using All.
  destruct (svc_steps_ok _ _ init_system_ok Hr) as [[W Hth] _]. split_and!.
  - intros h v Hv. destruct (tok_version _ W _ _ Hv) as (Hh & Hok & _). split_and!; [done..|]. intros s' Hs'.
    destruct (svc_steps_ok s s' (conj W Hth) Hs') as [_ [Hg _]]. by apply Hg.
  - intros org id p Hp Hne. destruct (get_policy_known _ _ _ _ W Hp) as (Hi & Ho & _ & Ha). unfold Pg_Active. rewrite Hp. cbn [mbind result_bind].
    rewrite (proj2 (String.eqb_neq _ _)) by done. rewrite <- Hi, <- Ho. by apply known_resolves, Ha.
  - intros org b Hb. unfold Pg_GetActiveBundle in Hb. destruct (negb _); [done|]. destruct (t_bundles (ss_tables s) !! org) as [b'|] eqn:E; [|done].
    injection Hb as ->. destruct (tok_bundle _ W _ _ E) as [_ Hk]. destruct (known_resolves _ _ _ _ W Hk) as (v & Hv & _). by exists v.
  - intros v Hin. rewrite list.Forall_forall in Hth. specialize (Hth _ Hin). cbn in Hth. destruct (known_resolves _ _ _ _ W Hth) as (v' & Hv' & _). by exists v'.
Qed.
End props.

(** * The store against the in-memory store *)

(** One call of a store.  [scan] is the order in which Postgres reads the table. *)
Inductive store_op :=
| SCreate (p : Policy)
| SUpdate (p : Policy)
| SGet (org id : string)
| SList (org : string) (scan : list string)
| SPut (v : Version)
| SGetVersion (org id hash : string)
| SListVersions (org id : string) (scan : list string)
| SBundle (b : BundleRef)
| SGetBundle (org : string).

Inductive store_answer :=
| RUnit (r : result policy_error unit)
| RPolicy (r : result policy_error Policy)
| RPolicies (r : result policy_error (list Policy))
| RBool (r : result policy_error bool)
| RVersion (r : result policy_error Version)
| RVersions (r : result policy_error (list Version))
| RBundle (r : result policy_error BundleRef).

Definition mem_op (o : store_op) (m : MemStore) : store_answer * MemStore :=
  match o with
  | SCreate p => let '(r, m) := CreatePolicy p m in (RUnit r, m)
  | SUpdate p => let '(r, m) := UpdatePolicy p m in (RUnit r, m)
  | SGet org id => (RPolicy (GetPolicy org id m), m)
  | SList org _ => (RPolicies (Ok (ListPolicies org m)), m)
  | SPut v => let '(b, m) := PutVersion v m in (RBool (Ok b), m)
  | SGetVersion org id h => (RVersion (GetVersion org id h m), m)
  | SListVersions org id _ => (RVersions (Ok (ListVersions org id m)), m)
  | SBundle b => (RUnit (Ok tt), SetActiveBundle b m)
  | SGetBundle org => (RBundle (GetActiveBundle org m), m)
  end.

Definition pg_op (stored : time -> time) (o : store_op) (t : pg_tables) : store_answer * pg_tables :=
  match o with
  | SCreate p => let '(r, t) := Pg_CreatePolicy stored p t in (RUnit r, t)
  | SUpdate p => let '(r, t) := Pg_UpdatePolicy stored p t in (RUnit r, t)
  | SGet org id => (RPolicy (Pg_GetPolicy org id t), t)
  | SList org scan => (RPolicies (Pg_ListPolicies org scan t), t)
  | SPut v => let '(r, t) := Pg_PutVersion stored v t in (RBool r, t)
  | SGetVersion org id h => (RVersion (Pg_GetVersion org id h t), t)
  | SListVersions org id scan => (RVersions (Pg_ListVersions org id scan t), t)
  | SBundle b => let '(r, t) := Pg_SetActiveBundle stored b t in (RUnit r, t)
  | SGetBundle org => (RBundle (Pg_GetActiveBundle org t), t)
  end.

(** The answers of a sequence of calls. *)
Fixpoint run_ops {S} (op : store_op -> S -> store_answer * S) (os : list store_op) (s : S) : list store_answer * S :=
  match os with
  | [] => ([], s)
  | o :: os => let '(a, s) := op o s in let '(answers, s) := run_ops op os s in (a :: answers, s)
  end.

(** Two listings of the same rows, each newest first: equal up to the order of
    rows of the same instant, which neither store promises. *)
Definition same_listing {A} (at_ : A -> time) (l1 l2 : list A) : Prop :=
  l1 ≡ₚ l2 /\ StronglySorted (fun a b => at_ b <= at_ a) l1 /\ StronglySorted (fun a b => at_ b <= at_ a) l2.

(** The same answer, but for that order. *)
Definition same_answer (a b : store_answer) : Prop :=
  match a, b with
  | RPolicies (Ok l1), RPolicies (Ok l2) => same_listing p_UpdatedAt l1 l2
  | RVersions (Ok l1), RVersions (Ok l2) => same_listing v_PublishedAt l1 l2
  | _, _ => a = b
  end.

(** Every row of the table, once. *)
Definition full_scan {A} (scan : list string) (table : gmap string A) : Prop :=
  NoDup scan /\ forall id, is_Some (table !! id) -> id ∈ scan.

(** No separator: the in-memory store joins keys with it. *)
Definition clean (s : string) : Prop := no_char "|" s = true.

Section refinement.
Context (stored : time -> time).

(** What a call must meet for the stores to agree: texts that fit the columns,
    times that the columns keep, organisations without the separator, ids and
    hashes that no other organisation or policy uses, foreign keys that exist. *)
Definition op_fits (o : store_op) (t : pg_tables) : Prop :=
  match o with
  | SCreate p =>
    policy_fits p = true /\ clean (p_OrgID p) /\ stored_policy stored p = p /\ (forall q, t_policies t !! p_ID p = Some q -> p_OrgID q = p_OrgID p)
  | SUpdate p =>
    policy_fits p = true /\ clean (p_OrgID p) /\ stored_policy stored p = p /\
    (forall q, t_policies t !! p_ID p = Some q -> p_OrgID q = p_OrgID p -> p_CreatedAt q = p_CreatedAt p)
  | SGet org id => text_ok org && text_ok id = true /\ clean org
  | SList org scan => text_ok org = true /\ clean org /\ full_scan scan (t_policies t)
  | SPut v =>
    version_fits v = true /\ clean (v_OrgID v) /\ stored_version stored v = v /\ is_Some (t_policies t !! v_PolicyID v) /\
    (forall u, t_versions t !! v_VersionHash v = Some u -> v_OrgID u = v_OrgID v /\ v_PolicyID u = v_PolicyID v)
  | SGetVersion org id h => forallb text_ok [org; id; h] = true /\ clean org
  | SListVersions org id scan => text_ok org && text_ok id = true /\ clean org /\ full_scan scan (t_versions t)
  | SBundle b =>
    bundle_fits b = true /\ stored_bundle stored b = b /\ is_Some (t_policies t !! b_PolicyID b) /\ is_Some (t_versions t !! b_VersionHash b)
  | SGetBundle org => text_ok org = true
  end.

Fixpoint all_fit (os : list store_op) (t : pg_tables) : Prop :=
  match os with [] => True | o :: os => op_fits o t /\ all_fit os (pg_op stored o t).2 end.

(** The same content. *)
Record same_store (t : pg_tables) (m : MemStore) : Prop := {
  sm_policy id p : t_policies t !! id = Some p -> p_ID p = id /\ clean (p_OrgID p) /\ policies m !! key (p_OrgID p) id = Some p;
  sm_policy' k p : policies m !! k = Some p -> k = key (p_OrgID p) (p_ID p) /\ t_policies t !! p_ID p = Some p;
  sm_version h v : t_versions t !! h = Some v -> v_VersionHash v = h /\ clean (v_OrgID v) /\ seen_of m (key (v_OrgID v) (v_PolicyID v)) !! h = Some v;
  sm_version' k h v : seen_of m k !! h = Some v -> h = v_VersionHash v /\ k = key (v_OrgID v) (v_PolicyID v) /\ t_versions t !! h = Some v;
  sm_list k : default [] (versions m !! k) ≡ₚ (map_to_list (seen_of m k)).*2;
  sm_bundle : t_bundles t = bundles m
}.

Lemma same_empty : same_store pg_empty NewMemStore.
Proof using Type.
  split; cbn; try done; intros *; by rewrite ?lookup_empty.
Qed.

(** Looking a policy up in both. *)
Lemma same_policy t m org id :
  same_store t m -> clean org ->
  policies m !! key org id = match t_policies t !! id with Some p => if String.eqb (p_OrgID p) org then Some p else None | None => None end.
Proof using Type.
  intros S Hc. destruct (policies m !! key org id) as [p|] eqn:Ep.
  - destruct (sm_policy' _ _ S _ _ Ep) as [Hk Ht]. destruct (sm_policy _ _ S _ _ Ht) as (_ & Hcp & _). destruct (policy_key_inj _ _ _ _ Hc Hcp Hk) as [-> ->].
    by rewrite Ht, String.eqb_refl.
  - destruct (t_policies t !! id) as [p|] eqn:Et; [|done]. destruct (String.eqb_spec (p_OrgID p) org) as [<-|]; [|done].
    destruct (sm_policy _ _ S _ _ Et) as (_ & _ & Hp). congruence.
Qed.

Lemma same_version t m org id h :
  same_store t m -> clean org ->
  seen_of m (key org id) !! h = match t_versions t !! h with
                                | Some v => if String.eqb (v_OrgID v) org && String.eqb (v_PolicyID v) id then Some v else None
                                | None => None
                                end.
Proof using Type.
  intros S Hc. destruct (seen_of m (key org id) !! h) as [v|] eqn:Ev.
  - destruct (sm_version' _ _ S _ _ _ Ev) as (Hh & Hk & Ht). destruct (sm_version _ _ S _ _ Ht) as (_ & Hcv & _). destruct (policy_key_inj _ _ _ _ Hc Hcv Hk) as [-> ->].
    by rewrite Ht, !String.eqb_refl.
  - destruct (t_versions t !! h) as [v|] eqn:Et; [|done]. destruct (String.eqb_spec (v_OrgID v) org) as [<-|]; [|done].
    destruct (String.eqb_spec (v_PolicyID v) id) as [<-|]; [|done]. destruct (sm_version _ _ S _ _ Et) as (_ & _ & Hv). congruence.
Qed.

(** Storing a policy under its key in both. *)
Lemma same_put t m p :
  same_store t m -> clean (p_OrgID p) -> (forall q, t_policies t !! p_ID p = Some q -> p_OrgID q = p_OrgID p) ->
  same_store (set_policies <[p_ID p := p]> t)
    {| policies := <[key (p_OrgID p) (p_ID p) := p]> (policies m); versions := versions m; seen := seen m; bundles := bundles m |}.
Proof using Type.
  intros S Hc Ho. split; [| | exact (sm_version _ _ S) | exact (sm_version' _ _ S) | exact (sm_list _ _ S) | apply S]; cbn.
  - intros id q Hq. destruct (decide (id = p_ID p)) as [->|Hne].
    + rewrite lookup_insert_eq in Hq. injection Hq as <-. by rewrite lookup_insert_eq.
    + rewrite lookup_insert_ne in Hq by done. destruct (sm_policy _ _ S _ _ Hq) as (Hi & Hcq & Hm). split_and!; [done..|].
      rewrite lookup_insert_ne; [done|]. intros E. by destruct (policy_key_inj _ _ _ _ Hc Hcq E).
  - intros k q Hq. destruct (decide (k = key (p_OrgID p) (p_ID p))) as [->|Hne].
    + rewrite lookup_insert_eq in Hq. injection Hq as <-. by rewrite lookup_insert_eq.
    + rewrite lookup_insert_ne in Hq by done. destruct (sm_policy' _ _ S _ _ Hq) as [-> Ht]. split; [done|].
      rewrite lookup_insert_ne; [done|]. intros E. apply Hne. rewrite E. by rewrite (Ho q) by congruence.
Qed.

Lemma NoDup_omap_inj {A B} (f : A -> option B) l : NoDup l -> (forall x y b, x ∈ l -> y ∈ l -> f x = Some b -> f y = Some b -> x = y) -> NoDup (omap f l).
Proof using Type.
  intros Hl. induction Hl as [|x k Hx _ IH]; intros Hinj; cbn; [constructor|]. specialize (IH (fun x y b Hx Hy => Hinj x y b (list_elem_of_further _ _ _ Hx) (list_elem_of_further _ _ _ Hy))).
  destruct (f x) as [b|] eqn:E; [|done]. constructor; [|done].
  intros (y & Hy & Ey)%list_elem_of_omap. apply Hx. rewrite (Hinj x y b); [done|by left|by right|done..].
Qed.

Lemma values_NoDup {A} (f : A -> string) (rows : gmap string A) : (forall k x, rows !! k = Some x -> f x = k) -> NoDup (map_to_list rows).*2.
Proof using Type.
  intros Hf. apply (list.NoDup_fmap_1 f). rewrite <- list_fmap_compose. rewrite (list_fmap_ext _ fst); [apply NoDup_fst_map_to_list|].
  intros i [k x] Hi. cbn. apply Hf. apply elem_of_map_to_list. by eapply list_elem_of_lookup_2.
Qed.

Lemma newest_sorted {A} (at_ : A -> time) le l : (forall a b, le a b = (at_ b <=? at_ a)) -> StronglySorted (fun a b => at_ b <= at_ a) (sort_by le l).
Proof using Type.
  intros Hle. assert (Hs : StronglySorted (fun a b => le a b = true) (sort_by le l)).
  { apply sort_by_sorted; intros *; rewrite !Hle; lia. }
  clear -Hs Hle. induction Hs as [|a k Hl IH Ha]; constructor; [done|]. eapply list.Forall_impl; [exact Ha|]. cbn. intros b. rewrite Hle. lia.
Qed.

(** Reading the table in any order finds the rows. *)
Lemma scan_rows {A} (f : A -> string) (rows : gmap string A) (P : A -> Prop) `{!forall x, base.Decision (P x)} scan :
  full_scan scan rows -> (forall k x, rows !! k = Some x -> f x = k) ->
  NoDup (filter P (omap (fun id => rows !! id) scan)) /\
  forall x, x ∈ filter P (omap (fun id => rows !! id) scan) <-> P x /\ rows !! f x = Some x.
Proof using Type.
  intros [Hn Hs] Hf. split.
  - apply list.NoDup_filter, NoDup_omap_inj; [done|]. intros k k' x _ _ Hk Hk'. by rewrite <- (Hf _ _ Hk), <- (Hf _ _ Hk').
  - intros x. rewrite list_elem_of_filter, list_elem_of_omap. split; intros [Hp Hx]; (split; [done|]).
    + destruct Hx as (k & _ & Hk). by rewrite (Hf _ _ Hk).
    + exists (f x). split; [|done]. by apply Hs.
Qed.

Lemma same_ListPolicies t m org scan : same_store t m -> clean org -> full_scan scan (t_policies t) ->
  filter (fun p => p_OrgID p = org) (omap (fun id => t_policies t !! id) scan) ≡ₚ
  omap (fun '(k, p) => if HasPrefix k (org +:+ "|") then Some p else None) (map_to_list (policies m)).
Proof using Type.
  intros S Hc Hs. assert (Hid : forall k p, t_policies t !! k = Some p -> p_ID p = k) by (intros k p Hk; apply (sm_policy _ _ S _ _ Hk)).
  destruct (scan_rows p_ID _ (fun p => p_OrgID p = org) scan Hs Hid) as [Hn He]. apply NoDup_Permutation; [done| |].
  - apply NoDup_omap_inj; [apply NoDup_map_to_list|]. intros [k q] [k' q'] p Hk%elem_of_map_to_list Hk'%elem_of_map_to_list.
    do 2 (destruct (HasPrefix _ _); [|done]). intros [= ->] [= ->]. destruct (sm_policy' _ _ S _ _ Hk) as [-> _], (sm_policy' _ _ S _ _ Hk') as [-> _]. done.
  - intros p. rewrite He, list_elem_of_omap. split.
    + intros [Ho Hp]. destruct (sm_policy _ _ S _ _ Hp) as (_ & _ & Hm). exists (key (p_OrgID p) (p_ID p), p). split; [by apply elem_of_map_to_list|].
      rewrite (proj2 (HasPrefix_spec _ _)); [done|]. exists (p_ID p). rewrite Ho. unfold key. by rewrite <- str_app_assoc.
    + intros ([k q] & Hk%elem_of_map_to_list & E). destruct (HasPrefix k _) eqn:Ep; [|done]. injection E as ->.
      destruct (sm_policy' _ _ S _ _ Hk) as [-> Ht]. split; [|done]. apply HasPrefix_spec in Ep as [x Ex].
      destruct (sm_policy _ _ S _ _ Ht) as (_ & Hcp & _). rewrite <- str_app_assoc in Ex. by destruct (policy_key_inj _ _ _ _ Hcp Hc Ex) as [-> _].
Qed.

Lemma same_ListVersions t m org id scan : same_store t m -> clean org -> full_scan scan (t_versions t) ->
  filter (fun v => v_OrgID v = org /\ v_PolicyID v = id) (omap (fun h => t_versions t !! h) scan) ≡ₚ default [] (versions m !! key org id).
Proof using Type.
  intros S Hc Hs. assert (Hh : forall k v, t_versions t !! k = Some v -> v_VersionHash v = k) by (intros k v Hk; apply (sm_version _ _ S _ _ Hk)).
  destruct (scan_rows v_VersionHash _ (fun v => v_OrgID v = org /\ v_PolicyID v = id) scan Hs Hh) as [Hn He]. rewrite (sm_list _ _ S).
  apply NoDup_Permutation; [done| |].
  - apply (values_NoDup v_VersionHash). intros h v Hv. by destruct (sm_version' _ _ S _ _ _ Hv) as [-> _].
  - intros v. rewrite He, list_elem_of_fmap. split.
    + intros [[<- <-] Hv]. destruct (sm_version _ _ S _ _ Hv) as (_ & _ & Hm). exists (v_VersionHash v, v). split; [done|by apply elem_of_map_to_list].
    + intros ([h q] & -> & Hk%elem_of_map_to_list). cbn. destruct (sm_version' _ _ S _ _ _ Hk) as (-> & Ek & Ht). split; [|done].
      destruct (sm_version _ _ S _ _ Ht) as (_ & Hcv & _). by destruct (policy_key_inj _ _ _ _ Hc Hcv Ek) as [-> ->].
Qed.

Definition listing (o : store_op) : bool := match o with SList _ _ | SListVersions _ _ _ => true | _ => false end.

Lemma equal_answer o m : listing o = false -> same_answer (mem_op o m).1 (mem_op o m).1.
Proof using Type. destruct o; try discriminate; intros _; cbn; [destruct (CreatePolicy _ _)|destruct (UpdatePolicy _ _)| |destruct (PutVersion _ _)|..]; reflexivity. Qed.

Lemma pg_listing_same o t m : listing o = true -> same_store t m -> op_fits o t -> same_answer (pg_op stored o t).1 (mem_op o m).1.
Proof using Type.
  intros Ho S Hf. destruct o as [| | |org scan| | |org id scan| |]; try discriminate; cbn [pg_op mem_op op_fits fst] in *; destruct Hf as (Ht & Hc & Hs).
  - unfold Pg_ListPolicies, ListPolicies. rewrite Ht. cbn [negb same_answer]. split_and!; [|apply newest_sorted; intros *; unfold After; lia..].
    rewrite !sort_by_perm. by apply same_ListPolicies.
  - unfold Pg_ListVersions, ListVersions. rewrite Ht. cbn [negb same_answer]. split_and!; [|apply newest_sorted; intros *; unfold After; lia..].
    rewrite !sort_by_perm. by apply same_ListVersions.
Qed.

Lemma pg_op_equal o t m : listing o = false ->
  same_store t m -> op_fits o t -> (pg_op stored o t).1 = (mem_op o m).1 /\ same_store (pg_op stored o t).2 (mem_op o m).2.
Proof using Type.
  intros Hl S Hf. destruct o as [p|p|org id|org scan|v|org id h|org id scan|b|org]; try discriminate Hl; cbn [pg_op mem_op op_fits] in *.
  - destruct Hf as (Hf & Hc & Hs & Ho). unfold Pg_CreatePolicy, CreatePolicy. rewrite Hf. cbn [negb]. rewrite (same_policy t m) by done.
    destruct (t_policies t !! p_ID p) as [q|] eqn:E; [by rewrite (Ho q), String.eqb_refl|]. rewrite Hs. cbn [fst snd]. split; [done|].
    apply same_put; [done..|]. congruence.
  - destruct Hf as (Hf & Hc & Hs & Ht). unfold Pg_UpdatePolicy, UpdatePolicy. rewrite Hf. cbn [negb]. rewrite (same_policy t m) by done.
    destruct (t_policies t !! p_ID p) as [q|] eqn:E; [|done]. destruct (String.eqb_spec (p_OrgID q) (p_OrgID p)) as [Ho|]; [|done]. cbn [fst snd]. split; [done|].
    destruct (sm_policy _ _ S _ _ E) as (Hi & _). assert (Hup : stored (p_UpdatedAt p) = p_UpdatedAt p) by (by apply (f_equal p_UpdatedAt) in Hs).
    match goal with |- same_store (set_policies <[_ := ?r]> t) _ => assert (r = p) as -> by (specialize (Ht q eq_refl Ho); destruct p, q; cbn in *; congruence) end.
    apply same_put; [done..|]. congruence.
  - destruct Hf as [Hf Hc]. unfold Pg_GetPolicy, GetPolicy. rewrite Hf. cbn [negb]. rewrite (same_policy t m) by done. split; [|done].
    destruct (t_policies t !! id) as [p|]; [|done]. by destruct (String.eqb _ _).
  - destruct Hf as (Hf & Hc & Hs & [q Hq] & Hu). unfold Pg_PutVersion, PutVersion. rewrite Hf. cbn [negb]. rewrite (same_version t m) by done.
    destruct (t_versions t !! v_VersionHash v) as [u|] eqn:E.
    + destruct (Hu u eq_refl) as [-> ->]. rewrite !String.eqb_refl. cbn [andb fst snd]. split; [done|]. split; cbn; try apply S.
      * intros h w Hw. destruct (sm_version _ _ S _ _ Hw) as (? & ? & Hm). split_and!; [done..|]. unfold seen_of at 1. cbn.
        destruct (decide (key (v_OrgID w) (v_PolicyID w) = key (v_OrgID v) (v_PolicyID v))) as [Ek|Ek]; [rewrite Ek, lookup_insert_eq; cbn; by rewrite <- Ek|by rewrite lookup_insert_ne].
      * intros k h w. unfold seen_of at 1. cbn. destruct (decide (k = key (v_OrgID v) (v_PolicyID v))) as [->|Ek]; [rewrite lookup_insert_eq; cbn|rewrite lookup_insert_ne by done]; apply S.
      * intros k. unfold seen_of at 1. cbn. destruct (decide (k = key (v_OrgID v) (v_PolicyID v))) as [->|Ek]; [rewrite lookup_insert_eq; cbn|rewrite lookup_insert_ne by done]; apply S.
    + rewrite Hq, Hs. cbn [fst snd]. split; [done|]. set (m' := {| policies := policies m |}). set (k0 := key (v_OrgID v) (v_PolicyID v)).
      assert (Hseen : forall k, seen_of m' k = if decide (k = k0) then <[v_VersionHash v := v]> (seen_of m k0) else seen_of m k).
      { intros k. unfold seen_of at 1, m'. cbn. destruct (decide (k = k0)) as [->|Hne]; [by rewrite lookup_insert_eq|by rewrite lookup_insert_ne]. }
      split; cbn; try apply S.
      * intros h w Hw. rewrite Hseen. destruct (decide (h = v_VersionHash v)) as [->|Hne].
        -- rewrite lookup_insert_eq in Hw. injection Hw as <-. rewrite decide_True by done. by rewrite lookup_insert_eq.
        -- rewrite lookup_insert_ne in Hw by done. destruct (sm_version _ _ S _ _ Hw) as (? & ? & Hm). split_and!; [done..|].
           destruct (decide _) as [Ek|]; [rewrite lookup_insert_ne by done; by rewrite <- Ek|done].
      * intros k h w. rewrite Hseen. destruct (decide (k = k0)) as [->|].
        -- destruct (decide (h = v_VersionHash v)) as [->|Hne]; [rewrite lookup_insert_eq; intros [= <-]; by rewrite lookup_insert_eq|].
           rewrite !lookup_insert_ne by done. apply S.
        -- intros Hw. destruct (sm_version' _ _ S _ _ _ Hw) as (-> & ? & Ht). split_and!; [done..|]. rewrite lookup_insert_ne; [done|]. intros Ee. congruence.
      * intros k. rewrite Hseen. destruct (decide (k = k0)) as [->|]; [rewrite lookup_insert_eq|by rewrite lookup_insert_ne, (sm_list _ _ S) by done].
        cbn [default]. rewrite (sm_list _ _ S), map_to_list_insert; [by rewrite Permutation_app_comm|].
        unfold k0. rewrite (same_version t m) by done. by rewrite E.
  - destruct Hf as [Hf Hc]. unfold Pg_GetVersion, GetVersion. rewrite Hf. cbn [negb]. rewrite (same_version t m) by done. split; [|done].
    destruct (t_versions t !! h) as [v|]; [|done]. by destruct (String.eqb _ _ && _).
  - destruct Hf as (Hf & Hs & [p Hp] & [v Hv]). unfold Pg_SetActiveBundle, SetActiveBundle. rewrite Hf, Hp, Hv, Hs. cbn [fst snd]. split; [done|].
    split; try apply S. cbn. by rewrite (sm_bundle _ _ S).
  - unfold Pg_GetActiveBundle, GetActiveBundle. rewrite Hf, (sm_bundle _ _ S). cbn. split; [|done]. by destruct (bundles m !! org).
Qed.

Lemma pg_op_same o t m :
  same_store t m -> op_fits o t -> same_answer (pg_op stored o t).1 (mem_op o m).1 /\ same_store (pg_op stored o t).2 (mem_op o m).2.
Proof using Type.
  intros S Hf. destruct (listing o) eqn:El; [split; [by apply pg_listing_same|by destruct o]|].
  destruct (pg_op_equal o t m El S Hf) as [-> Hs]. split; [by apply equal_answer|done].
Qed.

Lemma run_ops_same os t m : same_store t m -> all_fit os t -> Forall2 same_answer (run_ops (pg_op stored) os t).1 (run_ops mem_op os m).1.
Proof using Type.
  revert t m. induction os as [|o os IH]; intros t m S Hf; [constructor|]. destruct Hf as [Hf Hrest]. cbn [run_ops]. destruct (pg_op_same o t m S Hf) as [Ha S'].
  destruct (pg_op stored o t) as [a t'], (mem_op o m) as [a' m']. cbn [fst snd] in *. specialize (IH t' m' S' Hrest).
  destruct (run_ops (pg_op stored) os t') as [l t''], (run_ops mem_op os m') as [l' m'']. by constructor.
Qed.

(** C28: The Postgres store answers as the in-memory store.  From empty stores,
    any sequence of the store's calls that fit the columns and the keys gets
    the same answers from both; of the two listings, the same rows, newest
    first in both, in whatever order the tables are read, so that only rows of
    the same instant can trade places. *)
Theorem pg_store_refines_memory os (Hf : all_fit os pg_empty) :
  Forall2 same_answer (run_ops (pg_op stored) os pg_empty).1 (run_ops mem_op os NewMemStore).1.
Proof using Type. apply (run_ops_same os _ _ same_empty Hf). Qed.
End refinement.
