(* ===== verification/BundleProv.v ===== *)
(** The decision plane's view of published policy ([internal/bundle]): compiling
    a version's rules into an engine policy, and the per-organisation cache
    ([bundle.go]). *)

From S2P Require Import Prelude GoStrings GoTime Contracts Money Predicates Runtime Signing Engine PolicyLoad Policyctl.

Definition droppedTypes : list string := [TypeSanctionsScreen; TypeVendorRisk].

Definition budget_of (r : Rule) : BudgetDecl :=
  {| bd_ID := r_ID r; bd_Agents := r_Agents r; bd_Window := r_Window r; bd_Limit := r_Limit r; bd_Currency := r_Currency r |}.

(** The loop of [CompileRules]: local rules and budgets, both in order. *)
Fixpoint split_rules (rules : list Rule) : list Rule * list BudgetDecl :=
  match rules with
  | [] => ([], [])
  | r :: rules =>
    let '(local, budgets) := split_rules rules in
    if String.eqb (r_Type r) TypeRollingBudget then (local, budget_of r :: budgets)
    else if mem_str (r_Type r) droppedTypes then (local, budgets)
    else (r :: local, budgets)
  end.

Section bundle.
Context `{BigRat} `{Unicode} `{Sha256} `{Jcs}.

Definition CompileRules (version : string) (rules : list Rule) : result load_error Engine.Policy :=
  let '(local, budgets) := split_rules rules in
  pol ← parse_rules struct_order version local;
  Ok {| pol_Version := pol_Version pol; pol_Predicates := pol_Predicates pol; pol_Budgets := budgets |}.

Definition Compile (v : Version) : result load_error Engine.Policy := CompileRules (v_VersionHash v) (v_Rules v).

(** * The provider *)

Inductive bundle_error := ErrNoActiveBundle | ReadActive (e : policy_error) | LoadVersion (e : policy_error) | CompileFailed (e : load_error).

Record entry := { en_hash : string; en_pol : Engine.Policy }.

(** The control-plane store as the provider reads it: it may fail or answer
    anything at any time. *)
Section provider.
Context {W : Type}.

Record Source := {
  src_GetActiveBundle : string -> io W (result policy_error BundleRef);
  src_GetVersion : string -> string -> string -> io W (result policy_error Version)
}.

Context (src : Source).

Definition compileRef (ref : BundleRef) : io W (result bundle_error Engine.Policy) :=
  r ← src_GetVersion src (b_OrgID ref) (b_PolicyID ref) (b_VersionHash ref);
  mret match r with
       | Err e => Err (LoadVersion e)
       | Ok v => match Compile v with Ok pol => Ok pol | Err e => Err (CompileFailed e) end
       end.

Definition load (orgID : string) (cache : gmap string entry) : io W (result bundle_error Engine.Policy * gmap string entry) :=
  r ← src_GetActiveBundle src orgID;
  match r with
  | Err ErrBundleNotFound => mret (Err ErrNoActiveBundle, cache)
  | Err e => mret (Err (ReadActive e), cache)
  | Ok ref =>
    c ← compileRef ref;
    mret match c with
         | Err e => (Err e, cache)
         | Ok pol => (Ok pol, <[orgID := {| en_hash := b_VersionHash ref; en_pol := pol |}]> cache)
         end
  end.

Definition Provider_Active (orgID : string) (cache : gmap string entry) : io W (result bundle_error Engine.Policy * gmap string entry) :=
  match cache !! orgID with
  | Some e => mret (Ok (en_pol e), cache)
  | None => load orgID cache
  end.

Definition Invalidate (orgID : string) (cache : gmap string entry) : io W (result bundle_error unit * gmap string entry) :=
  r ← load orgID cache;
  mret match r with (Ok _, cache) => (Ok tt, cache) | (Err e, cache) => (Err e, cache) end.

Definition refreshOrg (orgID : string) (cache : gmap string entry) : io W (gmap string entry) :=
  r ← src_GetActiveBundle src orgID;
  match r with
  | Err _ => mret cache
  | Ok ref =>
    if match cache !! orgID with Some cur => String.eqb (en_hash cur) (b_VersionHash ref) | None => false end then mret cache
    else
      c ← compileRef ref;
      mret match c with
           | Err _ => cache
           | Ok pol => <[orgID := {| en_hash := b_VersionHash ref; en_pol := pol |}]> cache
           end
  end.

Fixpoint refresh_list (orgs : list string) (cache : gmap string entry) : io W (gmap string entry) :=
  match orgs with
  | [] => mret cache
  | org :: orgs => cache ← refreshOrg org cache; refresh_list orgs cache
  end.

(** In the map's iteration order. *)
Definition refreshAll (cache : gmap string entry) : io W (gmap string entry) := refresh_list (map_to_list cache).*1 cache.
End provider.

(** * Dry runs *)


Inductive sim_error := SimStore (e : policy_error) | SimCompile (e : load_error).
End bundle.

Arguments Source : clear implicits.

(** * Compiling *)

Section compile.
Context `{BigRat} `{Unicode} `{Sha256} `{Jcs}.

Lemma split_rules_spec rules :
  Forall (fun r => r_Type r ∈ localRuleTypes ++ enrichedRuleTypes) rules ->
  split_rules rules = (filter (fun r => mem_str (r_Type r) localRuleTypes = true) rules,
                       budget_of <$> filter (fun r => r_Type r = TypeRollingBudget) rules).
Proof using Type.
  induction 1 as [|r rules Hr _ IH]; [done|]. cbn [split_rules]. rewrite IH, !filter_cons.
  destruct (String.eqb_spec (r_Type r) TypeRollingBudget) as [E|E].
  - rewrite !E. done.
  - destruct (decide (r_Type r = TypeRollingBudget)) as [?|_]; [done|]. destruct (mem_str (r_Type r) droppedTypes) eqn:Ed.
    + apply mem_str_spec in Ed. assert (mem_str (r_Type r) localRuleTypes = false) as ->; [|done].
      apply not_true_iff_false. intros Hl%mem_str_spec. unfold droppedTypes, localRuleTypes in *.
      repeat (apply elem_of_cons in Ed as [Ed|Ed]; [rewrite Ed in Hl; revert Hl; apply (bool_decide_unpack _); by vm_compute|]).
      by apply not_elem_of_nil in Ed.
    + assert (mem_str (r_Type r) localRuleTypes = true) as ->; [|done]. apply mem_str_spec. apply elem_of_app in Hr as [Hr|Hr]; [done|].
      unfold enrichedRuleTypes in Hr. apply elem_of_cons in Hr as [?|Hr]; [done|]. apply (mem_str_spec _ droppedTypes) in Hr. congruence.
Qed.

Lemma docs_of_rules_ok order rules docs :
  docs_of_rules order rules = Ok docs ->
  Forall2 (fun r d => d_ID d = r_ID r /\ d_Type d = r_Type r /\ d_Agents d = r_Agents r) rules docs.
Proof using Type.
  revert docs. induction rules as [|r rules IH]; intros docs; cbn [docs_of_rules]; [intros [= <-]; constructor|].
  destruct (doc_of_rule order r) as [d|e] eqn:Ed; cbn [mbind result_bind]; [|done]. destruct (docs_of_rules order rules) as [ds|e]; cbn [mbind result_bind]; [|done].
  intros [= <-]. constructor; [|by apply IH]. unfold doc_of_rule in Ed. destruct (find_first _ _); [done|]. injection Ed as <-. done.
Qed.

(** A stated version only skips the content hash, and the order of the fields
    does not matter to rules that the loader takes. *)
Lemma parse_rules_version rules version pol :
  version <> "" -> parse_rules wire_order "" rules = Ok pol ->
  exists docs, docs_of_rules struct_order rules = Ok docs /\ parse_rules struct_order version rules =
    Ok {| pol_Version := version; pol_Predicates := pol_Predicates pol; pol_Budgets := [] |} /\
    Forall2 (fun d p => build d = Ok p) docs (pol_Predicates pol).
Proof using Type.
  intros Hv. unfold parse_rules. destruct (docs_of_rules wire_order rules) as [docs|e] eqn:Ed; cbn [mbind result_bind]; [|done].
  apply (docs_of_rules_order wire_order struct_order) in Ed; [|by apply orders_agree]. rewrite Ed. cbn [mbind result_bind].
  unfold Parse. cbn [f_Version f_Predicates]. destruct (build_all 0 [] docs) as [ps|e] eqn:Eb; cbn [mbind result_bind]; [|done].
  rewrite (proj2 (String.eqb_neq version "")) by done. change (String.eqb "" "") with true. cbn iota.
  destruct (contentVersion docs) as [v|e]; cbn [mbind result_bind]; [|done].
  intros [= <-]. exists docs. split; [done|]. split; [done|]. cbn. by apply build_all_ok in Eb as [Hf _].
Qed.
End compile.

(** What publishes can be served.  If the schema knows only the nine rule
    types, every policy that passes validation compiles, under any version
    label: the local rules become predicates in order, each with its rule's id,
    type and agent scope, the rolling budgets become budget declarations in
    order, and only sanctions and vendor-risk rules are left out. *)
Theorem published_policy_compiles `{BigRat} `{Unicode} `{Sha256} `{Jcs} `{PolicySchema} org name agents rules version
  (Hval : Validate org name agents rules = Ok tt) (Hversion : version <> "")
  (Hschema : schema_problems (policy_doc org name agents rules) = [] ->
             Forall (fun r => r_Type r ∈ localRuleTypes ++ enrichedRuleTypes) rules) :
  exists pol, CompileRules version rules = Ok pol /\ pol_Version pol = version /\
    pol_Budgets pol = budget_of <$> filter (fun r => r_Type r = TypeRollingBudget) rules /\
    Forall2 (fun r p => RuleID p = r_ID r /\ Type_ p = r_Type r /\ local_predicate p /\
                        forall a, AppliesTo p a = true <-> r_Agents r = [] \/ a ∈ r_Agents r)
      (filter (fun r => mem_str (r_Type r) localRuleTypes = true) rules) (pol_Predicates pol).
Proof.
  unfold Validate in Hval. destruct (_ ++ _ ++ _) as [|p0 ps] eqn:E; [|done]. apply app_eq_nil in E as [Es E]. apply app_eq_nil in E as [_ Ep].
  specialize (Hschema Es). destruct (checkEngineParity rules) as [p|] eqn:Epar; [done|]. clear Ep.
  unfold CompileRules. rewrite split_rules_spec by done. unfold checkEngineParity in Epar.
  destruct (filter _ rules) as [|r local]; cbn [mbind result_bind].
  { assert (Hp : parse_rules struct_order version [] = Ok {| pol_Version := version; pol_Predicates := []; pol_Budgets := [] |}).
    { unfold parse_rules. cbn [docs_of_rules mbind result_bind]. unfold Parse. cbn [f_Predicates f_Version build_all mbind result_bind].
      by rewrite (proj2 (String.eqb_neq version "")) by done. }
    rewrite Hp. cbn [mbind result_bind]. eexists. split; [done|]. split; [done|]. split; [done|]. constructor. }
  destruct (parse_rules wire_order "" (r :: local)) as [pol|e] eqn:Eq; [|done].
  destruct (parse_rules_version _ version pol Hversion Eq) as (docs & Hd & -> & Hb). cbn [mbind result_bind].
  eexists. split; [done|]. split; [done|]. split; [done|]. cbn [pol_Predicates].
  apply docs_of_rules_ok in Hd. clear -Hd Hb. revert Hb. generalize (pol_Predicates pol). induction Hd as [|x d l ds (Hi & Ht & Ha) _ IH]; intros ps Hb;
    inversion Hb as [|? p ? ps' Hp Hb']; subst; constructor; [|by apply IH].
  destruct (build_spec d p Hp) as (-> & -> & Hag & Hl). rewrite Hi, Ht, <- Ha. done.
Qed.

(** * The cache *)

(** A call of the provider. *)
Inductive prov_call := CallActive (org : string) | CallInvalidate (org : string) | CallRefresh (org : string).

Definition call_org (c : prov_call) : string := match c with CallActive o => o | CallInvalidate o => o | CallRefresh o => o end.

Definition run_call `{BigRat} `{Unicode} `{Sha256} `{Jcs} {W} (src : Source W) (c : prov_call) (cache : gmap string entry) (w : W) : gmap string entry * W :=
  match c with
  | CallActive org => let '((_, cache), w) := Provider_Active src org cache w in (cache, w)
  | CallInvalidate org => let '((_, cache), w) := Invalidate src org cache w in (cache, w)
  | CallRefresh org => refreshOrg src org cache w
  end.

(** The entry is the compilation of a version the source returned for a
    reference it returned for the organisation. *)
Definition fetched `{BigRat} `{Unicode} `{Sha256} `{Jcs} {W} (src : Source W) (org : string) (w : W) (e : entry) : Prop :=
  exists ref v w1 w2,
    src_GetActiveBundle src org w = (Ok ref, w1) /\
    src_GetVersion src (b_OrgID ref) (b_PolicyID ref) (b_VersionHash ref) w1 = (Ok v, w2) /\
    en_hash e = b_VersionHash ref /\ Compile v = Ok (en_pol e).

Lemma load_cases `{BigRat} `{Unicode} `{Sha256} `{Jcs} {W} (src : Source W) org cache w res cache' w' :
  load src org cache w = ((res, cache'), w') ->
  (is_ok res = false /\ cache' = cache) \/ (exists e, fetched src org w e /\ cache' = <[org := e]> cache /\ res = Ok (en_pol e)).
Proof.
  unfold load. rewrite bind_let. destruct (src_GetActiveBundle src org w) as [r w1] eqn:Er. cbn [fst snd].
  destruct r as [ref|e].
  - rewrite bind_let. unfold compileRef. rewrite bind_let. destruct (src_GetVersion src _ _ _ w1) as [rv w2] eqn:Ev. cbn [fst snd mret io_ret].
    destruct rv as [v|e]; [|intros [= <- <- _]; by left]. destruct (Compile v) as [pol|e] eqn:Ec; [|intros [= <- <- _]; by left].
    intros [= <- <- _]. right. eexists. split; [|split; [reflexivity|done]]. exists ref, v, w1, w2. done.
  - destruct e; intros [= <- <- _]; by left.
Qed.

(** The last known good bundle keeps serving.  Whatever the control-plane
    store answers, an organisation that has a bundle keeps one; a call changes
    at most its own organisation's entry, and only to the compilation of the
    version the store named and returned; a call that fails changes nothing; a
    cached organisation is served without touching the store; and an
    invalidation that succeeds is served from then on. *)
Theorem provider_last_known_good `{BigRat} `{Unicode} `{Sha256} `{Jcs} {W} (src : Source W) c cache w cache' w'
  (E : run_call src c cache w = (cache', w')) :
  (forall org, is_Some (cache !! org) -> is_Some (cache' !! org)) /\
  (cache' = cache \/ exists e, fetched src (call_org c) w e /\ cache' = <[call_org c := e]> cache) /\
  (forall org e, cache !! org = Some e -> Provider_Active src org cache w = ((Ok (en_pol e), cache), w)) /\
  (forall org, c = CallInvalidate org -> (Invalidate src org cache w).1.1 = Ok tt ->
     exists e, fetched src org w e /\ forall w2, Provider_Active src org cache' w2 = ((Ok (en_pol e), cache'), w2)).
Proof.
  assert (Hc : cache' = cache \/ exists e, fetched src (call_org c) w e /\ cache' = <[call_org c := e]> cache).
  { destruct c as [org|org|org]; cbn [run_call call_org] in *.
    - unfold Provider_Active in E. destruct (cache !! org); [injection E as <- _; by left|].
      destruct (load src org cache w) as [[res c'] w1] eqn:El. injection E as <- _.
      destruct (load_cases _ _ _ _ _ _ _ El) as [[_ ->]|(e & He & -> & _)]; eauto.
    - unfold Invalidate in E. rewrite bind_let in E. destruct (load src org cache w) as [[res c'] w1] eqn:El. cbn [fst snd] in E.
      destruct (load_cases _ _ _ _ _ _ _ El) as [[_ ->]|(e & He & -> & _)]; destruct res; injection E as <- _; eauto.
    - unfold refreshOrg in E. rewrite bind_let in E. destruct (src_GetActiveBundle src org w) as [r w1] eqn:Er. cbn [fst snd] in E.
      destruct r as [ref|e]; [|injection E as <- _; by left]. destruct (match cache !! org with Some _ => _ | None => _ end); [injection E as <- _; by left|].
      rewrite bind_let in E. unfold compileRef in E. rewrite bind_let in E. destruct (src_GetVersion src _ _ _ w1) as [rv w2] eqn:Ev.
      cbn [fst snd mret io_ret] in E. destruct rv as [v|e]; [|injection E as <- _; by left].
      destruct (Compile v) as [pol|e] eqn:Ecm; [|injection E as <- _; by left]. injection E as <- _. right.
      eexists. split; [|reflexivity]. exists ref, v, w1, w2. done. }
  split_and!.
  - intros org Ho. destruct Hc as [->|(e & _ & ->)]; [done|]. destruct (decide (org = call_org c)) as [->|];
      [rewrite lookup_insert_eq; eauto|by rewrite lookup_insert_ne].
  - exact Hc.
  - intros org e He. unfold Provider_Active. by rewrite He.
  - intros org -> Hok. cbn [run_call] in E. unfold Invalidate in E, Hok. rewrite bind_let in E, Hok.
    destruct (load src org cache w) as [[res c'] w1] eqn:El. cbn [fst snd] in E, Hok.
    destruct (load_cases _ _ _ _ _ _ _ El) as [[Hr _]|(e & He & -> & ->)]; [by destruct res|].
    injection E as <- _. exists e. split; [done|]. intros w2. unfold Provider_Active. by rewrite lookup_insert_eq.
Qed.

(** The agents a policy targets do not reach the compiled bundle: a version's
    rules apply to the agents each rule names, or to all. *)
Definition with_agents (agents : list string) (v : Version) : Version :=
  {| v_VersionHash := v_VersionHash v; v_PolicyID := v_PolicyID v; v_OrgID := v_OrgID v; v_Name := v_Name v; v_Agents := agents;
     v_Rules := v_Rules v; v_Signature := v_Signature v; v_Author := v_Author v; v_ParentHash := v_ParentHash v;
     v_PublishedAt := v_PublishedAt v |}.

Example policy_agents_ignored `{BigRat} `{Unicode} `{Sha256} `{Jcs} : forall v agents, Compile (with_agents agents v) = Compile v.
Proof. reflexivity. Qed.
