(* ===== verification/BundleRun.v ===== *)
(** The bundle cache at work ([internal/bundle/bundle.go]): [Run]'s refresher
    and the calls of [Active] and [Invalidate] as threads over the cache, a step
    per read of the control-plane store, while that store is written by others.
    It shows how a publish elsewhere reaches the cache. *)

From S2P Require Import Prelude GoStrings GoTime Contracts Money Predicates Runtime Signing Engine PolicyLoad Policyctl BundleProv.

(** [NewProvider] and [Run]: what they take for a time that is not positive.  A
    load that outlives its timeout is an error of the store. *)
Definition load_timeout (loadTimeout : duration) : duration := if loadTimeout <=? 0 then 2 * Second else loadTimeout.
Definition refresh_interval (interval : duration) : duration := if interval <=? 0 then 5 * Second else interval.

Section run.
Context `{BigRat} `{Unicode} `{Sha256} `{Jcs} {W : Type} (src : Source W).

(** [Run] without interference, for the ticks it sees before its context ends. *)
Fixpoint Provider_Run (ticks : nat) (cache : gmap string entry) : io W (gmap string entry) :=
  match ticks with
  | O => mret cache
  | S ticks => cache ← refreshAll src cache; Provider_Run ticks cache
  end.

(** * Threads *)

Inductive purpose := ForActive | ForInvalidate.

(** A call between two steps: begun, past its look at the cache, holding the
    active reference, holding the compiled entry, answered. *)
Inductive call_pc :=
| CStart (p : purpose) (org : string)
| CLoad (p : purpose) (org : string)
| CFetched (p : purpose) (org : string) (ref : BundleRef)
| CStore (p : purpose) (org : string) (e : entry)
| CDone (p : purpose) (org : string) (r : result bundle_error Engine.Policy).

(** The refresher after [ticks] full passes: waiting, or in its loop over the
    organisations it listed, with the ones still to come; there it holds the
    active reference, has found it changed, or holds the compiled entry. *)
Inductive refresher_pc :=
| RIdle (ticks : nat)
| RSweep (ticks : nat) (rest : list string)
| RFetched (ticks : nat) (org : string) (ref : BundleRef) (rest : list string)
| RChanged (ticks : nat) (org : string) (ref : BundleRef) (rest : list string)
| RStore (ticks : nat) (org : string) (e : entry) (rest : list string).

Definition entry_of (ref : BundleRef) (pol : Engine.Policy) : entry := {| en_hash := b_VersionHash ref; en_pol := pol |}.

(** The reference is the one the cached bundle was compiled from. *)
Definition unchanged (org : string) (ref : BundleRef) (cache : gmap string entry) : bool :=
  match cache !! org with Some cur => String.eqb (en_hash cur) (b_VersionHash ref) | None => false end.

Definition call_exec (pc : call_pc) (cache : gmap string entry) (w : W) : call_pc * gmap string entry * W :=
  match pc with
  | CStart ForActive org =>
    match cache !! org with Some e => (CDone ForActive org (Ok (en_pol e)), cache, w) | None => (CLoad ForActive org, cache, w) end
  | CStart p org => (CLoad p org, cache, w)
  | CLoad p org =>
    let '(r, w) := src_GetActiveBundle src org w in
    match r with
    | Err ErrBundleNotFound => (CDone p org (Err ErrNoActiveBundle), cache, w)
    | Err e => (CDone p org (Err (ReadActive e)), cache, w)
    | Ok ref => (CFetched p org ref, cache, w)
    end
  | CFetched p org ref =>
    let '(c, w) := compileRef src ref w in
    match c with Err e => (CDone p org (Err e), cache, w) | Ok pol => (CStore p org (entry_of ref pol), cache, w) end
  | CStore p org e => (CDone p org (Ok (en_pol e)), <[org := e]> cache, w)
  | CDone p org r => (pc, cache, w)
  end.

Definition refresher_exec (pc : refresher_pc) (cache : gmap string entry) (w : W) : refresher_pc * gmap string entry * W :=
  match pc with
  | RIdle n => (RSweep n (map_to_list cache).*1, cache, w)
  | RSweep n [] => (RIdle (S n), cache, w)
  | RSweep n (org :: rest) =>
    let '(r, w) := src_GetActiveBundle src org w in
    match r with Err _ => (RSweep n rest, cache, w) | Ok ref => (RFetched n org ref rest, cache, w) end
  | RFetched n org ref rest => (if unchanged org ref cache then RSweep n rest else RChanged n org ref rest, cache, w)
  | RChanged n org ref rest =>
    let '(c, w) := compileRef src ref w in
    match c with Err _ => (RSweep n rest, cache, w) | Ok pol => (RStore n org (entry_of ref pol) rest, cache, w) end
  | RStore n org e rest => (RSweep n rest, <[org := e]> cache, w)
  end.

Record provider := { pv_cache : gmap string entry; pv_world : W; pv_refresher : refresher_pc; pv_calls : list call_pc }.

Definition passes (pc : refresher_pc) : nat := match pc with RIdle n | RSweep n _ | RFetched n _ _ _ | RChanged n _ _ _ | RStore n _ _ _ => n end.

Context (env : W -> W -> Prop).

(** Anything may step next; [env] is what others do to the store. *)
Inductive prov_step : provider -> provider -> Prop :=
| step_refresher s pc cache w :
    refresher_exec (pv_refresher s) (pv_cache s) (pv_world s) = (pc, cache, w) ->
    prov_step s {| pv_cache := cache; pv_world := w; pv_refresher := pc; pv_calls := pv_calls s |}
| step_call s l1 c l2 c' cache w :
    pv_calls s = l1 ++ c :: l2 -> call_exec c (pv_cache s) (pv_world s) = (c', cache, w) ->
    prov_step s {| pv_cache := cache; pv_world := w; pv_refresher := pv_refresher s; pv_calls := l1 ++ c' :: l2 |}
| step_arrives s p org :
    prov_step s {| pv_cache := pv_cache s; pv_world := pv_world s; pv_refresher := pv_refresher s; pv_calls := pv_calls s ++ [CStart p org] |}
| step_env s w : env (pv_world s) w ->
    prov_step s {| pv_cache := pv_cache s; pv_world := w; pv_refresher := pv_refresher s; pv_calls := pv_calls s |}.

Definition prov_init (s : provider) : Prop := pv_cache s = ∅ /\ pv_refresher s = RIdle 0 /\ pv_calls s = [].

(** * The refresher alone *)

(** The state of the refresher once the loop over [rest] is done. *)
Fixpoint alone (fuel : nat) (x : refresher_pc * gmap string entry * W) : refresher_pc * gmap string entry * W :=
  match fuel with
  | O => x
  | S fuel => let '(pc, cache, w) := x in alone fuel (refresher_exec pc cache w)
  end.

Lemma alone_add n m x : alone (n + m) x = alone m (alone n x).
Proof using Type. revert x. induction n as [|n IH]; intros [[pc cache] w]; [done|]. cbn [alone Nat.add]. apply IH. Qed.

(** One organisation: at most four steps, which are [refreshOrg]. *)
Lemma alone_org n org rest cache w : exists k, (k <= 4)%nat /\
  alone k (RSweep n (org :: rest), cache, w) = (RSweep n rest, (refreshOrg src org cache w).1, (refreshOrg src org cache w).2).
Proof using Type.
  unfold refreshOrg. rewrite bind_let. destruct (src_GetActiveBundle src org w) as [r w1] eqn:Er. cbn [fst snd].
  destruct r as [ref|e]; [|exists 1%nat; split; [lia|]; cbn; by rewrite Er]. fold (unchanged org ref cache).
  destruct (unchanged org ref cache) eqn:Eu.
  - exists 2%nat. split; [lia|]. cbn [alone refresher_exec]. rewrite Er. cbn [alone refresher_exec]. by rewrite Eu.
  - destruct (compileRef src ref w1) as [c w2] eqn:Ec. rewrite bind_let, Ec. cbn [fst snd mret io_ret].
    destruct c as [pol|e]; [exists 4%nat|exists 3%nat]; (split; [lia|]); cbn [alone refresher_exec]; rewrite Er; cbn [alone refresher_exec];
      rewrite Eu; cbn [refresher_exec]; rewrite Ec; reflexivity.
Qed.

Lemma alone_sweep n rest cache w : exists k, (k <= 4 * length rest + 1)%nat /\
  alone k (RSweep n rest, cache, w) = (RIdle (S n), (refresh_list src rest cache w).1, (refresh_list src rest cache w).2).
Proof using Type.
  revert cache w. induction rest as [|org rest IH]; intros cache w; [by exists 1%nat|]. destruct (alone_org n org rest cache w) as (k1 & Hk1 & E1).
  destruct (IH (refreshOrg src org cache w).1 (refreshOrg src org cache w).2) as (k2 & Hk2 & E2). exists (k1 + k2)%nat. split; [cbn [length]; lia|].
  rewrite alone_add, E1, E2. cbn [refresh_list]. rewrite bind_let. done.
Qed.

(** A pass that runs alone is [refreshAll]. *)
Lemma alone_pass n cache w : exists k, (k <= 4 * size cache + 2)%nat /\
  alone k (RIdle n, cache, w) = (RIdle (S n), (refreshAll src cache w).1, (refreshAll src cache w).2).
Proof using Type.
  destruct (alone_sweep n (map_to_list cache).*1 cache w) as (k & Hk & E). exists (S k). split; [|exact E].
  rewrite length_fmap, length_map_to_list in Hk. lia.
Qed.

Lemma alone_reaches k s0 s :
  reachable (eq s0) prov_step s ->
  let '(pc, cache, w) := alone k (pv_refresher s, pv_cache s, pv_world s) in
  reachable (eq s0) prov_step {| pv_cache := cache; pv_world := w; pv_refresher := pc; pv_calls := pv_calls s |}.
Proof using Type.
  revert s. induction k as [|k IH]; intros s Hs; [by destruct s|]. cbn [alone].
  destruct (refresher_exec (pv_refresher s) (pv_cache s) (pv_world s)) as [[pc cache] w] eqn:E.
  specialize (IH {| pv_cache := cache; pv_world := w; pv_refresher := pc; pv_calls := pv_calls s |}). cbn [pv_refresher pv_cache pv_world pv_calls] in IH.
  apply IH. eapply reach_step; [exact Hs|by apply step_refresher].
Qed.
End run.

Arguments provider : clear implicits.

(** * Convergence *)

(** Versions are immutable: the store has one version under a hash. *)
Class VersionedSource {W} (src : Source W) (content : string -> Version) := {
  version_content org policy hash w v w' : src_GetVersion src org policy hash w = (Ok v, w') -> v = content hash
}.

(** From these worlds on the organisation's active version is the one of [ref],
    and it can be read; others may write anything else. *)
Record settled {W} (src : Source W) (env : W -> W -> Prop) (P : W -> Prop) (org : string) (ref : BundleRef) : Prop := {
  settled_env w w' : P w -> env w w' -> P w';
  settled_active o w : P w -> P (src_GetActiveBundle src o w).2;
  settled_version o p h w : P w -> P (src_GetVersion src o p h w).2;
  settled_ref w : P w -> (src_GetActiveBundle src org w).1 = Ok ref;
  settled_read w : P w -> is_ok (src_GetVersion src (b_OrgID ref) (b_PolicyID ref) (b_VersionHash ref) w).1 = true
}.

Section converge.
Context `{BigRat} `{Unicode} `{Sha256} `{Jcs} {W : Type} (src : Source W) (env : W -> W -> Prop).
Context (content : string -> Version) `{!VersionedSource src content}.

Definition compiled (e : entry) : Prop := Compile (content (en_hash e)) = Ok (en_pol e).

Definition call_compiled (c : call_pc) : Prop := match c with CStore _ _ e => compiled e | _ => True end.
Definition refresher_compiled (pc : refresher_pc) : Prop := match pc with RStore _ _ e _ => compiled e | _ => True end.

(** Whatever is cached or about to be is the compilation of its version. *)
Record coherent (s : provider W) : Prop := {
  coherent_cache : map_Forall (fun _ e => compiled e) (pv_cache s);
  coherent_calls : Forall call_compiled (pv_calls s);
  coherent_refresher : refresher_compiled (pv_refresher s)
}.

Lemma compileRef_content ref w : match (compileRef src ref w).1 with Ok pol => compiled (entry_of ref pol) | Err _ => True end.
Proof using All.
  unfold compileRef. rewrite bind_let. destruct (src_GetVersion src _ _ _ w) as [[v|e] w1] eqn:E; cbn; [|done].
  destruct (Compile v) eqn:Ec; cbn; [|done]. unfold compiled. cbn. by rewrite <- (version_content _ _ _ _ _ _ E).
Qed.

Lemma refresher_coherent pc cache w :
  map_Forall (fun _ e => compiled e) cache -> refresher_compiled pc ->
  map_Forall (fun _ e => compiled e) (refresher_exec src pc cache w).1.2 /\ refresher_compiled (refresher_exec src pc cache w).1.1.
Proof using All.
  intros Hc Hp. destruct pc as [n|n [|org rest]|n org ref rest|n org ref rest|n org e rest]; cbn [refresher_exec]; try done.
  - destruct (src_GetActiveBundle src org w) as [[ref|e] w1]; done.
  - by case_match.
  - assert (Hx := compileRef_content ref w). destruct (compileRef src ref w) as [[pol|e] w1]; done.
  - split; [|done]. by apply map_Forall_insert_2.
Qed.

Lemma call_coherent c cache w :
  map_Forall (fun _ e => compiled e) cache -> call_compiled c ->
  map_Forall (fun _ e => compiled e) (call_exec src c cache w).1.2 /\ call_compiled (call_exec src c cache w).1.1.
Proof using All.
  intros Hc Hp. destruct c as [[] org|p org|p org ref|p org e|p org r]; cbn [call_exec]; try done.
  - by case_match.
  - destruct (src_GetActiveBundle src org w) as [[ref|[]] w1]; done.
  - assert (Hx := compileRef_content ref w). destruct (compileRef src ref w) as [[pol|e] w1]; done.
  - split; [|done]. by apply map_Forall_insert_2.
Qed.

Lemma step_coherent s s' : coherent s -> prov_step src env s s' -> coherent s'.
Proof using All.
  intros [Q1 Q2 Q3] Hstep. destruct Hstep as [s pc cache w E|s l1 c l2 c' cache w El E|s p org|s w _].
  - destruct (refresher_coherent _ _ (pv_world s) Q1 Q3) as [Ha Hb]. rewrite E in Ha, Hb. by split.
  - rewrite El in Q2. apply Forall_app in Q2 as [Q2a Q2b]. apply Forall_cons_iff in Q2b as [Q2c Q2d].
    destruct (call_coherent _ _ (pv_world s) Q1 Q2c) as [Ha Hb]. rewrite E in Ha, Hb. split; [done| |done].
    cbn [pv_calls]. apply Forall_app. split; [done|]. by constructor.
  - split; [done| |done]. cbn [pv_calls]. apply Forall_app. split; [done|]. by repeat constructor.
  - by split.
Qed.

Lemma reachable_coherent s : reachable (@prov_init W) (prov_step src env) s -> coherent s.
Proof using All.
  apply reachable_invariant; clear s; [|intros s s'; apply step_coherent].
  intros s (E1 & E2 & E3). split; [rewrite E1; apply map_Forall_empty|by rewrite E3|by rewrite E2].
Qed.

Context (P : W -> Prop) (org : string) (ref : BundleRef) (pol : Engine.Policy).
Context (Hset : settled src env P org ref) (Hpol : Compile (content (b_VersionHash ref)) = Ok pol).

Definition goal : entry := entry_of ref pol.

(** No call has an older answer for the organisation in hand. *)
Definition call_current (c : call_pc) : Prop :=
  match c with CFetched _ o r => o = org -> r = ref | CStore _ o e => o = org -> e = goal | _ => True end.

(** Past its first [k0] passes the refresher has seen to the organisation, and
    within a pass it has unless the organisation is still to come. *)
Definition refresher_current (k0 : nat) (cache : gmap string entry) (pc : refresher_pc) : Prop :=
  let seen := cache !! org = Some goal in
  ((k0 < passes pc)%nat -> seen) /\
  match pc with
  | RIdle _ => True
  | RSweep _ rest => org ∉ rest -> seen
  | RFetched _ o r rest | RChanged _ o r rest => (o = org -> r = ref) /\ (o <> org -> org ∉ rest -> seen)
  | RStore _ o e rest => (o = org -> e = goal) /\ (o <> org -> org ∉ rest -> seen)
  end.

Record current (k0 : nat) (old : option entry) (s : provider W) : Prop := {
  current_world : P (pv_world s);
  current_cached : is_Some (pv_cache s !! org);
  current_entry : pv_cache s !! org = old \/ pv_cache s !! org = Some goal;
  current_calls : Forall call_current (pv_calls s);
  current_refresher : refresher_current k0 (pv_cache s) (pv_refresher s)
}.

Definition keeps (cache cache' : gmap string entry) : Prop := cache' !! org = cache !! org \/ cache' !! org = Some goal.

Lemma keeps_seen cache cache' : keeps cache cache' -> cache !! org = Some goal -> cache' !! org = Some goal.
Proof using Type. by intros [-> | ->]. Qed.

Lemma keeps_store o e cache : (o = org -> e = goal) -> keeps cache (<[o := e]> cache).
Proof using Type.
  intros He. unfold keeps. destruct (decide (o = org)) as [->|Hne]; [rewrite lookup_insert_eq, He by done; by right|rewrite lookup_insert_ne by done; by left].
Qed.

Lemma refresher_current_keeps k0 cache cache' pc : keeps cache cache' -> refresher_current k0 cache pc -> refresher_current k0 cache' pc.
Proof using Type.
  intros Hk [Q1 Q2]. split; [intros Hn; by eapply keeps_seen, Q1|]. destruct pc as [n|n rest|n o r rest|n o r rest|n o e rest];
    [done|intros Hr; by eapply keeps_seen, Q2|..]; (split; [apply Q2|intros Ho Hr; eapply keeps_seen; [done|by apply Q2]]).
Qed.

Lemma compileRef_world r w : P w -> P (compileRef src r w).2.
Proof using Hset.
  intros Hw. unfold compileRef. rewrite bind_let. assert (Hv := settled_version _ _ _ _ _ Hset (b_OrgID r) (b_PolicyID r) (b_VersionHash r) w Hw).
  by destruct (src_GetVersion src _ _ _ w).
Qed.

Lemma compileRef_settled w : P w -> (compileRef src ref w).1 = Ok pol.
Proof using Type*.
  intros Hw. unfold compileRef. rewrite bind_let. assert (Hr := settled_read _ _ _ _ _ Hset w Hw).
  destruct (src_GetVersion src _ _ _ w) as [[v|e] w1] eqn:E; [|done]. cbn. by rewrite (version_content _ _ _ _ _ _ E), Hpol.
Qed.

Lemma unchanged_goal cache : map_Forall (fun _ e => compiled e) cache -> unchanged org ref cache = true -> cache !! org = Some goal.
Proof using Hpol.
  intros Hc. unfold unchanged. destruct (cache !! org) as [cur|] eqn:E; [|done]. intros Hh%String.eqb_eq.
  assert (Hcur := map_Forall_lookup_1 _ _ _ _ Hc E). cbn in Hcur. unfold compiled in Hcur. rewrite Hh, Hpol in Hcur. injection Hcur as Hcur.
  destruct cur as [h q]. cbn in *. subst. done.
Qed.

Lemma refresher_step k0 cache pc w :
  P w -> map_Forall (fun _ e => compiled e) cache -> is_Some (cache !! org) -> refresher_current k0 cache pc ->
  let '(pc', cache', w') := refresher_exec src pc cache w in P w' /\ keeps cache cache' /\ refresher_current k0 cache' pc'.
Proof using Type*.
  intros Hw Hc Hs [Q1 Q2]. assert (Hsame : keeps cache cache) by by left.
  destruct pc as [n|n [|o rest]|n o r rest|n o r rest|n o e rest]; cbn [refresher_exec].
  - split_and!; [done..|split; [exact Q1|]]. intros Hn. destruct Hn, Hs as [e He]. apply list_elem_of_fmap. exists (org, e). split; [done|]. by apply elem_of_map_to_list.
  - split_and!; [done..|split; [|done]]. intros _. apply Q2, not_elem_of_nil.
  - assert (Hw' := settled_active _ _ _ _ _ Hset o w Hw). assert (Hr := settled_ref _ _ _ _ _ Hset w Hw).
    rewrite not_elem_of_cons in Q2. destruct (src_GetActiveBundle src o w) as [[r|e] w1] eqn:E; cbn [snd] in Hw'; split_and!; try done; (split; [exact Q1|]).
    + split; [intros ->; rewrite E in Hr; by injection Hr|]. intros Ho Hin. by apply Q2.
    + intros Hin. apply Q2. split; [|done]. intros <-. by rewrite E in Hr.
  - destruct Q2 as [Q2 Q3]. split; [done|]. split; [done|]. destruct (unchanged o r cache) eqn:Eu; (split; [exact Q1|]); [|done].
    intros Hin. destruct (decide (o = org)) as [->|Ho]; [|by apply Q3]. rewrite Q2 in Eu by done. by apply unchanged_goal.
  - destruct Q2 as [Q2 Q3]. assert (Hw' := compileRef_world r w Hw). assert (Hp := compileRef_settled w Hw).
    destruct (compileRef src r w) as [[p|e] w1] eqn:E; cbn [snd] in Hw'; split_and!; try done; (split; [exact Q1|]).
    + split; [|done]. intros Ho. rewrite Q2, E in * by done. cbn in Hp. by injection Hp as ->.
    + intros Hin. destruct (decide (o = org)) as [Ho|Ho]; [|by apply Q3]. rewrite Q2, E in * by done. done.
  - destruct Q2 as [Q2 Q3]. assert (Hk := keeps_store o e cache Q2). split; [done|]. split; [done|].
    split; [intros Hn; by eapply keeps_seen, Q1|]. intros Hin. destruct (decide (o = org)) as [->|Ho]; [rewrite lookup_insert_eq, Q2 by done; done|].
    eapply keeps_seen; [done|]. by apply Q3.
Qed.

Lemma call_step c cache w : P w -> call_current c ->
  let '(c', cache', w') := call_exec src c cache w in P w' /\ keeps cache cache' /\ call_current c'.
Proof using Type*.
  intros Hw Hc. assert (Hsame : keeps cache cache) by by left.
  destruct c as [[] o|p o|p o r|p o e|p o r]; cbn [call_exec]; try done.
  - by destruct (cache !! o).
  - assert (Hw' := settled_active _ _ _ _ _ Hset o w Hw). assert (Hr := settled_ref _ _ _ _ _ Hset w Hw).
    destruct (src_GetActiveBundle src o w) as [[r|[]] w1] eqn:E; cbn [snd] in Hw'; try done. split_and!; [done..|].
    intros ->. rewrite E in Hr. by injection Hr.
  - assert (Hw' := compileRef_world r w Hw). assert (Hp := compileRef_settled w Hw). cbn [call_current] in Hc.
    destruct (compileRef src r w) as [[q|e] w1] eqn:E; cbn [snd] in Hw'; try done. split_and!; [done..|].
    intros Ho. rewrite Hc, E in * by done. cbn in Hp. by injection Hp as ->.
  - split; [done|]. split; [|done]. by apply keeps_store.
Qed.

Lemma keeps_cached cache cache' : keeps cache cache' -> is_Some (cache !! org) -> is_Some (cache' !! org).
Proof using Type. intros [-> | ->]; eauto. Qed.

Lemma keeps_entry old cache cache' : keeps cache cache' -> cache !! org = old \/ cache !! org = Some goal -> cache' !! org = old \/ cache' !! org = Some goal.
Proof using Type. intros [-> | ->]; eauto. Qed.

Lemma step_current k0 old s s' : coherent s -> current k0 old s -> prov_step src env s s' -> current k0 old s'.
Proof using Type*.
  intros [Hc _ _] [Q1 Q2 Q3 Q4 Q5] Hstep. destruct Hstep as [s pc cache w E|s l1 c l2 c' cache w El E|s p o|s w He].
  - assert (Hs := refresher_step k0 _ _ _ Q1 Hc Q2 Q5). rewrite E in Hs. destruct Hs as (Hw & Hk & Hr).
    split; cbn [pv_cache pv_world pv_refresher pv_calls]; eauto using keeps_cached, keeps_entry.
  - rewrite El in Q4. apply Forall_app in Q4 as [Q4a Q4b]. apply Forall_cons_iff in Q4b as [Q4c Q4d].
    assert (Hs := call_step c (pv_cache s) _ Q1 Q4c). rewrite E in Hs. destruct Hs as (Hw & Hk & Hr).
    split; cbn [pv_cache pv_world pv_refresher pv_calls]; eauto using keeps_cached, keeps_entry, refresher_current_keeps.
    apply Forall_app. split; [done|]. by constructor.
  - split; cbn [pv_cache pv_world pv_refresher pv_calls]; try done. apply Forall_app. split; [done|]. by repeat constructor.
  - split; cbn [pv_cache pv_world pv_refresher pv_calls]; try done. by eapply settled_env.
Qed.

Lemma run_current k0 old s s' : coherent s -> current k0 old s -> reachable (eq s) (prov_step src env) s' -> coherent s' /\ current k0 old s'.
Proof using Type*.
  intros Hcoh Hcur. apply (reachable_invariant (eq s) (prov_step src env) (fun s' => coherent s' /\ current k0 old s')); [by intros ? <-|].
  intros a b [Ha Hca] Hstep. split; [by eapply step_coherent|by eapply step_current].
Qed.

(** What holds of the entry is held by what follows. *)
Lemma goal_stays k0 old s s' : coherent s -> current k0 old s -> pv_cache s !! org = Some goal ->
  reachable (eq s) (prov_step src env) s' -> pv_cache s' !! org = Some goal.
Proof using Type*.
  intros Hcoh [Hw1 Hw2 _ Hw4 Hw5] Hg Hr. destruct (run_current k0 (Some goal) s s') as [_ [_ _ [?|?] _ _]]; [done|by split; auto|done|done..].
Qed.
End converge.

(** The refresher's own steps finish its pass, wherever it is in it. *)
Lemma pass_ends `{BigRat} `{Unicode} `{Sha256} `{Jcs} {W} (src : Source W) pc cache w :
  exists k, passes (alone src k (pc, cache, w)).1.1 = S (passes pc).
Proof.
  assert (Hsweep : forall n rest cache w, exists k, passes (alone src k (RSweep n rest, cache, w)).1.1 = S n).
  { intros n rest c v. destruct (alone_sweep src n rest c v) as (k & _ & E). exists k. by rewrite E. }
  assert (Hstore : forall n o e rest cache w, exists k, passes (alone src k (RStore n o e rest, cache, w)).1.1 = S n).
  { intros n o e rest c v. destruct (Hsweep n rest (<[o := e]> c) v) as (k & E). by exists (S k). }
  assert (Hchanged : forall n o r rest cache w, exists k, passes (alone src k (RChanged n o r rest, cache, w)).1.1 = S n).
  { intros n o r rest c v. destruct (compileRef src r v) as [[pol|e] v'] eqn:E; [destruct (Hstore n o (entry_of r pol) rest c v') as (k & Ek)|destruct (Hsweep n rest c v') as (k & Ek)];
      exists (S k); cbn [alone refresher_exec]; by rewrite E. }
  destruct pc as [n|n rest|n o r rest|n o r rest|n o e rest]; cbn [passes]; [|auto..].
  - destruct (Hsweep n (map_to_list cache).*1 cache w) as (k & E). by exists (S k).
  - destruct (unchanged o r cache) eqn:E; [destruct (Hsweep n rest cache w) as (k & Ek)|destruct (Hchanged n o r rest cache w) as (k & Ek)];
      exists (S k); cbn [alone refresher_exec]; by rewrite E.
Qed.

(** C16: What is published elsewhere reaches the cache within a pass.  Let an
    organisation be cached, let the store name one readable version for it from
    now on, whatever else is written, and let no call still hold an answer that
    the store gave for it before (such a call would put it back), with the
    refresher between two passes.  Then, however new calls interleave, the
    organisation is served its old bundle or that version's; once a pass of the
    refresher is over, that version's; from then on every request is served it
    without the store; and the pass ends by the refresher's own steps. *)
Theorem refresher_converges `{BigRat} `{Unicode} `{Sha256} `{Jcs} {W} (src : Source W) env content `{!VersionedSource src content} P org ref pol
  (Hset : settled src env P org ref) (Hpol : Compile (content (b_VersionHash ref)) = Ok pol)
  s k0 (Hr : reachable (@prov_init W) (prov_step src env) s) (Hs : P (pv_world s)) (Hcached : is_Some (pv_cache s !! org))
  (Hidle : pv_refresher s = RIdle k0) (Hcalls : Forall (call_current org ref pol) (pv_calls s))
  s' (Hrun : reachable (eq s) (prov_step src env) s') :
  let served s := pv_cache s !! org = Some (entry_of ref pol) in
  (pv_cache s' !! org = pv_cache s !! org \/ served s') /\
  ((k0 < passes (pv_refresher s'))%nat -> served s') /\
  (served s' -> forall s'', reachable (eq s') (prov_step src env) s'' ->
     served s'' /\ forall w, call_exec src (CStart ForActive org) (pv_cache s'') w = (CDone ForActive org (Ok pol), pv_cache s'', w)) /\
  exists k, passes (alone src k (pv_refresher s', pv_cache s', pv_world s')).1.1 = S (passes (pv_refresher s')).
Proof.
  cbv zeta. assert (Hcoh := reachable_coherent src env content s Hr).
  assert (Hcur : current P org ref pol k0 (pv_cache s !! org) s) by (split; [done|done|by left|done|rewrite Hidle; split; [cbn; lia|done]]).
  destruct (run_current src env content P org ref pol Hset Hpol k0 _ s s' Hcoh Hcur Hrun) as [Hcoh' Hcur']. split_and!.
  - apply Hcur'.
  - apply Hcur'.
  - intros Hg s'' Hr'. assert (Hg' := goal_stays src env content P org ref pol Hset Hpol k0 _ s' s'' Hcoh' Hcur' Hg Hr').
    split; [done|]. intros w. cbn [call_exec]. by rewrite Hg'.
  - apply pass_ends.
Qed.
