(* ===== verification/DryRun.v ===== *)
(** Dry runs of a policy ([internal/bundle/simulate.go]): a published version,
    or the working copy, evaluated on a batch of requests. *)

From S2P Require Import Prelude GoStrings GoTime Contracts Verdict Money Predicates Runtime RedisKv Signing Engine EngineProps PolicyLoad Policyctl BundleProv Pg PolicyPg.

(** The store as the simulator reads it. *)
Record SimSource (W : Type) := {
  sim_GetPolicy : string -> string -> io W (result policy_error Policyctl.Policy);
  sim_GetVersion : string -> string -> string -> io W (result policy_error Version)
}.
Arguments sim_GetPolicy {W} _ _ _.
Arguments sim_GetVersion {W} _ _ _ _.

Section dryrun.
Context `{BigRat} `{Unicode} `{Sha256} `{Jcs} `{PolicySchema} {W : Type} `{Runtime W}.
Context (src : SimSource W).

(** The policy and label a dry run evaluates. *)
Definition sim_target (orgID policyID versionHash : string) : io W (result sim_error (string * Engine.Policy)) :=
  if negb (String.eqb versionHash "") then
    r ← sim_GetVersion src orgID policyID versionHash;
    mret match r with
         | Err e => Err (SimStore e)
         | Ok v => match Compile v with Ok pol => Ok (v_VersionHash v, pol) | Err e => Err (SimCompile e) end
         end
  else
    r ← sim_GetPolicy src orgID policyID;
    mret match r with
         | Err e => Err (SimStore e)
         | Ok p =>
           match Validate (p_OrgID p) (p_Name p) (p_Agents p) (p_Rules p) with
           | Err e => Err (SimStore e)
           | Ok _ =>
             let label := "draft:" +:+ p_ID p in
             match CompileRules label (p_Rules p) with Ok pol => Ok (label, pol) | Err e => Err (SimCompile e) end
           end
         end.

Definition stamp_request (req : AuthorizeRequest) : io W string :=
  if String.eqb (req_EvaluatedAt req) "" then t ← now; mret (format_rfc3339 t) else mret (req_EvaluatedAt req).

(** A simulated decision is advisory. *)
Fixpoint simulate_all (pol : Engine.Policy) (reqs : list AuthorizeRequest) : io W (list Decision) :=
  match reqs with
  | [] => mret []
  | req :: reqs =>
    at_ ← stamp_request req;
    d ← engine_Evaluate pol req at_;
    ds ← simulate_all pol reqs;
    mret (set_Shadow true d :: ds)
  end.

Definition Simulate (orgID policyID versionHash : string) (reqs : list AuthorizeRequest) : io W (result sim_error (string * list Decision)) :=
  r ← sim_target orgID policyID versionHash;
  match r with
  | Err e => mret (Err e)
  | Ok (label, pol) => ds ← simulate_all pol reqs; mret (Ok (label, ds))
  end.
End dryrun.

(** * The two stores *)

(** What the simulator relies on: its reads change nothing. *)
Class SimReads {W V : Type} (src : SimSource W) (view : W -> V) := {
  sim_policy_keeps org id w : view (sim_GetPolicy src org id w).2 = view w;
  sim_version_keeps org id h w : view (sim_GetVersion src org id h w).2 = view w
}.

Definition mem_sim_source {W} (get : W -> Policyctl.MemStore) (put : Policyctl.MemStore -> W -> W) : SimSource W :=
  {| sim_GetPolicy org id := zoom get put (fun m => (GetPolicy org id m, m));
     sim_GetVersion org id h := zoom get put (fun m => (GetVersion org id h m, m)) |}.

#[export] Instance mem_sim_reads {W} get put `{!Lens (W:=W) get put} : SimReads (mem_sim_source get put) get.
Proof. split; intros; cbn [mem_sim_source sim_GetPolicy sim_GetVersion]; rewrite zoom_eq; cbn [snd]; apply get_put. Qed.

(** [how] is what becomes of a statement. *)
Definition pg_sim_source {W} (tables : W -> pg_tables) (how : W -> fault) : SimSource W :=
  {| sim_GetPolicy org id w := ((on_store (how w) (fun t => (Pg_GetPolicy org id t, t)) (tables w)).1, w);
     sim_GetVersion org id h w := ((on_store (how w) (fun t => (Pg_GetVersion org id h t, t)) (tables w)).1, w) |}.

#[export] Instance pg_sim_reads {W V} tables how (view : W -> V) : SimReads (pg_sim_source tables how) view.
Proof. done. Qed.

(** * What a preview says of the decisions to come *)

Section predict.
Context `{BigRat} `{Unicode} `{Sha256} `{Jcs} `{PolicySchema} `{Ed25519} {W : Type} `{Runtime W}.

(** The same policy under another label. *)
Definition relabel (version : string) (pol : Engine.Policy) : Engine.Policy :=
  {| pol_Version := version; pol_Predicates := pol_Predicates pol; pol_Budgets := pol_Budgets pol |}.

Lemma parse_rules_relabel label version rules pol :
  label <> "" -> version <> "" -> parse_rules struct_order label rules = Ok pol -> parse_rules struct_order version rules = Ok (relabel version pol).
Proof using Type.
  intros Hl%String.eqb_neq Hv%String.eqb_neq. unfold parse_rules. destruct (docs_of_rules struct_order rules) as [docs|e]; cbn [mbind result_bind]; [|done].
  unfold Parse. cbn [f_Version f_Predicates]. rewrite Hl, Hv. destruct (build_all 0 [] docs) as [ps|e]; cbn [mbind result_bind]; [|done].
  by intros [= <-].
Qed.

Lemma CompileRules_relabel label version rules pol :
  label <> "" -> version <> "" -> CompileRules label rules = Ok pol -> CompileRules version rules = Ok (relabel version pol).
Proof using Type.
  intros Hl Hv. unfold CompileRules. destruct (split_rules rules) as [local budgets].
  destruct (parse_rules struct_order label local) as [pol0|e] eqn:Ep; cbn [mbind result_bind]; [|done]. intros [= <-].
  by rewrite (parse_rules_relabel label version local pol0 Hl Hv Ep).
Qed.

(** The engine resolves the organisation's policy to this one. *)
Definition serves (e : Engine W) (org : string) (pol : Engine.Policy) : Prop :=
  forall w q w', resolve_policy e org w = (Ok q, w') -> q = pol.

(** The verdict of an approval with a budget to pass. *)
Definition budget_verdict (o : BudgetOutcome) : string :=
  match o with BudgetWithinLimit => VerdictApprove | BudgetExceeded => VerdictDeny | BudgetUnavailable => VerdictReview end.

(** A preview of a request: what an engine that serves the policy decides on it
    at the same instant is the preview, but for an enforcing request with a
    budget to consult: there, the one reservation the engine makes turns the
    previewed approval into its outcome's verdict, and adds its rule. *)
Definition predicts (pol : Engine.Policy) (req : AuthorizeRequest) (d : Decision) : Prop :=
  dec_Shadow d = true /\ dec_Signature d = empty_signature /\ dec_Obligations d = [] /\
  (req_EvaluatedAt req <> "" -> dec_EvaluatedAt d = req_EvaluatedAt req) /\
  forall (e : Engine W) org shadow w d' w',
    serves e org pol -> Authorize e org req shadow w = (Ok d', w') -> dec_EvaluatedAt d' = dec_EvaluatedAt d ->
    (shadow = true \/ dec_Verdict d <> VerdictApprove ->
     dec_Verdict d' = dec_Verdict d /\ dec_Explanation d' = dec_Explanation d /\ dec_Obligations d' = []) /\
    (shadow = false -> dec_Verdict d = VerdictApprove ->
     match applicableBudget pol (req_AgentID req), e_Reserver e with
     | Some b, Some R => exists u res u', Reserve R org (dec_DecisionID d') req b u = (res, u') /\
         dec_Verdict d' = budget_verdict (br_Outcome res) /\
         exp_MatchedRules (dec_Explanation d') = exp_MatchedRules (dec_Explanation d) ++ [budgetMatchedRule b req res]
     | _, _ => dec_Verdict d' = VerdictApprove /\ dec_Explanation d' = dec_Explanation d
     end).

Lemma toContract_approve v : toContractVerdict v = VerdictApprove <-> v = Approve.
Proof using Type. by destruct v. Qed.

Lemma evaluated_predicts pol version req at_ w :
  (req_EvaluatedAt req <> "" -> at_ = req_EvaluatedAt req) -> predicts (relabel version pol) req (set_Shadow true (engine_Evaluate pol req at_ w).1).
Proof using Type.
  intros Hat. unfold predicts, engine_Evaluate. rewrite evalLocal_spec, bind_let. cbn [fst snd mret io_ret set_Shadow assembleDecision
    dec_Shadow dec_Signature dec_Obligations dec_EvaluatedAt dec_Verdict dec_Explanation]. split_and!; [done..|].
  intros e org shadow u d' u' Hs Hrun Hev. apply Authorize_run in Hrun as (q & at' & c & w1 & w2 & Hres & (v1 & v2 & Hc) & Hv & _ & He & Hd & _ & _ & base & _ & Ho).
  rewrite (Hs _ _ _ Hres) in *. assert (at' = at_) as -> by congruence. rewrite Hv, He, Ho. cbn [assembleExplanation exp_MatchedRules].
  change (applicable (relabel version pol)) with (applicable pol) in *. split.
  - intros Hn. destruct c as [[b r]|]; cbn [consult_results consult_rules consult_held]; [|by rewrite !app_nil_r].
    destruct Hc as (-> & Happ & _). change (applicable (relabel version pol)) with (applicable pol) in Happ. rewrite Happ in Hn. by destruct Hn.
  - intros -> Ha. pose proof Ha as Hc0. apply toContract_approve in Hc0. destruct c as [[b [res|]]|]; cbn [consults consult_results consult_rules] in *.
    + destruct Hc as (_ & _ & Hb & R & HR & Hres'). rewrite Hb, HR. exists v1, res, v2. split; [done|]. split; [|done].
      rewrite Combine_app by (done || by intros E0; rewrite E0 in Hc0). rewrite Hc0, (left_id Approve join), Combine_cons. cbn. rewrite (right_id Approve join), verdict_of_budget. by destruct (br_Outcome res).
    + destruct Hc as (_ & _ & Hb & _ & HR). rewrite Hb, HR, !app_nil_r. by rewrite Hc0.
    + change (applicable (relabel version pol)) with (applicable pol) in Hc. destruct Hc as (_ & [?|[?|Hb]]); [done|done|]. rewrite Hb, !app_nil_r. by rewrite Hc0.
Qed.

Context (src : SimSource W) {V : Type} (view : W -> V) `{!SimReads src view} `{!Frame view}.

Lemma stamp_request_spec req w : (req_EvaluatedAt req <> "" -> (stamp_request req w).1 = req_EvaluatedAt req) /\ view (stamp_request req w).2 = view w.
Proof using Frame0.
  unfold stamp_request. destruct (String.eqb_spec (req_EvaluatedAt req) "") as [->|Hn]; [|done]. split; [done|]. rewrite bind_let. apply now_frame.
Qed.

Lemma simulate_all_spec pol version reqs w :
  Forall2 (predicts (relabel version pol)) reqs (simulate_all pol reqs w).1 /\ view (simulate_all pol reqs w).2 = view w.
Proof using Frame0.
  revert w. induction reqs as [|req reqs IH]; intros w; [by split; [constructor|]|]. cbn [simulate_all]. rewrite !bind_let. cbn [mret io_ret fst snd].
  destruct (stamp_request_spec req w) as [Hat Hw]. destruct (IH (engine_Evaluate pol req (stamp_request req w).1 (stamp_request req w).2).2) as [Hf Hv].
  split; [constructor; [by apply evaluated_predicts|done]|]. rewrite Hv. unfold engine_Evaluate. rewrite evalLocal_spec, bind_let. cbn. by rewrite ulid_New_frame.
Qed.

Lemma sim_target_keeps org id h w : view (sim_target src org id h w).2 = view w.
Proof using SimReads0.
  unfold sim_target. destruct (negb _); rewrite bind_let; cbn; [apply sim_version_keeps | apply sim_policy_keeps].
Qed.

(** C14: A dry run foretells the decisions.  It changes nothing.  Given a version
    hash, it evaluates the version the store answers with, under its hash; else
    the working copy, and any version published with the working copy's rules
    compiles.  There is one decision per request, in order, unsigned, advisory,
    at the request's own instant if it states one.  Whatever engine serves that
    version decides the same at that instant for a shadow request, for one that
    the preview does not approve, and for an enforcing one to whose agent no
    budget applies or that has no reserver; otherwise it reserves, approves when
    that is within the limit, denies when it exceeds it, asks for a review when
    the budget is unavailable, and adds that one rule. *)
Theorem preview_predicts org id h reqs w label ds w' (Hrun : Simulate src org id h reqs w = (Ok (label, ds), w')) :
  view w' = view w /\
  (h <> "" -> exists v w1 pol, sim_GetVersion src org id h w = (Ok v, w1) /\ label = v_VersionHash v /\ Compile v = Ok pol /\
     Forall2 (predicts pol) reqs ds) /\
  (h = "" -> exists p w1, sim_GetPolicy src org id w = (Ok p, w1) /\ label = "draft:" +:+ p_ID p /\
     forall v, v_Rules v = p_Rules p -> v_VersionHash v <> "" -> exists pol, Compile v = Ok pol /\ Forall2 (predicts pol) reqs ds).
Proof using All.
  unfold Simulate in Hrun. rewrite bind_let in Hrun. pose proof (sim_target_keeps org id h w) as Hk.
  destruct (sim_target src org id h w) as [[[lab pol]|e] w1] eqn:Et; cbn [fst snd] in *; [|done]. rewrite bind_let in Hrun. injection Hrun as -> <- <-.
  split; [by rewrite (proj2 (simulate_all_spec pol "" reqs w1))|]. unfold sim_target in Et.
  destruct (String.eqb_spec h "") as [->|Hh]; cbn [negb] in Et; rewrite bind_let in Et; cbn [mret io_ret] in Et; (split; intros Hn; [|try done]); [done| |].
  - destruct (sim_GetPolicy src org id w) as [[p|e] w2]; cbn [fst snd] in Et; [|done]. destruct (Validate _ _ _ _) as [u|e]; [|done].
    destruct (CompileRules _ _) as [pol'|e] eqn:Ec; [|done]. injection Et as <- -> _. exists p, w2. split; [done|]. split; [done|].
    intros v Hr Hv. exists (relabel (v_VersionHash v) pol). split; [|by apply simulate_all_spec]. unfold Compile. rewrite Hr.
    eapply CompileRules_relabel; [|exact Hv|exact Ec]. done.
  - destruct (sim_GetVersion src org id h w) as [[v|e] w2]; cbn [fst snd] in Et; [|done]. destruct (Compile v) as [pol'|e] eqn:Ec; [|done].
    injection Et as <- -> _. exists v, w2, pol. split_and!; [done..|]. pose proof (simulate_all_spec pol (pol_Version pol) reqs w1) as [Hf _].
    unfold relabel in Hf. by destruct pol.
Qed.
End predict.
