(* ===== verification/PolicyMem.v ===== *)
(** Concrete policies: the witnesses of the loader's, the control plane's and
    the bundle cache's properties, and a dry run over Postgres rows. *)

From S2P Require Import Prelude GoStrings GoTime Contracts Money Predicates Runtime Signing Engine Samples Sha2 PolicyLoad Policyctl PolicyctlProps BundleProv AuditMem Pg PolicyPg DryRun.

#[local] Existing Instances sha2 sha2_laws toy_ed25519 toy_laws sample_jcs sample_bigrat sample_unicode.

Definition known_type (j : json) : bool :=
  match j with
  | JObj (_ :: (_, JStr t) :: _) => mem_str t (localRuleTypes ++ enrichedRuleTypes)
  | _ => false
  end.

(** A schema that checks the types of the rules. *)
#[local] Instance type_schema : PolicySchema :=
  {| schema_problems j :=
       match j with
       | JObj (_ :: _ :: (_, JArr rules) :: _) =>
         if forallb known_type rules then [] else [{| pb_Pointer := "/rules"; pb_Detail := "unknown type" |}]
       | _ => [{| pb_Pointer := ""; pb_Detail := "no rules" |}]
       end |}.

Definition rule (id type max window limit : string) (agents : list string) : Rule :=
  {| r_ID := id; r_Type := type; r_Agents := agents; r_Max := max; r_Currency := ""; r_Vendors := []; r_AllowedActions := [];
     r_AllowedTargets := []; r_StartMinute := None; r_EndMinute := None; r_Weekdays := []; r_Allowed := ∅; r_Window := window;
     r_Limit := limit; r_Provider := ""; r_Threshold := None; r_FailMode := "" |}.

Definition rules1 : list Rule :=
  [rule "cap" TypePerTransactionLimit "100.00" "" "" ["a1"]; rule "month" TypeRollingBudget "" "monthly" "500.00" [];
   rule "sanctions" TypeSanctionsScreen "" "" "" []].
Definition rules2 : list Rule := [rule "cap" TypePerTransactionLimit "250.00" "" "" []].

Definition signer1 : Signer := {| sgn_keyID := "k1"; sgn_priv := seed_a |}.

Definition ops1 : list op :=
  [OpCreate "pol_1" 1 "org1" "spend" [] rules1; OpPublish 2 3 4 "org1" "pol_1" "ann"; OpUpdate 5 "org1" "pol_1" "" [] rules2;
   OpPublish 6 7 8 "org1" "pol_1" "bob"; OpPublish 9 10 11 "org1" "pol_1" "eve"].
Definition store1 : MemStore := foldl (fun m o => exec signer1 o m) NewMemStore ops1.

Definition hash1 : string := match ContentHash "pol_1" "org1" "spend" [] rules1 with Ok h => h | Err _ => "" end.
Definition store2 : MemStore := exec signer1 (OpRollback 12 13 "org1" "pol_1" hash1) store1.

(** The republish by another author is the version there is; rolling back
    reinstates the first one. *)
Example history :
  (v_Author <$> ListVersions "org1" "pol_1" store1,
   match Active "org1" "pol_1" store1 with Ok v => v_Author v | Err _ => "" end,
   match Active "org1" "pol_1" store2 with Ok v => v_Author v | Err _ => "" end) = (["bob"; "ann"], "bob", "ann").
Proof. vm_compute. reflexivity. Qed.

(** A stray field of another type is caught by the engine's loader. *)
Example stray_field_rejected :
  is_ok (Validate "org1" "n" [] [rule "cap" TypePerTransactionLimit "1.00" "daily" "" []]) = false.
Proof. vm_compute. reflexivity. Qed.

Definition file1 : file := {| f_Version := ""; f_Predicates := match docs_of_rules struct_order rules2 with Ok ds => ds | Err _ => [] end |}.

Definition mem_source : Source MemStore :=
  {| src_GetActiveBundle org m := (GetActiveBundle org m, m); src_GetVersion org id h m := (GetVersion org id h m, m) |}.

Definition cache1 : gmap string entry := (run_call mem_source (CallInvalidate "org1") ∅ store1).1.

(** * Witnesses *)

Lemma policy_versions_sound_witness :
  exists v, GetVersion "org1" "pol_1" hash1 store1 = Ok v /\ version_ok (Public (NewKeyFromSeed seed_a)) v.
Proof.
  destruct (GetVersion "org1" "pol_1" hash1 store1) as [v|e] eqn:E; [|vm_compute in E; discriminate E].
  exists v. split; [reflexivity|].
  exact (proj1 (proj2 (proj1 (policy_versions_sound signer1 seed_a ops1 store1 eq_refl eq_refl) "org1" "pol_1" hash1 v E))).
Defined.

Lemma published_policy_compiles_witness :
  exists pol, CompileRules "v1" rules1 = Ok pol /\ pol_Version pol = "v1".
Proof.
  assert (Hv : Validate "org1" "spend" [] rules1 = Ok tt) by (vm_compute; reflexivity).
  destruct (published_policy_compiles "org1" "spend" [] rules1 "v1" Hv ltac:(discriminate)) as (pol & H1 & H2 & _).
  - intros _. unfold rules1. repeat (constructor; [apply (bool_decide_unpack _); vm_compute; reflexivity|]). constructor.
  - exists pol. split; [exact H1 | exact H2].
Defined.

Lemma provider_last_known_good_witness :
  exists e, fetched mem_source "org1" store1 e /\ forall m, Provider_Active mem_source "org1" cache1 m = ((Ok (en_pol e), cache1), m).
Proof.
  assert (Hok : (Invalidate mem_source "org1" ∅ store1).1.1 = Ok tt) by (vm_compute; reflexivity).
  exact (proj2 (proj2 (proj2 (provider_last_known_good mem_source (CallInvalidate "org1") ∅ store1 cache1 _
    (surjective_pairing _)))) "org1" eq_refl Hok).
Defined.

(** * A dry run over Postgres rows *)

Abbreviation dworld := (sworld pg_tables).
#[local] Instance druntime : Runtime dworld := sample_runtime _.
#[local] Instance dframe : Frame (sw_store (V:=pg_tables)) := sample_frame _.

Definition draft_src : SimSource dworld := pg_sim_source sw_store (fun _ => Live).

(** The draft of a policy capping a transaction at 250.00. *)
Definition draft_rows : pg_tables :=
  {| t_policies := {["pol_1" := {| p_ID := "pol_1"; p_OrgID := "org1"; p_Name := "spend"; p_Agents := []; p_Rules := rules2; p_Status := StatusDraft;
       p_ActiveVersionHash := ""; p_CreatedAt := 0; p_UpdatedAt := 0 |}]}; t_versions := ∅; t_bundles := ∅ |}.

Definition dw0 : dworld := world0 draft_rows.

Definition at_noon (amount : string) : AuthorizeRequest :=
  {| req_AgentID := "a"; req_Action := "pay"; req_Amount := amount; req_Currency := "USD";
     req_Target := {| tgt_Type := TargetVendor; tgt_ID := "acme" |}; req_Jurisdiction := "US"; req_Context := ∅;
     req_IdempotencyKey := "key-0001"; req_EvaluatedAt := "2026-03-02T12:00:00Z"; req_CounterSnapshot := None |}.

Definition batch : list AuthorizeRequest := [at_noon "25.00"; at_noon "300.00"].

Definition preview (hash : string) (w : dworld) : result sim_error (string * list Decision) := (Simulate draft_src "org1" "pol_1" hash batch w).1.

Example draft_preview :
  (prod_map id (map dec_Verdict) <$> preview "" dw0) = Ok ("draft:pol_1", [VerdictApprove; VerdictDeny]) /\
  preview "none" dw0 = Err (SimStore ErrVersionNotFound).
Proof. vm_compute. done. Qed.

Definition version2 : Version :=
  {| v_VersionHash := "h2"; v_PolicyID := "pol_1"; v_OrgID := "org1"; v_Name := "spend"; v_Agents := []; v_Rules := rules2;
     v_Signature := empty_signature; v_Author := "ann"; v_ParentHash := ""; v_PublishedAt := 0 |}.

Lemma preview_predicts_witness :
  exists label ds pol, preview "" dw0 = Ok (label, ds) /\ Compile version2 = Ok pol /\ Forall2 (predicts (W:=dworld) pol) batch ds.
Proof.
  assert (Hok : is_ok (Simulate draft_src "org1" "pol_1" "" batch dw0).1 = true) by (vm_compute; reflexivity).
  unfold preview. destruct (Simulate draft_src "org1" "pol_1" "" batch dw0) as [[[label ds]|e] w'] eqn:E; [|discriminate Hok].
  destruct (preview_predicts draft_src sw_store "org1" "pol_1" "" batch dw0 label ds w' E) as (_ & _ & Hd).
  destruct (Hd eq_refl) as (p & w1 & Hp & _ & Hv). injection Hp as Hp _.
  destruct (Hv version2) as (pol & Hc & Hf); [by rewrite <- Hp | discriminate|].
  exists label, ds, pol. by split_and!.
Defined.
