(* ===== verification/BundleMem.v ===== *)
(** The bundle cache of [BundleRun] over a concrete store, in which a second
    instance publishes: the witness of its convergence, and the race that lets
    an older bundle overwrite a newer one. *)

From S2P Require Import Prelude GoStrings GoTime Contracts Money Predicates Runtime Signing Engine Samples Sha2 PolicyLoad Policyctl BundleProv AuditMem PolicyMem BundleRun.

#[local] Existing Instances sha2 sha2_laws toy_ed25519 toy_laws sample_jcs sample_bigrat sample_unicode.

Definition hash2 : string := match ContentHash "pol_1" "org1" "spend" [] rules2 with Ok h => h | Err _ => "" end.

Definition version_at (hash : string) (rules : list Rule) : Version :=
  {| v_VersionHash := hash; v_PolicyID := "pol_1"; v_OrgID := "org1"; v_Name := "spend"; v_Agents := []; v_Rules := rules;
     v_Signature := {| sig_Algorithm := ""; sig_KeyID := ""; sig_Value := ""; sig_Canonicalization := "" |}; v_Author := "ann"; v_ParentHash := ""; v_PublishedAt := 0 |}.

(** Both versions are stored; [true] when the second is the active one. *)
Definition contents (hash : string) : Version := version_at hash (if String.eqb hash hash1 then rules1 else rules2).

Definition ref_to (hash : string) : BundleRef := {| b_OrgID := "org1"; b_PolicyID := "pol_1"; b_VersionHash := hash; b_UpdatedAt := 0 |}.

Definition two_versions : Source bool :=
  {| src_GetActiveBundle org second :=
       (if String.eqb org "org1" then Ok (ref_to (if second : bool then hash2 else hash1)) else Err ErrBundleNotFound, second);
     src_GetVersion org policy hash second :=
       (if String.eqb hash hash1 || String.eqb hash hash2 then Ok (contents hash) else Err ErrVersionNotFound, second) |}.

#[local] Instance two_versions_immutable : VersionedSource two_versions contents.
Proof.
  split. intros org policy hash w v w'. cbn [src_GetVersion two_versions]. generalize (contents hash). intros c.
  destruct (String.eqb hash hash1 || String.eqb hash hash2); intros [= <- _]; reflexivity.
Qed.

(** Another instance publishes the second version. *)
Definition publishes (w w' : bool) : Prop := w' = true.

Lemma second_settles : settled two_versions publishes (eq true) "org1" (ref_to hash2).
Proof.
  split.
  - by intros w w' _ ->.
  - by intros o w <-.
  - by intros o p h w <-.
  - by intros w <-.
  - intros w <-. vm_compute. reflexivity.
Qed.

Inductive cache_event := EvRefresher | EvCall (n : nat) | EvArrives (p : purpose) (org : string) | EvPublish.

Definition cache_play (ev : cache_event) (s : provider bool) : provider bool :=
  match ev with
  | EvRefresher =>
    let '(pc, cache, w) := refresher_exec two_versions (pv_refresher s) (pv_cache s) (pv_world s) in
    {| pv_cache := cache; pv_world := w; pv_refresher := pc; pv_calls := pv_calls s |}
  | EvCall n =>
    match pv_calls s !! n with
    | Some c =>
      let '(c', cache, w) := call_exec two_versions c (pv_cache s) (pv_world s) in
      {| pv_cache := cache; pv_world := w; pv_refresher := pv_refresher s; pv_calls := take n (pv_calls s) ++ c' :: drop (S n) (pv_calls s) |}
    | None => s
    end
  | EvArrives p org => {| pv_cache := pv_cache s; pv_world := pv_world s; pv_refresher := pv_refresher s; pv_calls := pv_calls s ++ [CStart p org] |}
  | EvPublish => {| pv_cache := pv_cache s; pv_world := true; pv_refresher := pv_refresher s; pv_calls := pv_calls s |}
  end.

Definition cache_run (es : list cache_event) (s : provider bool) : provider bool := foldl (fun s ev => cache_play ev s) s es.

Lemma cache_run_reachable init es s : reachable init (prov_step two_versions publishes) s -> reachable init (prov_step two_versions publishes) (cache_run es s).
Proof.
  revert s. induction es as [|ev es IH]; intros s Hs; [done|]. apply IH. destruct ev as [|n|p org|]; cbn [cache_play].
  - destruct (refresher_exec _ _ _ _) as [[pc cache] w] eqn:E. eapply reach_step; [exact Hs|by apply step_refresher].
  - destruct (pv_calls s !! n) as [c|] eqn:En; [|done]. destruct (call_exec _ c _ _) as [[c' cache] w] eqn:E.
    eapply reach_step; [exact Hs|]. eapply step_call; [|exact E]. symmetry. by apply take_drop_middle.
  - eapply reach_step; [exact Hs|by constructor].
  - eapply reach_step; [exact Hs|by constructor].
Qed.

Definition cold : provider bool := {| pv_cache := ∅; pv_world := false; pv_refresher := RIdle 0; pv_calls := [] |}.

Definition calls_of (n m : nat) : list cache_event := repeat (EvCall n) m.

Definition cached_hash (s : provider bool) : option string := en_hash <$> pv_cache s !! "org1".

(** A request loads the first version; then another instance publishes. *)
Definition published : provider bool := cache_run ([EvArrives ForActive "org1"] ++ calls_of 0 4 ++ [EvPublish]) cold.

(** Two passes of the refresher later. *)
Definition refreshed : provider bool := cache_run (repeat EvRefresher 10) published.

Example publish_converges :
  (cached_hash published, cached_hash refreshed, passes (pv_refresher refreshed)) = (Some hash1, Some hash2, 2%nat).
Proof. vm_compute. reflexivity. Qed.

(** A cold load that read the first version before a publish stores it after the
    publish has invalidated: the bundle goes back to the first version, and is
    served until the next pass. *)
Definition overtaken : provider bool :=
  cache_run ([EvArrives ForActive "org1"] ++ calls_of 0 3 ++ [EvPublish; EvArrives ForInvalidate "org1"] ++ calls_of 1 4) cold.

Example stale_load_overwrites :
  hash1 <> hash2 /\ cached_hash overtaken = Some hash2 /\ cached_hash (cache_play (EvCall 0) overtaken) = Some hash1 /\
  cached_hash (cache_run (EvCall 0 :: repeat EvRefresher 6) overtaken) = Some hash2.
Proof. split; [vm_compute; discriminate|]. split; [vm_compute; reflexivity|]. split; vm_compute; reflexivity. Qed.

Lemma published_shape :
  pv_world published = true /\ is_Some (pv_cache published !! "org1") /\ pv_refresher published = RIdle 0 /\
  match pv_calls published with [CDone _ _ _] => True | _ => False end.
Proof.
  split; [vm_compute; reflexivity|]. split; [|split; [vm_compute; reflexivity|vm_compute; exact I]].
  assert (Hh : bool_decide (cached_hash published = Some hash1) = true) by (vm_compute; reflexivity). apply bool_decide_eq_true in Hh. revert Hh. unfold cached_hash.
  destruct (pv_cache published !! "org1"); [eauto|discriminate].
Qed.

Lemma second_compiles : is_ok (Compile (contents hash2)) = true.
Proof. vm_compute. reflexivity. Qed.

Lemma passes_refreshed : (0 < passes (pv_refresher refreshed))%nat.
Proof. apply Nat.ltb_lt. vm_compute. reflexivity. Qed.

Lemma refresher_converges_witness :
  exists pol, Compile (contents hash2) = Ok pol /\ pv_cache refreshed !! "org1" = Some (entry_of (ref_to hash2) pol).
Proof.
  generalize second_compiles. destruct (Compile (contents hash2)) as [pol|e] eqn:Ep; [intros _|discriminate].
  exists pol. split; [reflexivity|].
  assert (Hr : reachable (@prov_init bool) (prov_step two_versions publishes) published)
    by (apply cache_run_reachable, reach_init; split; [reflexivity|split; reflexivity]).
  assert (Hrun : reachable (eq published) (prov_step two_versions publishes) refreshed) by (apply cache_run_reachable, reach_init; reflexivity).
  generalize passes_refreshed Hrun. destruct published_shape as (Hw & Hc & Hi & Hcalls). revert Hr Hw Hc Hi Hcalls. clear Hrun.
  generalize refreshed as s'. generalize published as s. intros s s' Hr Hw Hc Hi Hcalls Hp Hrun.
  assert (Hcur : Forall (call_current "org1" (ref_to hash2) pol) (pv_calls s)).
  { destruct (pv_calls s) as [|[] [|]]; try (destruct Hcalls; fail). constructor; [exact I|constructor]. }
  exact (proj1 (proj2 (refresher_converges two_versions publishes contents (eq true) "org1" (ref_to hash2) pol second_settles Ep s 0%nat Hr
    (eq_sym Hw) Hc Hi Hcur s' Hrun)) Hp).
Defined.
