(* ===== verification/PolicyPgMem.v ===== *)
(** The Postgres policy store on concrete data: the races of calls of the
    service that read a working copy, change it and write it back, and the
    witnesses of [PolicyPgProps.v]. *)

From stdpp Require Import relations.
From S2P Require Import Prelude GoStrings GoTime Contracts Signing Engine Samples Sha2 PolicyLoad Policyctl PolicyctlProps AuditMem PolicyMem Pg PolicyPg PolicyPgProps.

#[local] Existing Instances sha2 sha2_laws toy_ed25519 toy_laws sample_jcs sample_jcs_laws sample_bigrat sample_unicode type_schema.

(** * Schedules *)

Inductive svc_event := SvcArrive (th : svc_pc) | SvcGo (i : nat) (f : fault) (now : time).

Section play.
Context (stored : time -> time) (messages : list string).

Definition msg_in (x : string) : Prop := x ∈ messages.

Definition play_svc (s : svc_system) (e : svc_event) : svc_system :=
  match e with
  | SvcArrive th =>
    match th with
    | UpdateRead _ _ _ _ _ | PublishRead _ _ _ | RollbackRead _ _ _ => {| ss_tables := ss_tables s; ss_threads := th :: ss_threads s |}
    | _ => s
    end
  | SvcGo i f now =>
    match ss_threads s !! i with
    | Some th =>
      let '(th', t) := svc_exec stored signer1 f now th (ss_tables s) in
      if forallb (fun x => mem_str x messages) (publishes th') then
        {| ss_tables := t; ss_threads := take i (ss_threads s) ++ th' :: drop (S i) (ss_threads s) |}
      else s
    | None => s
    end
  end.

Lemma mem_str_elem x l : mem_str x l = true -> x ∈ l.
Proof using Type. unfold mem_str. intros (y & Hy & ->%String.eqb_eq)%existsb_exists. by apply list_elem_of_In. Qed.

Lemma play_svc_step s e : rtc (svc_step stored signer1 msg_in) s (play_svc s e).
Proof using Type.
  destruct s as [t ths], e as [th|i f now]; cbn [play_svc ss_tables ss_threads].
  - destruct th; try done; by apply rtc_once, ss_call.
  - destruct (ths !! i) as [th|] eqn:Ei; [|done]. pose proof (ss_exec stored signer1 msg_in f now (take i ths) th (drop (S i) ths) t) as Hs.
    destruct (svc_exec stored signer1 f now th t) as [th' t']. cbn [fst snd] in Hs. destruct (forallb _ _) eqn:Em; [|done].
    rewrite <- (take_drop_middle ths i th Ei) at 1. apply rtc_once, Hs. apply list.Forall_forall. intros x Hx.
    rewrite forallb_forall in Em. apply list_elem_of_In, Em in Hx. by apply mem_str_elem.
Qed.

Lemma play_svc_reachable es s : rtc (svc_step stored signer1 msg_in) s (foldl play_svc s es).
Proof using Type. revert s. induction es as [|e es IH]; intros s; [done|]. cbn. etrans; [apply play_svc_step|apply IH]. Qed.
End play.

Definition message_of (rules : list Rule) : string := match CanonicalMessage "pol_1" "org1" "spend" [] rules with Ok m => m | Err _ => "" end.
Definition messages12 : list string := [message_of rules1; message_of rules2].

Lemma pair_hash_inj a b x y : String.eqb (sha256 a) (sha256 b) = false -> x ∈ [a; b] -> y ∈ [a; b] -> sha256 x = sha256 y -> x = y.
Proof.
  intros Hne%String.eqb_neq Hx Hy E. assert (Hcase : forall z, z ∈ [a; b] -> z = a \/ z = b) by (intros z Hz; set_solver).
  destruct (Hcase x Hx) as [-> | ->], (Hcase y Hy) as [-> | ->]; congruence.
Qed.

Lemma messages12_inj x y : msg_in messages12 x -> msg_in messages12 y -> sha256 x = sha256 y -> x = y.
Proof. apply pair_hash_inj. vm_compute. reflexivity. Qed.

Definition exact_times (t : time) : time := t.

(** A draft, inserted. *)
Definition drafted : svc_system :=
  {| ss_tables := (svc_exec exact_times signer1 Live 1 (create_begin "pol_1" 1 "org1" "spend" [] rules1) pg_empty).2;
     ss_threads := [(svc_exec exact_times signer1 Live 1 (create_begin "pol_1" 1 "org1" "spend" [] rules1) pg_empty).1] |}.

Lemma drafted_reachable : rtc (svc_step exact_times signer1 (msg_in messages12)) {| ss_tables := pg_empty; ss_threads := [] |} drafted.
Proof.
  unfold drafted. generalize (eq_refl (create_begin "pol_1" 1 "org1" "spend" [] rules1)). generalize (create_begin "pol_1" 1 "org1" "spend" [] rules1) at 1 3 4.
  intros th Hth. apply rtc_l with {| ss_tables := pg_empty; ss_threads := [th] |}.
  - apply ss_call. destruct th; try discriminate Hth. exists "pol_1", 1, "org1", "spend", [], rules1. symmetry. exact Hth.
  - apply rtc_once, (ss_exec exact_times signer1 (msg_in messages12) Live 1 [] th [] pg_empty). destruct th; try discriminate Hth. cbn [svc_exec].
    destruct (on_store _ _ _). constructor.
Qed.

Abbreviation play12 := (foldl (play_svc exact_times messages12)).

Definition go (i : nat) (now : time) : svc_event := SvcGo i Live now.
Definition edit : svc_pc := UpdateRead "org1" "pol_1" "" [] rules2.
Definition publish : svc_pc := PublishRead "org1" "pol_1" "ann".

(** What is asked of the tables afterwards: the status, the active version and
    the rules of the working copy, and whether the bundle is of these rules. *)
Definition view (s : svc_system) : option (string * bool * list string) :=
  match t_policies (ss_tables s) !! "pol_1" with
  | Some p => Some (p_Status p, String.eqb (p_ActiveVersionHash p) "", r_Max <$> p_Rules p)
  | None => None
  end.

Definition serves (s : svc_system) : option (list string) :=
  match Pg_GetActiveBundle "org1" (ss_tables s) with
  | Ok b => match Pg_GetVersion "org1" (b_PolicyID b) (b_VersionHash b) (ss_tables s) with Ok v => Some (r_Max <$> v_Rules v) | Err _ => None end
  | Err _ => None
  end.

Definition answered (th : svc_pc) : bool :=
  match th with SvcDone (APolicy (Ok _)) | SvcDone (AVersion (Ok _)) => true | _ => false end.

(** A publish is answered between the read and the write of an edit: the edit
    writes back the status and the active version it read.  The policy is a
    draft without an active version, which the organisation serves. *)
Definition edit_over_publish : svc_system := play12 drafted [SvcArrive edit; SvcArrive publish; go 1 2; go 0 3; go 0 4; go 0 5; go 0 6; go 0 7; go 1 8].

Example edit_unpublishes :
  forallb answered (ss_threads edit_over_publish) = true /\ view edit_over_publish = Some (StatusDraft, true, ["250.00"]) /\
  serves edit_over_publish = Some ["100.00"; ""; ""].
Proof. vm_compute. repeat split. Qed.

(** An edit is answered between the read and the write of a publish: the
    publish writes back the rules it read, and the edit is gone. *)
Definition publish_over_edit : svc_system := play12 drafted [SvcArrive edit; SvcArrive publish; go 0 2; go 1 3; go 1 4; go 0 5; go 0 6; go 0 7; go 0 8].

Example edit_is_lost : forallb answered (ss_threads publish_over_edit) = true /\ view publish_over_edit = Some (StatusPublished, false, ["100.00"; ""; ""]).
Proof. vm_compute. repeat split. Qed.

(** A rollback is answered before the last statement of a publish: the policy
    names the version rolled back to, the organisation serves the other. *)
Definition published_edited : svc_system :=
  play12 drafted [SvcArrive publish; go 0 2; go 0 3; go 0 4; go 0 5; go 0 6; SvcArrive edit; go 0 7; go 0 8].
Definition rollback_meets_publish : svc_system :=
  play12 published_edited [SvcArrive (RollbackRead "org1" "pol_1" hash1); SvcArrive publish; go 0 9; go 0 10; go 0 11; go 0 12;
                           go 1 13; go 1 14; go 1 15; go 1 16; go 0 17].

Example rollback_is_undone :
  forallb answered (ss_threads rollback_meets_publish) = true /\
  match Pg_Active "org1" "pol_1" (ss_tables rollback_meets_publish) with Ok v => Some (r_Max <$> v_Rules v) | Err _ => None end = Some ["100.00"; ""; ""] /\
  serves rollback_meets_publish = Some ["250.00"].
Proof. vm_compute. repeat split. Qed.

Lemma played_reachable12 es s0 s : s = play12 s0 es ->
  rtc (svc_step exact_times signer1 (msg_in messages12)) {| ss_tables := pg_empty; ss_threads := [] |} s0 ->
  rtc (svc_step exact_times signer1 (msg_in messages12)) {| ss_tables := pg_empty; ss_threads := [] |} s.
Proof. intros -> Hs. etrans; [exact Hs|]. apply play_svc_reachable. Qed.

Lemma race_reachable : rtc (svc_step exact_times signer1 (msg_in messages12)) {| ss_tables := pg_empty; ss_threads := [] |} rollback_meets_publish.
Proof. eapply (played_reachable12 _ published_edited); [reflexivity|]. eapply (played_reachable12 _ drafted); [reflexivity|]. apply drafted_reachable. Qed.

Lemma pg_policies_sound_witness :
  exists b v, Pg_GetActiveBundle "org1" (ss_tables rollback_meets_publish) = Ok b /\
    Pg_GetVersion "org1" (b_PolicyID b) (b_VersionHash b) (ss_tables rollback_meets_publish) = Ok v.
Proof.
  assert (Hok : is_ok (Pg_GetActiveBundle "org1" (ss_tables rollback_meets_publish)) = true) by (vm_compute; reflexivity).
  pose proof (pg_policies_sound exact_times signer1 (Public (NewKeyFromSeed seed_a)) (msg_in messages12) messages12_inj
    seed_a eq_refl eq_refl rollback_meets_publish race_reachable) as (_ & _ & Hb & _).
  revert Hok Hb. generalize (ss_tables rollback_meets_publish). intros t Hok Hb.
  destruct (Pg_GetActiveBundle "org1" t) as [b|e] eqn:Eb; [|discriminate Hok].
  destruct (Hb "org1" b Eb) as (v & Hv). exists b, v. split; [reflexivity | exact Hv].
Defined.

(** * The two stores *)

Definition covers {A} (scan : list string) (table : gmap string A) : bool :=
  bool_decide (NoDup scan) && forallb (fun id => bool_decide (id ∈ scan)) (map_to_list table).*1.

Lemma covers_ok {A} scan (table : gmap string A) : covers scan table = true -> full_scan scan table.
Proof.
  unfold covers. intros [Hn%bool_decide_eq_true Hs]%andb_true_iff. split; [done|]. intros id [x Hx]. rewrite forallb_forall in Hs.
  apply (bool_decide_eq_true (id ∈ scan)), Hs, list_elem_of_In, list_elem_of_fmap. exists (id, x). split; [done|by apply elem_of_map_to_list].
Qed.

(** [op_fits] when the columns keep every time. *)
Definition fits (o : store_op) (t : pg_tables) : bool :=
  match o with
  | SCreate p => policy_fits p && no_char "|" (p_OrgID p) && match t_policies t !! p_ID p with Some q => String.eqb (p_OrgID q) (p_OrgID p) | None => true end
  | SUpdate p => policy_fits p && no_char "|" (p_OrgID p) && match t_policies t !! p_ID p with Some q => p_CreatedAt q =? p_CreatedAt p | None => true end
  | SGet org id => text_ok org && text_ok id && no_char "|" org
  | SList org scan => text_ok org && no_char "|" org && covers scan (t_policies t)
  | SPut v =>
    version_fits v && no_char "|" (v_OrgID v) && match t_policies t !! v_PolicyID v with Some _ => true | None => false end &&
    match t_versions t !! v_VersionHash v with Some u => String.eqb (v_OrgID u) (v_OrgID v) && String.eqb (v_PolicyID u) (v_PolicyID v) | None => true end
  | SGetVersion org id h => forallb text_ok [org; id; h] && no_char "|" org
  | SListVersions org id scan => text_ok org && text_ok id && no_char "|" org && covers scan (t_versions t)
  | SBundle b =>
    bundle_fits b && match t_policies t !! b_PolicyID b with Some _ => true | None => false end &&
    match t_versions t !! b_VersionHash b with Some _ => true | None => false end
  | SGetBundle org => text_ok org
  end.

Lemma fits_ok o t : fits o t = true -> op_fits exact_times o t.
Proof.
  destruct o as [p|p|org id|org scan|v|org id h|org id scan|b|org]; cbn [fits op_fits]; rewrite ?andb_true_iff; unfold clean.
  - intros [[Hf Hc] Hq]. split_and!; [done..|by destruct p|]. intros q Eq. rewrite Eq in Hq. by apply String.eqb_eq.
  - intros [[Hf Hc] Hq]. split_and!; [done..|by destruct p|]. intros q Eq _. rewrite Eq in Hq. by apply Z.eqb_eq.
  - done.
  - intros [[Ht Hc] Hs]. split_and!; [done..|by apply covers_ok].
  - intros [[[Hf Hc] Hp] Hv]. split_and!; [done..|by destruct v|by destruct (t_policies t !! v_PolicyID v)|]. intros u Eu. rewrite Eu in Hv.
    by apply andb_true_iff in Hv as [?%String.eqb_eq ?%String.eqb_eq].
  - done.
  - intros [[[Ht Hi] Hc] Hs]. split_and!; [done..|by apply covers_ok].
  - intros [[Hf Hp] Hv]. split_and!; [done|by destruct b|by destruct (t_policies t !! b_PolicyID b)|by destruct (t_versions t !! b_VersionHash b)].
  - done.
Qed.

Fixpoint fit_all (os : list store_op) (t : pg_tables) : bool :=
  match os with [] => true | o :: os => fits o t && fit_all os (pg_op exact_times o t).2 end.

Lemma fit_all_ok os t : fit_all os t = true -> all_fit exact_times os t.
Proof. revert t. induction os as [|o os IH]; intros t; [done|]. cbn. intros [Hf Hr]%andb_true_iff. split; [by apply fits_ok|by apply IH]. Qed.

Definition draft1 : Policy :=
  {| p_ID := "pol_1"; p_OrgID := "org1"; p_Name := "spend"; p_Agents := ["a1"]; p_Rules := rules1; p_Status := StatusDraft;
     p_ActiveVersionHash := ""; p_CreatedAt := 1; p_UpdatedAt := 1 |}.
Definition version1 : Version := minted signer1 2 "polv_1" "message" "ann" draft1.

Definition calls1 : list store_op :=
  [SCreate draft1; SCreate draft1; SGet "org1" "pol_1"; SGet "org2" "pol_1"; SPut version1; SPut version1; SGetVersion "org1" "pol_1" "polv_1";
   SGetVersion "org1" "pol_1" "polv_2"; SUpdate (with_active "polv_1" 3 draft1); SGet "org1" "pol_1"; SBundle (bundle_of 4 draft1 version1);
   SGetBundle "org1"; SGetBundle "org2"; SList "org1" ["pol_1"]; SList "org2" ["pol_1"]; SListVersions "org1" "pol_1" ["polv_1"]].

Definition answer_ok (a : store_answer) : bool :=
  match a with RUnit r => is_ok r | RPolicy r => is_ok r | RPolicies r => is_ok r | RVersions r => is_ok r | RBool r => match r with Ok b => b | Err _ => false end | RVersion r => is_ok r | RBundle r => is_ok r end.

Lemma pg_store_refines_memory_witness :
  map answer_ok (run_ops mem_op calls1 NewMemStore).1 = [true; false; true; false; true; false; true; false; true; true; true; true; false; true; true; true] /\
  Forall2 same_answer (run_ops (pg_op exact_times) calls1 pg_empty).1 (run_ops mem_op calls1 NewMemStore).1.
Proof.
  split; [vm_compute; reflexivity|]. apply (pg_store_refines_memory exact_times calls1), fit_all_ok. vm_compute. reflexivity.
Defined.
