(* ===== verification/Idempotency.v ===== *)
(** The idempotency cache ([internal/idempotency]): the interface the server
    uses, what it promises, and the in-memory and Redis implementations.
    [encoding/json] on a decision is the class [DecisionCodec]. *)

From S2P Require Import Prelude GoTime Runtime Contracts RedisKv.

Definition key (orgID idemKey : string) : string := "idem:" +:+ orgID +:+ ":" +:+ idemKey.

Record IdempotencyStore (W : Type) := {
  idem_Lookup : string -> string -> io W (result string (option Contracts.Decision));
  idem_Save : string -> string -> Contracts.Decision -> io W (result string unit)
}.
Arguments idem_Lookup {W} _ _ _.
Arguments idem_Save {W} _ _ _ _.

(** [cached] is what the cache holds; a lookup answers it or fails, and changes
    nothing of it; a save that succeeds is found at once, and touches no other
    key. *)
Class IdempotencySpec {W} (S : IdempotencyStore W) (cached : W -> string -> option Contracts.Decision) (keeps : Contracts.Decision -> Prop) := {
  lookup_frame org k w k' : cached (idem_Lookup S org k w).2 k' = cached w k';
  lookup_answer org k w r : (idem_Lookup S org k w).1 = Ok r -> r = cached w (key org k);
  save_answer org k d w : keeps d -> (idem_Save S org k d w).1 = Ok tt -> cached (idem_Save S org k d w).2 (key org k) = Some d;
  save_other org k d w k' : k' <> key org k -> cached (idem_Save S org k d w).2 k' = cached w k'
}.

(** * In memory *)

Abbreviation Mem := (gmap string Contracts.Decision).

Definition NewMem : Mem := ∅.
Definition Mem_Lookup (orgID idemKey : string) (m : Mem) : option Contracts.Decision := m !! key orgID idemKey.
Definition Mem_Save (orgID idemKey : string) (dec : Contracts.Decision) (m : Mem) : Mem := <[key orgID idemKey := dec]> m.

Definition MemIdempotency : IdempotencyStore Mem :=
  {| idem_Lookup org k m := (Ok (Mem_Lookup org k m), m);
     idem_Save org k dec m := (Ok tt, Mem_Save org k dec m) |}.

#[export] Instance MemIdempotency_spec : IdempotencySpec MemIdempotency (fun m k => m !! k) (fun _ => True).
Proof.
  split; cbn.
  - done.
  - by intros org k w r [= <-].
  - intros org k d w _ _. apply lookup_insert_eq.
  - intros org k d w k' Hne. unfold Mem_Save. by rewrite lookup_insert_ne.
Qed.

(** * Redis *)

Class DecisionCodec := {
  marshal_decision : Contracts.Decision -> string;
  unmarshal_decision : string -> option Contracts.Decision
}.

Section redis.
Context `{DecisionCodec}.

Definition NewRedis (ttl : duration) : duration := if ttl <=? 0 then 24 * Hour else ttl.

(** A corrupt entry is a miss. *)
Definition Redis_Lookup (orgID idemKey : string) (s : redis_kv) : result string (option Contracts.Decision) :=
  if negb (kv_up s) then Err "idempotency: get"
  else
    match kv_get s (key orgID idemKey) with
    | None => Ok None
    | Some raw => Ok (unmarshal_decision raw)
    end.

Definition Redis_Save (ttl : duration) (orgID idemKey : string) (dec : Contracts.Decision) (s : redis_kv) : result string unit * redis_kv :=
  if negb (kv_up s) then (Err "idempotency: set", s)
  else (Ok tt, kv_set (key orgID idemKey) (marshal_decision dec) ttl s).

Definition RedisIdempotency (ttl : duration) : IdempotencyStore redis_kv :=
  {| idem_Lookup org k s := (Redis_Lookup org k s, s);
     idem_Save org k dec s := Redis_Save (NewRedis ttl) org k dec s |}.

(** Until it expires, a saved decision that survives the encoding is found. *)
#[export] Instance RedisIdempotency_spec ttl :
  IdempotencySpec (RedisIdempotency ttl) (fun s k => kv_get s k ≫= unmarshal_decision)
    (fun d => unmarshal_decision (marshal_decision d) = Some d).
Proof.
  split; cbn.
  - done.
  - intros org k s r. unfold Redis_Lookup. destruct (kv_up s); cbn; [|done]. intros E.
    destruct (kv_get s (key org k)); cbn; by injection E.
  - intros org k d s Hd. unfold Redis_Save. destruct (kv_up s); cbn; [|done]. intros _.
    by rewrite kv_get_set.
  - intros org k d s k' Hne. unfold Redis_Save. destruct (kv_up s); cbn; [|done].
    by rewrite kv_get_set_ne.
Qed.
End redis.

(** Organisation and key are joined with a colon and not escaped. *)
Example idem_key_collision : key "o:a" "12345678" = key "o" "a:12345678".
Proof. reflexivity. Qed.
