(* ===== verification/ControlTypes.v ===== *)
(** What the control plane of the server is wired to and what it sends: the
    interfaces of [server/policies.go], [server/keys_admin.go] and
    [auth/admin.go], and the bodies of requests and responses. *)

From S2P Require Import Prelude GoTime Contracts Runtime Signing Engine Auth Policyctl BundleProv.

(** * Collaborators *)

(** [policyctl.Service] as the handlers call it; the organisation comes first. *)
Record PolicyService (W : Type) := {
  svc_Create : string -> string -> list string -> list Rule -> io W (result policy_error Policyctl.Policy);
  svc_Get : string -> string -> io W (result policy_error Policyctl.Policy);
  svc_List : string -> io W (result policy_error (list Policyctl.Policy));
  svc_Update : string -> string -> string -> list string -> list Rule -> io W (result policy_error Policyctl.Policy);
  svc_Publish : string -> string -> string -> io W (result policy_error Version);
  svc_Rollback : string -> string -> string -> io W (result policy_error Version);
  svc_ListVersions : string -> string -> io W (result policy_error (list Version));
  svc_ActiveBundle : string -> io W (result policy_error BundleRef)
}.
Arguments svc_Create {W} _ _ _ _ _.
Arguments svc_Get {W} _ _ _.
Arguments svc_List {W} _ _.
Arguments svc_Update {W} _ _ _ _ _ _.
Arguments svc_Publish {W} _ _ _ _.
Arguments svc_Rollback {W} _ _ _ _.
Arguments svc_ListVersions {W} _ _ _.
Arguments svc_ActiveBundle {W} _ _.

Record KeyAdmin (W : Type) := {
  ka_CreateKey : KeyRecord -> time -> io W (result string unit);
  ka_ListKeys : string -> io W (result string (list KeyInfo));
  ka_RevokeKey : string -> string -> time -> io W (result key_error KeyInfo)
}.
Arguments ka_CreateKey {W} _ _ _.
Arguments ka_ListKeys {W} _ _.
Arguments ka_RevokeKey {W} _ _ _ _.

Record BuildInfo := { bi_Version : string; bi_Commit : string; bi_Date : string }.

(** The control-plane fields of [Server]. *)
Record Control (W : Type) := {
  c_policySvc : option (PolicyService W);
  c_bundleInvalidator : option (string -> io W (result bundle_error unit));
  c_simulator : option (string -> string -> string -> list AuthorizeRequest -> io W (result sim_error (string * list Contracts.Decision)));
  c_keyAdmin : option (KeyAdmin W);
  c_keyCacheInvalidate : option (string -> io W (result string unit));
  c_provisionToken : string;
  c_keysJWKS : option (io W (list JWK));
  c_checks : list (string * io W (result string unit));
  c_build : BuildInfo
}.
Arguments c_policySvc {W} _.
Arguments c_bundleInvalidator {W} _.
Arguments c_simulator {W} _.
Arguments c_keyAdmin {W} _.
Arguments c_keyCacheInvalidate {W} _.
Arguments c_provisionToken {W} _.
Arguments c_keysJWKS {W} _.
Arguments c_checks {W} _.
Arguments c_build {W} _.

(** Nothing wired. *)
Definition no_control {W} : Control W :=
  {| c_policySvc := None; c_bundleInvalidator := None; c_simulator := None; c_keyAdmin := None; c_keyCacheInvalidate := None;
     c_provisionToken := ""; c_keysJWKS := None; c_checks := []; c_build := {| bi_Version := ""; bi_Commit := ""; bi_Date := "" |} |}.

(** * Request bodies *)

Record policyWriteRequest := { pw_Name : string; pw_Agents : list string; pw_Rules : list Rule }.
Record simulateRequest := { sr_VersionHash : string; sr_Requests : list AuthorizeRequest }.
Record createKeyRequest := { ck_Env : string; ck_Tier : string; ck_Shadow : option bool }.
Record provisionKeyRequest := { pk_OrgID : string; pk_Env : string; pk_Tier : string; pk_Shadow : option bool }.

(** * Response bodies *)

Record apiKeyView := {
  kv_ID : string;
  kv_Prefix : string;
  kv_OrgID : string;
  kv_Env : string;
  kv_Tier : string;
  kv_IsActive : bool;
  kv_Shadow : bool;
  kv_CreatedAt : time;
  kv_RevokedAt : option time
}.

Inductive control_payload :=
| PPolicy (p : Policyctl.Policy)
| PPolicies (l : list Policyctl.Policy)
| PVersion (v : Version)
| PVersions (l : list Version)
| PBundle (ref : BundleRef)
| PSimulation (label : string) (shadow : bool) (results : list Contracts.Decision)
| PKey (v : apiKeyView)
| PKeys (l : list apiKeyView)
| PCreatedKey (v : apiKeyView) (secret : string)
| PJwks (l : list JWK)
| PHealth (status : string) (build : BuildInfo) (checks : gmap string string) (time : string).
