(* ===== verification/KeyStores.v ===== *)
(** The key store as its clients see it: what the authenticator relies on when
    it reads ([auth.KeyStore]) and the control plane when it writes
    ([auth.KeyAdmin]).  Both stores, in memory and over Postgres, discharge it;
    over Postgres a call may fail though its statement ran. *)

From S2P Require Import Prelude GoStrings GoTime Runtime RedisKv Auth AuthProps Pg AuthPg ControlTypes.

(** The record of a key, with its creation time. *)
Definition info_at (rec : KeyRecord) (created : time) (revoked : option time) : KeyInfo :=
  {| ki_KeyID := KeyID rec; ki_OrgID := OrgID rec; ki_Tier := Tier rec; ki_Env := Env rec; ki_Status := Status rec;
     ki_Shadow := Shadow rec; ki_CreatedAt := created; ki_RevokedAt := revoked |}.

Section spec.
Context {W : Type}.

(** [view] is the records a store holds, by id. *)
Class KeyReads (store : KeyStore W) (view : W -> gmap string KeyRecord) := {
  reads_keep id w : view (LookupByID store id w).2 = view w;
  reads_record id w :
    match (LookupByID store id w).1 with
    | Ok rec => view w !! id = Some rec
    | Err ErrKeyNotFound => view w !! id = None
    | Err (KeyStoreFailed _) => True
    end
}.

(** A key of the organisation under a new id. *)
Definition added (org : string) (w w' : W) (view : W -> gmap string KeyRecord) : Prop :=
  exists rec, OrgID rec = org /\ Status rec = StatusActive /\ view w !! KeyID rec = None /\ view w' = <[KeyID rec := rec]> (view w).

(** A key of the organisation is revoked. *)
Definition dropped (org id : string) (w w' : W) (view : W -> gmap string KeyRecord) : Prop :=
  exists rec, view w !! id = Some rec /\ OrgID rec = org /\ view w' = <[id := set_status StatusRevoked rec]> (view w).

(** [stamp] is what the store keeps of an instant.  A creation that fails may
    have stored the key, and a revocation that fails may have revoked it. *)
Class KeyAdminSpec (admin : KeyAdmin W) (view : W -> gmap string KeyRecord) (stamp : time -> time) := {
  admin_create rec t w :
    match ka_CreateKey admin rec t w with
    | (Ok _, w') => view w' = <[KeyID rec := rec]> (view w)
    | (Err _, w') => view w' = view w \/ (view w !! KeyID rec = None /\ view w' = <[KeyID rec := rec]> (view w))
    end;
  admin_created rec t w w' l w'' :
    ka_CreateKey admin rec t w = (Ok tt, w') -> ka_ListKeys admin (OrgID rec) w' = (Ok l, w'') -> info_at rec (stamp t) None ∈ l;
  admin_list org w : view (ka_ListKeys admin org w).2 = view w;
  admin_revoke org id t w :
    match ka_RevokeKey admin org id t w with
    | (Ok info, w') => dropped org id w w' view /\ ki_Status info = StatusRevoked /\ forall rec, view w !! id = Some rec -> ki_KeyID info = KeyID rec
    | (Err _, w') => view w' = view w \/ dropped org id w w' view
    end
}.
End spec.

(** * In memory *)

Section memkeys.
Context {W : Type} (get : W -> MemKeyStore) (put : MemKeyStore -> W -> W).

Definition mem_key_store : KeyStore W := {| LookupByID id := zoom get put (fun m => (Mem_LookupByID id m, m)) |}.

Definition mem_key_admin : KeyAdmin W :=
  {| ka_CreateKey rec t := zoom get put (fun m => (Ok tt, CreateKey rec t m));
     ka_ListKeys org := zoom get put (fun m => (Ok (ListKeys org m), m));
     ka_RevokeKey org id t := zoom get put (RevokeKey org id t) |}.

Context `{!Lens get put}.

Definition mem_view (w : W) : gmap string KeyRecord := ms_keys (get w).

#[export] Instance mem_key_reads : KeyReads mem_key_store mem_view.
Proof using Type*.
  split; intros id w; cbn [mem_key_store LookupByID]; rewrite zoom_eq; cbn [fst snd]; unfold mem_view; [by rewrite get_put|].
  unfold Mem_LookupByID. by destruct (ms_keys (get w) !! id).
Qed.

#[export] Instance mem_admin_spec : KeyAdminSpec mem_key_admin mem_view id.
Proof using Type*.
  unfold mem_view. split.
  - intros rec t w. cbn [mem_key_admin ka_CreateKey]. rewrite zoom_eq. cbn [fst snd]. by rewrite get_put.
  - intros rec t w w' l w''. cbn [mem_key_admin ka_CreateKey ka_ListKeys]. rewrite !zoom_eq. cbn [fst snd]. intros [= <-]. rewrite get_put. intros [= <- _].
    apply ListKeys_spec. exists (KeyID rec), rec. cbn [CreateKey ms_keys]. rewrite lookup_insert_eq. split; [done|]. split; [done|].
    unfold infoOf, meta_of. cbn [CreateKey ms_info]. by rewrite lookup_insert_eq.
  - intros org w. cbn [mem_key_admin ka_ListKeys]. rewrite zoom_eq. cbn [fst snd]. by rewrite get_put.
  - intros org id t w. cbn [mem_key_admin ka_RevokeKey]. rewrite zoom_eq. unfold RevokeKey, dropped. destruct (ms_keys (get w) !! id) as [rec|] eqn:Ek; [|cbn; left; by rewrite get_put].
    destruct (String.eqb_spec (OrgID rec) org) as [Ho|Ho]; cbn [negb fst snd]; [|left; by rewrite get_put].
    split; [exists rec; rewrite (get_put (get:=get)); by split_and!|]. split; [done|]. by intros rec' [= <-].
Qed.
End memkeys.

(** * Over Postgres *)

Section pgkeys.
Context {W : Type} (stored : time -> time) (rows : W -> KeyRows) (put : KeyRows -> W -> W) `{!Lens rows put}.

(** [how] is what becomes of the next statement, [scan] the order a listing
    reads the table in. *)
Context (how : W -> fault) (scan : W -> list string).

Definition pg_key_admin : KeyAdmin W :=
  {| ka_CreateKey rec t w := zoom rows put (Pg_CreateKey stored (how w) rec t) w;
     ka_ListKeys org w := (Pg_ListKeys (how w) (scan w) org (rows w), w);
     ka_RevokeKey org id t w := zoom rows put (Pg_RevokeKey stored (how w) org id t) w |}.

Definition pg_view (w : W) : gmap string KeyRecord := kr_rec <$> rows w.

#[export] Instance pg_key_reads : KeyReads (pg_key_store rows how) pg_view.
Proof using Type.
  split; intros id w; [done|]. cbn [pg_key_store LookupByID fst]. unfold Pg_LookupByID, pg_view. rewrite lookup_fmap.
  destruct (how w); [|done..]. cbn. unfold select_key. destruct (negb (text_ok id)); [done|]. by destruct (rows w !! id).
Qed.

Context (Hscan : forall w id, is_Some (rows w !! id) -> id ∈ scan w).

Lemma insert_view rec created t :
  match insert_key rec created t with
  | (Ok _, t') => key_taken rec t = false /\ t' = <[KeyID rec := {| kr_rec := rec; kr_created := created; kr_revoked := None |}]> t
  | (Err _, t') => t' = t
  end.
Proof using Type. unfold insert_key. destruct (negb (key_fits rec)); cbn [orb]; [done|]. by destruct (key_taken rec t). Qed.

Lemma taken_free rec t : key_taken rec t = false -> t !! KeyID rec = None.
Proof using Type. unfold key_taken. by destruct (t !! KeyID rec). Qed.

Lemma fmap_insert_rec id row (t : KeyRows) : kr_rec <$> <[id := row]> t = <[id := kr_rec row]> (kr_rec <$> t).
Proof using Type. apply fmap_insert. Qed.

Lemma update_view org id at_ t :
  match update_key stored org id at_ t with
  | (Ok info, t') => exists row, t !! id = Some row /\ OrgID (kr_rec row) = org /\ t' = <[id := revoke_row stored at_ row]> t /\ info = info_of (revoke_row stored at_ row)
  | (Err _, t') => t' = t
  end.
Proof using Type.
  unfold update_key. destruct (negb _); [done|]. destruct (t !! id) as [row|] eqn:Er; [|done].
  destruct (String.eqb_spec (OrgID (kr_rec row)) org) as [Ho|Ho]; [|done]. by exists row.
Qed.

#[export] Instance pg_admin_spec : KeyAdminSpec pg_key_admin pg_view stored.
Proof using Type*.
  unfold pg_view. split.
  - intros rec t w. cbn [pg_key_admin ka_CreateKey]. rewrite zoom_eq. unfold Pg_CreateKey, on_keys. pose proof (insert_view rec (stored t) (rows w)) as Hi.
    destruct (how w); cbn [fst snd]; [|left; by rewrite (get_put (get:=rows))|];
      (destruct (insert_key rec (stored t) (rows w)) as [[u|e] r]; cbn [fst snd]; rewrite (get_put (get:=rows)); [destruct Hi as [Hf ->]|]).
    + by rewrite fmap_insert_rec.
    + left. by rewrite Hi.
    + right. rewrite lookup_fmap, (taken_free _ _ Hf). split; [done|]. by rewrite fmap_insert_rec.
    + left. by rewrite Hi.
  - intros rec t w w' l w''. cbn [pg_key_admin ka_CreateKey ka_ListKeys]. rewrite zoom_eq. unfold Pg_CreateKey, Pg_ListKeys, on_keys. pose proof (insert_view rec (stored t) (rows w)) as Hi.
    destruct (how w); cbn [fst snd]; [|done..]. destruct (insert_key rec (stored t) (rows w)) as [[[]|e] r]; cbn [fst snd]; [|done]. intros [= <-].
    destruct Hi as [_ ->]. destruct (how _); cbn [fst]; [|done..]. unfold select_keys. destruct (negb (text_ok (OrgID rec))); [done|]. intros [= <- _].
    apply sort_by_elem, list_elem_of_fmap. exists {| kr_rec := rec; kr_created := stored t; kr_revoked := None |}. split; [done|].
    apply list_elem_of_filter. split; [done|]. apply list_elem_of_omap. exists (KeyID rec). rewrite (get_put (get:=rows)), lookup_insert_eq. split; [|done].
    apply Hscan. rewrite (get_put (get:=rows)), lookup_insert_eq. by eexists.
  - done.
  - intros org id t w. cbn [pg_key_admin ka_RevokeKey]. rewrite zoom_eq. unfold Pg_RevokeKey, on_keys, dropped. pose proof (update_view org id t (rows w)) as Hu.
    destruct (how w); cbn [fst snd]; [|left; by rewrite (get_put (get:=rows))|];
      (destruct (update_key stored org id t (rows w)) as [[info|e] r]; cbn [fst snd]; rewrite (get_put (get:=rows)); [destruct Hu as (row & Hr & Ho & -> & ->)|left; by rewrite Hu]).
    + split; [|split; [done|]].
      * exists (kr_rec row). rewrite lookup_fmap, Hr. split; [done|]. split; [done|]. by rewrite fmap_insert_rec.
      * intros rec. rewrite lookup_fmap, Hr. by intros [= <-].
    + right. exists (kr_rec row). rewrite lookup_fmap, Hr. split; [done|]. split; [done|]. by rewrite fmap_insert_rec.
Qed.
End pgkeys.
