(* ===== verification/Server.v ===== *)
(** The HTTP surface of the decision plane ([internal/server]): problems,
    middleware, and the handlers of [/v1/authorize], of capture and void, and of
    the decision log.

    A handler maps a request context and a request to a response; [None] is a
    panic, which [recoverPanic] turns into a 500.  Headers a handler sets are a
    map; an inner handler's win over the middleware's around it.  Logs and spans
    are not modelled.  [encoding/json] on a request body is the class
    [RequestDecoder]; the parsed query and the path's id are fields of the
    request. *)

From S2P Require Import Prelude ControlTypes GoStrings GoTime Base64 Ulid Money Runtime RateLimit Predicates Signing Auth AuditLog Hold Engine Idempotency Contracts.

Definition maxBodyBytes : Z := 65536.
Definition authMaxBodyBytes : Z := maxBodyBytes.

Definition problemBaseURI : string := "https://contracts.trust-infra.dev/v1/errors/".

Definition codeValidationFailed : string := "validation_failed".
Definition codeNotFound : string := "not_found".
Definition codeMethodNotAllowed : string := "method_not_allowed".
Definition codeInternal : string := "internal_error".
Definition codeUnauthorized : string := "unauthorized".
Definition codeRateLimited : string := "rate_limited".
Definition codeConflict : string := "conflict".

(** A request as the handlers see it; an unreadable body is [None]. *)
Record http_request := {
  rq_Method : string;
  rq_Path : string;
  rq_Header : Header;
  rq_Body : option string;
  rq_ID : string;
  rq_Query : gmap string (list string)
}.

(** What the middleware puts into the request's context. *)
Record ctx := { ctx_ReqID : string; ctx_Principal : option Principal }.

Definition principalOf (c : ctx) : option Principal := ctx_Principal c.
Definition reqID (c : ctx) : string := ctx_ReqID c.

Record holdResponse := {
  hr_DecisionID : string;
  hr_State : State;
  hr_BudgetID : string;
  hr_Amount : string;
  hr_Currency : string;
  hr_ExpiresAt : string
}.

Record listPage := { lp_Data : list Contracts.Decision; lp_NextCursor : option string }.

Inductive payload :=
| PDecision (d : Contracts.Decision)
| PProblem (p : Contracts.Problem)
| PHold (h : holdResponse)
| PPage (p : listPage)
| PText (s : string)
| PControl (v : control_payload).

Record response := { resp_Status : Z; resp_Header : gmap string string; resp_Body : payload }.

Definition handler (W : Type) : Type := ctx -> http_request -> io W (option response).

Definition writeJSON (code : Z) (v : payload) : response :=
  {| resp_Status := code; resp_Header := {[ "Content-Type" := "application/json" ]}; resp_Body := v |}.

Definition writeProblem (c : ctx) (r : http_request) (status : Z) (code title detail : string) (items : list ValidationItem) : response :=
  {| resp_Status := status; resp_Header := {[ "Content-Type" := "application/problem+json" ]};
     resp_Body := PProblem {| prob_Type := problemBaseURI +:+ code; prob_Title := title; prob_Status := status;
                              prob_Detail := detail; prob_Instance := rq_Path r +:+ "#" +:+ reqID c; prob_Code := code;
                              prob_Errors := items |} |}.

(** [w.Header().Set] before the rest writes the response. *)
Definition with_header (k v : string) (r : response) : response :=
  {| resp_Status := resp_Status r; resp_Header := resp_Header r ∪ {[ k := v ]}; resp_Body := resp_Body r |}.

(** * Request decoding *)

Inductive json_error := JsonSyntax | JsonType (field : string) | JsonEOF | JsonOther (msg : string).

(** Decoding a body with unknown fields disallowed: the request, and whether
    more input follows it. *)
Class RequestDecoder := { decode_request : string -> result json_error (AuthorizeRequest * bool) }.

Definition jsonErrorDetail (e : json_error) : string :=
  match e with
  | JsonSyntax => "Invalid JSON syntax."
  | JsonType field => "Field " +:+ field +:+ " has the wrong type."
  | JsonEOF => "Request body is empty."
  | JsonOther msg => msg
  end.

Definition is_upper (c : Ascii.ascii) : bool := (65 <=? byte_val c) && (byte_val c <=? 90).

(** [^[A-Z]{n}$]. *)
Definition upper_code (n : nat) (s : string) : bool := (String.length s =? n)%nat && str_all is_upper s.
Definition reCurrency : string -> bool := upper_code 3.
Definition reJurisdiction : string -> bool := upper_code 2.

Definition validTargetTypes : list string := [TargetVendor; TargetAccount; TargetAddress; TargetInternal; TargetUnknown].

(** The length of a string outside [lo..hi]. *)
Definition bad_length (lo hi : Z) (s : string) : bool :=
  (Z.of_nat (String.length s) <? lo) || (hi <? Z.of_nat (String.length s)).

Definition item_if (bad : bool) (pointer detail : string) : list ValidationItem :=
  if bad then [{| vi_Pointer := pointer; vi_Detail := detail |}] else [].

Definition validateAuthorizeRequest (req : AuthorizeRequest) : list ValidationItem :=
  item_if (bad_length 1 256 (req_AgentID req)) "/agent_id" "must be 1..256 characters" ++
  item_if (bad_length 1 128 (req_Action req)) "/action" "must be 1..128 characters" ++
  item_if (negb (reMoney (req_Amount req))) "/amount" "must be a canonical decimal string matching ^-?(0|[1-9][0-9]*)(\.[0-9]+)?$" ++
  item_if (negb (reCurrency (req_Currency req))) "/currency" "must be a 3-letter uppercase ISO 4217 code" ++
  item_if (String.eqb (tgt_Type (req_Target req)) "" || negb (mem_str (tgt_Type (req_Target req)) validTargetTypes))
    "/target/type" "must be one of vendor|account|address|internal|unknown" ++
  item_if (bad_length 1 256 (tgt_ID (req_Target req))) "/target/id" "must be 1..256 characters" ++
  item_if (negb (String.eqb (req_Jurisdiction req) "") && negb (reJurisdiction (req_Jurisdiction req)))
    "/jurisdiction" "must be a 2-letter uppercase ISO 3166-1 alpha-2 code" ++
  item_if (bad_length 8 128 (req_IdempotencyKey req)) "/idempotency_key" "must be 8..128 characters".

(** [req.EvaluatedAt = ""]. *)
Definition clear_EvaluatedAt (req : AuthorizeRequest) : AuthorizeRequest :=
  {| req_AgentID := req_AgentID req; req_Action := req_Action req; req_Amount := req_Amount req;
     req_Currency := req_Currency req; req_Target := req_Target req; req_Jurisdiction := req_Jurisdiction req;
     req_Context := req_Context req; req_IdempotencyKey := req_IdempotencyKey req; req_EvaluatedAt := "";
     req_CounterSnapshot := req_CounterSnapshot req |}.

(** * The server and what it calls *)

Record budgetLifecycle (W : Type) := {
  bl_Capture : string -> string -> io W (result hold_error (option Hold));
  bl_Void : string -> string -> io W (result hold_error (option Hold))
}.
Arguments bl_Capture {W} _ _ _.
Arguments bl_Void {W} _ _ _.

Record AuditStore (W : Type) := {
  au_Get : string -> string -> io W (result audit_error Record_);
  au_List : string -> Filter -> io W (result audit_error Page)
}.
Arguments au_Get {W} _ _ _.
Arguments au_List {W} _ _ _.

(** [metrics.Metrics] as the handlers call it. *)
Record Metrics (W : Type) := { RecordDecision : string -> Z -> io W unit; RecordRateLimited : io W unit; WriteText : io W string }.
Arguments RecordDecision {W} _ _ _.
Arguments RecordRateLimited {W} _.
Arguments WriteText {W} _.

Record Server (W : Type) := {
  s_authz : string -> AuthorizeRequest -> bool -> io W (result engine_error Contracts.Decision);
  s_authn : Authenticator W;
  s_limiter : string -> Limits -> io W (result string RateLimit.Decision);
  s_tiers : TierTable;
  s_auditWriter : option (Record_ -> io W unit);
  s_auditStore : option (AuditStore W);
  s_verifyDecision : option (Contracts.Decision -> result sign_error unit);
  s_retentionFor : option (string -> duration);
  s_idem : option (IdempotencyStore W);
  s_budget : option (budgetLifecycle W);
  s_metrics : option (Metrics W);
  s_control : Control W
}.
Arguments s_authz {W} _ _ _ _.
Arguments s_authn {W} _.
Arguments s_limiter {W} _ _ _.
Arguments s_tiers {W} _.
Arguments s_auditWriter {W} _.
Arguments s_auditStore {W} _.
Arguments s_verifyDecision {W} _.
Arguments s_retentionFor {W} _.
Arguments s_idem {W} _.
Arguments s_budget {W} _.
Arguments s_metrics {W} _.
Arguments s_control {W} _.

Section server.
Context {W : Type} `{Runtime W} `{Sha256} `{Jcs} `{RequestDecoder}.
Implicit Types (s : Server W) (h : handler W).

(** * Middleware *)

Definition requestHeaderName : string := "X-Request-Id".

Definition requestID h : handler W := fun c r =>
  id ← (if String.eqb (Header_Get (rq_Header r) requestHeaderName) "" then ulid_New
        else mret (Header_Get (rq_Header r) requestHeaderName));
  resp ← h {| ctx_ReqID := id; ctx_Principal := ctx_Principal c |} r;
  mret (with_header requestHeaderName id <$> resp).

Definition secureHeaders h : handler W := fun c r =>
  resp ← h c r;
  mret ((fun x => with_header "X-Content-Type-Options" "nosniff"
        (with_header "X-Frame-Options" "DENY"
        (with_header "Referrer-Policy" "no-referrer"
        (with_header "Strict-Transport-Security" "max-age=63072000; includeSubDomains"
        (with_header "Content-Security-Policy" "default-src 'none'; frame-ancestors 'none'" x))))) <$> resp).

Definition recoverPanic h : handler W := fun c r =>
  resp ← h c r;
  mret (Some (match resp with
              | Some x => x
              | None => writeProblem c r 500 codeInternal "Internal server error" "An unexpected error occurred." []
              end)).

Definition method (allowed : string) h : handler W := fun c r =>
  if negb (String.eqb (rq_Method r) allowed) then
    mret (Some (with_header "Allow" allowed
      (writeProblem c r 405 codeMethodNotAllowed "Method not allowed" ("This endpoint does not support " +:+ rq_Method r +:+ ".") [])))
  else h c r.

Definition authenticate s h : handler W := fun c r =>
  match rq_Body r with
  | None => mret (Some (writeProblem c r 400 codeValidationFailed "Malformed request" "The request body could not be read." []))
  | Some body =>
    if authMaxBodyBytes <? Z.of_nat (String.length body) then
      mret (Some (writeProblem c r 413 codeValidationFailed "Request too large" "The request body exceeds the maximum allowed size." []))
    else
      a ← Authenticate (s_authn s) (rq_Method r) (rq_Path r) (rq_Header r) body;
      match a with
      | Err e =>
        let p := writeProblem c r (err_Status e) (err_Code e) (err_Title e) (err_Detail e) [] in
        mret (Some (if err_Status e =? 401 then with_header "WWW-Authenticate" "Bearer" p else p))
      | Ok principal => h {| ctx_ReqID := ctx_ReqID c; ctx_Principal := Some principal |} r
      end
  end.

(** [int(math.Ceil(d.Seconds()))], at least one; durations here are below
    2^53 ns, where the float division rounds to no other integer. *)
Definition retry_seconds (d : duration) : Z :=
  let secs := - ((- d) / nanos) in if secs <? 1 then 1 else secs.

Definition no_principal (c : ctx) (r : http_request) : response :=
  writeProblem c r 500 codeInternal "Internal server error" "Authentication context was not present." [].

Definition rateLimit s h : handler W := fun c r =>
  match principalOf c with
  | None => mret (Some (no_principal c r))
  | Some principal =>
    d ← s_limiter s (pr_KeyID principal) (Resolve (s_tiers s) (pr_Tier principal));
    match d with
    | Err _ => h c r
    | Ok d =>
      if rl_Allowed d then h c r
      else
        _ ← match s_metrics s with Some m => RecordRateLimited m | None => mret tt end;
        mret (Some (with_header "Retry-After" (FormatInt (retry_seconds (rl_RetryAfter d)))
          (writeProblem c r 429 codeRateLimited "Rate limit exceeded"
             ("You have exceeded the " +:+ rl_Scope d +:+ " rate limit for your key.") [])))
    end
  end.

(** * Authorize *)

Definition idempotentReplay s (c : ctx) (req : AuthorizeRequest) : io W (option Contracts.Decision) :=
  match s_idem s with
  | None => mret None
  | Some idem =>
    if String.eqb (req_IdempotencyKey req) "" then mret None
    else
      match principalOf c with
      | None => mret None
      | Some principal =>
        r ← idem_Lookup idem (pr_OrgID principal) (req_IdempotencyKey req);
        mret (match r with Err _ => None | Ok hit => hit end)
      end
  end.

Definition saveIdempotent s (c : ctx) (req : AuthorizeRequest) (decision : Contracts.Decision) : io W unit :=
  match s_idem s with
  | None => mret tt
  | Some idem =>
    if String.eqb (req_IdempotencyKey req) "" then mret tt
    else
      match principalOf c with
      | None => mret tt
      | Some principal => _ ← idem_Save idem (pr_OrgID principal) (req_IdempotencyKey req) decision; mret tt
      end
  end.

Definition set_RetainUntil (t : time) (r : Record_) : Record_ :=
  {| Seq := Seq r; DecisionID := DecisionID r; OrgID := AuditLog.OrgID r; APIKeyID := APIKeyID r; AgentID := AgentID r;
     Action := Action r; Amount := Amount r; Currency := Currency r; TargetType := TargetType r; TargetID := TargetID r;
     Jurisdiction := Jurisdiction r; Verdict := Verdict r; PolicyVersionHash := PolicyVersionHash r;
     Explanation_ := Explanation_ r; Obligations := Obligations r; Signature_ := Signature_ r; LatencyMs := LatencyMs r;
     EvaluatedAt := EvaluatedAt r; AuditLog.Shadow := AuditLog.Shadow r; PrevHash := PrevHash r; RecordHash := RecordHash r;
     RetainUntil := t; CreatedAt := CreatedAt r |}.

Definition enqueueAudit s (c : ctx) (req : AuthorizeRequest) (decision : Contracts.Decision) : io W unit :=
  match s_auditWriter s with
  | None => mret tt
  | Some enqueue =>
    match principalOf c with
    | None => mret tt
    | Some principal =>
      let rec := RecordFromDecision (pr_OrgID principal) (pr_KeyID principal) req decision in
      rec ← match s_retentionFor s with
            | None => mret rec
            | Some f => t ← now; mret (set_RetainUntil (Add t (f (pr_Tier principal))) rec)
            end;
      enqueue rec
    end
  end.

(** The evaluation of a request no earlier decision answers. *)
Definition authorize_fresh s (req : AuthorizeRequest) : handler W := fun c r =>
  let '(orgID, shadow) := match principalOf c with Some p => (pr_OrgID p, pr_Shadow p) | None => ("", false) end in
  res ← s_authz s orgID req shadow;
  match res with
  | Err _ =>
    mret (Some (writeProblem c r 503 codeInternal "Decision unavailable" "The decision plane could not produce a decision." []))
  | Ok decision =>
    _ ← saveIdempotent s c req decision;
    _ ← match s_metrics s with Some m => RecordDecision m (dec_Verdict decision) (dec_LatencyMs decision) | None => mret tt end;
    let resp := with_header "X-Decision-Id" (dec_DecisionID decision) (writeJSON 200 (PDecision decision)) in
    _ ← enqueueAudit s c req decision;
    mret (Some (if dec_Shadow decision then with_header "X-Shadow" "true" resp else resp))
  end.

Definition authorize_request s (req : AuthorizeRequest) : handler W := fun c r =>
  let items := validateAuthorizeRequest req in
  if nonempty items then
    mret (Some (writeProblem c r 400 codeValidationFailed "Validation failed" "One or more fields are invalid." items))
  else
    let req := clear_EvaluatedAt req in
    hit ← idempotentReplay s c req;
    match hit with
    | Some dec =>
      mret (Some (with_header "X-Decision-Id" (dec_DecisionID dec)
        (with_header "X-Idempotent-Replay" "true" (writeJSON 200 (PDecision dec)))))
    | None => authorize_fresh s req c r
    end.

Definition handleAuthorize s : handler W := fun c r =>
  let body := default "" (rq_Body r) in
  if maxBodyBytes <? Z.of_nat (String.length body) then
    mret (Some (writeProblem c r 413 codeValidationFailed "Request too large" "The request body exceeds the maximum allowed size." []))
  else
    match decode_request body with
    | Err e => mret (Some (writeProblem c r 400 codeValidationFailed "Malformed request body" (jsonErrorDetail e) []))
    | Ok (_, true) =>
      mret (Some (writeProblem c r 400 codeValidationFailed "Malformed request body" "Body must contain a single JSON object." []))
    | Ok (req, false) => authorize_request s req c r
    end.

(** * Capture and void *)

Definition toHoldResponse (x : Hold) : holdResponse :=
  {| hr_DecisionID := h_DecisionID x; hr_State := h_State x; hr_BudgetID := h_BudgetID x; hr_Amount := h_Amount x;
     hr_Currency := h_Currency x;
     hr_ExpiresAt := if IsZero (h_ExpiresAt x) then "" else format_rfc3339 (h_ExpiresAt x) |}.

Definition writeHoldError (c : ctx) (r : http_request) (e : hold_error) : response :=
  match e with
  | ErrNotFound =>
    writeProblem c r 404 codeNotFound "Hold not found" "No hold matches the given decision id (it may have expired)." []
  | ConflictError _ _ reason => writeProblem c r 409 codeConflict "Hold state conflict" reason []
  | ErrStore _ => writeProblem c r 503 codeInternal "Hold operation failed" "The hold could not be updated." []
  end.

(** [fn] is [bl_Capture] or [bl_Void]; a nil hold is dereferenced. *)
Definition transitionHold s (fn : budgetLifecycle W -> string -> string -> io W (result hold_error (option Hold)))
    : handler W := fun c r =>
  match s_budget s with
  | None =>
    mret (Some (writeProblem c r 503 codeInternal "Holds unavailable" "Two-phase budget holds are not enabled on this instance." []))
  | Some b =>
    match principalOf c with
    | None => mret (Some (no_principal c r))
    | Some principal =>
      if negb (reULID (rq_ID r)) then
        mret (Some (writeProblem c r 404 codeNotFound "Hold not found" "No hold matches the given decision id." []))
      else
        x ← fn b (pr_OrgID principal) (rq_ID r);
        mret (match x with
              | Err e => Some (writeHoldError c r e)
              | Ok (Some x) => Some (writeJSON 200 (PHold (toHoldResponse x)))
              | Ok None => None
              end)
    end
  end.

Definition handleCapture s : handler W := transitionHold s bl_Capture.
Definition handleVoid s : handler W := transitionHold s bl_Void.

(** * The decision log *)

(** The signature of the stored decision, and its link of the hash chain. *)
Definition verifyRecord s (rec : Record_) : bool :=
  match s_verifyDecision s with
  | None => false
  | Some verify =>
    is_ok (verify (Record_Decision rec false)) &&
    match VerifyChainLink rec with Ok b => b | Err _ => false end
  end.

Definition decision_not_found (c : ctx) (r : http_request) : response :=
  writeProblem c r 404 codeNotFound "Decision not found" "No decision matches the given id." [].

Definition handleGetDecision s : handler W := fun c r =>
  match s_auditStore s with
  | None => mret (Some (decision_not_found c r))
  | Some st =>
    match principalOf c with
    | None => mret (Some (no_principal c r))
    | Some principal =>
      if negb (reULID (rq_ID r)) then mret (Some (decision_not_found c r))
      else
        x ← au_Get st (pr_OrgID principal) (rq_ID r);
        mret (Some (match x with
                    | Err AuditNotFound => decision_not_found c r
                    | Err _ => writeProblem c r 503 codeInternal "Decision unavailable" "The decision record could not be read." []
                    | Ok rec => writeJSON 200 (PDecision (Record_Decision rec (verifyRecord s rec)))
                    end))
    end
  end.

Definition encodeCursor (seq : Z) : string := EncodeToString (FormatInt seq).

Definition decodeCursor (x : string) : option Z := raw ← DecodeString x; ParseInt raw.

Definition Query_Get (q : gmap string (list string)) (k : string) : string :=
  match q !! k with Some (v :: _) => v | _ => "" end.

(** A query parameter, when present, either parses into the filter or is
    reported. *)
Definition parse_param {A} (v : string) (parse : string -> option A) (pointer detail : string) : option A * list ValidationItem :=
  if String.eqb v "" then (None, [])
  else match parse v with
       | Some a => (Some a, [])
       | None => (None, [{| vi_Pointer := pointer; vi_Detail := detail |}])
       end.

Definition parse_verdict (v : string) : option string :=
  if mem_str v [VerdictApprove; VerdictDeny; VerdictReview] then Some v else None.

Definition parse_limit (v : string) : option Z :=
  n ← ParseInt v; if (1 <=? n) && (n <=? MaxListLimit) then Some n else None.

Definition parseListFilter (r : http_request) : Filter * list ValidationItem :=
  let get := Query_Get (rq_Query r) in
  let '(v, i1) := parse_param (get "verdict") parse_verdict "/verdict" "must be one of APPROVE|DENY|REVIEW" in
  let '(f, i2) := parse_param (get "from") parse_rfc3339 "/from" "must be an RFC 3339 date-time" in
  let '(t, i3) := parse_param (get "to") parse_rfc3339 "/to" "must be an RFC 3339 date-time" in
  let '(l, i4) := parse_param (get "limit") parse_limit "/limit" "must be an integer in 1..200" in
  let '(k, i5) := parse_param (get "cursor") decodeCursor "/cursor" "invalid pagination cursor" in
  ({| f_AgentID := get "agent_id"; f_Verdict := default "" v; f_From := default zero_time f; f_To := default zero_time t;
      f_Limit := default 0 l; f_Cursor := default 0 k |},
   i1 ++ i2 ++ i3 ++ i4 ++ i5).

(** The page as it is written out. *)
Definition to_listPage s (p : Page) : listPage :=
  {| lp_Data := (fun rec => Record_Decision rec (verifyRecord s rec)) <$> Records p;
     lp_NextCursor := if 0 <? NextCursor p then Some (encodeCursor (NextCursor p)) else None |}.

Definition handleListDecisions s : handler W := fun c r =>
  match s_auditStore s with
  | None => mret (Some (writeJSON 200 (PPage {| lp_Data := []; lp_NextCursor := None |})))
  | Some st =>
    match principalOf c with
    | None => mret (Some (no_principal c r))
    | Some principal =>
      let '(f, items) := parseListFilter r in
      if nonempty items then
        mret (Some (writeProblem c r 400 codeValidationFailed "Validation failed" "One or more query parameters are invalid." items))
      else
        x ← au_List st (pr_OrgID principal) f;
        mret (Some (match x with
                    | Err _ => writeProblem c r 503 codeInternal "Decisions unavailable" "The decision records could not be read." []
                    | Ok p => writeJSON 200 (PPage (to_listPage s p))
                    end))
    end
  end.

(** * Metrics ([metrics.go]) *)

Definition handleMetrics s : handler W := fun c r =>
  match s_metrics s with
  | None => mret (Some (writeProblem c r 503 codeInternal "Metrics unavailable" "Metrics are not enabled on this instance." []))
  | Some m =>
    text ← WriteText m;
    mret (Some {| resp_Status := 200;
                  resp_Header := {[ "Content-Type" := "text/plain; version=0.0.4; charset=utf-8"; "Cache-Control" := "no-store" ]};
                  resp_Body := PText text |})
  end.

(** * The endpoints as [Handler] wires them *)

Definition protected s h : handler W := authenticate s (rateLimit s h).

Definition authorize_endpoint s : handler W := method "POST" (protected s (handleAuthorize s)).
Definition capture_endpoint s : handler W := method "POST" (protected s (handleCapture s)).
Definition void_endpoint s : handler W := method "POST" (protected s (handleVoid s)).
Definition getDecision_endpoint s : handler W := method "GET" (protected s (handleGetDecision s)).
Definition listDecisions_endpoint s : handler W := method "GET" (protected s (handleListDecisions s)).

Definition metrics_endpoint s : handler W := method "GET" (handleMetrics s).

Definition handleNotFound : handler W := fun c r =>
  mret (Some (writeProblem c r 404 codeNotFound "Not found" "The requested resource does not exist." [])).

(** The middleware around the routes; tracing and logging leave the response
    as it is. *)
Definition chain h : handler W := requestID (secureHeaders (recoverPanic h)).
End server.
