(* ===== verification/Telemetry.v ===== *)
(** What the service reports about itself ([internal/server/middleware.go],
    [internal/server/trace.go], [internal/tracing/tracing.go]): the access log,
    the log of panics and the request spans around the routes, and the choice of
    a trace exporter.  Where the lines and spans go is an interface. *)

From S2P Require Import Prelude GoStrings GoTime Contracts Runtime Signing Auth Server.

(** * The exporter *)

Inductive exporter := ExportNone | ExportStdout | ExportOtlp (endpoint : option string).

(** The switch of [Init]. *)
Definition exporter_of `{Unicode} (Exporter Endpoint : string) : result string exporter :=
  if mem_str Exporter [""; "none"; "off"; "disabled"] then Ok ExportNone
  else if String.eqb Exporter "stdout" then Ok ExportStdout
  else if String.eqb Exporter "otlp" then Ok (ExportOtlp (if negb (String.eqb Endpoint "") then Some Endpoint else None))
  else Err ("tracing: unknown exporter " +:+ Quote Exporter +:+ " (want stdout|otlp|none)").

(** [Init]; [build] makes the SDK's exporter and [resource] its resource. *)
Definition Init `{Unicode} (build : exporter -> result string unit) (resource : result string unit) (Exporter Endpoint : string) : result string exporter :=
  match exporter_of Exporter Endpoint with
  | Err e => Err e
  | Ok ExportNone => Ok ExportNone
  | Ok exp =>
    match build exp with
    | Err e => Err ("tracing: build exporter: " +:+ e)
    | Ok _ => match resource with Err e => Err ("tracing: resource: " +:+ e) | Ok _ => Ok exp end
    end
  end.

(** * Lines and spans *)

Record span := { sp_Name : string; sp_RequestID : string; sp_Method : string; sp_Path : string; sp_Status : option Z; sp_Error : bool }.

Inductive telemetry :=
| Access (request_id method path : string) (status latency_ms : Z) (remote : string)
| Panicked (request_id path : string)
| SpanEnded (s : span).

Section telemetry.
Context {W : Type} `{Runtime W} (emit : telemetry -> io W unit) (RemoteAddr : http_request -> string).
Implicit Types (h : handler W).

(** One line per request that answers: a panic passes it by. *)
Definition logRequests h : handler W := fun c r =>
  start ← now;
  resp ← h c r;
  match resp with
  | None => mret None
  | Some x =>
    ms ← millis_since start;
    _ ← emit (Access (reqID c) (rq_Method r) (rq_Path r) (resp_Status x) ms (RemoteAddr r));
    mret (Some x)
  end.

(** [recoverPanic] with its line. *)
Definition recoverPanic_logged h : handler W := fun c r =>
  resp ← h c r;
  match resp with
  | Some x => mret (Some x)
  | None =>
    _ ← emit (Panicked (reqID c) (rq_Path r));
    mret (Some (writeProblem c r 500 codeInternal "Internal server error" "An unexpected error occurred." []))
  end.

(** The span ends when the handler is left, with its status if it answered. *)
Definition traceRequests h : handler W := fun c r =>
  resp ← h c r;
  _ ← emit (SpanEnded {| sp_Name := "HTTP " +:+ rq_Method r; sp_RequestID := reqID c; sp_Method := rq_Method r; sp_Path := rq_Path r;
                         sp_Status := resp_Status <$> resp; sp_Error := match resp with Some x => 500 <=? resp_Status x | None => false end |});
  mret resp.

(** The middleware of [Handler], all of it. *)
Definition chain_logged h : handler W := requestID (traceRequests (secureHeaders (recoverPanic_logged (logRequests h)))).

(** * What is reported *)

(** [emit] appends; what else runs leaves the lines alone. *)
Class Recorded (lines : W -> list telemetry) := {
  recorded_emit t w : lines (emit t w).2 = lines w ++ [t];
  recorded_frame :: Frame lines
}.

Context (lines : W -> list telemetry) `{!Recorded lines}.

Definition silent h : Prop := forall c r w, lines (h c r w).2 = lines w.

(** The handler's run inside the middleware: where it starts and what it gives. *)
Definition inner_run h c r w : string * (option response * W) :=
  let '(id, w1) := (if String.eqb (Header_Get (rq_Header r) requestHeaderName) "" then ulid_New else mret (Header_Get (rq_Header r) requestHeaderName)) w in
  (id, h {| ctx_ReqID := id; ctx_Principal := ctx_Principal c |} r (now w1).2).

Lemma millis_frame start w : lines (millis_since start w).2 = lines w.
Proof using Recorded0. unfold millis_since. rewrite bind_let. cbn. apply now_frame. Qed.

Lemma requestID_frame r w :
  lines ((if String.eqb (Header_Get (rq_Header r) requestHeaderName) "" then ulid_New else mret (Header_Get (rq_Header r) requestHeaderName)) w).2 = lines w.
Proof using Recorded0. destruct (String.eqb _ ""); [apply ulid_New_frame|done]. Qed.

(** The routes inside the log, then inside the recovery. *)
Lemma logged_run h c r w : silent h -> exists w',
  logRequests h c r w = ((h c r (now w).2).1, w') /\
  match (h c r (now w).2).1 with
  | Some y => exists ms, lines w' = lines w ++ [Access (reqID c) (rq_Method r) (rq_Path r) (resp_Status y) ms (RemoteAddr r)]
  | None => lines w' = lines w
  end.
Proof using Recorded0.
  intros Hh. unfold logRequests, mbind, io_bind. pose proof (now_frame (view:=lines) w) as Hn. destruct (now w) as [start w1]. cbn [snd] in *.
  pose proof (Hh c r w1) as Hs. destruct (h c r w1) as [[y|] w2]; cbn [fst snd] in *.
  - pose proof (millis_frame start w2) as Hm. destruct (millis_since start w2) as [ms w3]. cbn [snd] in Hm.
    set (ln := Access _ _ _ _ _ _). pose proof (recorded_emit ln w3) as Hl. destruct (emit ln w3) as [u w4]. cbn [snd] in Hl.
    eexists. split; [reflexivity|]. exists ms. by rewrite Hl, Hm, Hs, Hn.
  - eexists. split; [reflexivity|]. by rewrite Hs.
Qed.

Lemma recovered_run h c r w : silent h -> exists x w',
  recoverPanic_logged (logRequests h) c r w = (Some x, w') /\
  match (h c r (now w).2).1 with
  | Some y => x = y /\ exists ms, lines w' = lines w ++ [Access (reqID c) (rq_Method r) (rq_Path r) (resp_Status x) ms (RemoteAddr r)]
  | None => resp_Status x = 500 /\ lines w' = lines w ++ [Panicked (reqID c) (rq_Path r)]
  end.
Proof using Recorded0.
  intros Hh. destruct (logged_run h c r w Hh) as (w1 & E & Hl). unfold recoverPanic_logged, mbind, io_bind. rewrite E. clear E.
  destruct (h c r (now w).2) as [[y|] w2]; cbn [fst] in *; [by eauto 6|].
  pose proof (recorded_emit (Panicked (reqID c) (rq_Path r)) w1) as Hp. destruct (emit _ w1) as [u w3]. cbn [snd] in Hp.
  eexists _, _. split; [reflexivity|]. split; [done|]. by rewrite Hp, Hl.
Qed.
End telemetry.

(** Every answer is reported once, as what it was.  Around any handler the
    service answers and ends one span, with the request's id and the status of
    the answer, marked as an error from 500 on.  If the handler answers, the
    answer keeps its status and body, and one access line with the same id and
    status precedes the span.  If it panics, the answer is a 500 and its line is
    the panic's; there is no access line. *)
Theorem reported_once {W} `{Runtime W} (emit : telemetry -> io W unit) (RemoteAddr : http_request -> string) (lines : W -> list telemetry)
  `{!Recorded emit lines} (h : handler W) (Hh : silent lines h) c r w :
  exists x, (chain_logged emit RemoteAddr h c r w).1 = Some x /\
    let '(id, (y, _)) := inner_run h c r w in
    let ended := SpanEnded {| sp_Name := "HTTP " +:+ rq_Method r; sp_RequestID := id; sp_Method := rq_Method r; sp_Path := rq_Path r;
                              sp_Status := Some (resp_Status x); sp_Error := 500 <=? resp_Status x |} in
    match y with
    | Some y => resp_Status x = resp_Status y /\ resp_Body x = resp_Body y /\
        exists ms, lines (chain_logged emit RemoteAddr h c r w).2 =
          lines w ++ [Access id (rq_Method r) (rq_Path r) (resp_Status x) ms (RemoteAddr r); ended]
    | None => resp_Status x = 500 /\ lines (chain_logged emit RemoteAddr h c r w).2 = lines w ++ [Panicked id (rq_Path r); ended]
    end.
Proof.
  unfold chain_logged, requestID, inner_run. rewrite bind_let. pose proof (requestID_frame emit lines r w) as Hid.
  destruct ((if String.eqb _ "" then ulid_New else mret _) w) as [id w1]. cbn [fst snd] in Hid |- *.
  set (c1 := {| ctx_ReqID := id; ctx_Principal := ctx_Principal c |}).
  destruct (recovered_run emit RemoteAddr lines h c1 r w1 Hh) as (x & w2 & E & Hr). unfold traceRequests, secureHeaders, mbind, io_bind. rewrite E. clear E.
  cbn [mret io_ret fmap option_fmap option_map]. set (sp := SpanEnded _). pose proof (recorded_emit emit sp w2) as Hs. destruct (emit sp w2) as [u w3].
  cbn [fst snd mret io_ret fmap option_fmap option_map] in Hs |- *. eexists. split; [reflexivity|]. cbn [snd resp_Status resp_Body with_header].
  destruct (h c1 r (now w1).2) as [[y|] w4]; cbn [fst] in Hr.
  - destruct Hr as [-> [ms Hr]]. split; [done|]. split; [done|]. exists ms. by rewrite Hs, Hr, Hid, <- app_assoc.
  - destruct Hr as [Hst Hr]. split; [done|]. by rewrite Hs, Hr, Hid, <- app_assoc.
Qed.

(** * A concrete service *)

Record tworld := { tw_clock : time; tw_lines : list telemetry }.

#[local] Instance tw_runtime : Runtime tworld := {|
  now w := (tw_clock w, {| tw_clock := tw_clock w + 7000000; tw_lines := tw_lines w |});
  rand_Read n w := (repeat 0 n, w)
|}.

Definition tw_emit (t : telemetry) : io tworld unit := fun w => (tt, {| tw_clock := tw_clock w; tw_lines := tw_lines w ++ [t] |}).

#[local] Instance tw_recorded : Recorded tw_emit tw_lines.
Proof. split; [done|]. split; done. Qed.

Definition tw_request : http_request :=
  {| rq_Method := "GET"; rq_Path := "/v1/nowhere"; rq_Header := {[ "X-Request-Id" := ["req1"] ]}; rq_Body := None; rq_ID := ""; rq_Query := ∅ |}.

Definition tw_ctx : ctx := {| ctx_ReqID := ""; ctx_Principal := None |}.
Definition tw0 : tworld := {| tw_clock := 0; tw_lines := [] |}.

(** Not found; and a handler that panics. *)
Definition lines_of (h : handler tworld) : list telemetry := tw_lines (chain_logged tw_emit (fun _ => "10.0.0.1:9") h tw_ctx tw_request tw0).2.

Example lines_reported :
  lines_of handleNotFound =
    [Access "req1" "GET" "/v1/nowhere" 404 7 "10.0.0.1:9";
     SpanEnded {| sp_Name := "HTTP GET"; sp_RequestID := "req1"; sp_Method := "GET"; sp_Path := "/v1/nowhere"; sp_Status := Some 404; sp_Error := false |}] /\
  lines_of (fun _ _ => mret None) =
    [Panicked "req1" "/v1/nowhere";
     SpanEnded {| sp_Name := "HTTP GET"; sp_RequestID := "req1"; sp_Method := "GET"; sp_Path := "/v1/nowhere"; sp_Status := Some 500; sp_Error := true |}].
Proof. split; vm_compute; reflexivity. Qed.

Lemma reported_once_witness :
  exists x, (chain_logged tw_emit (fun _ => "10.0.0.1:9") handleNotFound tw_ctx tw_request tw0).1 = Some x /\ resp_Status x = 404.
Proof.
  assert (Hs : silent tw_lines handleNotFound) by (intros c r w; reflexivity).
  destruct (reported_once tw_emit (fun _ => "10.0.0.1:9") tw_lines handleNotFound Hs tw_ctx tw_request tw0) as (x & Hx & Hr).
  exists x. split; [exact Hx|]. exact (proj1 Hr).
Defined.
