(* ===== verification/AuditPgMem.v ===== *)
(** The Postgres decision log on concrete data: a schedule of appends by two
    instances, a record no text column takes, and the witnesses of
    [AuditPgProps.v]. *)

From stdpp Require Import relations.
From S2P Require Import Prelude GoStrings GoTime Contracts Runtime Signing Samples Sha2 AuditLog AuditProps AuditMem Pg AuditPg AuditPgProps Server.

#[local] Existing Instances sha2 sample_jcs aurt.

(** * Schedules *)

(** A call arrives, or the [i]-th transaction makes a statement. *)
Inductive move := Arrive (r : Record_) | Go (i : nat) (f : fault).

Section play.
Context `{Sha256} `{Jcs} {W : Type} (enc : Encryptor W) (stored : time -> time) (hashtext : string -> Z) (good : string -> Prop) (clock : time).

Definition play_append (s : append_system (W:=W)) (m : move) : append_system :=
  let '{| as_db := db; as_world := w; as_threads := ths |} := s in
  match m with
  | Arrive r => {| as_db := db; as_world := w; as_threads := ABegin r :: ths |}
  | Go i f =>
    match ths !! i with
    | Some th =>
      match append_exec enc stored hashtext f clock clock (take i ths ++ drop (S i) ths) th db w with
      | Some (th', db, w) => {| as_db := db; as_world := w; as_threads := take i ths ++ th' :: drop (S i) ths |}
      | None => s
      end
    | None => s
    end
  end.

Definition good_move (m : move) : Prop := match m with Arrive r => good_record good r | Go _ _ => True end.

Lemma play_appends ms s : Forall good_move ms -> rtc (append_step enc stored hashtext good) s (foldl play_append s ms).
Proof using Type.
  intros Hms. revert s. induction Hms as [|m ms Hm _ IH]; intros s; [done|]. cbn [foldl]. etrans; [|apply IH].
  destruct s as [db w ths], m as [r|i f]; cbn [play_append]; [by apply rtc_once, as_arrive|].
  destruct (ths !! i) as [th|] eqn:Ei; [|done]. destruct (append_exec _ _ _ _ _ _ _ _ _ _) as [[[th' db'] w']|] eqn:E; [|done].
  rewrite <- (take_drop_middle ths i th Ei) at 1. by eapply rtc_once, as_run, ar_run.
Qed.
End play.

(** * Two instances *)

(** A lock number. *)
Definition lock_number (s : string) : Z := Z.of_nat (String.length s).

Definition at_ten (d : Contracts.Decision) : Contracts.Decision :=
  {| dec_DecisionID := dec_DecisionID d; dec_Verdict := dec_Verdict d; dec_PolicyVersionHash := dec_PolicyVersionHash d;
     dec_Explanation := dec_Explanation d; dec_Obligations := dec_Obligations d; dec_LatencyMs := dec_LatencyMs d;
     dec_EvaluatedAt := "2026-03-02T10:00:00Z"; dec_Signature := dec_Signature d; dec_Shadow := dec_Shadow d;
     dec_RecordHash := dec_RecordHash d; dec_SignatureVerified := dec_SignatureVerified d |}.

Definition rec_of (org agent id amount : string) : Record_ :=
  RecordFromDecision org "key1" (sample_request agent amount) (at_ten (Record_Decision (sample_record org id amount) true)).

Definition rec_at (org id amount : string) : Record_ := rec_of org "agent1" id amount.

(** A record and another of its organisation take turns; the answer to the
    commit of the second is lost, its retry finds it; a third is of another
    organisation and meets a refused statement first. *)
Definition two_instances : list move :=
  [Arrive (rec_at "org1" "d2" "20.00"); Arrive (rec_at "org1" "d1" "10.00");
   Go 0 Live; Go 1 Live; Go 0 Live; Go 1 Live; Go 0 Live; Go 1 Live; Go 0 Live; Go 0 Live;
   Go 1 Live; Go 1 Live; Go 1 Live; Go 1 (Lost "connection reset");
   Arrive (rec_at "org2" "d3" "5.00"); Go 0 Live; Go 0 (Refused "deadlock detected");
   Arrive (rec_at "org1" "d2" "20.00"); Go 0 Live; Go 0 Live; Go 0 Live; Go 0 Live; Go 0 Live;
   Arrive (rec_at "org2" "d3" "5.00"); Go 0 Live; Go 0 Live; Go 0 Live; Go 0 Live; Go 0 Live].

Definition pg_start := append_init (W:=sworld unit) (world0 tt).
Definition played := foldl (play_append nop micros lock_number 1772445600000000123) pg_start two_instances.

Example played_rows :
  ((fun x => (OrgID (row_rec x), DecisionID (row_rec x), Seq (row_rec x))) <$> pl_rows (as_db played)) =
    [("org1", "d1", 1); ("org1", "d2", 2); ("org2", "d3", 4)] /\
  ((fun th => match th with ADone _ r => Some (is_ok r) | _ => None end) <$> as_threads played) =
    [Some true; Some true; Some false; Some true; Some false].
Proof. vm_compute. split; reflexivity. Qed.

Lemma two_instances_good : Forall (good_move unmarked) two_instances.
Proof. unfold two_instances. repeat (constructor; [by repeat split || exact I|]). constructor. Qed.

Lemma played_reachable : rtc (append_step nop micros lock_number unmarked) pg_start played.
Proof. apply play_appends, two_instances_good. Qed.

Lemma pg_log_integrity_witness :
  length (pl_rows (as_db played)) = 3%nat /\
  exists plain, Forall2 (opens nop) (row_rec <$> rows_of "org1" (pl_rows (as_db played))) plain /\ linked GenesisPrev plain.
Proof.
  split; [vm_compute; reflexivity|].
  destruct (pg_log_integrity nop unmarked micros lock_number (world0 tt) played played_reachable) as [Hc _].
  destruct (Hc "org1") as (plain & H1 & H2 & _). exists plain. split; [exact H1 | exact H2].
Defined.

Lemma times_kept rows :
  forallb (fun row => bool_decide (parse_rfc3339 (EvaluatedAt (row_rec row)) = Some (row_ts row))) rows = true -> Forall time_kept rows.
Proof.
  intros Ha. apply list.Forall_forall. intros row Hin. rewrite forallb_forall in Ha. apply list_elem_of_In, Ha in Hin. by apply bool_decide_eq_true in Hin.
Qed.

Lemma pg_reads_refine_memory_witness :
  let f := {| f_AgentID := ""; f_Verdict := ""; f_From := 1772445600000000000; f_To := zero_time; f_Limit := 1; f_Cursor := 0 |} in
  (match Pg_List nop micros "org1" f (pl_rows (as_db played)) with Ok p => Some (DecisionID <$> Records p, NextCursor p) | Err _ => None end =
     Some (["d2"], 2)) /\
  Pg_List nop micros "org1" f (pl_rows (as_db played)) = List_ nop "org1" f (as_store (as_db played) "org1").
Proof.
  split; [vm_compute; reflexivity|].
  refine (proj1 (pg_reads_refine_memory nop unmarked micros lock_number (world0 tt) played "org1" _ _ played_reachable _ _ _ _ (as_store_of_org _ _))).
  - vm_compute. reflexivity.
  - apply times_kept. vm_compute. reflexivity.
  - reflexivity.
  - reflexivity.
Defined.

(** * A record no text column takes *)

(** JSON can spell a zero byte in an identifier; the request is valid. *)
Definition zero_agent : string := String "a" (String (chr 0) "").
Definition zero_request : AuthorizeRequest :=
  {| req_AgentID := zero_agent; req_Action := "pay"; req_Amount := "10.00"; req_Currency := "USD";
     req_Target := {| tgt_Type := TargetVendor; tgt_ID := "acme" |}; req_Jurisdiction := "US"; req_Context := ∅;
     req_IdempotencyKey := "key-00000001"; req_EvaluatedAt := ""; req_CounterSnapshot := None |}.

(** The decision on it is returned and signed, but its append fails whatever the
    database does, so it is never logged. *)
Lemma zero_byte_refused `{Sha256} `{Jcs} {W} (enc : Encryptor W) stored hashtext f app db_now others r prev hash sealed ts db w th' db' w' :
  text_ok (AgentID sealed) = false ->
  append_exec enc stored hashtext f app db_now others (AInsert r prev hash sealed ts) db w = Some (th', db', w') ->
  exists e, th' = ADone r (Err e) /\ db' = db.
Proof.
  intros Hz. assert (Hrow : row_accepted sealed = false) by (unfold row_accepted; cbn [forallb]; by rewrite Hz, !andb_false_r).
  destruct f as [|m|m]; cbn [append_exec]; cbv zeta; rewrite ?Hrow; cbn [negb]; intros [= <- <- <-]; eauto.
Qed.

Example decision_never_logged :
  validateAuthorizeRequest zero_request = [] /\
  (let r := RecordFromDecision "org1" "key1" zero_request (at_ten (Record_Decision (sample_record "org1" "d9" "10.00") true)) in
   let s := foldl (play_append nop micros lock_number 0) pg_start ([Arrive r] ++ repeat (Go 0 Live) 5) in
   pl_rows (as_db s) = [] /\ omap (fun th => match th with ADone _ r => Some (is_ok r) | _ => None end) (as_threads s) = [false]).
Proof. vm_compute. repeat split. Qed.

(** Two appends of one organisation, one of them holding the lock. *)
Definition contended : append_system (W:=sworld unit) :=
  {| as_db := {| pl_rows := []; pl_seq := 0 |}; as_world := world0 tt;
     as_threads := [ALock (rec_at "org1" "d1" "10.00"); ATail (rec_at "org1" "d2" "20.00")] |}.

Lemma pg_appends_finish_witness :
  appends_left contended = 7%nat /\
  (forall n s', nsteps (append_run nop micros lock_number) n contended s' -> (n <= 7)%nat) /\
  (forall s', rtc (append_run nop micros lock_number) contended s' ->
     Forall append_done (as_threads s') \/ exists s'', append_run nop micros lock_number s' s'').
Proof.
  destruct (pg_appends_finish nop micros lock_number contended) as [Hn Hd].
  split; [reflexivity|]. split; [intros n s' Hs; exact (proj1 (Hn n s' Hs))|]. intros s' Hs. exact (proj2 (Hd s' Hs)).
Defined.
