(* ===== verification/ServerCtl.v ===== *)
(** The control plane of the server: [server/policies.go], [keys_admin.go],
    [provision.go], [keys.go] and the health endpoint of [server.go].  Bodies
    reach the handlers decoded; how a body decodes is an interface. *)

From S2P Require Import Prelude Policyctl BundleProv ControlTypes GoStrings GoTime Base64 Ulid Money Runtime RateLimit Predicates Signing Engine Auth Contracts Server.

Definition maxPolicyBodyBytes : Z := 262144.
Definition maxSimulateRequests : Z := 500.

(** A string between double quotes. *)
Definition quoted (x : string) : string := String (chr 34) (x +:+ String (chr 34) EmptyString).

(** * Decoding *)

(** The reader refused to go past its limit, or the JSON is not what it should
    be. *)
Inductive body_error := BodyTooLarge | BodyMalformed (e : json_error).

(** What a decoder makes of the bytes that can be read, [None] when reading
    fails, and of a limit after them.  [dec_publish] is what is left in the
    body of a publish when decoding errors are ignored. *)
Class ControlDecoder := {
  dec_policy : option string -> bool -> result body_error policyWriteRequest;
  dec_publish : option string -> string;
  dec_rollback : option string -> bool -> result body_error string;
  dec_simulate : option string -> bool -> result body_error simulateRequest;
  dec_createKey : option string -> bool -> result body_error createKeyRequest;
  dec_provision : option string -> bool -> result body_error provisionKeyRequest
}.

Definition prefix_of_body (body : string) : string := String.substring 0 (Z.to_nat maxPolicyBodyBytes) body.

(** [decodePolicyBody]: [inr] is the response already written. *)
Definition decodePolicyBody {A} (dec : option string -> bool -> result body_error A) (c : ctx) (r : http_request) : A + response :=
  let res := match rq_Body r with
             | Some body => dec (Some (prefix_of_body body)) (maxPolicyBodyBytes <? Z.of_nat (String.length body))
             | None => dec None false
             end in
  match res with
  | Ok v => inl v
  | Err BodyTooLarge =>
    inr (writeProblem c r 413 codeValidationFailed "Request too large" "The request body exceeds the maximum allowed size." [])
  | Err (BodyMalformed e) => inr (writeProblem c r 400 codeValidationFailed "Malformed request body" (jsonErrorDetail e) [])
  end.

(** [decodeOptionalBody], its error dropped. *)
Definition decodeOptionalBody `{ControlDecoder} (r : http_request) : string := dec_publish (prefix_of_body <$> rq_Body r).

(** * Errors *)

(** A policy operation failed with one of its errors, or with another one. *)
Definition writePolicyError (c : ctx) (r : http_request) (e : option policy_error) : response :=
  match e with
  | Some (ValidationError ps) =>
    writeProblem c r 422 codeValidationFailed "Policy validation failed" "The policy is not publishable; see errors."
      ((fun p => {| vi_Pointer := pb_Pointer p; vi_Detail := pb_Detail p |}) <$> ps)
  | Some ErrPolicyNotFound | Some ErrVersionNotFound | Some ErrBundleNotFound =>
    writeProblem c r 404 codeNotFound "Not found" "No such policy, version, or active bundle for this org." []
  | Some ErrPolicyExists => writeProblem c r 409 codeConflict "Conflict" "A policy with that id already exists." []
  | _ => writeProblem c r 503 codeInternal "Control plane error" "The policy operation could not be completed." []
  end.

Definition sim_policy_error (e : sim_error) : option policy_error := match e with SimStore e => Some e | SimCompile _ => None end.

Section control.
Context {W : Type} `{Runtime W} `{Sha256} `{ControlDecoder}.
Implicit Types (s : Server W) (h : handler W).

Definition json_ok (code : Z) (v : control_payload) : option response := Some (writeJSON code (PControl v)).

(** [controlPlaneReady] and [orgOf], in continuation style. *)
Definition with_service s (k : PolicyService W -> handler W) : handler W := fun c r =>
  match c_policySvc (s_control s) with
  | None => mret (Some (writeProblem c r 503 codeInternal "Control plane unavailable" "Policy authoring is not enabled on this instance." []))
  | Some svc => k svc c r
  end.

Definition with_org (k : string -> handler W) : handler W := fun c r =>
  match principalOf c with
  | None => mret (Some (no_principal c r))
  | Some p => k (pr_OrgID p) c r
  end.

(** A decoded body, or the response that says what is wrong with it. *)
Definition with_body {A} (dec : option string -> bool -> result body_error A) (k : A -> handler W) : handler W := fun c r =>
  match decodePolicyBody dec c r with
  | inr x => mret (Some x)
  | inl v => k v c r
  end.

(** A service call, and what its answer is sent as. *)
Definition answer {A} (call : io W (result policy_error A)) (code : Z) (send : A -> control_payload) : handler W := fun c r =>
  res ← call;
  mret (match res with Ok a => json_ok code (send a) | Err e => Some (writePolicyError c r (Some e)) end).

(** * Policies *)

Definition handleListPolicies (svc : PolicyService W) : handler W := with_org (fun org => answer (svc_List svc org) 200 PPolicies).

Definition handleCreatePolicy (svc : PolicyService W) : handler W :=
  with_org (fun org => with_body dec_policy (fun body =>
    answer (svc_Create svc org (pw_Name body) (pw_Agents body) (pw_Rules body)) 201 PPolicy)).

Definition not_allowed (allow detail : string) : handler W := fun c r =>
  mret (Some (with_header "Allow" allow (writeProblem c r 405 codeMethodNotAllowed "Method not allowed" detail []))).

Definition handlePolicies s : handler W := with_service s (fun svc c r =>
  if String.eqb (rq_Method r) "GET" then handleListPolicies svc c r
  else if String.eqb (rq_Method r) "POST" then handleCreatePolicy svc c r
  else not_allowed "GET, POST" "This endpoint supports GET (list) and POST (create policy)." c r).

Definition handleGetPolicy (svc : PolicyService W) : handler W :=
  with_org (fun org c r => answer (svc_Get svc org (rq_ID r)) 200 PPolicy c r).

Definition handleUpdatePolicy (svc : PolicyService W) : handler W :=
  with_org (fun org => with_body dec_policy (fun body c r =>
    answer (svc_Update svc org (rq_ID r) (pw_Name body) (pw_Agents body) (pw_Rules body)) 200 PPolicy c r)).

Definition handlePolicyItem s : handler W := with_service s (fun svc c r =>
  if String.eqb (rq_Method r) "GET" then handleGetPolicy svc c r
  else if String.eqb (rq_Method r) "PUT" then handleUpdatePolicy svc c r
  else not_allowed "GET, PUT" "This endpoint supports GET and PUT." c r).

(** A failed invalidation is logged only. *)
Definition invalidateBundle s (org : string) : io W unit :=
  match c_bundleInvalidator (s_control s) with
  | None => mret tt
  | Some f => _ ← f org; mret tt
  end.

(** Answer with the version and bring the decision plane up to date before. *)
Definition activated s (org : string) (call : io W (result policy_error Version)) : handler W := fun c r =>
  res ← call;
  match res with
  | Err e => mret (Some (writePolicyError c r (Some e)))
  | Ok v => _ ← invalidateBundle s org; mret (json_ok 200 (PVersion v))
  end.

Definition handlePublishPolicy s : handler W := with_service s (fun svc => with_org (fun org c r =>
  let author := decodeOptionalBody r in
  let author := if String.eqb author "" then match principalOf c with Some p => pr_KeyID p | None => author end else author in
  activated s org (svc_Publish svc org (rq_ID r) author) c r)).

Definition handleRollbackPolicy s : handler W := with_service s (fun svc => with_org (fun org => with_body dec_rollback (fun hash c r =>
  if String.eqb hash "" then
    mret (Some (writeProblem c r 400 codeValidationFailed "Validation failed" "version_hash is required." []))
  else activated s org (svc_Rollback svc org (rq_ID r) hash) c r))).

Definition handleListVersions s : handler W :=
  with_service s (fun svc => with_org (fun org c r => answer (svc_ListVersions svc org (rq_ID r)) 200 PVersions c r)).

(** The first request of a batch that is not valid: its index and what is wrong. *)
Fixpoint first_invalid (i : Z) (reqs : list AuthorizeRequest) : option (Z * list ValidationItem) :=
  match reqs with
  | [] => None
  | req :: reqs =>
    match validateAuthorizeRequest req with
    | [] => first_invalid (i + 1) reqs
    | items => Some (i, items)
    end
  end.

Definition handleSimulate s : handler W := with_service s (fun _ c r =>
  match c_simulator (s_control s) with
  | None => mret (Some (writeProblem c r 503 codeInternal "Simulation unavailable" "Policy simulation is not enabled on this instance." []))
  | Some simulate =>
    with_org (fun org => with_body dec_simulate (fun body c r =>
      let invalid detail items := mret (Some (writeProblem c r 400 codeValidationFailed "Validation failed" detail items)) in
      if Z.of_nat (length (sr_Requests body)) =? 0 then invalid "requests must contain at least one authorize request." []
      else if maxSimulateRequests <? Z.of_nat (length (sr_Requests body)) then invalid "too many requests in one simulation batch." []
      else match first_invalid 0 (sr_Requests body) with
      | Some (i, items) => invalid ("requests[" +:+ FormatInt i +:+ "] is invalid.") items
      | None =>
        res ← simulate org (rq_ID r) (sr_VersionHash body) (sr_Requests body);
        mret match res with
             | Err e => Some (writePolicyError c r (sim_policy_error e))
             | Ok (label, results) => json_ok 200 (PSimulation label true results)
             end
      end)) c r
  end).

Definition handleActiveBundle s : handler W :=
  with_service s (fun svc => with_org (fun org => answer (svc_ActiveBundle svc org) 200 PBundle)).

(** * Keys *)

Definition prefixFor (env : string) : string := if String.eqb env EnvTest then "azn_test_" else "azn_live_".

Definition viewOf (ki : KeyInfo) : apiKeyView :=
  {| kv_ID := ki_KeyID ki; kv_Prefix := prefixFor (ki_Env ki); kv_OrgID := ki_OrgID ki; kv_Env := ki_Env ki; kv_Tier := ki_Tier ki;
     kv_IsActive := String.eqb (ki_Status ki) Auth.StatusActive; kv_Shadow := ki_Shadow ki; kv_CreatedAt := ki_CreatedAt ki;
     kv_RevokedAt := ki_RevokedAt ki |}.

Definition keyAdminReady s (k : KeyAdmin W -> handler W) : handler W := fun c r =>
  match c_keyAdmin (s_control s) with
  | None => mret (Some (writeProblem c r 503 codeInternal "Key management unavailable" "API-key management is not enabled on this instance." []))
  | Some admin => k admin c r
  end.

Definition handleListKeys (admin : KeyAdmin W) : handler W := with_org (fun org c r =>
  res ← ka_ListKeys admin org;
  mret match res with
       | Err _ => Some (writeProblem c r 503 codeInternal "Key management error" "Could not list keys." [])
       | Ok keys => json_ok 200 (PKeys (viewOf <$> keys))
       end).

Definition with_Shadow (shadow : option bool) (rec : KeyRecord) : KeyRecord :=
  {| KeyID := KeyID rec; KeyHashHex := KeyHashHex rec; OrgID := OrgID rec; Tier := Tier rec; Env := Env rec; Status := Status rec;
     Shadow := default (Shadow rec) shadow |}.

(** Mint and store a key, the common end of creating and provisioning. *)
Definition mint_key (admin : KeyAdmin W) (title detail env org tier : string) (shadow : option bool) : handler W := fun c r =>
  if negb (String.eqb env EnvLive) && negb (String.eqb env EnvTest) then
    mret (Some (writeProblem c r 400 codeValidationFailed "Validation failed" ("env must be " +:+ quoted EnvLive +:+ " or " +:+ quoted EnvTest +:+ ".") []))
  else
    let tier := if String.eqb tier "" then "default" else tier in
    gk ← NewKey env org tier;
    match gk with
    | Err e => mret (Some (writeProblem c r 400 codeValidationFailed "Validation failed" e []))
    | Ok gk =>
      let rec := with_Shadow shadow (gk_Record gk) in
      t ← now;
      res ← ka_CreateKey admin rec t;
      mret match res with
           | Err _ => Some (writeProblem c r 503 codeInternal title detail [])
           | Ok _ =>
             json_ok 201 (PCreatedKey (viewOf {| ki_KeyID := KeyID rec; ki_OrgID := org; ki_Tier := tier; ki_Env := Env rec; ki_Status := Status rec;
                                                 ki_Shadow := Shadow rec; ki_CreatedAt := t; ki_RevokedAt := None |}) (gk_Plaintext gk))
           end
    end.

Definition handleCreateKey (admin : KeyAdmin W) : handler W := with_org (fun org => with_body dec_createKey (fun body =>
  mint_key admin "Key management error" "Could not create the key." (ck_Env body) org (ck_Tier body) (ck_Shadow body))).

Definition handleKeys s : handler W := keyAdminReady s (fun admin c r =>
  if String.eqb (rq_Method r) "GET" then handleListKeys admin c r
  else if String.eqb (rq_Method r) "POST" then handleCreateKey admin c r
  else not_allowed "GET, POST" "This endpoint supports GET (list) and POST (create key)." c r).

(** A failed eviction is logged only. *)
Definition evict_key s (keyID : string) : io W unit :=
  match c_keyCacheInvalidate (s_control s) with
  | None => mret tt
  | Some f => _ ← f keyID; mret tt
  end.

Definition handleRevokeKey s : handler W := keyAdminReady s (fun admin => with_org (fun org c r =>
  t ← now;
  res ← ka_RevokeKey admin org (rq_ID r) t;
  match res with
  | Err ErrKeyNotFound => mret (Some (writeProblem c r 404 codeNotFound "Not found" "No such key for this org." []))
  | Err _ => mret (Some (writeProblem c r 503 codeInternal "Key management error" "Could not revoke the key." []))
  | Ok info => _ ← evict_key s (rq_ID r); mret (json_ok 200 (PKey (viewOf info)))
  end)).

Definition handleProvisionKey s : handler W := fun c r =>
  let token := c_provisionToken (s_control s) in
  if String.eqb token "" || negb (String.eqb (Header_Get (rq_Header r) "X-Provision-Token") token) then
    mret (Some (writeProblem c r 401 codeUnauthorized "Unauthorized" "A valid X-Provision-Token is required." []))
  else
    match c_keyAdmin (s_control s) with
    | None => mret (Some (writeProblem c r 503 codeInternal "Provisioning unavailable" "Key management is not enabled on this instance." []))
    | Some admin =>
      with_body dec_provision (fun body c r =>
        if String.eqb (pk_OrgID body) "" then
          mret (Some (writeProblem c r 400 codeValidationFailed "Validation failed" "org_id is required." []))
        else mint_key admin "Provisioning error" "Could not create the org key." (pk_Env body) (pk_OrgID body) (pk_Tier body) (pk_Shadow body) c r) c r
    end.

Definition handleKeysPublic s : handler W := fun c r =>
  match c_keysJWKS (s_control s) with
  | None => mret (Some (writeProblem c r 503 codeInternal "Keys unavailable" "Decision signing keys are not configured." []))
  | Some f => l ← f; mret (Some (with_header "Cache-Control" "public, max-age=300" (writeJSON 200 (PControl (PJwks l)))))
  end.

(** * Health *)

Fixpoint run_checks (checks : list (string * io W (result string unit))) (status : string) (code : Z) (done : gmap string string)
    : io W (string * Z * gmap string string) :=
  match checks with
  | [] => mret (status, code, done)
  | (name, ping) :: checks =>
    res ← ping;
    match res with
    | Err e => run_checks checks "degraded" 503 (<[name := "error: " +:+ e]> done)
    | Ok _ => run_checks checks status code (<[name := "ok"]> done)
    end
  end.

Definition handleHealth s : handler W := fun c r =>
  t ← now;
  '(status, code, checks) ← run_checks (c_checks (s_control s)) "ok" 200 ∅;
  mret (json_ok code (PHealth status (c_build (s_control s)) checks (format_rfc3339 t))).

(** * Routes *)

Definition policies_endpoint s : handler W := protected s (handlePolicies s).
Definition activeBundle_endpoint s : handler W := method "GET" (protected s (handleActiveBundle s)).
Definition policyItem_endpoint s : handler W := protected s (handlePolicyItem s).
Definition publish_endpoint s : handler W := method "POST" (protected s (handlePublishPolicy s)).
Definition rollback_endpoint s : handler W := method "POST" (protected s (handleRollbackPolicy s)).
Definition versions_endpoint s : handler W := method "GET" (protected s (handleListVersions s)).
Definition simulate_endpoint s : handler W := method "POST" (protected s (handleSimulate s)).
Definition keys_endpoint s : handler W := protected s (handleKeys s).
Definition revoke_endpoint s : handler W := method "POST" (protected s (handleRevokeKey s)).
Definition provision_endpoint s : handler W := method "POST" (handleProvisionKey s).
Definition keysPublic_endpoint s : handler W := method "GET" (handleKeysPublic s).
Definition health_endpoint s : handler W := method "GET" (handleHealth s).
End control.

(** The routes of [Handler]. *)
Inductive endpoint :=
| EpAuthorize | EpCapture | EpVoid | EpGetDecision | EpListDecisions
| EpPolicies | EpActiveBundle | EpPolicyItem | EpPublish | EpRollback | EpVersions | EpSimulate
| EpKeys | EpRevoke | EpProvision | EpKeysPublic | EpHealth | EpMetrics | EpNotFound.

(** Which routes are mounted; the others fall through to the catch-all. *)
Definition mounted {W} (s : Server W) (e : endpoint) : bool :=
  let policies := match c_policySvc (s_control s) with Some _ => true | None => false end in
  let keys := match c_keyAdmin (s_control s) with Some _ => true | None => false end in
  match e with
  | EpPolicies | EpActiveBundle | EpPolicyItem | EpPublish | EpRollback | EpVersions | EpSimulate => policies
  | EpKeys | EpRevoke => keys
  | EpProvision => negb (String.eqb (c_provisionToken (s_control s)) "") && keys
  | _ => true
  end.

Definition route {W} `{Runtime W} `{Sha256} `{Jcs} `{RequestDecoder} `{ControlDecoder} (s : Server W) (e : endpoint) : handler W :=
  if negb (mounted s e) then handleNotFound
  else
    match e with
    | EpAuthorize => authorize_endpoint s
    | EpCapture => capture_endpoint s
    | EpVoid => void_endpoint s
    | EpGetDecision => getDecision_endpoint s
    | EpListDecisions => listDecisions_endpoint s
    | EpPolicies => policies_endpoint s
    | EpActiveBundle => activeBundle_endpoint s
    | EpPolicyItem => policyItem_endpoint s
    | EpPublish => publish_endpoint s
    | EpRollback => rollback_endpoint s
    | EpVersions => versions_endpoint s
    | EpSimulate => simulate_endpoint s
    | EpKeys => keys_endpoint s
    | EpRevoke => revoke_endpoint s
    | EpProvision => provision_endpoint s
    | EpKeysPublic => keysPublic_endpoint s
    | EpHealth => health_endpoint s
    | EpMetrics => metrics_endpoint s
    | EpNotFound => handleNotFound
    end.
