(* ===== verification/ServerProps.v ===== *)
(** What the HTTP surface guarantees: responses are well formed, nothing gets
    past authentication and rate limiting unchecked, only a held approval
    spends, a retry returns the decision already made, every fresh decision is
    handed to the audit log once, and cursors resume a listing. *)

From S2P Require Import Prelude Policyctl BundleProv ControlTypes GoStrings GoTime Base64 Ulid Money Runtime RateLimit Predicates Signing Auth AuthProps AuditLog AuditProps Hold Engine EngineProps Idempotency Contracts Server ServerCtl.

(** * Responses are well formed *)

(** A problem body repeats the status, has a documented type and an instance
    anchored to the request; any other body has the status of its kind.  Handlers
    set few headers. *)
Definition handler_headers : list string :=
  ["Content-Type"; "Allow"; "WWW-Authenticate"; "Retry-After"; "X-Decision-Id"; "X-Idempotent-Replay"; "X-Shadow"; "Cache-Control"].

(** The status a JSON body is sent with. *)
Definition health_code (status : string) (code : Z) : Prop := (code = 200 /\ status = "ok") \/ (code = 503 /\ status = "degraded").

Definition json_code (v : payload) (code : Z) : Prop :=
  match v with
  | PControl (PHealth status _ _ _) => health_code status code
  | PControl (PCreatedKey _ _) => code = 201
  | PControl (PPolicy _) => code = 200 \/ code = 201
  | PProblem _ | PText _ => False
  | _ => code = 200
  end.

(** The type of the metrics' text. *)
Definition text_type : string := "text/plain; version=0.0.4; charset=utf-8".

Definition body_ok (c : ctx) (r : http_request) (x : response) : Prop :=
  map_Forall (fun k _ => mem_str k handler_headers = true) (resp_Header x) /\
  match resp_Body x with
  | PProblem p =>
    prob_Status p = resp_Status x /\ 400 <= resp_Status x < 600 /\
    prob_Type p = problemBaseURI +:+ prob_Code p /\ prob_Instance p = rq_Path r +:+ "#" +:+ reqID c /\
    resp_Header x !! "Content-Type" = Some "application/problem+json"
  | PText _ => resp_Status x = 200 /\ resp_Header x !! "Content-Type" = Some text_type
  | v => json_code v (resp_Status x) /\ resp_Header x !! "Content-Type" = Some "application/json"
  end.

Create HintDb http discriminated.

Lemma writeProblem_ok c r status code title detail items : 400 <= status < 600 -> body_ok c r (writeProblem c r status code title detail items).
Proof. intros Hs. unfold body_ok, writeProblem. cbn. split; [by apply map_Forall_singleton|]. by split_and!; try lia. Qed.

Lemma writeJSON_ok c r code v : json_code v code -> body_ok c r (writeJSON code v).
Proof. intros Hv. unfold body_ok, writeJSON. cbn. split; [by apply map_Forall_singleton|]. by destruct v. Qed.

Lemma with_header_ok c r k v x : mem_str k handler_headers = true -> body_ok c r x -> body_ok c r (with_header k v x).
Proof.
  unfold body_ok, with_header. cbn. intros Hk [Hd Hx]. split.
  - apply map_Forall_union_2; [done|]. by apply map_Forall_singleton.
  - destruct (resp_Body x); (split_and!; try apply Hx; by apply lookup_union_Some_l, Hx).
Qed.

#[export] Hint Resolve writeProblem_ok writeJSON_ok with_header_ok : http.
#[export] Hint Extern 1 (_ <= _ < _) => lia : http.
#[export] Hint Extern 1 (mem_str _ handler_headers = true) => reflexivity : http.
#[export] Hint Extern 1 (json_code _ _) => cbn; auto : http.

Lemma with_header_lookup k v x : resp_Header x !! k = None -> resp_Header (with_header k v x) !! k = Some v.
Proof. intros Hn. cbn. rewrite lookup_union_r by done. apply lookup_singleton_eq. Qed.

Lemma with_header_keeps k v x k' v' : resp_Header x !! k' = Some v' -> resp_Header (with_header k v x) !! k' = Some v'.
Proof. intros Hk. cbn. by apply lookup_union_Some_l. Qed.

(** A handler that writes nothing, or a well-formed response. *)
Definition handles {W} (h : handler W) : Prop :=
  forall c r w x, (h c r w).1 = Some x -> body_ok c r x.

(** ** Refusals of the authenticator *)

Definition refusal (e : Error) : Prop := err_Status e = 401 \/ err_Status e = 403 \/ err_Status e = 503.

(** Split the tests of a function that refuses with an error, and read the
    error off. *)
Ltac refusals := repeat case_match; intros; simplify_eq; unfold refusal; cbn; tauto.

Lemma bearerKey_refusal h e : bearerKey h = Err e -> refusal e.
Proof. unfold bearerKey. refusals. Qed.

Lemma parseKey_refusal `{Sha256} k e : parseKey k = Err e -> refusal e.
Proof. unfold parseKey. refusals. Qed.

Lemma check_record_refusal k rec e : check_record k rec = Err e -> refusal e.
Proof. unfold check_record. refusals. Qed.

Lemma signature_headers_refusal h e : signature_headers h = Err e -> refusal e.
Proof. unfold signature_headers. refusals. Qed.

Lemma check_signature_refusal `{Sha256} mx t ts m p h b k e : check_signature mx t ts m p h b k = Err e -> refusal e.
Proof. unfold check_signature. refusals. Qed.

Lemma check_nonce_refusal {W} (a : Authenticator W) h rec w e : (check_nonce a h rec w).1 = Err e -> refusal e.
Proof.
  unfold check_nonce. rewrite bind_let. cbn. refusals.
Qed.

#[export] Hint Resolve bearerKey_refusal parseKey_refusal check_record_refusal signature_headers_refusal
  check_signature_refusal check_nonce_refusal : http.

Lemma Authenticate_refusal `{Sha256} {W} `{Runtime W} (a : Authenticator W) m p h b w e :
  (Authenticate a m p h b w).1 = Err e -> refusal e.
Proof.
  unfold Authenticate. destruct (bearerKey h) as [rawKey|e'] eqn:Eb; [|intros [= <-]; eauto with http].
  destruct (parseKey rawKey) as [[id hh]|e'] eqn:Ek; [|intros [= <-]; eauto with http].
  rewrite bind_let. destruct (LookupByID (keys a) id w) as [[rec|[|]] w1]; cbn [fst snd mret io_ret];
    [|intros [= <-]; unfold refusal; cbn; tauto..].
  destruct (check_record hh rec) as [[]|e'] eqn:Ec; [|intros [= <-]; eauto with http].
  rewrite bind_let. unfold verifySignature. destruct (signature_headers h) as [ts|e'] eqn:Es; cbn [fst snd mret io_ret];
    [|intros [= <-]; eauto with http].
  rewrite bind_let. cbn [fst snd mret io_ret].
  destruct (check_signature (maxSkew a) _ ts m p h b rawKey) as [[]|e'] eqn:Eg; [apply check_nonce_refusal | intros [= <-]; eauto with http].
Qed.

(** ** The handlers keep it *)

Section wf.
Context {W : Type} `{Runtime W} `{Sha256} `{Jcs} `{RequestDecoder}.
Implicit Types (s : Server W) (h : handler W).

(** Case analysis over a handler that makes calls: name each call's answer. *)
Ltac run := repeat (rewrite bind_let in * || (cbn [fst snd mret io_ret] in * ) || case_match); intros; simplify_eq; eauto 10 with http.

Lemma no_principal_ok c r : body_ok c r (no_principal c r).
Proof. unfold no_principal. auto with http. Qed.

Lemma decision_not_found_ok c r : body_ok c r (decision_not_found c r).
Proof. unfold decision_not_found. auto with http. Qed.

Lemma writeHoldError_ok c r e : body_ok c r (writeHoldError c r e).
Proof. destruct e; cbn; auto with http. Qed.

#[local] Hint Resolve no_principal_ok decision_not_found_ok writeHoldError_ok : http.

Lemma authorize_fresh_ok s req : handles (authorize_fresh s req).
Proof. intros c r w x. unfold authorize_fresh. run. Qed.
#[local] Hint Resolve authorize_fresh_ok : http.

Lemma handleAuthorize_ok s : handles (handleAuthorize s).
Proof.
  intros c r w x. unfold handleAuthorize, authorize_request. cbv zeta.
  destruct (maxBodyBytes <? _); [run|]. destruct (decode_request _) as [[req [|]]|e]; [run| |run].
  destruct (nonempty _); [run|]. rewrite bind_let.
  destruct (idempotentReplay s c (clear_EvaluatedAt req) w) as [[d|] w1]; [run | apply authorize_fresh_ok].
Qed.

Lemma transitionHold_ok s fn : handles (transitionHold s fn).
Proof. intros c r w x. unfold transitionHold. run. Qed.

Lemma handleGetDecision_ok s : handles (handleGetDecision s).
Proof. intros c r w x. unfold handleGetDecision. run. Qed.

Lemma handleListDecisions_ok s : handles (handleListDecisions s).
Proof.
  intros c r w x. unfold handleListDecisions. destruct (s_auditStore s); [|run]. destruct (principalOf c); [|run].
  destruct (parseListFilter r) as [f items]. run.
Qed.

Lemma handleNotFound_ok : handles (W:=W) handleNotFound.
Proof. intros c r w x. unfold handleNotFound. run. Qed.

Lemma method_ok m h : handles h -> handles (method m h).
Proof. intros Hh c r w x. unfold method. destruct (negb _); [run | apply Hh]. Qed.

(** A well-formed body for a request whose context gained a principal. *)
Lemma body_ok_ctx p c r x : body_ok {| ctx_ReqID := ctx_ReqID c; ctx_Principal := p |} r x -> body_ok c r x.
Proof. done. Qed.

Lemma authenticate_ok s h : handles h -> handles (authenticate s h).
Proof.
  intros Hh c r w x. unfold authenticate. destruct (rq_Body r) as [body|]; [|run]. destruct (_ <? _); [run|].
  rewrite bind_let. destruct (Authenticate _ _ _ _ body w) as [[p|e] w1] eqn:Ea; cbn [fst snd]; [intros Ex; eapply body_ok_ctx, Hh, Ex|].
  apply (f_equal fst), Authenticate_refusal in Ea. intros [= <-]. unfold refusal in Ea.
  destruct (err_Status e =? 401); auto with http.
Qed.

Lemma rateLimit_ok s h : handles h -> handles (rateLimit s h).
Proof.
  intros Hh c r w x. unfold rateLimit. destruct (principalOf c) as [p|]; [|run]. rewrite bind_let.
  destruct (s_limiter s _ _ w) as [[d|] w1]; cbn [fst snd]; [|apply Hh]. destruct (rl_Allowed d); [apply Hh | run].
Qed.

Lemma recoverPanic_ok h : handles h -> handles (recoverPanic h).
Proof.
  intros Hh c r w x. unfold recoverPanic. rewrite bind_let. cbn. intros [= <-].
  destruct (h c r w).1 eqn:Ex; [by eapply Hh | auto with http].
Qed.
End wf.

(** ** The control plane keeps it *)

Section control_wf.
Context {W : Type} `{Runtime W} `{Sha256} `{Jcs} `{RequestDecoder} `{ControlDecoder}.
Implicit Types (s : Server W) (h : handler W).

Lemma handles_some c r x (w : W) y : (mret (M:=io W) (Some x) w).1 = Some y -> body_ok c r x -> body_ok c r y.
Proof. by intros [= <-]. Qed.
#[local] Hint Resolve no_principal_ok : http.

Lemma writePolicyError_ok c r e : body_ok c r (writePolicyError c r e).
Proof. destruct e as [[]|]; cbn; auto with http. Qed.
#[local] Hint Resolve writePolicyError_ok : http.

Lemma with_service_ok s k : (forall svc, handles (k svc)) -> handles (with_service s k).
Proof. intros Hk c r w x. unfold with_service. case_match; [apply Hk|]. intros [= <-]. auto with http. Qed.

Lemma with_org_ok (k : string -> handler W) : (forall org, handles (k org)) -> handles (with_org k).
Proof. intros Hk c r w x. unfold with_org. case_match; [apply Hk|]. intros [= <-]. auto with http. Qed.

Lemma keyAdminReady_ok s k : (forall admin, handles (k admin)) -> handles (keyAdminReady s k).
Proof. intros Hk c r w x. unfold keyAdminReady. case_match; [apply Hk|]. intros [= <-]. auto with http. Qed.

Lemma with_body_ok {A} dec (k : A -> handler W) : (forall v, handles (k v)) -> handles (with_body dec k).
Proof.
  intros Hk c r w x. unfold with_body, decodePolicyBody. destruct (match rq_Body r with Some _ => _ | None => _ end) as [v|[|e]];
    [apply Hk| |]; intros [= <-]; auto with http.
Qed.

Lemma answer_ok {A} (call : io W (result policy_error A)) code send :
  (forall a, json_code (PControl (send a)) code) -> handles (answer call code send).
Proof. intros Hs c r w x. unfold answer. rewrite bind_let. cbn [fst snd mret io_ret]. case_match; intros [= <-]; [by apply writeJSON_ok | apply (writePolicyError_ok c r (Some _))]. Qed.

Lemma activated_ok s org call : handles (activated s org call).
Proof. intros c r w x. unfold activated. rewrite bind_let. case_match; [rewrite bind_let|]; cbn [fst snd mret io_ret]; intros [= <-]; [auto with http | apply (writePolicyError_ok c r (Some _))]. Qed.

Lemma not_allowed_ok allow detail : handles (W:=W) (not_allowed allow detail).
Proof. intros c r w x [= <-]. auto with http. Qed.

#[local] Hint Resolve with_service_ok with_org_ok keyAdminReady_ok with_body_ok answer_ok activated_ok not_allowed_ok : http.
#[local] Hint Extern 1 (json_code (PControl _) _) => cbn; auto : http.

(** Split the tests of a handler and look at what each branch answers. *)
Ltac branches := repeat (rewrite bind_let in * || (cbn [fst snd mret io_ret] in * ) || case_match); intros; unfold json_ok in *; simplify_eq;
  try apply writePolicyError_ok; eauto 10 with http.

Lemma handlePolicies_ok s : handles (handlePolicies s).
Proof.
  apply with_service_ok. intros svc c r w x. destruct (String.eqb _ _); [|destruct (String.eqb _ _); [|apply not_allowed_ok]].
  - apply with_org_ok. auto with http.
  - apply with_org_ok. intros org. apply with_body_ok. auto with http.
Qed.

Lemma handlePolicyItem_ok s : handles (handlePolicyItem s).
Proof.
  apply with_service_ok. intros svc c r w x. destruct (String.eqb _ _); [|destruct (String.eqb _ _); [|apply not_allowed_ok]].
  - apply with_org_ok. intros org c' r' w'. apply answer_ok. auto with http.
  - apply with_org_ok. intros org. apply with_body_ok. intros v c' r' w'. apply answer_ok. auto with http.
Qed.

Lemma handlePublishPolicy_ok s : handles (handlePublishPolicy s).
Proof. apply with_service_ok. intros svc. apply with_org_ok. intros org c r. apply activated_ok. Qed.

Lemma handleRollbackPolicy_ok s : handles (handleRollbackPolicy s).
Proof.
  apply with_service_ok. intros svc. apply with_org_ok. intros org. apply with_body_ok. intros hash c r w x.
  destruct (String.eqb _ _); [intros [= <-]; auto with http | apply activated_ok].
Qed.

Lemma handleListVersions_ok s : handles (handleListVersions s).
Proof. apply with_service_ok. intros svc. apply with_org_ok. intros org c r w. apply answer_ok. auto with http. Qed.

Lemma handleActiveBundle_ok s : handles (handleActiveBundle s).
Proof. apply with_service_ok. intros svc. apply with_org_ok. auto with http. Qed.

Lemma handleSimulate_ok s : handles (handleSimulate s).
Proof.
  apply with_service_ok. intros svc c r w x. case_match; [|intros [= <-]; auto with http]. apply with_org_ok. intros org. apply with_body_ok.
  intros body c' r' w' x'. cbv zeta. branches.
Qed.

Lemma mint_key_ok admin title detail env org tier shadow : handles (mint_key (W:=W) admin title detail env org tier shadow).
Proof.
  intros c r w x. unfold mint_key. destruct (_ && _); [intros [= <-]; auto with http|]. cbv zeta. rewrite bind_let.
  destruct (NewKey env org _ w) as [[g|e] w1]; cbn [fst snd]; [|intros [= <-]; auto with http].
  rewrite !bind_let. cbn [fst snd mret io_ret]. case_match; intros [= <-]; auto with http.
Qed.

Lemma handleKeys_ok s : handles (handleKeys s).
Proof.
  apply keyAdminReady_ok. intros admin c r w x. destruct (String.eqb _ _); [|destruct (String.eqb _ _); [|apply not_allowed_ok]].
  - apply with_org_ok. intros org c' r' w' x'. branches.
  - apply with_org_ok. intros org. apply with_body_ok. intros body. apply mint_key_ok.
Qed.

Lemma handleRevokeKey_ok s : handles (handleRevokeKey s).
Proof. apply keyAdminReady_ok. intros admin. apply with_org_ok. intros org c' r' w' x'. branches. Qed.

Lemma handleProvisionKey_ok s : handles (handleProvisionKey s).
Proof.
  intros c r w x. unfold handleProvisionKey. destruct (_ || _); [intros [= <-]; auto with http|]. case_match; [|intros [= <-]; auto with http].
  apply with_body_ok. intros body c' r' w' x'. destruct (String.eqb _ _); [intros [= <-]; auto with http | apply mint_key_ok].
Qed.

Lemma handleKeysPublic_ok s : handles (handleKeysPublic s).
Proof. intros c r w x. unfold handleKeysPublic. branches. Qed.

Lemma run_checks_code (checks : list (string * io W (result string unit))) status code acc w :
  health_code status code -> let '(status', code', _) := (run_checks checks status code acc w).1 in health_code status' code'.
Proof.
  revert status code acc w. induction checks as [|[name ping] checks IH]; intros status code acc w Hc; [done|].
  cbn [run_checks]. rewrite bind_let. destruct (ping w).1; apply IH; [done|by right].
Qed.

Lemma handleHealth_ok s : handles (handleHealth s).
Proof.
  intros c r w x. unfold handleHealth. rewrite !bind_let.
  pose proof (run_checks_code (c_checks (s_control s)) "ok" 200 ∅ (now w).2 ltac:(by left)) as Hc.
  destruct (run_checks _ _ _ _ _) as [[[status code] checks] w']. cbn [fst snd mret io_ret] in *. intros [= <-]. by apply writeJSON_ok.
Qed.
End control_wf.

Lemma handleMetrics_ok {W} (s : Server W) : handles (handleMetrics s).
Proof.
  intros c r w x. unfold handleMetrics. destruct (s_metrics s) as [m|]; [|intros [= <-]; auto with http].
  rewrite bind_let. intros [= <-]. split; [|done]. repeat (apply map_Forall_insert_2; [done|]). apply map_Forall_empty.
Qed.

Lemma route_ok {W} `{Runtime W} `{Sha256} `{Jcs} `{RequestDecoder} `{ControlDecoder} (s : Server W) e : handles (route s e).
Proof.
  unfold route. destruct (mounted s e); cbn [negb]; [|apply handleNotFound_ok].
  destruct e; try apply method_ok; try apply authenticate_ok, rateLimit_ok;
    auto using handleAuthorize_ok, transitionHold_ok, handleGetDecision_ok, handleListDecisions_ok, handlePolicies_ok, handleActiveBundle_ok,
      handlePolicyItem_ok, handlePublishPolicy_ok, handleRollbackPolicy_ok, handleListVersions_ok, handleSimulate_ok, handleKeys_ok,
      handleRevokeKey_ok, handleProvisionKey_ok, handleKeysPublic_ok, handleHealth_ok, handleMetrics_ok, handleNotFound_ok.
  - apply transitionHold_ok.
  - apply transitionHold_ok.
Qed.

(** What the chain adds to every response. *)
Definition secured (id : string) (x : response) : Prop :=
  resp_Header x !! "X-Request-Id" = Some id /\ resp_Header x !! "X-Content-Type-Options" = Some "nosniff" /\
  resp_Header x !! "X-Frame-Options" = Some "DENY" /\ resp_Header x !! "Referrer-Policy" = Some "no-referrer" /\
  resp_Header x !! "Strict-Transport-Security" = Some "max-age=63072000; includeSubDomains" /\
  resp_Header x !! "Content-Security-Policy" = Some "default-src 'none'; frame-ancestors 'none'".

Lemma header_absent c r x k : body_ok c r x -> mem_str k handler_headers = false -> resp_Header x !! k = None.
Proof. intros [Hd _] Hk. destruct (resp_Header x !! k) as [v|] eqn:E; [|done]. specialize (Hd k v E). cbn in Hd. congruence. Qed.

(** C32: Every response is well formed.  Whatever the endpoint, the request and
    the state, and even if the handler panics, the service answers; the answer
    carries the request id, the client's if it sent one, and the five security
    headers; it is a problem document of status 400 to 599, whose status is the
    HTTP status and whose type, code and instance are consistent; or the text of
    the metrics under 200; or JSON: a created key under 201, a policy under 200
    or 201, a health report under 200 or 503 as its status says, anything else
    under 200. *)
Theorem responses_well_formed {W} `{Runtime W} `{Sha256} `{Jcs} `{RequestDecoder} `{ControlDecoder} (s : Server W) e c r w :
  exists id x, (chain (route s e) c r w).1 = Some x /\ secured id x /\
    (Header_Get (rq_Header r) "X-Request-Id" <> "" -> id = Header_Get (rq_Header r) "X-Request-Id") /\
    match resp_Body x with
    | PProblem p =>
      prob_Status p = resp_Status x /\ 400 <= resp_Status x < 600 /\
      prob_Type p = problemBaseURI +:+ prob_Code p /\ prob_Instance p = rq_Path r +:+ "#" +:+ id /\
      resp_Header x !! "Content-Type" = Some "application/problem+json"
    | PText _ => resp_Status x = 200 /\ resp_Header x !! "Content-Type" = Some text_type
    | v => json_code v (resp_Status x) /\ resp_Header x !! "Content-Type" = Some "application/json"
    end.
Proof.
  unfold chain, requestID. rewrite bind_let. set (id := (_ w).1). set (w1 := (_ w).2). rewrite bind_let.
  set (c1 := {| ctx_ReqID := id; ctx_Principal := ctx_Principal c |}).
  unfold secureHeaders. rewrite bind_let. pose proof (recoverPanic_ok _ (route_ok s e) c1 r w1) as Hok.
  assert (Hp : exists y, (recoverPanic (route s e) c1 r w1).1 = Some y) by (unfold recoverPanic; rewrite bind_let; by eexists).
  destruct Hp as (y & Ey). specialize (Hok y Ey). rewrite Ey. cbn [fst snd mret io_ret fmap option_fmap option_map].
  exists id. eexists. split; [done|]. split.
  { unfold secured. split_and!; cbn [with_header resp_Header]; rewrite ?lookup_union, ?(header_absent _ _ _ _ Hok) by done; reflexivity. }
  split; [intros Hne; unfold id, requestHeaderName; apply String.eqb_neq in Hne; by rewrite Hne|].
  destruct Hok as [_ Hok]. cbn [with_header resp_Body resp_Status resp_Header].
  destruct (resp_Body y); (split_and!; try apply Hok; do 6 apply lookup_union_Some_l; apply Hok).
Qed.

(** * Past the gate *)

(** A request whose body was read in full, that the authenticator accepted for
    principal [p], and that the rate limiter let through or could not judge. *)
Definition passes_gate {W} `{Runtime W} `{Sha256} (s : Server W) (r : http_request) (p : Principal) (w w' : W) : Prop :=
  exists body w1 d,
    rq_Body r = Some body /\ Z.of_nat (String.length body) <= maxBodyBytes /\
    Authenticate (s_authn s) (rq_Method r) (rq_Path r) (rq_Header r) body w = (Ok p, w1) /\
    s_limiter s (pr_KeyID p) (Resolve (s_tiers s) (pr_Tier p)) w1 = (d, w') /\
    match d with Ok d => rl_Allowed d = true | Err _ => True end.

(** A refusal at the gate. *)
Definition refused (x : response) : Prop :=
  (resp_Status x ∈ [400; 413; 403; 503]) \/
  (resp_Status x = 401 /\ resp_Header x !! "WWW-Authenticate" = Some "Bearer") \/
  (resp_Status x = 429 /\ exists n, 1 <= n /\ resp_Header x !! "Retry-After" = Some (FormatInt n)).

(** The collaborators of the gate leave the part of the world behind [view]
    alone. *)
Record quiet_gate {W V : Type} (view : W -> V) (s : Server W) : Prop := {
  q_lookup id w : view (LookupByID (keys (s_authn s)) id w).2 = view w;
  q_nonce k n ttl w : view (Remember (nonces (s_authn s)) k n ttl w).2 = view w;
  q_limiter k l w : view (s_limiter s k l w).2 = view w;
  q_limited m : s_metrics s = Some m -> forall w, view (RecordRateLimited m w).2 = view w
}.

(** So do the counters and the writer of the audit log, and the idempotency
    cache. *)
Definition quiet_metrics {W V : Type} (view : W -> V) (s : Server W) : Prop :=
  forall m, s_metrics s = Some m -> forall v l w, view (RecordDecision m v l w).2 = view w.
Definition quiet_audit {W V : Type} (view : W -> V) (s : Server W) : Prop :=
  forall f, s_auditWriter s = Some f -> forall rec w, view (f rec w).2 = view w.
Definition quiet_lookup {W V : Type} (view : W -> V) (s : Server W) : Prop :=
  forall st, s_idem s = Some st -> forall org k w, view (idem_Lookup st org k w).2 = view w.
Definition quiet_save {W V : Type} (view : W -> V) (s : Server W) : Prop :=
  forall st, s_idem s = Some st -> forall org k d w, view (idem_Save st org k d w).2 = view w.

Section gate.
Context {W : Type} `{Runtime W} `{Sha256}.
Implicit Types (s : Server W) (h : handler W).

Definition authed (c : ctx) (p : Principal) : ctx := {| ctx_ReqID := ctx_ReqID c; ctx_Principal := Some p |}.

Lemma retry_seconds_pos d : 1 <= retry_seconds d.
Proof. unfold retry_seconds. destruct (Z.ltb_spec (- (- d / nanos)) 1); lia. Qed.

Lemma Authenticate_frame {V} (view : W -> V) `{!Frame view} (a : Authenticator W) m p (hd : Header) b w :
  (forall id w, view (LookupByID (keys a) id w).2 = view w) ->
  (forall k n ttl w, view (Remember (nonces a) k n ttl w).2 = view w) ->
  view (Authenticate a m p hd b w).2 = view w.
Proof.
  intros Hl Hn. destruct (Authenticate_cases a m p hd b w) as [(e & _ & [-> |(id & [-> | ->])])|(rec & t & w2 & Hr & _ & ->)].
  - done.
  - apply Hl.
  - by rewrite now_frame, Hl.
  - unfold check_nonce. rewrite bind_let. cbn. rewrite Hn. destruct Hr as (rk & id & hh & w1 & _ & _ & El & En).
    rewrite (now_frame_eq (view:=view) _ _ _ En). specialize (Hl id w). by rewrite El in Hl.
Qed.

Lemma passes_protected s h c r p w w' : passes_gate s r p w w' -> protected s h c r w = h (authed c p) r w'.
Proof.
  intros (body & w1 & d & Eb & Hlen & Ea & El & Hd). unfold protected, authenticate. rewrite Eb.
  destruct (Z.ltb_spec authMaxBodyBytes (Z.of_nat (String.length body))); [unfold authMaxBodyBytes in *; lia|].
  rewrite bind_let, Ea. cbn [fst snd]. unfold rateLimit. cbn [principalOf ctx_Principal]. rewrite bind_let, El. cbn [fst snd].
  destruct d as [d|]; [by rewrite Hd|done].
Qed.

Lemma passes_frame {V} (view : W -> V) `{!Frame view} s r p w w' : quiet_gate view s -> passes_gate s r p w w' -> view w' = view w.
Proof.
  intros Hq (body & w1 & d & _ & _ & Ea & El & _).
  apply (f_equal snd) in Ea. apply (f_equal snd) in El. cbn in Ea, El. rewrite <- El, (q_limiter _ _ Hq), <- Ea.
  apply (Authenticate_frame view); [apply (q_lookup _ _ Hq) | apply (q_nonce _ _ Hq)].
Qed.

(** A request the gate stops: the answer does not depend on the handler. *)
Definition stopped s c r (w : W) (x : response) (w' : W) : Prop :=
  (forall h, protected s h c r w = (Some x, w')) /\ refused x /\ (exists pb, resp_Body x = PProblem pb) /\
  forall V (view : W -> V), Frame view -> quiet_gate view s -> view w' = view w.

Lemma gate_cases s c r w : (exists p w', passes_gate s r p w w') \/ (exists x w', stopped s c r w x w').
Proof.
  unfold stopped, protected, authenticate. destruct (rq_Body r) as [body|] eqn:Eb.
  2:{ right. eexists _, w. split; [by intros h|]. split; [left; cbn; set_solver|]. split; [by eexists|done]. }
  destruct (Z.ltb_spec authMaxBodyBytes (Z.of_nat (String.length body))) as [Hlen|Hlen].
  { right. eexists _, w. split; [by intros h|]. split; [left; cbn; set_solver|]. split; [by eexists|done]. }
  setoid_rewrite bind_let. assert (Hv : forall V (view : W -> V), Frame view -> quiet_gate view s ->
      view (Authenticate (s_authn s) (rq_Method r) (rq_Path r) (rq_Header r) body w).2 = view w).
  { intros V view Hf Hq. apply (Authenticate_frame view); [apply (q_lookup _ _ Hq) | apply (q_nonce _ _ Hq)]. }
  destruct (Authenticate (s_authn s) (rq_Method r) (rq_Path r) (rq_Header r) body w) as [[p|e] w1] eqn:Ea; cbn [fst snd] in *.
  2:{ right. eexists _, w1. split; [by intros h|].
      pose proof (Authenticate_refusal (s_authn s) (rq_Method r) (rq_Path r) (rq_Header r) body w e) as Hr. rewrite Ea in Hr.
      destruct (Hr eq_refl) as [Es|[Es|Es]]; rewrite Es;
        (split; [first [right; left; by split | left; cbn; set_solver]|]; split; [by eexists|done]). }
  destruct (s_limiter s (pr_KeyID p) (Resolve (s_tiers s) (pr_Tier p)) w1) as [d w2] eqn:El.
  assert (Hpass : match d with Ok d => rl_Allowed d = true | Err _ => True end -> passes_gate s r p w w2).
  { intros Hd. exists body, w1, d. by split_and!. }
  destruct d as [d|e]; [destruct (rl_Allowed d) eqn:Ed|]; [left; exists p, w2; by apply Hpass| |left; exists p, w2; by apply Hpass].
  right. unfold rateLimit. cbn [principalOf ctx_Principal]. setoid_rewrite bind_let. rewrite El. cbn [fst snd]. rewrite Ed. setoid_rewrite bind_let.
  eexists _, _. split; [by intros h|]. split.
  { right. right. split; [done|]. exists (retry_seconds (rl_RetryAfter d)). split; [apply retry_seconds_pos|]. reflexivity. }
  split; [by eexists|]. intros V view Hf Hq. rewrite <- (Hv V view Hf Hq), <- (q_limiter _ _ Hq (pr_KeyID p) (Resolve (s_tiers s) (pr_Tier p)) w1), El.
  destruct (s_metrics s) eqn:Em; [by apply (q_limited _ _ Hq)|done].
Qed.

(** Nothing gets past the gate unchecked.  A protected handler runs only on a
    request that was read within the size limit, authenticated and let through
    by the rate limiter (or by its failure), and then with that principal;
    otherwise the answer is a refusal, with the challenge on a 401 and a wait of
    at least a second on a 429.  Neither touches what lies behind [view]. *)
Theorem gate_spec {V} (view : W -> V) `{!Frame view} s h c r w (Hq : quiet_gate view s) :
  (exists p w', passes_gate s r p w w' /\ view w' = view w /\ protected s h c r w = h (authed c p) r w') \/
  (exists x w', protected s h c r w = (Some x, w') /\ refused x /\ view w' = view w).
Proof.
  destruct (gate_cases s c r w) as [(p & w' & Hp)|(x & w' & Hs & Hr & _ & Hv)].
  - left. exists p, w'. split_and!; [done | by eapply passes_frame | by apply passes_protected].
  - right. exists x, w'. split_and!; [apply Hs | done | by apply Hv].
Qed.
End gate.

(** * The authorize endpoint *)

Section authorize.
Context {W : Type} `{Runtime W} `{Sha256} `{Jcs} `{RequestDecoder}.
Implicit Types (s : Server W).

(** A request that gets to the decision: past the gate, decoded, and valid. *)
Definition accepted s (r : http_request) (p : Principal) (req : AuthorizeRequest) (w w' : W) : Prop :=
  rq_Method r = "POST" /\ passes_gate s r p w w' /\
  decode_request (default "" (rq_Body r)) = Ok (req, false) /\ validateAuthorizeRequest req = [].

Definition replay_response (d : Contracts.Decision) : response :=
  with_header "X-Decision-Id" (dec_DecisionID d) (with_header "X-Idempotent-Replay" "true" (writeJSON 200 (PDecision d))).

(** The three ways a request goes: it is turned away; an earlier decision
    answers it; it is evaluated. *)
Inductive authorize_run s c r w : response -> W -> Prop :=
| run_rejected x w' pb : resp_Body x = PProblem pb ->
    (forall V (view : W -> V), Frame view -> quiet_gate view s -> view w' = view w) ->
    authorize_run s c r w x w'
| run_replayed p req st w1 d w' : accepted s r p req w w1 -> s_idem s = Some st ->
    idem_Lookup st (pr_OrgID p) (req_IdempotencyKey req) w1 = (Ok (Some d), w') ->
    authorize_run s c r w (replay_response d) w'
| run_fresh p req w1 w2 x w' : accepted s r p req w w1 ->
    idempotentReplay s (authed c p) (clear_EvaluatedAt req) w1 = (None, w2) ->
    authorize_fresh s (clear_EvaluatedAt req) (authed c p) r w2 = (Some x, w') ->
    authorize_run s c r w x w'.

Lemma passes_body s r p w w' : passes_gate s r p w w' -> exists body, rq_Body r = Some body /\ Z.of_nat (String.length body) <= maxBodyBytes.
Proof. intros (body & ? & ? & Eb & Hl & _). by exists body. Qed.

(** Principal, request and state are determined. *)
Lemma accepted_fun s r p req w w1 p' req' w1' :
  accepted s r p req w w1 -> accepted s r p' req' w w1' -> p = p' /\ req = req' /\ w1 = w1'.
Proof.
  intros (_ & (b & u & d & Eb & _ & Ea & El & _) & Ed & _) (_ & (b' & u' & d' & Eb' & _ & Ea' & El' & _) & Ed' & _). simplify_eq.
  rewrite Ea in Ea'. simplify_eq. rewrite El in El'. rewrite Ed in Ed'. by simplify_eq.
Qed.

Lemma authorize_fresh_some s req c r w : exists x w', authorize_fresh s req c r w = (Some x, w').
Proof.
  unfold authorize_fresh. destruct (match principalOf c with Some p => _ | None => _ end) as [org sh]. rewrite bind_let.
  destruct (s_authz s org req sh w) as [[d|e] w1]; cbn [fst snd]; [|by eexists _, _]. rewrite !bind_let. by eexists _, _.
Qed.

Lemma authorize_endpoint_run s c r w x w' : authorize_endpoint s c r w = (Some x, w') -> authorize_run s c r w x w'.
Proof.
  unfold authorize_endpoint, method. destruct (String.eqb (rq_Method r) "POST") eqn:Em; cbn [negb].
  2:{ intros [= <- <-]. by eapply run_rejected. }
  apply String.eqb_eq in Em. destruct (gate_cases s c r w) as [(p & w1 & Hp)|(y & w1 & Hs & _ & (pb & Hb) & Hv)].
  2:{ rewrite Hs. intros [= <- <-]. by eapply run_rejected. }
  rewrite (passes_protected _ _ _ _ _ _ _ Hp). unfold handleAuthorize. cbv zeta.
  assert (Hf : forall V (view : W -> V), Frame view -> quiet_gate view s -> view w1 = view w).
  { intros V view Hf Hq. by eapply passes_frame. }
  destruct (passes_body _ _ _ _ _ Hp) as (body & Eb & Hlen). rewrite Eb. change (default "" (Some body)) with body.
  destruct (Z.ltb_spec maxBodyBytes (Z.of_nat (String.length body))); [lia|].
  destruct (decode_request body) as [[req [|]]|e] eqn:Ed; try (intros [= <- <-]; by eapply run_rejected).
  unfold authorize_request. destruct (validateAuthorizeRequest req) as [|i items] eqn:Ev; cbn [nonempty];
    [|intros [= <- <-]; by eapply run_rejected].
  assert (Hacc : accepted s r p req w w1) by (split_and!; [done | done | by rewrite Eb | done]).
  rewrite bind_let. destruct (idempotentReplay s (authed c p) (clear_EvaluatedAt req) w1) as [[d|] w2] eqn:Er; cbn [fst snd].
  - intros [= <- <-]. unfold idempotentReplay in Er. destruct (s_idem s) as [st|] eqn:Es; [|done].
    destruct (String.eqb _ ""); [done|]. cbn [principalOf authed ctx_Principal] in Er. rewrite bind_let in Er.
    destruct (idem_Lookup st (pr_OrgID p) (req_IdempotencyKey (clear_EvaluatedAt req)) w1) as [[hit|e] w3] eqn:El; cbn in Er; [|done].
    injection Er as -> <-. by eapply run_replayed.
  - intros Ex. by eapply run_fresh.
Qed.

(** The lookup leaves alone what the cache leaves alone. *)
Lemma idempotentReplay_frame {V} (view : W -> V) s c req w : quiet_lookup view s -> view (idempotentReplay s c req w).2 = view w.
Proof.
  intros Hq. unfold idempotentReplay. destruct (s_idem s) as [st|] eqn:Es; [|done]. destruct (String.eqb _ ""); [done|].
  destruct (principalOf c); [|done]. rewrite bind_let. by apply Hq.
Qed.

Lemma saveIdempotent_frame {V} (view : W -> V) s c req d w : quiet_save view s -> view (saveIdempotent s c req d w).2 = view w.
Proof.
  intros Hq. unfold saveIdempotent. destruct (s_idem s) as [st|] eqn:Es; [|done]. destruct (String.eqb _ ""); [done|].
  destruct (principalOf c); [|done]. rewrite bind_let. by apply Hq.
Qed.

Definition record_decision s (d : Contracts.Decision) : io W unit :=
  match s_metrics s with Some m => RecordDecision m (dec_Verdict d) (dec_LatencyMs d) | None => mret tt end.

Lemma record_decision_frame {V} (view : W -> V) s d w : quiet_metrics view s -> view (record_decision s d w).2 = view w.
Proof. intros Hq. unfold record_decision. destruct (s_metrics s) eqn:Em; [by apply Hq|done]. Qed.

Lemma enqueueAudit_frame {V} (view : W -> V) `{!Frame view} s c req d w : quiet_audit view s -> view (enqueueAudit s c req d w).2 = view w.
Proof.
  intros Hq. unfold enqueueAudit. destruct (s_auditWriter s) as [f|] eqn:Ea; [|done]. destruct (principalOf c); [|done].
  rewrite bind_let. rewrite (Hq f Ea). destruct (s_retentionFor s); [rewrite bind_let; apply now_frame|done].
Qed.

(** A fresh evaluation: the engine's answer, then the cache, the counters and
    the audit log in this order. *)
Lemma authorize_fresh_eq s req c r p w :
  principalOf c = Some p ->
  authorize_fresh s req c r w =
  match s_authz s (pr_OrgID p) req (pr_Shadow p) w with
  | (Err _, w1) =>
    (Some (writeProblem c r 503 codeInternal "Decision unavailable" "The decision plane could not produce a decision." []), w1)
  | (Ok d, w1) =>
    let resp := with_header "X-Decision-Id" (dec_DecisionID d) (writeJSON 200 (PDecision d)) in
    (Some (if dec_Shadow d then with_header "X-Shadow" "true" resp else resp),
     (enqueueAudit s c req d (record_decision s d (saveIdempotent s c req d w1).2).2).2)
  end.
Proof.
  intros Ep. unfold authorize_fresh. rewrite Ep, bind_let. destruct (s_authz s _ req _ w) as [[d|e] w1]; cbn [fst snd]; [|done].
  by rewrite !bind_let.
Qed.
End authorize.

(** ** Spending *)

(** C5: End to end, only a held approval spends.  With the engine behind the
    endpoint, and everything but its reserver leaving the budgets alone, a
    request to [/v1/authorize] leaves the budgets as they were unless it passed
    the gate under a key that is not a shadow key, was valid, and was answered by
    no earlier decision.  Then the budgets are what one call of the reserver, for
    its organisation and its decision and within the limit, made of them; and it
    is answered with that decision, an approval with the capture obligation of
    the hold, or the signer refused to sign this very approval, and the answer is
    the problem that says so. *)
Theorem authorize_endpoint_spends {W V} (view : W -> V) `{!Runtime W} `{!Frame view} `{BigRat} `{Unicode} `{Ed25519} `{Sha256} `{Jcs}
  `{RequestDecoder} (s : Server W) (e : Engine W) c r w x w'
  (He : collaborators view e) (Hs : s_authz s = Authorize e)
  (Hg : quiet_gate view s) (Hl : quiet_lookup view s) (Hsv : quiet_save view s) (Hm : quiet_metrics view s) (Ha : quiet_audit view s)
  (Hrun : authorize_endpoint s c r w = (Some x, w')) :
  view w' = view w \/
  exists p req w1 id, accepted s r p req w w1 /\ pr_Shadow p = false /\ (idempotentReplay s (authed c p) (clear_EvaluatedAt req) w1).1 = None /\
    reserved_by view e (pr_OrgID p) (clear_EvaluatedAt req) id w w' /\
    ((exists d, x = with_header "X-Decision-Id" id (writeJSON 200 (PDecision d)) /\ dec_DecisionID d = id /\ held_approval d) \/
     (exists signer dec se, e_Signer e = Some signer /\ dec_DecisionID dec = id /\ held_approval dec /\ Signing.Sign signer dec = Err se /\
        x = writeProblem (authed c p) r 503 codeInternal "Decision unavailable" "The decision plane could not produce a decision." [])).
Proof.
  destruct (authorize_endpoint_run _ _ _ _ _ _ Hrun) as [x w' pb Hb Hv|p req st w1 d w' Hacc Es El|p req w1 w2 x w' Hacc Er Ef].
  - left. by apply Hv.
  - left. destruct Hacc as (_ & Hp & _). rewrite <- (passes_frame view _ _ _ _ _ Hg Hp), <- (Hl st Es (pr_OrgID p) (req_IdempotencyKey req) w1).
    by rewrite El.
  - assert (Hv2 : view w2 = view w).
    { destruct Hacc as (_ & Hp & _). rewrite <- (passes_frame view _ _ _ _ _ Hg Hp).
      pose proof (idempotentReplay_frame view s (authed c p) (clear_EvaluatedAt req) w1 Hl) as Hi. by rewrite Er in Hi. }
    rewrite (authorize_fresh_eq s _ _ _ p) in Ef by done. rewrite Hs in Ef.
    destruct (Authorize e (pr_OrgID p) (clear_EvaluatedAt req) (pr_Shadow p) w2) as [res w3] eqn:Ea.
    assert (Hw' : view w' = view w3).
    { destruct res as [d|er]; injection Ef as _ <-; [|done].
      by rewrite (enqueueAudit_frame view), (record_decision_frame view), (saveIdempotent_frame view). }
    destruct (Authorize_spends view e _ _ _ _ _ _ He Ea) as [Hq|(Hsh & id & (R & b & u & o & v & R1 & R2 & R3 & R4 & R5) & Hcase)]; [left; congruence|].
    right. exists p, req, w1, id. split; [done|]. split; [done|]. split; [by rewrite Er|]. split; [exists R, b, u, o, v; split_and!; congruence|].
    destruct Hcase as [(d & -> & <- & Hd)|(sg & dec & se & Hsg & Hid & Hd & Hse & ->)].
    + left. exists d. split; [|done]. injection Ef as <- _. by rewrite (Authorize_shadow_flag e _ _ _ _ _ _ Ea), Hsh.
    + right. exists sg, dec, se. split_and!; [done..|]. by injection Ef as <- _.
Qed.

(** ** Retries *)

(** What a decision answered with: fresh or replayed. *)
Lemma fresh_response {W} `{Runtime W} `{Sha256} `{Jcs} (s : Server W) req c r p w x w' d :
  principalOf c = Some p -> authorize_fresh s req c r w = (Some x, w') -> resp_Body x = PDecision d ->
  exists w1, s_authz s (pr_OrgID p) req (pr_Shadow p) w = (Ok d, w1) /\
    resp_Header x !! "X-Idempotent-Replay" = None /\
    w' = (enqueueAudit s c req d (record_decision s d (saveIdempotent s c req d w1).2).2).2.
Proof.
  intros Ep Ef Hb. rewrite (authorize_fresh_eq s req c r p w Ep) in Ef.
  destruct (s_authz s (pr_OrgID p) req (pr_Shadow p) w) as [[d'|er] w1] eqn:Ea; injection Ef as <- <-; [|done].
  exists w1. destruct (dec_Shadow d'); cbn in Hb; injection Hb as <-; split_and!; done.
Qed.

Lemma valid_has_key req : validateAuthorizeRequest req = [] -> req_IdempotencyKey req <> "".
Proof.
  unfold validateAuthorizeRequest. intros Hv Hk. rewrite Hk in Hv. do 7 apply app_nil in Hv as [_ Hv]. done.
Qed.

(** C12: A retry gets the decision already made.  If a request was answered with a
    decision, and later, with the cache entry still there, the same organisation
    sends any valid request under the same idempotency key, then it gets that
    decision, marked as a replay, and the engine does not run: whatever the gate
    and the lookup leave alone is left alone. *)
Theorem retry_returns_decision {W} `{!Runtime W} `{Sha256} `{Jcs} `{RequestDecoder} (s : Server W) st cached keeps
  `{!IdempotencySpec st cached keeps} c1 r1 w1 x1 w2 d p1 req1 v1 c2 r2 w3 p2 req2 v3
  (Hst : s_idem s = Some st)
  (Hsaves : forall org k d w, (idem_Save st org k d w).1 = Ok tt) (Hkeeps : keeps d)
  (Hfinds : forall org k w, is_ok (idem_Lookup st org k w).1 = true)
  (Hfr : forall k, Frame (fun w => cached w k)) (Hqg : forall k, quiet_gate (fun w => cached w k) s)
  (Hqm : forall k, quiet_metrics (fun w => cached w k) s) (Hqa : forall k, quiet_audit (fun w => cached w k) s)
  (R1 : authorize_endpoint s c1 r1 w1 = (Some x1, w2)) (Hd : resp_Body x1 = PDecision d)
  (A1 : accepted s r1 p1 req1 w1 v1) (A2 : accepted s r2 p2 req2 w3 v3)
  (Horg : pr_OrgID p2 = pr_OrgID p1) (Hkey : req_IdempotencyKey req2 = req_IdempotencyKey req1)
  (Hstill : cached w3 (Idempotency.key (pr_OrgID p1) (req_IdempotencyKey req1)) = cached w2 (Idempotency.key (pr_OrgID p1) (req_IdempotencyKey req1))) :
  exists w4, authorize_endpoint s c2 r2 w3 = (Some (replay_response d), w4) /\
    forall V (view : W -> V), Frame view -> quiet_gate view s -> quiet_lookup view s -> view w4 = view w3.
Proof.
  set (k := Idempotency.key _ _) in *.
  assert (Hcached : cached w2 k = Some d).
  { destruct (authorize_endpoint_run _ _ _ _ _ _ R1) as [x w' pb Hb Hv|p req st' u1 d' w' Hacc Es El|p req u1 u2 x w' Hacc Er Ef].
    - by rewrite Hb in Hd.
    - cbn in Hd. injection Hd as ->. rewrite Hst in Es. injection Es as <-.
      destruct (accepted_fun _ _ _ _ _ _ _ _ _ Hacc A1) as (-> & -> & ->).
      pose proof (lookup_answer (pr_OrgID p1) (req_IdempotencyKey req1) v1) as Hl. rewrite El in Hl.
      pose proof (lookup_frame (S:=st) (pr_OrgID p1) (req_IdempotencyKey req1) v1 k) as Hf. rewrite El in Hf. cbn in Hf.
      rewrite Hf. symmetry. by apply Hl.
    - destruct (accepted_fun _ _ _ _ _ _ _ _ _ Hacc A1) as (-> & -> & ->).
      destruct (fresh_response s _ (authed c1 p1) r1 p1 _ _ _ _ eq_refl Ef Hd) as (u3 & _ & _ & ->).
      rewrite (enqueueAudit_frame (fun w => cached w k)) by done. rewrite (record_decision_frame (fun w => cached w k)) by done.
      unfold saveIdempotent. rewrite Hst. destruct A1 as (_ & _ & _ & Hv). pose proof (valid_has_key _ Hv) as Hne.
      apply String.eqb_neq in Hne. cbn [clear_EvaluatedAt req_IdempotencyKey]. rewrite Hne. cbn [principalOf authed ctx_Principal].
      rewrite bind_let. cbn [snd mret io_ret]. apply save_answer; [done|apply Hsaves]. }
  pose proof A2 as (Hm & Hp & Hdec & Hv).
  exists (idem_Lookup st (pr_OrgID p2) (req_IdempotencyKey req2) v3).2. split.
  - unfold authorize_endpoint, method. rewrite Hm, String.eqb_refl. cbn [negb]. rewrite (passes_protected _ _ _ _ _ _ _ Hp).
    unfold handleAuthorize. cbv zeta. destruct (passes_body _ _ _ _ _ Hp) as (body & Eb & Hlen). rewrite Eb in *.
    change (default "" (Some body)) with body in *.
    destruct (Z.ltb_spec maxBodyBytes (Z.of_nat (String.length body))); [lia|]. rewrite Hdec.
    unfold authorize_request. rewrite Hv. cbn [nonempty]. rewrite bind_let. unfold idempotentReplay. rewrite Hst.
    pose proof (valid_has_key _ Hv) as Hne. apply String.eqb_neq in Hne. cbn [clear_EvaluatedAt req_IdempotencyKey].
    rewrite Hne. cbn [principalOf authed ctx_Principal]. rewrite bind_let.
    pose proof (Hfinds (pr_OrgID p2) (req_IdempotencyKey req2) v3) as Hok.
    pose proof (lookup_answer (pr_OrgID p2) (req_IdempotencyKey req2) v3) as Hl.
    destruct (idem_Lookup st (pr_OrgID p2) (req_IdempotencyKey req2) v3) as [[hit|er] w4]; [|done]. cbn [fst snd mret io_ret].
    rewrite (Hl hit eq_refl), Horg, Hkey. fold k.
    rewrite (passes_frame (fun w => cached w k) s r2 p2 w3 v3 (Hqg k) Hp), Hstill, Hcached. done.
  - intros V view Hf Hg Hq. rewrite (Hq st Hst). by eapply passes_frame.
Qed.

(** ** The audit log *)

Lemma enqueueAudit_once {W} `{Runtime W} (s : Server W) (q : W -> list Record_) `{!Frame q} f c p req d w :
  s_auditWriter s = Some f -> (forall rec w, q (f rec w).2 = q w ++ [rec]) -> principalOf c = Some p ->
  exists rec, q (enqueueAudit s c req d w).2 = q w ++ [rec] /\
    set_RetainUntil zero_time rec = RecordFromDecision (pr_OrgID p) (pr_KeyID p) req d.
Proof.
  intros Hw Hf Ep. unfold enqueueAudit. rewrite Hw, Ep. cbv zeta. rewrite bind_let, Hf. destruct (s_retentionFor s) as [g|].
  - rewrite bind_let. cbn [fst snd mret io_ret]. rewrite now_frame. by eexists.
  - by eexists.
Qed.

(** C22: Every decision is audited once.  With a writer that queues what it is
    given, a request to [/v1/authorize] adds one record to the queue exactly
    when it is answered with a fresh decision, and then the record of that
    decision, of the request as it was evaluated, and of the key's organisation;
    a refusal, an error and a replay add nothing. *)
Theorem every_decision_audited {W} `{!Runtime W} `{Sha256} `{Jcs} `{RequestDecoder} (s : Server W) (q : W -> list Record_) `{!Frame q} f
  c r w x w'
  (Hw : s_auditWriter s = Some f) (Hf : forall rec w, q (f rec w).2 = q w ++ [rec])
  (Hg : quiet_gate q s) (Hl : quiet_lookup q s) (Hsv : quiet_save q s) (Hm : quiet_metrics q s)
  (Hz : forall org req sh w, q (s_authz s org req sh w).2 = q w)
  (Hrun : authorize_endpoint s c r w = (Some x, w')) :
  (exists d p req w1 rec, resp_Body x = PDecision d /\ resp_Header x !! "X-Idempotent-Replay" = None /\
     accepted s r p req w w1 /\ q w' = q w ++ [rec] /\
     set_RetainUntil zero_time rec = RecordFromDecision (pr_OrgID p) (pr_KeyID p) (clear_EvaluatedAt req) d) \/
  (q w' = q w /\ forall d, resp_Body x = PDecision d -> resp_Header x !! "X-Idempotent-Replay" = Some "true").
Proof.
  destruct (authorize_endpoint_run _ _ _ _ _ _ Hrun) as [y u pb Hb Hv|p req st w1 d u Hacc Es El|p req w1 w2 y u Hacc Er Ef].
  - right. split; [by apply Hv|]. intros d Hd. by rewrite Hb in Hd.
  - right. split; [|done]. destruct Hacc as (_ & Hp & _). rewrite <- (passes_frame q _ _ _ _ _ Hg Hp), <- (Hl st Es (pr_OrgID p) (req_IdempotencyKey req) w1).
    by rewrite El.
  - assert (Hq : q w2 = q w).
    { destruct Hacc as (_ & Hp & _). rewrite <- (passes_frame q _ _ _ _ _ Hg Hp).
      pose proof (idempotentReplay_frame q s (authed c p) (clear_EvaluatedAt req) w1 Hl) as Hi. by rewrite Er in Hi. }
    pose proof (Hz (pr_OrgID p) (clear_EvaluatedAt req) (pr_Shadow p) w2) as Hz2.
    destruct (resp_Body y) as [d|pb| | | |] eqn:Hb.
    2-6: right; split; [|done]; rewrite (authorize_fresh_eq s _ (authed c p) r p w2) in Ef by done;
      destruct (s_authz s (pr_OrgID p) (clear_EvaluatedAt req) (pr_Shadow p) w2) as [[d|er] w3]; cbn in Hz2;
      injection Ef as <- <-; [by destruct (dec_Shadow d)|by rewrite Hz2].
    left. destruct (fresh_response s _ (authed c p) r p _ _ _ _ eq_refl Ef Hb) as (w3 & Ea & Hh & ->). rewrite Ea in Hz2. cbn in Hz2.
    destruct (enqueueAudit_once s q f (authed c p) p (clear_EvaluatedAt req) d
      (record_decision s d (saveIdempotent s (authed c p) (clear_EvaluatedAt req) d w3).2).2 Hw Hf eq_refl) as (rec & Hrec & Hof).
    exists d, p, req, w1, rec. split_and!; try done.
    by rewrite Hrec, (record_decision_frame q), (saveIdempotent_frame q), Hz2, Hq.
Qed.

(** ** Reading decisions *)

(** The in-memory store behind the interface. *)
Definition mem_audit {W} (log : W -> AuditLog.MemStore) (enc : Encryptor W) : AuditStore W :=
  {| au_Get org id w := (AuditLog.Get enc org id (log w), w); au_List org f w := (List_ enc org f (log w), w) |}.

(** A parameter that is present and parses is its value, unreported. *)
Lemma parse_param_some {A} v (parse : string -> option A) pt dt a :
  v <> "" -> parse v = Some a -> parse_param v parse pt dt = (Some a, []).
Proof. intros Hv Hp. unfold parse_param. apply String.eqb_neq in Hv. by rewrite Hv, Hp. Qed.

Lemma decodeCursor_encodeCursor n : in_int64 n = true -> decodeCursor (encodeCursor n) = Some n.
Proof. intros Hn. unfold decodeCursor, encodeCursor. rewrite DecodeString_EncodeToString. cbn. by apply ParseInt_FormatInt. Qed.

Lemma encodeCursor_nonempty n : in_int64 n = true -> encodeCursor n <> "".
Proof. intros Hn He. pose proof (decodeCursor_encodeCursor n Hn) as Hd. rewrite He in Hd. by vm_compute in Hd. Qed.

(** A request for the next page: the same query with the cursor of the page. *)
Definition next_query (cursor : string) (r : http_request) : http_request :=
  {| rq_Method := rq_Method r; rq_Path := rq_Path r; rq_Header := rq_Header r; rq_Body := rq_Body r; rq_ID := rq_ID r;
     rq_Query := <["cursor" := [cursor]]> (rq_Query r) |}.

Lemma next_query_get cursor r k : k <> "cursor" -> Query_Get (rq_Query (next_query cursor r)) k = Query_Get (rq_Query r) k.
Proof. intros Hk. unfold Query_Get. cbn. by rewrite lookup_insert_ne. Qed.

(** Pages chain over HTTP.  Whatever a page of the listing says about the
    next one, a request with the same query and that cursor is valid and reads
    on from the store's position, with every other filter as it was; and the
    filters of a valid query are within the documented bounds. *)
Theorem next_cursor_resumes {W} `{!Runtime W} `{Sha256} `{Jcs} (s : Server W) r f p cursor
  (Hf : parseListFilter r = (f, [])) (Hp : lp_NextCursor (to_listPage s p) = Some cursor) (Hn : NextCursor p <= max_int64) :
  parseListFilter (next_query cursor r) =
    ({| f_AgentID := f_AgentID f; f_Verdict := f_Verdict f; f_From := f_From f; f_To := f_To f; f_Limit := f_Limit f;
        f_Cursor := NextCursor p |}, []) /\
  (f_Limit f = 0 \/ 1 <= f_Limit f <= MaxListLimit) /\ f_Verdict f ∈ [""; VerdictApprove; VerdictDeny; VerdictReview].
Proof.
  unfold to_listPage in Hp. cbn in Hp. destruct (Z.ltb_spec 0 (NextCursor p)) as [Hpos|]; [|done]. injection Hp as <-.
  assert (H64 : in_int64 (NextCursor p) = true) by (unfold in_int64; apply andb_true_iff; rewrite !Z.leb_le; unfold min_int64, two63 in *; lia).
  unfold parseListFilter in *. cbv zeta in *.
  rewrite (next_query_get _ _ "agent_id"), (next_query_get _ _ "verdict"), (next_query_get _ _ "from"), (next_query_get _ _ "to"),
    (next_query_get _ _ "limit") by done.
  replace (Query_Get (rq_Query (next_query (encodeCursor (NextCursor p)) r)) "cursor") with (encodeCursor (NextCursor p))
    by (unfold Query_Get; cbn; by rewrite lookup_insert_eq).
  rewrite (parse_param_some _ decodeCursor _ _ (NextCursor p)) by (by apply encodeCursor_nonempty || by apply decodeCursor_encodeCursor).
  destruct (parse_param _ parse_verdict _ _) as [v i1] eqn:Ev. destruct (parse_param _ parse_rfc3339 "/from" _) as [fr i2].
  destruct (parse_param _ parse_rfc3339 "/to" _) as [t i3]. destruct (parse_param _ parse_limit _ _) as [l i4] eqn:El.
  destruct (parse_param _ decodeCursor _ _) as [k i5]. injection Hf as <- Hi.
  repeat (apply app_nil in Hi as [-> Hi]). split; [done|]. cbn. split.
  - unfold parse_param in El. destruct (String.eqb _ ""); [injection El as <-; by left|]. destruct (parse_limit _) as [n|] eqn:En; [|done].
    injection El as <-. right. unfold parse_limit in En. destruct (ParseInt _) as [z|]; [|done]. cbn in En.
    destruct (Z.leb_spec 1 z), (Z.leb_spec z MaxListLimit); try done. by injection En as <-.
  - unfold parse_param in Ev. destruct (String.eqb _ ""); [injection Ev as <-; set_solver|]. destruct (parse_verdict _) as [x|] eqn:Ex; [|done].
    injection Ev as <-. unfold parse_verdict in Ex. destruct (mem_str _ _) eqn:Em; [|done]. injection Ex as <-. apply mem_str_spec in Em. by right.
Qed.

(** ** Receipts read back *)

(** The chain fields are not part of the hashed content. *)
Lemma hash_set_chain `{Sha256} `{Jcs} q n a b t r : ComputeRecordHash q (set_chain n a b t r) = ComputeRecordHash q r.
Proof. done. Qed.

(** C26: A receipt reads back.  A decision handed to the log for an organisation is
    what its [GET /v1/decisions/{id}] returns after any later appends, with its
    record hash and [signature_verified] true, provided the verifier accepts
    every decision with the signed content and the signature of the one made
    (as a keyring does, also after rotations). *)
Theorem receipt_reads_back {W} `{!Runtime W} `{Sha256} `{Jcs} (s : Server W) (enc : Encryptor W) (good : string -> Prop) `{!EncryptorSpec enc good}
  (log : W -> AuditLog.MemStore) verify before org kid req d t stored m1 u1 m2 u2 after w c r p
  (Hbefore : Forall (good_record good) before) (Hafter : Forall (good_record good) after)
  (E1 : append_all enc before AuditLog.NewMemStore u1 = (m1, u2))
  (Hgood : good_record good (RecordFromDecision org kid req d)) (Hnew : dec_DecisionID d ∉ DecisionID <$> of_org m1 org)
  (E2 : (AuditLog.Append enc (set_RetainUntil t (RecordFromDecision org kid req d)) m1 u2).1 = (Ok stored, m2))
  (E3 : log w = (append_all enc after m2 (AuditLog.Append enc (set_RetainUntil t (RecordFromDecision org kid req d)) m1 u2).2).1)
  (Hs : s_auditStore s = Some (mem_audit log enc)) (Hv : s_verifyDecision s = Some verify)
  (Hver : forall d2, signedView d2 = signedView d -> dec_Signature d2 = dec_Signature d -> verify d2 = Ok tt)
  (Hc : principalOf c = Some p) (Horg : pr_OrgID p = org) (Hid : rq_ID r = dec_DecisionID d) (Hulid : reULID (dec_DecisionID d) = true) :
  (handleGetDecision s c r w).1 =
    Some (writeJSON 200 (PDecision
      {| dec_DecisionID := dec_DecisionID d; dec_Verdict := dec_Verdict d; dec_PolicyVersionHash := dec_PolicyVersionHash d;
         dec_Explanation := dec_Explanation d; dec_Obligations := dec_Obligations d; dec_LatencyMs := dec_LatencyMs d;
         dec_EvaluatedAt := dec_EvaluatedAt d; dec_Signature := dec_Signature d; dec_Shadow := dec_Shadow d;
         dec_RecordHash := RecordHash stored; dec_SignatureVerified := Some true |})).
Proof.
  set (rec := set_RetainUntil t (RecordFromDecision org kid req d)) in *.
  pose proof (append_all_ok enc good before AuditLog.NewMemStore u1 Hbefore (empty_ok enc)) as Hok1. rewrite E1 in Hok1. cbn in Hok1.
  destruct (AuditLog.Append enc rec m1 u2) as [[res m'] u3] eqn:Ea. cbn in E2, E3. injection E2 as -> ->.
  assert (Hget : AuditLog.Get enc org (dec_DecisionID d) (log w) = Ok stored).
  { rewrite E3. by apply (appended_reads_back enc good rec m1 u2 stored m2 u3 after u3 Hgood Hafter Hok1 Hnew Ea). }
  assert (Hlink : VerifyChainLink stored = Ok true /\ stored = set_chain (Seq stored) (PrevHash stored) (RecordHash stored) (CreatedAt stored) rec).
  { apply (Append_cases enc good) in Ea as [(_ & _ & Hno)|(ex & prev & hash & created & _ & -> & Hh & Hst & _)];
      [by destruct Hnew; apply Hno|]. injection Hst as ->. cbn. split; [|done].
    unfold VerifyChainLink. cbn [PrevHash set_chain RecordHash]. rewrite hash_set_chain. change org with (AuditLog.OrgID rec). rewrite Hh. cbn. by rewrite String.eqb_refl. }
  destruct Hlink as [Hlink Hstored].
  unfold handleGetDecision. rewrite Hs, Hc, Hid, Hulid. cbn [negb]. rewrite bind_let. unfold mem_audit at 1. cbn [au_Get fst snd].
  rewrite Horg, Hget. cbn [fst snd mret io_ret]. unfold verifyRecord. rewrite Hv, Hlink, Hstored.
  rewrite Hver by done. done.
Qed.
