(* ===== verification/Settle.v ===== *)
(** The life of a hold from the decision that placed it to its settlement
    ([engine.go], [reserver.go], [holds.go]): the deadline the obligation states,
    and what capture and void answer until then.

    The server meets the budget subsystem at two interfaces: the engine's
    reserver and the server's lifecycle.  [BudgetSpec] says what they promise
    each other; the subsystem in memory keeps it, and so does the one as deployed,
    over Postgres, whose statements may be refused or lose their answers. *)

From S2P Require Import Prelude GoStrings GoTime Money Contracts Verdict Predicates Ulid Base64 Signing Runtime RedisKv Idempotency Engine EngineProps Pg Hold HoldStore HoldPg Budget Counter Reserver Spend Auth AuthProps Server ControlTypes ServerCtl ServerProps.

(** A clock that [now] reads and nothing sets back. *)
Class Monotone {W} `{Runtime W} (clk : W -> time) := {
  mono_now w : clk w <= (now w).1 <= clk (now w).2;
  mono_rand n w : clk w <= clk (rand_Read n w).2
}.

Section deadline.
Context {W : Type} `{Runtime W} `{Ed25519} `{Jcs} `{BigRat} `{Unicode}.

(** [Reserve] over any way to place a hold. *)
Definition reserve_with (c : Counter W) (ttl : duration) (place : Hold -> io W (result hold_error unit)) (orgID decisionID : string) (req : AuthorizeRequest)
    (b : BudgetDecl) : io W BudgetResult :=
  t ← reserve_time req;
  s ← reserve_count c ttl t orgID decisionID req b;
  match s with
  | RvDone res => mret res
  | RvUndo key amount wk => reserve_undo c key amount wk
  | RvPlace key amount h res =>
    s ← reserve_place place key amount h res;
    match s with
    | RvDone res => mret res
    | RvUndo key amount wk => reserve_undo c key amount wk
    | RvPlace _ _ _ res => mret res
    end
  end.

(** A reservation within the limit ends with the hold placed; it lives from the
    reservation's own reading of the clock. *)
Lemma reserve_with_places c ttl place orgID id req b w res w' :
  parse_rfc3339 (req_EvaluatedAt req) = None -> reserve_with c ttl place orgID id req b w = (res, w') -> br_Outcome res = BudgetWithinLimit ->
  exists k a l t s, let u := (counter_Reserve c k a l t s (now w).2).2 in place (new_hold ttl (now w).1 orgID id req b) u = (Ok tt, w').
Proof using Type.
  intros Hnone. unfold reserve_with, reserve_time. rewrite !bind_let. cbn [fst snd mret io_ret]. unfold evaluated_at. rewrite Hnone.
  set (t := (now w).1). unfold reserve_count. destruct (toCents (req_Amount req)) as [amount|]; [|by intros [= <- _]].
  destruct (toCents (bd_Limit b)) as [limit|]; [|by intros [= <- _]]. rewrite bind_let.
  destruct (counter_Reserve _ _ _ _ _ _ _) as [[[reserved prior]|e] w1] eqn:Ec; cbn [fst snd mret io_ret]; [|by intros [= <- _]].
  destruct reserved; [|by intros [= <- _]]. unfold reserve_place. rewrite !bind_let.
  destruct (place _ w1) as [[[]|e] w2] eqn:Ep; cbn [fst snd mret io_ret].
  - intros [= _ <-] _. do 5 eexists. cbv zeta. by rewrite Ec.
  - unfold reserve_undo. rewrite bind_let. by intros [= <- _].
Qed.

Lemma Reserve_places (r : Reserver W) orgID id req b w res w' :
  parse_rfc3339 (req_EvaluatedAt req) = None -> Reserver_Reserve r orgID id req b w = (res, w') -> br_Outcome res = BudgetWithinLimit ->
  exists u, store_Place (r_holds r) (new_hold (r_holdTTL r) (now w).1 orgID id req b) u = (Ok tt, w').
Proof using Type.
  intros Hn Hr Ho. change (Reserver_Reserve r) with (reserve_with (r_counter r) (r_holdTTL r) (store_Place (r_holds r))) in Hr.
  destruct (reserve_with_places _ _ _ _ _ _ _ _ _ _ Hn Hr Ho) as (k & a & l & t & s & Hp). by eexists.
Qed.

(** What the budget step of a run does to the world when it ends with a hold. *)
Lemma budget_step_places (e : Engine W) (r : Reserver W) orgID req shadow pol decID rs ms w rs' ms' b w' :
  e_Reserver e = Some (as_BudgetReserver r) -> parse_rfc3339 (req_EvaluatedAt req) = None ->
  budget_step e orgID req shadow pol decID rs ms w = (rs', ms', Some b, w') ->
  exists u, store_Place (r_holds r) (new_hold (r_holdTTL r) (now w).1 orgID decID req b) u = (Ok tt, w').
Proof using Type.
  intros Hr Hnone. unfold budget_step. destruct (_ && _); [|done]. destruct (applicableBudget pol _) as [b'|]; [|done]. rewrite Hr, bind_let.
  destruct (Reserve (as_BudgetReserver r) orgID decID req b' w) as [res w1] eqn:Er. cbn [fst snd mret io_ret].
  destruct (bool_decide_reflect (br_Outcome res = BudgetWithinLimit)); [|done]. intros [= _ _ <- <-].
  by eapply Reserve_places.
Qed.

(** [holdTTL] of an engine and of a reserver built with the same lifetime. *)
Lemma same_TTL (e : Engine W) (c : Counter W) (h : HoldStore W) ttl : e_HoldTTL e = ttl -> holdTTL e = r_holdTTL (NewReserver c h ttl) /\ 0 < holdTTL e.
Proof using Type. intros <-. unfold holdTTL, NewReserver. cbn. unfold DefaultHoldTTL, Minute, Second, nanos. destruct (Z.ltb_spec 0 (e_HoldTTL e)), (Z.leb_spec (e_HoldTTL e) 0); lia. Qed.

Definition in_calendar (t : time) : Prop := 0 <= c_year (date_of t) <= 9999.

Context (clk : W -> time) `{!Monotone clk}.

Lemma ulid_mono w : clk w <= clk (ulid_New w).2.
Proof using Type*.
  unfold ulid_New. rewrite !bind_let. cbn [snd mret io_ret]. pose proof (mono_now (clk:=clk) w). pose proof (mono_rand (clk:=clk) 10 (now w).2). lia.
Qed.

Lemma resolve_mono (e : Engine W) orgID w :
  (forall P, e_Provider e = Some P -> forall org u, clk u <= clk (Active P org u).2) -> clk w <= clk (resolve_policy e orgID w).2.
Proof using Type.
  intros Hp. unfold resolve_policy. destruct (e_Provider e) as [P|] eqn:E; [|cbn; lia]. rewrite bind_let. cbn [snd mret io_ret]. by apply Hp.
Qed.

(** The gate does not set the clock back if its stores do not. *)
Lemma passes_mono `{Sha256} (s : Server W) r p w w' :
  (forall id u, clk u <= clk (LookupByID (keys (s_authn s)) id u).2) -> (forall k n ttl u, clk u <= clk (Remember (nonces (s_authn s)) k n ttl u).2) ->
  (forall k l u, clk u <= clk (s_limiter s k l u).2) -> passes_gate s r p w w' -> clk w <= clk w'.
Proof using Monotone0.
  intros Hk Hn Hl (body & w1 & d & _ & _ & Ea & El & _). apply (f_equal snd) in El. cbn [snd] in El. subst w'.
  transitivity (clk w1); [|apply Hl]. apply (f_equal snd) in Ea. cbn [snd] in Ea. subst w1.
  destruct (Authenticate_cases (s_authn s) (rq_Method r) (rq_Path r) (rq_Header r) body w) as [(e & _ & [-> |(id & [-> | ->])])|(rec & t & w2 & Hr & _ & ->)].
  - done.
  - apply Hk.
  - etransitivity; [apply (Hk id)|]. pose proof (mono_now (clk:=clk) (LookupByID (keys (s_authn s)) id w).2). lia.
  - destruct Hr as (rk & id & hh & w1 & _ & _ & El & En). unfold check_nonce. rewrite bind_let. cbn [snd mret io_ret].
    pose proof (Hk id w) as Hk'. rewrite El in Hk'. pose proof (mono_now (clk:=clk) w1) as Hm. rewrite En in Hm. cbn [fst snd] in *.
    etransitivity; [|apply Hn]. lia.
Qed.

(** The run that ends with an obligation: the hold it placed, and the deadline
    it stated. *)
Lemma obligation_run (e : Engine W) (r : Reserver W) orgID req shadow w d w' o :
  e_Reserver e = Some (as_BudgetReserver r) -> req_EvaluatedAt req = "" -> in_calendar (now w).1 ->
  (forall P, e_Provider e = Some P -> forall org u, clk u <= clk (Active P org u).2) ->
  Authorize e orgID req shadow w = (Ok d, w') -> o ∈ dec_Obligations d ->
  exists b t u v, (now w).1 <= t /\ store_Place (r_holds r) (new_hold (r_holdTTL r) t orgID (dec_DecisionID d) req b) u = (Ok tt, v) /\
    o = capture_obligation (holdTTL e) b req (of_unix (Unix (now w).1)) (dec_DecisionID d).
Proof using Type*.
  intros Hr Hreq Hcal Hprov. unfold Authorize. rewrite !bind_let. set (start := (now w).1) in *.
  pose proof (resolve_mono e orgID (now w).2 Hprov) as Hm1. pose proof (mono_now (clk:=clk) w) as Hm0.
  destruct (resolve_policy e orgID (now w).2) as [[pol|er] w2] eqn:Er; cbn [fst snd] in *; [|done].
  rewrite bind_let. pose proof (ulid_mono w2) as Hm2. set (decID := (ulid_New w2).1). destruct (evalLocal _ _) as [rs ms]. rewrite bind_let.
  destruct (budget_step _ _ _ _ _ _ _ _ _) as [[[rs' ms'] held] w3] eqn:Eb. cbn [fst snd]. rewrite bind_let.
  destruct held as [b|].
  2:{ cbn [fst snd mret io_ret]. intros Hs Ho. apply seal_ok in Hs as (_ & _ & _ & _ & Hobs & _). rewrite Hobs in Ho. by apply not_elem_of_nil in Ho. }
  rewrite bind_let. cbn [fst snd mret io_ret]. unfold captureWithinObligation. rewrite bind_let. cbn [fst snd mret io_ret].
  intros Hs Ho. apply seal_ok in Hs as (Hid & _ & _ & _ & Hobs & _). rewrite Hobs in Ho. cbn in Ho. apply list_elem_of_singleton in Ho as ->.
  destruct (budget_step_places _ r _ _ _ _ _ _ _ _ _ _ _ _ Hr ltac:(rewrite Hreq; reflexivity) Eb) as [u Hu].
  exists b, (now (ulid_New w2).2).1, u, w3. rewrite Hid. cbn [dec_DecisionID set_Obligations set_Shadow assembleDecision]. fold decID.
  split; [pose proof (mono_now (clk:=clk) (ulid_New w2).2); lia|]. split; [done|].
  unfold stamped_at. rewrite Hreq. cbn [String.eqb]. rewrite parse_format_rfc3339 by done. done.
Qed.

(** The deadline stated is the deadline kept.  When an engine and a reserver
    share a hold lifetime, as the service builds them, an approval with an
    obligation has placed a hold of the decision's id, for the organisation and
    the amount, and the instant the obligation states in [expires_at] is no
    later than the instant that hold expires at: a caller that settles by the
    stated deadline is never told that the hold has expired.  Clocks run
    forward, and dates have four-digit years. *)
Theorem stated_deadline_is_kept (e : Engine W) c holds ttl orgID req shadow w d w' o
  (Hr : e_Reserver e = Some (as_BudgetReserver (NewReserver c holds ttl))) (Httl : e_HoldTTL e = ttl)
  (Hreq : req_EvaluatedAt req = "")
  (Hcal : in_calendar (now w).1) (Hcal2 : in_calendar (Add (of_unix (Unix (now w).1)) (holdTTL e)))
  (Hprov : forall P, e_Provider e = Some P -> forall org u, clk u <= clk (Active P org u).2)
  (Hrun : Authorize e orgID req shadow w = (Ok d, w')) (Ho : o ∈ dec_Obligations d) :
  exists h u v text deadline,
    store_Place holds h u = (Ok tt, v) /\ h_DecisionID h = dec_DecisionID d /\ h_OrgID h = orgID /\ h_Amount h = req_Amount req /\ h_State h = StateHeld /\
    ob_Params o !! "hold_ref" = Some (JStr (h_DecisionID h)) /\ ob_Params o !! "expires_at" = Some (JStr text) /\
    parse_rfc3339 text = Some deadline /\ (now w).1 + holdTTL e - 2 * Second < deadline /\ deadline <= h_ExpiresAt h.
Proof using Type*.
  destruct (same_TTL e c holds ttl Httl) as [Hsame Hpos].
  destruct (obligation_run e _ _ _ _ _ _ _ _ Hr Hreq Hcal Hprov Hrun Ho) as (b & t & u & v & Ht & Hp & ->).
  set (start := (now w).1) in *. set (T := Add (of_unix (Unix start)) (holdTTL e)) in *.
  exists (new_hold (r_holdTTL (NewReserver c holds ttl)) t orgID (dec_DecisionID d) req b), u, v, (format_rfc3339 T), (Unix T * nanos).
  split; [exact Hp|]. do 4 (split; [reflexivity|]). split; [reflexivity|]. split; [reflexivity|].
  split; [by apply parse_format_rfc3339|]. cbn [h_ExpiresAt new_hold]. rewrite <- Hsame. unfold T, Add, of_unix, Unix, Second, nanos in *. zlia.
Qed.
End deadline.

(** * What reserver and lifecycle promise each other *)

(** A whole second. *)
Definition whole (t : time) : Prop := (nanos | t).

(** The hold is the one a reservation asks for. *)
Definition hold_for (org id : string) (req : AuthorizeRequest) (b : BudgetDecl) (h : Hold) : Prop :=
  h_DecisionID h = id /\ h_OrgID h = org /\ h_BudgetID h = bd_ID b /\ h_Amount h = req_Amount req /\ h_Currency h = req_Currency req.

(** What a call that settles a hold answers, and the hold it leaves: [fin] is
    where it leads, [other] the state that is final the other way. *)
Definition settles (fin other : State) (h : Hold) (timely : Prop) (r : result hold_error (option Hold)) (row' : option Hold) : Prop :=
  (exists m, r = Err (ErrStore m)) \/
  ((h_State h = StateHeld -> timely -> exists h', r = Ok (Some h') /\ same_terms h h' /\ h_State h' = fin /\ row' = Some h') /\
   (h_State h = fin -> r = Ok (Some h) /\ row' = Some h) /\
   (h_State h = other -> (exists s op why, r = Err (ConflictError s op why)) /\ row' = Some h)).

(** The value of a counter after the amount of a hold is given back. *)
Definition given_back (h : Hold) (k : string) (v : Z) : Z :=
  match release_of h with [(key, a)] => if bool_decide (k = key) then Z.max 0 (v - a) else v | _ => v end.

(** Values and the amount of the hold are in the range of the counter. *)
Definition in_range (cap : Z) (h : Hold) (value : string -> Z) : Prop :=
  (forall k, 0 <= value k <= cap) /\ forall key a, (key, a) ∈ release_of h -> 0 <= a <= cap.

(** [row] is the hold of an organisation's decision, [value] the counters, [up]
    that the counter takes every release.  A call is timely when it is over
    before the hold expires. *)
Class BudgetSpec {W} (R : BudgetReserver W) (bl : budgetLifecycle W) (row : W -> string -> string -> option Hold) (value : W -> string -> Z)
    (clk : W -> time) (ttl : duration) (cap : Z) (up : Prop) := {
  reserve_holds org id req b w :
    parse_rfc3339 (req_EvaluatedAt req) = None -> row w org id = None ->
    let '(res, w') := Reserve R org id req b w in
    br_Outcome res = BudgetWithinLimit ->
    exists h, row w' org id = Some h /\ hold_for org id req b h /\ h_State h = StateHeld /\
      forall d, whole d -> d <= clk w + ttl -> d <= h_ExpiresAt h;
  capture_settles org id w h : row w org id = Some h ->
    let '(r, w') := bl_Capture bl org id w in
    settles StateCaptured StateVoided h (clk w' < h_ExpiresAt h) r (row w' org id) /\ forall k, value w' k = value w k;
  void_settles org id w h : row w org id = Some h -> in_range cap h (value w) ->
    let '(r, w') := bl_Void bl org id w in
    settles StateVoided StateCaptured h (clk w' < h_ExpiresAt h) r (row w' org id) /\
    (h_State h = StateHeld -> clk w' < h_ExpiresAt h -> is_ok r = true -> up -> forall k, value w' k = given_back h k (value w k)) /\
    (terminal (h_State h) -> forall k, value w' k = value w k)
}.

(** * The subsystem in memory and as deployed *)

(** The reserver as capture and void call it. *)
Definition lifecycle_of {W} (r : Reserver W) : budgetLifecycle W :=
  {| bl_Capture org id := x ← Reserver_Capture r org id; mret (Some <$> x); bl_Void org id := x ← Reserver_Void r org id; mret (Some <$> x) |}.

(** A counter beside a ledger, on a clock that does not go back. *)
Class CounterBeside {W L} (c : Counter W) (ledger : W -> L) (clk : W -> time) := {
  beside_reserve k a l t s w : ledger (counter_Reserve c k a l t s w).2 = ledger w /\ clk w <= clk (counter_Reserve c k a l t s w).2;
  beside_release k a w : ledger (counter_Release c k a w).2 = ledger w /\ clk w <= clk (counter_Release c k a w).2
}.

(** The counter takes every release. *)
Definition takes_releases {W} (c : Counter W) : Prop := forall k a w, is_ok (counter_Release c k a w).1 = true.

Section release.
Context {W L : Type} `{Runtime W} (c : Counter W) (ledger : W -> L) (clk : W -> time) `{!CounterBeside c ledger clk}.
Context (value : W -> string -> Z) (cap : Z) `{!CounterSpec c value cap}.

Lemma release_all_beside l w : ledger (release_all c l w).2 = ledger w /\ clk w <= clk (release_all c l w).2.
Proof using CounterBeside0.
  revert w. induction l as [|[k a] l IH]; intros w; [cbn; by split|]. cbn [release_all]. rewrite bind_let.
  destruct (beside_release k a w) as [Hl Hc]. destruct (IH (counter_Release c k a w).2) as [Hl' Hc']. split; [congruence|lia].
Qed.

Lemma release_gives_back h w k : in_range cap h (value w) -> takes_releases c -> value (release_all c (release_of h) w).2 k = given_back h k (value w k).
Proof using CounterSpec0.
  intros [Hv Ha] Hup. unfold given_back, release_of in *. destruct (toCents (h_Amount h)) as [a|]; [|done]. set (key := counterKey _ _ _) in *.
  cbn [release_all]. rewrite bind_let. pose proof (release_law (C:=c) key a w (Hv key) (Ha key a ltac:(by left))) as Hr. specialize (Hup key a w).
  destruct (counter_Release c key a w) as [[[]|e] w1]; cbn [fst snd mret io_ret] in *; [|done]. rewrite Hr.
  by case_bool_decide; subst.
Qed.
End release.

Section mem.
Context {W : Type} `{Runtime W} (clk : W -> time) `{!Monotone clk}.
Context (get : W -> MemStore) (put : MemStore -> W -> W) (order : W -> list string) `{!Lens get put} `{!Frame get}.
Context (c : Counter W) (value : W -> string -> Z) (cap : Z) `{!CounterSpec c value cap} `{!CounterBeside c get clk} `{!Frame value}.
Context (put_clk : forall m w, clk (put m w) = clk w) (put_value : forall m w, value (put m w) = value w).
Context (ttl : duration).

Definition mem_reserver : Reserver W := NewReserver c (MemStore_store get put order) ttl.
Definition mem_row (w : W) (org id : string) : option Hold := get w !! key org id.

Lemma mem_reserve_holds org id req b w :
  parse_rfc3339 (req_EvaluatedAt req) = None -> mem_row w org id = None ->
  let '(res, w') := Reserve (as_BudgetReserver mem_reserver) org id req b w in
  br_Outcome res = BudgetWithinLimit ->
  exists h, mem_row w' org id = Some h /\ hold_for org id req b h /\ h_State h = StateHeld /\
    forall d, whole d -> d <= clk w + r_holdTTL mem_reserver -> d <= h_ExpiresAt h.
Proof using Type*.
  intros Hn Hrow. cbn [Reserve as_BudgetReserver]. change (Reserver_Reserve mem_reserver) with
    (reserve_with c (r_holdTTL mem_reserver) (store_Place (MemStore_store get put order))).
  destruct (reserve_with _ _ _ _ _ _ _ _) as [res w'] eqn:Er. intros Ho.
  destruct (reserve_with_places _ _ _ _ _ _ _ _ _ _ Hn Er Ho) as (k & a & l & t & s & Hp). cbv zeta in Hp.
  destruct (beside_reserve (c:=c) (ledger:=get) (clk:=clk) k a l t s (now w).2) as [Hg _]. set (u := (counter_Reserve _ _ _ _ _ _ _).2) in *.
  cbn [store_Place MemStore_store] in Hp. destruct (now u) as [t1 u1] eqn:Eu. injection Hp as <-.
  pose proof (now_frame_eq (view:=get) _ _ _ Eu) as Hg1. unfold mem_row in *. rewrite get_put. unfold Place. cbn [h_OrgID h_DecisionID new_hold].
  rewrite Hg1, Hg, now_frame, Hrow, lookup_insert_eq. eexists. split; [done|]. rewrite bool_decide_false by done.
  pose proof (mono_now (clk:=clk) w). split_and!; [by destruct (IsZero _) | by destruct (IsZero _)|]. intros d _ Hd.
  assert (Hx : d <= (now w).1 + r_holdTTL mem_reserver) by lia. unfold Add. by destruct (IsZero _).
Qed.

Lemma is_due_reached t h : is_due t h = true -> h_ExpiresAt h <= t.
Proof using Type. unfold is_due, Before. breflect. intuition lia. Qed.

(** A hold is not due at a reading made before it expires. *)
Lemma timely_effective t w h : t <= clk w -> clk w < h_ExpiresAt h -> effective t h = h.
Proof using Type. intros Ht Hx. apply effective_not_due. unfold is_due, Before. rewrite (proj2 (Z.ltb_lt t _)) by lia. by rewrite andb_false_r. Qed.

Lemma mem_capture_settles org id w h : mem_row w org id = Some h ->
  let '(r, w') := bl_Capture (lifecycle_of mem_reserver) org id w in
  settles StateCaptured StateVoided h (clk w' < h_ExpiresAt h) r (mem_row w' org id) /\ forall k, value w' k = value w k.
Proof using Type*.
  intros Hrow. cbn [bl_Capture lifecycle_of]. unfold Reserver_Capture. rewrite bind_let. cbn [mem_reserver NewReserver r_holds MemStore_store store_Capture mret io_ret].
  pose proof (mono_now (clk:=clk) w) as Hm. destruct (now w) as [t w1] eqn:E1. destruct (now w1) as [t' w2] eqn:E2.
  pose proof (now_frame_eq2 (view:=get) _ _ _ _ _ E1 E2) as Hg. pose proof (now_frame_eq2 (view:=value) _ _ _ _ _ E1 E2) as Hv.
  pose proof (mono_now (clk:=clk) w1) as Hm1. rewrite E2 in Hm1. cbn [fst snd] in Hm, Hm1. rewrite Hg, Capture_eq. unfold mem_row in *. rewrite Hrow. cbn [fst snd].
  split; [|intros k; by rewrite put_value, Hv]. rewrite get_put, put_clk, lookup_insert_eq. right. split_and!.
  - intros Hs Hx. rewrite (timely_effective t w2 h) by lia. rewrite Hs. unfold captured_hold. rewrite decide_True by done. eexists. by split_and!.
  - intros Hs. rewrite effective_settled, Hs by congruence. unfold captured_hold. by rewrite decide_False by congruence.
  - intros Hs. rewrite effective_settled, Hs by congruence. unfold captured_hold. rewrite decide_False by congruence. split; [|done]. do 3 eexists. reflexivity.
Qed.

Lemma mem_void_settles org id w h : mem_row w org id = Some h -> in_range cap h (value w) ->
  let '(r, w') := bl_Void (lifecycle_of mem_reserver) org id w in
  settles StateVoided StateCaptured h (clk w' < h_ExpiresAt h) r (mem_row w' org id) /\
  (h_State h = StateHeld -> clk w' < h_ExpiresAt h -> is_ok r = true -> takes_releases c -> forall k, value w' k = given_back h k (value w k)) /\
  (terminal (h_State h) -> forall k, value w' k = value w k).
Proof using Type*.
  intros Hrow Hr. cbn [bl_Void lifecycle_of]. unfold Reserver_Void. rewrite !bind_let. cbn [mem_reserver NewReserver r_holds r_counter MemStore_store store_Void].
  pose proof (mono_now (clk:=clk) w) as Hm. destruct (now w) as [t w1] eqn:E1. destruct (now w1) as [t' w2] eqn:E2.
  pose proof (now_frame_eq2 (view:=get) _ _ _ _ _ E1 E2) as Hg. pose proof (now_frame_eq2 (view:=value) _ _ _ _ _ E1 E2) as Hv.
  pose proof (mono_now (clk:=clk) w1) as Hm1. rewrite E2 in Hm1. cbn [fst snd] in Hm, Hm1. rewrite Hg, Void_eq. unfold mem_row in *. rewrite Hrow. cbn [fst snd].
  set (u := put _ w2). assert (Hu : get u = <[key org id := voided_hold t' (effective t h)]> (get w) /\ clk u = clk w2 /\ value u = value w)
    by (unfold u; by rewrite (get_put (get:=get)), put_clk, put_value).
  clearbody u. destruct Hu as (Hug & Huc & Huv). assert (Hr' : in_range cap h (value u)) by (by rewrite Huv).
  destruct (is_due t h) eqn:Ed.
  { pose proof (is_due_held _ _ Ed) as Hs. rewrite (effective_due _ _ Ed) in *. cbn [h_State set_State set_lifecycle]. rewrite bool_decide_false by done. cbn [fst snd mret io_ret].
    rewrite bind_let. cbn [fst snd mret io_ret]. apply is_due_reached in Ed. split_and!; [right; split_and!; [lia|congruence..] | lia | by intros [?|?]; congruence]. }
  rewrite (effective_not_due _ _ Ed) in *. destruct (h_State h) eqn:Es; cbn [fst snd mret io_ret].
  - rewrite bool_decide_true by done. rewrite bind_let. cbn [fst snd mret io_ret]. unfold voided_hold in *. rewrite decide_True in * by auto.
    change (release_of (mark_voided t' h)) with (release_of h). destruct (release_all_beside c get clk (release_of h) u) as [Hg2 Hc2].
    rewrite Hg2, Hug, lookup_insert_eq. split_and!; [|intros _ _ _ Hup k; by rewrite (release_gives_back c value cap), Huv|by intros [?|?]].
    right. split_and!; [|congruence..]. intros _ _. eexists. by split_and!.
  - unfold voided_hold in Hug. rewrite decide_False in Hug by (rewrite Es; intuition congruence). rewrite Hug, lookup_insert_eq.
    split_and!; [right; split_and!; [congruence..|] | congruence | by rewrite Huv]. intros _. split; [|done]. do 3 eexists. reflexivity.
  - rewrite bool_decide_false by done. rewrite bind_let. cbn [fst snd mret io_ret]. unfold voided_hold in *. rewrite decide_False in * by (rewrite Es; intuition congruence).
    rewrite Hug, lookup_insert_eq. split_and!; [right; split_and!; [congruence|done|congruence] | congruence | by rewrite Huv].
  - split_and!; [right; split_and!; congruence | congruence | by intros [?|?]].
  - split_and!; [right; split_and!; congruence | congruence | by intros [?|?]].
Qed.

Lemma mem_budget_spec : BudgetSpec (as_BudgetReserver mem_reserver) (lifecycle_of mem_reserver) mem_row value clk (r_holdTTL mem_reserver) cap (takes_releases c).
Proof using Type*. split; [exact mem_reserve_holds | exact mem_capture_settles | exact mem_void_settles]. Qed.
End mem.

(** As deployed: a call of the store is its statements, one after the other, each
    of which the database may refuse or leave unanswered. *)
Section pg.
Context {W : Type} `{Runtime W} (clk : W -> time) `{!Monotone clk} (stored : time -> time).
Context (rows : W -> Rows) (put : Rows -> W -> W) `{!Lens rows put} `{!Frame rows} (fate : io W fault).
Context (c : Counter W) (ttl : duration).

Definition pg_statement (th : pg_thread) : io W pg_thread :=
  db ← now; f ← fate; app ← now; zoom rows put (pg_exec stored f app db th).

(** At most [n] statements. *)
Fixpoint pg_alone (n : nat) (th : pg_thread) : io W pg_thread :=
  match n, th with
  | S n, PDone _ => mret th
  | S n, _ => th ← pg_statement th; pg_alone n th
  | O, _ => mret th
  end.

Definition pg_Place (h : Hold) : io W (result hold_error unit) :=
  th ← pg_alone 5 (PCall (PgPlace h));
  mret match th with PDone (APlace r) => r | _ => Err (ErrStore "unfinished") end.

Definition pg_Capture (org id : string) : io W (result hold_error (option Hold)) :=
  th ← pg_alone 5 (PCall (PgCapture org id));
  mret match th with PDone (ACapture _ _ r) => Some <$> r | _ => Err (ErrStore "unfinished") end.

(** What [Reserver.Void] does with the store's answer. *)
Definition pg_voided (th : pg_thread) : io W (result hold_error (option Hold)) :=
  match th with
  | PDone (AVoid _ _ h released None) =>
    _ ← (if released then release_all c (match h with Some h => release_of h | None => [] end) else mret tt); mret (Ok h)
  | PDone (AVoid _ _ _ _ (Some e)) => mret (Err e)
  | _ => mret (Err (ErrStore "unfinished"))
  end.

Definition pg_Void (org id : string) : io W (result hold_error (option Hold)) := th ← pg_alone 5 (PCall (PgVoid org id)); pg_voided th.

Definition pg_lifecycle : budgetLifecycle W := {| bl_Capture := pg_Capture; bl_Void := pg_Void |}.
Definition pg_ttl : duration := if ttl <=? 0 then DefaultHoldTTL else ttl.
Definition pg_reserver : BudgetReserver W := {| Reserve := reserve_with c pg_ttl pg_Place |}.
Definition pg_row (w : W) (org id : string) : option Hold := rows w !! (org, id).

Context (value : W -> string -> Z) (cap : Z) `{!CounterSpec c value cap} `{!CounterBeside c rows clk} `{!Frame value}.
Context (put_clk : forall t w, clk (put t w) = clk w) (put_value : forall t w, value (put t w) = value w).
Context (fate_quiet : forall w, rows (fate w).2 = rows w /\ value (fate w).2 = value w /\ clk w <= clk (fate w).2).
Context (stored_mono : forall a b, a <= b -> stored a <= stored b) (stored_whole : forall d, whole d -> stored d = d).

Lemma pg_statement_run th w : exists f app db w1,
  pg_statement th w = ((pg_exec stored f app db th (rows w)).1, put (pg_exec stored f app db th (rows w)).2 w1) /\
  value w1 = value w /\ clk w <= app <= clk w1.
Proof using Type*.
  unfold pg_statement. rewrite !bind_let, zoom_eq. set (w1 := (now w).2). set (w2 := (fate w1).2).
  destruct (fate_quiet w1) as (Hr & Hv & Hc). fold w2 in Hr, Hv, Hc. exists (fate w1).1, (now w2).1, (now w).1, (now w2).2.
  assert (Hr2 : rows (now w2).2 = rows w) by (unfold w1 in *; by rewrite now_frame, Hr, now_frame). rewrite Hr2. split; [done|].
  split; [unfold w1 in *; by rewrite now_frame, Hv, now_frame|]. pose proof (mono_now (clk:=clk) w). pose proof (mono_now (clk:=clk) w2). unfold w1 in *. lia.
Qed.

Lemma pg_alone_step n th w : pg_alone (S n) th w = match th with PDone _ => (th, w) | _ => pg_alone n (pg_statement th w).1 (pg_statement th w).2 end.
Proof using Type. destruct th; cbn [pg_alone]; rewrite ?bind_let; done. Qed.

Lemma pg_alone_done n a w : pg_alone n (PDone a) w = (PDone a, w).
Proof using Type. by destruct n. Qed.

Lemma pg_alone_frames n th w : value (pg_alone n th w).2 = value w /\ clk w <= clk (pg_alone n th w).2.
Proof using Type*.
  revert th w. induction n as [|n IH]; intros th w; [cbn; by split|]. rewrite pg_alone_step.
  destruct (pg_statement_run th w) as (f & app & db & w1 & Heq & Hv & Hc). rewrite Heq. cbn [fst snd].
  match goal with |- context [pg_alone n ?a ?b] => destruct (IH a b) as [Hv1 Hc1] end. rewrite put_value in Hv1. rewrite put_clk in Hc1.
  destruct th; first [by split | split; [congruence|lia]].
Qed.

Lemma Pg_Get_cases f app org id t h : t !! (org, id) = Some h ->
  Pg_Get f app org id t = Ok (effective app h) \/ exists m, Pg_Get f app org id t = Err (ErrStore m).
Proof using Type. intros Hk. unfold Pg_Get. destruct f; cbn; [|right; by eexists..]. rewrite Hk. by left. Qed.

Lemma on_db_update f s g org id t h : t !! (org, id) = Some h -> h_State h = s ->
  on_db f (update_row s g org id) t = (Ok 1%nat, <[(org, id) := g h]> t) \/ exists m t', on_db f (update_row s g org id) t = (Err (ErrStore m), t').
Proof using Type. intros Hk Hs. destruct f; cbn; [|right; by do 2 eexists..]. unfold update_row. rewrite Hk, bool_decide_true by done. by left. Qed.

(** One more statement of a run. *)
Ltac statement f app w1 :=
  rewrite pg_alone_step;
  match goal with |- context [pg_statement ?th ?w] =>
    let db := fresh "db" in let Heq := fresh "Heq" in let Hv := fresh "Hv" in let Hc := fresh "Hc" in
    destruct (pg_statement_run th w) as (f & app & db & w1 & Heq & Hv & Hc); rewrite Heq; clear Heq; cbn [fst snd pg_exec]
  end.

(** A read of a row that reads as the thread expects, or the end of the call. *)
Lemma capture_runs n org id w h : (3 <= n)%nat -> pg_row w org id = Some h ->
  let '(th, w') := pg_alone n (PCall (PgCapture org id)) w in
  (exists m, th = PDone (ACapture org id (Err (ErrStore m)))) \/
  (h_State h = StateHeld -> clk w' < h_ExpiresAt h ->
     exists t, th = PDone (ACapture org id (Ok (mark_captured t h))) /\ pg_row w' org id = Some (mark_captured t h)) /\
  (h_State h = StateCaptured -> th = PDone (ACapture org id (Ok h)) /\ pg_row w' org id = Some h) /\
  (h_State h = StateVoided -> (exists s op why, th = PDone (ACapture org id (Err (ConflictError s op why)))) /\ pg_row w' org id = Some h).
Proof using Type*.
  intros Hn Hk. unfold pg_row in *. destruct n as [|[|[|n]]]; [lia..|].
  destruct (pg_alone _ _ _) as [th w'] eqn:Er. revert Er. statement f1 app1 w1.
  destruct (Pg_Get_cases f1 app1 org id (rows w) h Hk) as [Hg|[m Hg]]; rewrite Hg.
  2:{ rewrite pg_alone_done. intros [= <- <-]. left. by eexists. }
  destruct (h_State h) eqn:Es.
  2:{ rewrite effective_settled, Es, pg_alone_done by congruence. intros [= <- <-]. rewrite (get_put (get:=rows)). by right. }
  2:{ rewrite effective_settled, Es, pg_alone_done by congruence. intros [= <- <-]. rewrite (get_put (get:=rows)). right. split_and!; [done..|].
      intros _. split; [|done]. do 3 eexists. reflexivity. }
  2-3: by right.
  intros Er. destruct (decide (clk w' < h_ExpiresAt h)) as [Hx|Hx]; [|right; by split_and!].
  match type of Er with pg_alone ?n ?a ?b = _ => pose proof (proj2 (pg_alone_frames n a b)) as Hc1 end. rewrite Er, put_clk in Hc1. cbn [snd] in Hc1.
  rewrite (timely_effective clk app1 w' h), Es in Er by lia. revert Er. statement f2 app2 w2. rewrite (get_put (get:=rows)).
  destruct (on_db_update f2 StateHeld (mark_captured (stored db0)) org id (rows w) h Hk Es) as [Hu|(m & t' & Hu)]; rewrite Hu; cbn [fst snd].
  2:{ rewrite pg_alone_done. intros [= <- <-]. left. by eexists. }
  statement f3 app3 w3. rewrite pg_alone_done, !(get_put (get:=rows)). intros [= <- <-]. rewrite (get_put (get:=rows)), lookup_insert_eq.
  destruct (Pg_Get_cases f3 app3 org id (<[(org, id) := mark_captured (stored db0) h]> (rows w)) _ (lookup_insert_eq _ _ _)) as [Hg3|[m Hg3]]; rewrite Hg3.
  - right. split_and!; [|done..]. intros _ _. exists (stored db0). by rewrite effective_settled.
  - left. by eexists.
Qed.

Lemma void_runs n org id w h : (3 <= n)%nat -> pg_row w org id = Some h ->
  let '(th, w') := pg_alone n (PCall (PgVoid org id)) w in
  (exists m r, th = PDone (AVoid org id None r (Some (ErrStore m)))) \/
  (h_State h = StateHeld -> clk w' < h_ExpiresAt h ->
     exists t, th = PDone (AVoid org id (Some (mark_voided t h)) true None) /\ pg_row w' org id = Some (mark_voided t h)) /\
  (h_State h = StateVoided -> th = PDone (AVoid org id (Some h) false None) /\ pg_row w' org id = Some h) /\
  (h_State h = StateCaptured -> (exists s op why, th = PDone (AVoid org id None false (Some (ConflictError s op why)))) /\ pg_row w' org id = Some h).
Proof using Type*.
  intros Hn Hk. unfold pg_row in *. destruct n as [|[|[|n]]]; [lia..|].
  destruct (pg_alone _ _ _) as [th w'] eqn:Er. revert Er. statement f1 app1 w1.
  destruct (Pg_Get_cases f1 app1 org id (rows w) h Hk) as [Hg|[m Hg]]; rewrite Hg.
  2:{ rewrite pg_alone_done. intros [= <- <-]. left. by do 2 eexists. }
  destruct (h_State h) eqn:Es.
  2:{ rewrite effective_settled, Es, pg_alone_done by congruence. intros [= <- <-]. rewrite (get_put (get:=rows)). right. split_and!; [done..|].
      intros _. split; [|done]. do 3 eexists. reflexivity. }
  2:{ rewrite effective_settled, Es, pg_alone_done by congruence. intros [= <- <-]. rewrite (get_put (get:=rows)). by right. }
  2-3: by right.
  intros Er. destruct (decide (clk w' < h_ExpiresAt h)) as [Hx|Hx]; [|right; by split_and!].
  match type of Er with pg_alone ?n ?a ?b = _ => pose proof (proj2 (pg_alone_frames n a b)) as Hc1 end. rewrite Er, put_clk in Hc1. cbn [snd] in Hc1.
  rewrite (timely_effective clk app1 w' h), Es in Er by lia. revert Er. statement f2 app2 w2. rewrite (get_put (get:=rows)).
  destruct (on_db_update f2 StateHeld (mark_voided (stored db0)) org id (rows w) h Hk Es) as [Hu|(m & t' & Hu)]; rewrite Hu; cbn [fst snd].
  2:{ rewrite pg_alone_done. intros [= <- <-]. left. by do 2 eexists. }
  statement f3 app3 w3. rewrite pg_alone_done, !(get_put (get:=rows)). intros [= <- <-]. rewrite (get_put (get:=rows)), lookup_insert_eq.
  destruct (Pg_Get_cases f3 app3 org id (<[(org, id) := mark_voided (stored db0) h]> (rows w)) _ (lookup_insert_eq _ _ _)) as [Hg3|[m Hg3]]; rewrite Hg3.
  - right. split_and!; [|done..]. intros _ _. exists (stored db0). by rewrite effective_settled.
  - left. by do 2 eexists.
Qed.

Lemma pg_reserve_holds org id req b w :
  parse_rfc3339 (req_EvaluatedAt req) = None -> pg_row w org id = None ->
  let '(res, w') := Reserve pg_reserver org id req b w in
  br_Outcome res = BudgetWithinLimit ->
  exists h, pg_row w' org id = Some h /\ hold_for org id req b h /\ h_State h = StateHeld /\
    forall d, whole d -> d <= clk w + pg_ttl -> d <= h_ExpiresAt h.
Proof using Type*.
  intros Hn Hrow. cbn [Reserve pg_reserver]. destruct (reserve_with _ _ _ _ _ _ _ _) as [res w'] eqn:Er. intros Ho.
  destruct (reserve_with_places _ _ _ _ _ _ _ _ _ _ Hn Er Ho) as (k & a & l & t & s & Hp). cbv zeta in Hp.
  destruct (beside_reserve (c:=c) (ledger:=rows) (clk:=clk) k a l t s (now w).2) as [Hg _]. set (u := (counter_Reserve _ _ _ _ _ _ _).2) in *.
  unfold pg_row in *. assert (Hrow' : rows u !! (org, id) = None) by (by rewrite Hg, now_frame).
  unfold pg_Place in Hp. rewrite bind_let in Hp. cbn [mret io_ret] in Hp. revert Hp. statement f1 app1 w1.
  destruct f1; cbn [on_db]; rewrite ?pg_alone_done; [|done..].
  unfold insert_hold. cbn [h_OrgID h_DecisionID new_hold]. rewrite Hrow'. cbn [fst snd]. intros [= <-].
  rewrite (get_put (get:=rows)), lookup_insert_eq. eexists. split; [done|]. split_and!; try done. intros d Hw Hd. cbn [h_ExpiresAt].
  rewrite <- (stored_whole d Hw). apply stored_mono. unfold Add. pose proof (mono_now (clk:=clk) w). lia.
Qed.

Lemma pg_capture_settles org id w h : pg_row w org id = Some h ->
  let '(r, w') := bl_Capture pg_lifecycle org id w in
  settles StateCaptured StateVoided h (clk w' < h_ExpiresAt h) r (pg_row w' org id) /\ forall k, value w' k = value w k.
Proof using Type*.
  intros Hk. cbn [bl_Capture pg_lifecycle]. unfold pg_Capture. rewrite bind_let. cbn [mret io_ret].
  pose proof (pg_alone_frames 5 (PCall (PgCapture org id)) w) as [Hv _]. pose proof (capture_runs 5 org id w h ltac:(lia) Hk) as Hr.
  destruct (pg_alone 5 _ w) as [th w']. cbn [fst snd] in *. split; [|by rewrite Hv]. unfold settles.
  destruct Hr as [(m & ->)|(Hh & Hf & Ho)]; [left; by exists m|]. right. split_and!.
  - intros Hs Hx. destruct (Hh Hs Hx) as (t & -> & Hr). eexists. by split_and!.
  - intros Hs. by destruct (Hf Hs) as [-> Hr].
  - intros Hs. destruct (Ho Hs) as [(s & op & why & ->) Hr]. split; [|done]. by do 3 eexists.
Qed.

Lemma pg_voided_clk th w : clk w <= clk (pg_voided th w).2.
Proof using CounterBeside0.
  destruct th as [| | | | | | |[| | |org id h released [e|]|]]; cbn [pg_voided mret io_ret snd]; try done. rewrite bind_let. cbn [mret io_ret snd].
  destruct released; [|done]. by destruct (release_all_beside c rows clk (match h with Some h => release_of h | None => [] end) w).
Qed.

Lemma pg_void_settles org id w h : pg_row w org id = Some h -> in_range cap h (value w) ->
  let '(r, w') := bl_Void pg_lifecycle org id w in
  settles StateVoided StateCaptured h (clk w' < h_ExpiresAt h) r (pg_row w' org id) /\
  (h_State h = StateHeld -> clk w' < h_ExpiresAt h -> is_ok r = true -> takes_releases c -> forall k, value w' k = given_back h k (value w k)) /\
  (terminal (h_State h) -> forall k, value w' k = value w k).
Proof using Type*.
  intros Hk Hin. cbn [bl_Void pg_lifecycle]. unfold pg_Void. rewrite bind_let.
  pose proof (pg_alone_frames 5 (PCall (PgVoid org id)) w) as [Hv _]. pose proof (void_runs 5 org id w h ltac:(lia) Hk) as Hr.
  destruct (pg_alone 5 _ w) as [th w']. cbn [fst snd] in *. unfold settles, terminal.
  assert (Hin' : in_range cap h (value w')) by (by rewrite Hv).
  destruct Hr as [(m & r & ->)|(Hh & Hf & Ho)]; [cbn [pg_voided mret io_ret fst snd]; split; [left; by exists m|]; by rewrite Hv|].
  destruct (h_State h) eqn:Es.
  - destruct (decide (clk w' < h_ExpiresAt h)) as [Hx|Hx].
    2:{ pose proof (pg_voided_clk th w'). destruct (pg_voided th w') as [r v]. cbn [fst snd] in *. split_and!; [right; split_and!; [lia|done..] | lia | by intros [?|?]]. }
    destruct (Hh eq_refl Hx) as (t & -> & Hr). cbn [pg_voided]. rewrite bind_let. cbn [mret io_ret fst snd].
    change (release_of (mark_voided t h)) with (release_of h). destruct (release_all_beside c rows clk (release_of h) w') as [Hg2 Hc2].
    unfold pg_row in *. rewrite Hg2. split_and!; [right; split_and!; [|done..] | | by intros [?|?]].
    + intros _ _. eexists. by split_and!.
    + intros _ _ _ Hup k. by rewrite (release_gives_back c value cap), Hv.
  - destruct (Ho eq_refl) as [(s & op & why & ->) Hr]. cbn [pg_voided mret io_ret fst snd]. split_and!; [right; split_and!; [done..|] | done | by rewrite Hv].
    intros _. split; [|done]. by do 3 eexists.
  - destruct (Hf eq_refl) as [-> Hr]. cbn [pg_voided]. rewrite bind_let. cbn [mret io_ret fst snd]. split_and!; [by right | done | by rewrite Hv].
  - destruct (pg_voided th w') as [r v]. split_and!; [by right | done | by intros [?|?]].
  - destruct (pg_voided th w') as [r v]. split_and!; [by right | done | by intros [?|?]].
Qed.

Lemma pg_budget_spec : BudgetSpec pg_reserver pg_lifecycle pg_row value clk pg_ttl cap (takes_releases c).
Proof using Type*. split; [exact pg_reserve_holds | exact pg_capture_settles | exact pg_void_settles]. Qed.
End pg.

(** * From the decision to the settlement *)

Section settle.
Context {W : Type} `{Runtime W} `{Ed25519} `{Jcs} `{BigRat} `{Unicode} `{Sha256} `{RequestDecoder} `{ControlDecoder}.
Context (clk : W -> time) `{!Monotone clk} (R : BudgetReserver W) (bl : budgetLifecycle W) (row : W -> string -> string -> option Hold).
Context (value : W -> string -> Z) (ttl : duration) (cap : Z) (up : Prop) `{!BudgetSpec R bl row value clk ttl cap up}.

(** One row, as a part of the world. *)
Definition row_of (org id : string) (w : W) : option Hold := row w org id.
Context (row_frame : forall org id, Frame (row_of org id)).

Context (e : Engine W) (He : e_Reserver e = Some R) (Httl : holdTTL e = ttl).
Context (Hprov : forall P, e_Provider e = Some P -> forall org u, clk u <= clk (Active P org u).2 /\ forall o i, row (Active P org u).2 o i = row u o i).

Lemma budget_step_reserves orgID req shadow pol decID rs ms w rs' ms' b w' :
  budget_step e orgID req shadow pol decID rs ms w = (rs', ms', Some b, w') ->
  exists res, Reserve R orgID decID req b w = (res, w') /\ br_Outcome res = BudgetWithinLimit.
Proof using He.
  unfold budget_step. destruct (_ && _); [|done]. destruct (applicableBudget pol _) as [b'|]; [|done]. rewrite He, bind_let.
  destruct (Reserve R orgID decID req b' w) as [res w1] eqn:Er. cbn [fst snd mret io_ret].
  destruct (bool_decide_reflect (br_Outcome res = BudgetWithinLimit)); [|done]. intros [= _ _ <- <-]. by exists res.
Qed.

Lemma resolve_quiet orgID w : clk w <= clk (resolve_policy e orgID w).2 /\ forall o i, row (resolve_policy e orgID w).2 o i = row w o i.
Proof using Hprov.
  unfold resolve_policy. destruct (e_Provider e) as [P|] eqn:E; [|cbn; split; [lia|done]]. rewrite bind_let. cbn [snd mret io_ret]. by apply Hprov.
Qed.

Lemma row_now w org id : row (now w).2 org id = row w org id.
Proof using row_frame. exact (now_frame (view:=row_of org id) w). Qed.
Lemma row_ulid w org id : row (ulid_New w).2 org id = row w org id.
Proof using row_frame. exact (ulid_New_frame (view:=row_of org id) w). Qed.

(** The run that ends with an obligation: the reservation it made, and the
    deadline it stated. *)
Lemma obligation_reserved orgID req shadow w d w' o :
  req_EvaluatedAt req = "" -> in_calendar (now w).1 -> Authorize e orgID req shadow w = (Ok d, w') -> o ∈ dec_Obligations d ->
  exists b u res v, Reserve R orgID (dec_DecisionID d) req b u = (res, v) /\ br_Outcome res = BudgetWithinLimit /\
    (now w).1 <= clk u /\ (forall org id, row u org id = row w org id) /\ (forall org id, row w' org id = row v org id) /\
    o = capture_obligation (holdTTL e) b req (of_unix (Unix (now w).1)) (dec_DecisionID d).
Proof using Type*.
  intros Hreq Hcal. unfold Authorize. rewrite !bind_let. set (start := (now w).1) in *.
  destruct (resolve_quiet orgID (now w).2) as [Hm1 Hr1]. pose proof (mono_now (clk:=clk) w) as Hm0.
  destruct (resolve_policy e orgID (now w).2) as [[pol|er] w2] eqn:Er; cbn [fst snd] in *; [|done].
  rewrite bind_let. pose proof (ulid_mono clk w2) as Hm2. set (decID := (ulid_New w2).1). destruct (evalLocal _ _) as [rs ms]. rewrite bind_let.
  destruct (budget_step _ _ _ _ _ _ _ _ _) as [[[rs' ms'] held] w3] eqn:Eb. cbn [fst snd]. rewrite bind_let.
  destruct held as [b|].
  2:{ cbn [fst snd mret io_ret]. intros Hs Ho. apply seal_ok in Hs as (_ & _ & _ & _ & Hobs & _). rewrite Hobs in Ho. by apply not_elem_of_nil in Ho. }
  rewrite bind_let. cbn [fst snd mret io_ret]. unfold captureWithinObligation. rewrite bind_let. cbn [fst snd mret io_ret].
  intros Hs Ho. apply seal_ok in Hs as (Hid & _ & _ & _ & Hobs & _ & _ & Hw'). rewrite Hobs in Ho. cbn in Ho. apply list_elem_of_singleton in Ho as ->.
  apply budget_step_reserves in Eb as (res & Hres & Hout).
  exists b, (ulid_New w2).2, res, w3. rewrite Hid. cbn [dec_DecisionID set_Obligations set_Shadow assembleDecision]. fold decID.
  split; [done|]. split; [done|]. split; [lia|]. split; [|split].
  - intros org id. by rewrite row_ulid, Hr1, row_now.
  - intros org id. rewrite Hw'. unfold millis_since. rewrite bind_let. cbn [snd mret io_ret]. by rewrite !row_now.
  - unfold stamped_at. rewrite Hreq. cbn [String.eqb]. rewrite parse_format_rfc3339 by done. done.
Qed.

Context (s : Server W) (Hs : s_authz s = Authorize e) (Hb : s_budget s = Some bl) `{!Frame value}.
Context (Hq : forall org id, quiet_gate (row_of org id) s) (Hqv : quiet_gate value s).
Context (Hlk : forall org id, quiet_lookup (row_of org id) s) (Hsv : forall org id, quiet_save (row_of org id) s)
        (Hmt : forall org id, quiet_metrics (row_of org id) s) (Had : forall org id, quiet_audit (row_of org id) s).
Context (Hgate : forall r p w w', passes_gate s r p w w' -> clk w <= clk w') (Hidem : forall st, s_idem s = Some st -> forall org k w, clk w <= clk (idem_Lookup st org k w).2).

(** The reading of the clock that an evaluation starts with, and the deadline
    counted from it, have years of four digits. *)
Definition dated (c : ctx) (p : Principal) (req : AuthorizeRequest) (v : W) : Prop :=
  let t := (now (idempotentReplay s (authed c p) (clear_EvaluatedAt req) v).2).1 in in_calendar t /\ in_calendar (Add (of_unix (Unix t)) ttl).

(** A request of the organisation for the hold of a decision, past the gate. *)
Definition settlement (org id : string) (r : http_request) (w : W) : Prop :=
  rq_Method r = "POST" /\ rq_ID r = id /\ reULID id = true /\ exists p w1, passes_gate s r p w w1 /\ pr_OrgID p = org.

(** Answered with the hold in a state, or with a conflict; or the store failed,
    and then the caller is told so. *)
Definition told (st : State) (h : Hold) (org id : string) (x : response) (w : W) : Prop :=
  resp_Status x = 503 \/ exists h', same_terms h h' /\ h_State h' = st /\ row w org id = Some h' /\ x = writeJSON 200 (PHold (toHoldResponse h')).
Definition conflicted (h : Hold) (org id : string) (x : response) (w : W) : Prop :=
  resp_Status x = 503 \/ resp_Status x = 409 /\ row w org id = Some h.

(** What a settlement that leads to [fin] does with a hold: if it is over before
    the hold expires; if the hold has been settled this way; or the other way. *)
Definition settlement_does (fin other : State) (h : Hold) (org id : string) (ox : option response) (w' : W) : Prop :=
  (h_State h = StateHeld -> clk w' < h_ExpiresAt h -> exists x, ox = Some x /\ told fin h org id x w') /\
  (h_State h = fin -> exists x, ox = Some x /\ told fin h org id x w') /\
  (h_State h = other -> exists x, ox = Some x /\ conflicted h org id x w').

Lemma transition_eq fn c r p w : reULID (rq_ID r) = true ->
  transitionHold s fn (authed c p) r w =
  (match (fn bl (pr_OrgID p) (rq_ID r) w).1 with
   | Err er => Some (writeHoldError (authed c p) r er)
   | Ok (Some h) => Some (writeJSON 200 (PHold (toHoldResponse h)))
   | Ok None => None
   end, (fn bl (pr_OrgID p) (rq_ID r) w).2).
Proof using Hb. intros Hu. unfold transitionHold. rewrite Hb. cbn [principalOf authed ctx_Principal]. rewrite Hu. cbn [negb]. by rewrite bind_let. Qed.

Lemma settles_does fin other h timely c r org id (x : result hold_error (option Hold)) w' :
  settles fin other h timely x (row w' org id) -> (clk w' < h_ExpiresAt h -> timely) ->
  settlement_does fin other h org id
    match x with Err er => Some (writeHoldError c r er) | Ok (Some h) => Some (writeJSON 200 (PHold (toHoldResponse h))) | Ok None => None end w'.
Proof using Type.
  intros [(m & ->)|(Hh & Hf & Ho)] Ht; unfold settlement_does, told, conflicted; [split_and!; intros; eexists; (split; [reflexivity|]); by left|]. split_and!.
  - intros Hst Hx. destruct (Hh Hst (Ht Hx)) as (h' & -> & H1' & H2' & H3'). eexists. split; [done|]. right. by exists h'.
  - intros Hst. destruct (Hf Hst) as [-> Hr]. eexists. split; [done|]. right. by exists h.
  - intros Hst. destruct (Ho Hst) as [(a & b & why & ->) Hr]. eexists. split; [done|]. by right.
Qed.

Lemma settlement_route ep (fn : budgetLifecycle W -> string -> string -> io W (result hold_error (option Hold))) c r org id w :
  (ep = EpCapture /\ fn = bl_Capture) \/ (ep = EpVoid /\ fn = bl_Void) -> settlement org id r w ->
  exists p w1, passes_gate s r p w w1 /\ (forall o i, row w1 o i = row w o i) /\ value w1 = value w /\
    route s ep c r w =
    (match (fn bl org id w1).1 with
     | Err er => Some (writeHoldError (authed c p) r er)
     | Ok (Some h) => Some (writeJSON 200 (PHold (toHoldResponse h)))
     | Ok None => None
     end, (fn bl org id w1).2).
Proof using Type*.
  intros Hep (Hm & Hid & Hu & p & w1 & Hp & Horg). exists p, w1. split; [done|].
  split; [intros o i; exact (passes_frame (row_of o i) s r p w w1 (Hq o i) Hp)|]. split; [exact (passes_frame value s r p w w1 Hqv Hp)|].
  destruct Hep as [[-> ->]|[-> ->]]; unfold route; cbn [mounted negb]; unfold capture_endpoint, void_endpoint, method; rewrite Hm, String.eqb_refl; cbn [negb];
    rewrite (passes_protected _ _ _ _ _ _ _ Hp); unfold handleCapture, handleVoid; rewrite transition_eq by (by rewrite Hid); by rewrite Horg, Hid.
Qed.

Lemma capture_does c r org id w h : settlement org id r w -> row w org id = Some h ->
  let '(ox, w') := route s EpCapture c r w in settlement_does StateCaptured StateVoided h org id ox w' /\ forall k, value w' k = value w k.
Proof using Type*.
  intros Hst Hk. destruct (settlement_route EpCapture bl_Capture c r org id w ltac:(by left) Hst) as (p & w1 & _ & Hr & Hv & ->).
  pose proof (capture_settles (BudgetSpec:=BudgetSpec0) org id w1 h) as Hc. rewrite Hr in Hc. specialize (Hc Hk).
  destruct (bl_Capture bl org id w1) as [x w']. cbn [fst snd]. destruct Hc as [Hc Hval]. split; [by eapply settles_does|]. intros k. by rewrite Hval, Hv.
Qed.

Lemma void_does c r org id w h : settlement org id r w -> row w org id = Some h -> in_range cap h (value w) ->
  let '(ox, w') := route s EpVoid c r w in
  settlement_does StateVoided StateCaptured h org id ox w' /\
  (h_State h = StateHeld -> clk w' < h_ExpiresAt h -> up -> forall x, ox = Some x -> resp_Status x = 200 -> forall k, value w' k = given_back h k (value w k)) /\
  (terminal (h_State h) -> forall k, value w' k = value w k).
Proof using Type*.
  intros Hst Hk Hin. destruct (settlement_route EpVoid bl_Void c r org id w ltac:(by right) Hst) as (p & w1 & _ & Hr & Hv & ->).
  pose proof (void_settles (BudgetSpec:=BudgetSpec0) org id w1 h) as Hc. rewrite Hr, Hv in Hc. specialize (Hc Hk Hin).
  destruct (bl_Void bl org id w1) as [x w']. cbn [fst snd]. destruct Hc as (Hc & Hback & Hterm). split_and!; [by eapply settles_does| |done].
  intros Hheld Hx Hup y Hy Hok k. apply Hback; try done. destruct x as [|er]; [done|]. injection Hy as <-. by destruct er.
Qed.

(** The hold a fresh decision left, and the deadline its obligation states. *)
Lemma decision_leaves_hold c r w x w1 d p req v o :
  authorize_endpoint s c r w = (Some x, w1) -> resp_Body x = PDecision d -> resp_Header x !! "X-Idempotent-Replay" = None ->
  accepted s r p req w v -> dated c p req v -> o ∈ dec_Obligations d -> row w (pr_OrgID p) (dec_DecisionID d) = None ->
  exists h text deadline b, row w1 (pr_OrgID p) (dec_DecisionID d) = Some h /\ h_State h = StateHeld /\
    hold_for (pr_OrgID p) (dec_DecisionID d) (clear_EvaluatedAt req) b h /\
    ob_Params o !! "hold_ref" = Some (JStr (dec_DecisionID d)) /\ ob_Params o !! "expires_at" = Some (JStr text) /\ parse_rfc3339 text = Some deadline /\
    clk w + ttl - 2 * Second < deadline /\ deadline <= h_ExpiresAt h.
Proof using Type*.
  intros Hrun Hd Hfresh Hacc Hcal Ho Hnew.
  destruct (authorize_endpoint_run _ _ _ _ _ _ Hrun) as [x w' pb Hx Hv|p0 req0 st v0 d0 w' _ _ _|p0 req0 v0 w2 x w' Hacc0 Er Ef].
  - by rewrite Hx in Hd.
  - unfold replay_response in Hfresh. by erewrite with_header_keeps in Hfresh by (apply with_header_lookup; vm_compute; reflexivity).
  - destruct (accepted_fun _ _ _ _ _ _ _ _ _ Hacc Hacc0) as (<- & <- & <-). destruct Hacc as (_ & Hp & _).
    destruct (fresh_response s _ (authed c p) r p w2 x w' d eq_refl Ef Hd) as (w3 & Ha & _ & ->). rewrite Hs in Ha.
    unfold dated in Hcal. rewrite Er in Hcal. cbn [snd] in Hcal. destruct Hcal as [Hc1 Hc2]. destruct (obligation_reserved _ (clear_EvaluatedAt req) _ _ _ _ _ eq_refl Hc1 Ha Ho) as (b & u & res & z & Hres & Hout & Hu & Hru & Hrz & ->).
    assert (Hrow2 : forall o i, row w2 o i = row w o i).
    { intros o i. rewrite <- (passes_frame (row_of o i) s r p w v (Hq o i) Hp : row v o i = row w o i).
      pose proof (idempotentReplay_frame (row_of o i) s (authed c p) (clear_EvaluatedAt req) v (Hlk o i)) as Hi. by rewrite Er in Hi. }
    assert (Hclk : clk w <= clk w2).
    { pose proof (Hgate _ _ _ _ Hp). enough (clk v <= clk w2) by lia. change w2 with (@None Contracts.Decision, w2).2. rewrite <- Er. unfold idempotentReplay.
      destruct (s_idem s) as [st|] eqn:Es; [|done]. destruct (String.eqb _ _); [done|]. cbn [principalOf authed ctx_Principal]. rewrite bind_let. by apply Hidem. }
    pose proof (mono_now (clk:=clk) w2) as Hm. set (T := Add (of_unix (Unix (now w2).1)) (holdTTL e)) in *.
    pose proof (reserve_holds (BudgetSpec:=BudgetSpec0) (pr_OrgID p) (dec_DecisionID d) (clear_EvaluatedAt req) b u eq_refl) as Hh.
    rewrite Hru, Hrow2, Hres in Hh. destruct (Hh Hnew Hout) as (h & Hk & Hfor & Hst & Hdl).
    exists h, (format_rfc3339 T), (Unix T * nanos), b.
    split. { rewrite <- Hk, <- Hrz. pose proof (fun v => enqueueAudit_frame (row_of (pr_OrgID p) (dec_DecisionID d)) s (authed c p) (clear_EvaluatedAt req) d v (Had _ _)) as Ha1.
      unfold row_of in Ha1. rewrite Ha1.
      pose proof (fun v => record_decision_frame (row_of (pr_OrgID p) (dec_DecisionID d)) s d v (Hmt _ _)) as Ha2. unfold row_of in Ha2. rewrite Ha2.
      exact (saveIdempotent_frame (row_of (pr_OrgID p) (dec_DecisionID d)) s _ _ _ _ (Hsv _ _)). }
    split; [done|]. split; [done|]. split; [reflexivity|]. split; [reflexivity|].
    split; [apply parse_format_rfc3339; unfold T; by rewrite Httl|].
    assert (HT : clk w + ttl - 2 * Second < Unix T * nanos /\ Unix T * nanos <= clk u + ttl).
    { unfold T, Add, of_unix, Unix, Second, nanos in *. rewrite Httl. zlia. }
    split; [by apply HT|]. apply Hdl; [by exists (Unix T)|by apply HT].
Qed.

(** C11: An approved payment can be settled.  When [/v1/authorize] has freshly
    answered with an obligation, the hold of that decision is in the ledger, for
    the organisation and the amount, and the obligation names it and a deadline
    less than two seconds short of the hold's lifetime.  While nothing else
    settles the hold, and unless the store fails (which is a 503): a capture
    answered by the deadline is answered with the captured hold and leaves the
    counters alone; a void answered by the deadline is answered with the voided
    hold, and gives the amount back to its counter if that takes the release.
    Once settled either way, the same request again is answered with the same
    state, the other one with a conflict, at any time, and nothing changes. *)
Theorem approved_payment_settles c r w x w1 d p req v o
  (Hrun : authorize_endpoint s c r w = (Some x, w1)) (Hd : resp_Body x = PDecision d) (Hfresh : resp_Header x !! "X-Idempotent-Replay" = None)
  (Hacc : accepted s r p req w v) (Hcal : dated c p req v) (Ho : o ∈ dec_Obligations d)
  (Hnew : row w (pr_OrgID p) (dec_DecisionID d) = None) :
  let org := pr_OrgID p in let id := dec_DecisionID d in
  exists h text deadline,
    row w1 org id = Some h /\ h_State h = StateHeld /\ h_DecisionID h = id /\ h_OrgID h = org /\ h_Amount h = req_Amount req /\ h_Currency h = req_Currency req /\
    ob_Params o !! "hold_ref" = Some (JStr id) /\ ob_Params o !! "expires_at" = Some (JStr text) /\ parse_rfc3339 text = Some deadline /\
    clk w + ttl - 2 * Second < deadline /\
    (forall c2 r2 w2, settlement org id r2 w2 -> row w2 org id = Some h ->
       (let '(ox, w3) := route s EpCapture c2 r2 w2 in
        (clk w3 < deadline -> exists y, ox = Some y /\ told StateCaptured h org id y w3) /\ forall k, value w3 k = value w2 k) /\
       (let '(ox, w3) := route s EpVoid c2 r2 w2 in
        clk w3 < deadline -> in_range cap h (value w2) ->
        exists y, ox = Some y /\ told StateVoided h org id y w3 /\ (up -> resp_Status y = 200 -> forall k, value w3 k = given_back h k (value w2 k)))) /\
    (forall c2 r2 w2 h', settlement org id r2 w2 -> row w2 org id = Some h' -> terminal (h_State h') -> in_range cap h' (value w2) ->
       (let '(ox, w3) := route s EpCapture c2 r2 w2 in
        (exists y, ox = Some y /\ if bool_decide (h_State h' = StateCaptured) then told StateCaptured h' org id y w3 else conflicted h' org id y w3) /\
        forall k, value w3 k = value w2 k) /\
       (let '(ox, w3) := route s EpVoid c2 r2 w2 in
        (exists y, ox = Some y /\ if bool_decide (h_State h' = StateVoided) then told StateVoided h' org id y w3 else conflicted h' org id y w3) /\
        forall k, value w3 k = value w2 k)).
Proof using Type*.
  cbv zeta. destruct (decision_leaves_hold _ _ _ _ _ _ _ _ _ _ Hrun Hd Hfresh Hacc Hcal Ho Hnew) as (h & text & deadline & b & Hk & Hst & Hfor & Href & Hexp & Hparse & Hlate & Hdl).
  destruct Hfor as (Hid & Horg & _ & Ham & Hcur).
  exists h, text, deadline. do 10 (split; [done|]). split.
  - intros c2 r2 w2 Hset Hrow. split.
    + pose proof (capture_does c2 r2 _ _ w2 h Hset Hrow) as Hc. destruct (route _ _ _ _ _) as [ox w3]. destruct Hc as [Hc Hv].
      split; [|done]. intros Hin. apply (proj1 Hc Hst); lia.
    + destruct (route s EpVoid c2 r2 w2) as [ox w3] eqn:Ev. intros Hin Hrange. pose proof (void_does c2 r2 _ _ w2 h Hset Hrow Hrange) as Hc. rewrite Ev in Hc.
      destruct Hc as (Hc & Hback & _). destruct (proj1 Hc Hst ltac:(lia)) as (y & -> & Hy). exists y. split_and!; [done..|].
      intros Hup Hok. by apply (Hback Hst ltac:(lia) Hup y).
  - intros c2 r2 w2 h' Hset Hrow Hterm Hrange. split.
    + pose proof (capture_does c2 r2 _ _ w2 h' Hset Hrow) as Hc. destruct (route _ _ _ _ _) as [ox w3]. destruct Hc as [(_ & Hf & Hcf) Hv].
      split; [|done]. destruct Hterm as [E|E]; rewrite E; [by apply Hf|by apply Hcf].
    + pose proof (void_does c2 r2 _ _ w2 h' Hset Hrow Hrange) as Hc. destruct (route _ _ _ _ _) as [ox w3]. destruct Hc as ((_ & Hf & Hcf) & _ & Hv).
      split; [|by apply Hv]. destruct Hterm as [E|E]; rewrite E; [by apply Hcf|by apply Hf].
Qed.
End settle.
