(* ===== verification/ServerCtlProps.v ===== *)
(** What the control plane guarantees: keys change only for their organisation
    or with the platform token, an issued secret works, a revoked key is refused
    from the answer on, and an activated version is the one served. *)

From S2P Require Import Prelude GoStrings GoTime Money Predicates Signing Policyctl PolicyctlProps BundleProv ControlTypes Runtime RedisKv Auth AuthProps AuthRedis KeyStores Contracts Server ServerCtl ServerProps.

Lemma NewKey_frame `{Frame W V view} `{Sha256} env org tier w : view (NewKey env org tier w).2 = view w.
Proof.
  unfold NewKey. destruct (String.eqb env EnvTest); [|destruct (String.eqb env EnvLive); [|done]]; rewrite bind_let; apply rand_frame.
Qed.

(** * Key administration *)

Section keys.
Context {W : Type} `{Runtime W} `{Sha256Laws} `{Jcs} `{RequestDecoder} `{ControlDecoder}.
Context (admin : KeyAdmin W) (view : W -> gmap string KeyRecord) (stamp : time -> time) `{!KeyAdminSpec admin view stamp} `{!Frame view}.
Context (s : Server W) (Hadmin : c_keyAdmin (s_control s) = Some admin) (Hquiet : quiet_gate view s).

(** The platform token was presented. *)
Definition provisioned (r : http_request) : Prop :=
  c_provisionToken (s_control s) <> "" /\ Header_Get (rq_Header r) "X-Provision-Token" = c_provisionToken (s_control s).

(** A key was minted: what was stored, and what was sent. *)
Definition minted (org : string) (w : W) (x : response) (w' : W) : Prop :=
  exists env tier shadow g w0 w1 t wc,
    NewKey env org tier w0 = (Ok g, w1) /\ view wc = view w /\
    let rec := with_Shadow shadow (gk_Record g) in
    ka_CreateKey admin rec t wc = (Ok tt, w') /\
    resp_Body x = PControl (PCreatedKey
      (viewOf {| ki_KeyID := KeyID rec; ki_OrgID := org; ki_Tier := tier; ki_Env := Env rec; ki_Status := Status rec;
                 ki_Shadow := Shadow rec; ki_CreatedAt := t; ki_RevokedAt := None |}) (gk_Plaintext g)).

(** A key was revoked. *)
Definition revoked (org id : string) (w : W) (x : response) (w' : W) : Prop :=
  exists info, dropped org id w w' view /\ ki_Status info = StatusRevoked /\ (forall rec, view w !! id = Some rec -> ki_KeyID info = KeyID rec) /\
    resp_Body x = PControl (PKey (viewOf info)).

(** No secret is sent and no revocation is reported. *)
Definition silent_answer (x : response) : Prop := match resp_Body x with PControl (PCreatedKey _ _) | PControl (PKey _) => False | _ => True end.

(** Neither, and the keys stay; or the store failed after it had acted. *)
Definition keys_kept (w : W) (x : response) (w' : W) : Prop := view w' = view w /\ silent_answer x.
Definition create_failed (org : string) (w : W) (x : response) (w' : W) : Prop := added org w w' view /\ silent_answer x.
Definition revoke_failed (org id : string) (w : W) (x : response) (w' : W) : Prop := dropped org id w w' view /\ silent_answer x.

(** What became of the request to mint a key. *)
Definition mint_outcome (org : string) (w : W) (x : response) (w' : W) : Prop := minted org w x w' \/ create_failed org w x w' \/ keys_kept w x w'.

Lemma new_record_shape env org tier shadow g w0 w1 : NewKey env org tier w0 = (Ok g, w1) ->
  let rec := with_Shadow shadow (gk_Record g) in Auth.OrgID rec = org /\ Tier rec = tier /\ Status rec = StatusActive.
Proof using Type. intros Hg. destruct (NewKey_ok _ _ _ _ _ _ Hg) as (_ & _ & _ & _ & Hst & Hpr). injection Hpr as Ho Ht _ _. by split_and!. Qed.

Lemma mint_key_cases title detail env org tier shadow c r w x w' : mint_key admin title detail env org tier shadow c r w = (Some x, w') -> mint_outcome org w x w'.
Proof using All.
  unfold mint_key, mint_outcome, keys_kept, create_failed, silent_answer. destruct (_ && _); [intros [= <- <-]; by right; right|]. cbv zeta. set (tr := if String.eqb tier "" then _ else tier).
  rewrite bind_let. pose proof (NewKey_frame (view:=view) env org tr w) as Hf. destruct (NewKey env org tr w) as [[g|e] w1] eqn:Eg; cbn [fst snd] in *.
  2:{ intros [= <- <-]. by right; right. }
  rewrite !bind_let. pose proof (now_frame (view:=view) w1) as Hn. pose proof (admin_create (with_Shadow shadow (gk_Record g)) (now w1).1 (now w1).2) as Hc.
  destruct (ka_CreateKey admin _ _ _) as [[[]|e] w2] eqn:Ec; cbn [fst snd mret io_ret]; intros [= <- <-].
  - left. exists env, tr, shadow, g, w, w1, (now w1).1, (now w1).2. cbv zeta. rewrite Hn, Hf. by split_and!.
  - right. rewrite Hn, Hf in Hc. destruct (new_record_shape _ _ _ shadow _ _ _ Eg) as (Ho & _ & Hst). cbv zeta in *.
    destruct Hc as [Hc|[Hc1 Hc2]]; [by right|left]. split; [|done]. by exists (with_Shadow shadow (gk_Record g)).
Qed.

Lemma with_body_cases {A} (dec : option string -> bool -> result body_error A) (k : A -> handler W) (P : response -> W -> Prop) c r w x w' :
  with_body dec k c r w = (Some x, w') -> (forall x, (exists pb, resp_Body x = PProblem pb) -> P x w) ->
  (forall v, k v c r w = (Some x, w') -> P x w') -> P x w'.
Proof using Type.
  unfold with_body. intros E Hp Hk. destruct (decodePolicyBody dec c r) as [v|y] eqn:Ed; [by eapply Hk|]. injection E as <- <-. apply Hp.
  unfold decodePolicyBody in Ed. destruct (match rq_Body r with Some _ => _ | None => _ end) as [|[|]]; [done|injection Ed as <-; by eexists..].
Qed.

Lemma problem_kept x w : (exists pb, resp_Body x = PProblem pb) -> keys_kept w x w.
Proof using Type. intros [pb E]. split; [done|]. unfold silent_answer. by rewrite E. Qed.

Lemma handleKeys_cases p c r w x w' : principalOf c = Some p -> handleKeys s c r w = (Some x, w') -> mint_outcome (pr_OrgID p) w x w'.
Proof using All.
  intros Hc. unfold handleKeys, keyAdminReady. rewrite Hadmin. destruct (String.eqb _ "GET").
  { unfold handleListKeys, with_org. rewrite Hc, bind_let. pose proof (admin_list (pr_OrgID p) w) as Hl. destruct (ka_ListKeys admin _ w) as [[l|e] w1]; cbn [fst snd mret io_ret] in *;
      intros [= <- <-]; by right; right. }
  destruct (String.eqb _ "POST"); [|intros [= <- <-]; by right; right].
  unfold handleCreateKey, with_org. rewrite Hc. intros E. eapply (with_body_cases _ _ (fun x w' => mint_outcome (pr_OrgID p) w x w') _ _ _ _ _ E).
  - intros y Hy. right; right. by apply problem_kept.
  - intros v. apply mint_key_cases.
Qed.

Context (Hevict : forall f id w, c_keyCacheInvalidate (s_control s) = Some f -> view (f id w).2 = view w).

Lemma evict_frame id w : view (evict_key s id w).2 = view w.
Proof using Hevict.
  unfold evict_key. destruct (c_keyCacheInvalidate (s_control s)) as [f|] eqn:Ef; [|done]. rewrite bind_let. cbn. by apply Hevict.
Qed.

Lemma handleRevokeKey_cases p c r w x w' :
  principalOf c = Some p -> handleRevokeKey s c r w = (Some x, w') ->
  revoked (pr_OrgID p) (rq_ID r) w x w' \/ revoke_failed (pr_OrgID p) (rq_ID r) w x w' \/ keys_kept w x w'.
Proof using All.
  intros Hc. unfold handleRevokeKey, keyAdminReady, with_org. rewrite Hadmin, Hc, !bind_let. pose proof (now_frame (view:=view) w) as Hn.
  pose proof (admin_revoke (pr_OrgID p) (rq_ID r) (now w).1 (now w).2) as Hr. unfold dropped in Hr. rewrite Hn in Hr. fold (dropped (pr_OrgID p) (rq_ID r) w) in Hr.
  unfold revoked, revoke_failed, keys_kept, dropped. destruct (ka_RevokeKey admin _ _ _ _) as [[info|e] w1]; cbn [fst snd].
  - rewrite bind_let. pose proof (evict_frame (rq_ID r) w1) as He. cbn [fst snd mret io_ret]. intros [= <- <-]. left. exists info. rewrite He. destruct Hr as (Hd & Hst & Hi). by split_and!.
  - right. assert (Eq : w' = w1 /\ silent_answer x) by (destruct e; match goal with Q : mret _ w1 = _ |- _ => by injection Q as <- <- end). destruct Eq as [-> Hsil]. destruct Hr as [Hr|Hr]; [by right|by left].
Qed.

Lemma handleProvisionKey_cases c r w x w' :
  handleProvisionKey s c r w = (Some x, w') -> (provisioned r /\ exists org, org <> "" /\ mint_outcome org w x w') \/ keys_kept w x w'.
Proof using All.
  unfold handleProvisionKey. destruct (String.eqb (c_provisionToken (s_control s)) "" || _) eqn:Et; [intros [= <- <-]; by right|].
  apply orb_false_iff in Et as [Et1 Et2]. apply String.eqb_neq in Et1. apply negb_false_iff, String.eqb_eq in Et2. rewrite Hadmin. intros E.
  eapply (with_body_cases _ _ (fun x w' => (provisioned r /\ exists org, org <> "" /\ mint_outcome org w x w') \/ keys_kept w x w') _ _ _ _ _ E).
  - intros y Hy. right. by apply problem_kept.
  - intros v. destruct (String.eqb_spec (pk_OrgID v) "") as [Ho|Ho]; [intros [= <- <-]; by right|]. intros Em.
    apply mint_key_cases in Em. left. split; [done|]. by exists (pk_OrgID v).
Qed.

(** The gate leaves the keys alone. *)
Lemma protected_cases h c r w x w' :
  protected s h c r w = (Some x, w') ->
  (exists p w1, passes_gate s r p w w1 /\ view w1 = view w /\ h (authed c p) r w1 = (Some x, w')) \/ keys_kept w x w'.
Proof using All.
  destruct (gate_cases s c r w) as [(p & w1 & Hp)|(y & w1 & Hs & _ & (pb & Hb) & Hv)].
  - rewrite (passes_protected _ _ _ _ _ _ _ Hp). left. exists p, w1. split_and!; [done | by eapply passes_frame | done].
  - rewrite Hs. intros [= <- <-]. right. split; [by apply Hv|]. unfold silent_answer. by rewrite Hb.
Qed.

Lemma method_cases m h c r w x w' : method m h c r w = (Some x, w') -> h c r w = (Some x, w') \/ keys_kept w x w'.
Proof using Type. unfold method. destruct (negb _); [|by left]. intros [= <- <-]. by right. Qed.

Definition key_endpoint (e : endpoint) : Prop := e = EpKeys \/ e = EpRevoke \/ e = EpProvision.

Lemma mint_outcome_view org w w1 x w' : view w1 = view w -> mint_outcome org w1 x w' -> mint_outcome org w x w'.
Proof using Type. unfold mint_outcome, minted, create_failed, added, keys_kept. by intros ->. Qed.

(** The ways a request to a key endpoint goes. *)
Lemma key_request_cases e c r w x w' :
  key_endpoint e -> route s e c r w = (Some x, w') ->
  (exists p w1, passes_gate s r p w w1 /\
     ((e = EpKeys /\ (minted (pr_OrgID p) w x w' \/ create_failed (pr_OrgID p) w x w')) \/
      (e = EpRevoke /\ (revoked (pr_OrgID p) (rq_ID r) w x w' \/ revoke_failed (pr_OrgID p) (rq_ID r) w x w')))) \/
  (e = EpProvision /\ provisioned r /\ exists org, org <> "" /\ (minted org w x w' \/ create_failed org w x w')) \/ keys_kept w x w'.
Proof using All.
  intros He. unfold route. destruct (mounted s e); cbn [negb]; [|intros [= <- <-]; by right; right].
  destruct He as [-> |[-> | ->]]; intros E.
  - apply protected_cases in E as [(p & w1 & Hp & Hf & E)|E]; [|by right; right].
    apply (handleKeys_cases p) in E; [|done]. apply (mint_outcome_view _ w) in E; [|done]. destruct E as [E|[E|E]]; [left|left|by right; right]; exists p, w1; (split; [done|]); left; auto.
  - apply method_cases in E as [E|E]; [|by right; right].
    apply protected_cases in E as [(p & w1 & Hp & Hf & E)|E]; [|by right; right].
    apply (handleRevokeKey_cases p) in E; [|done]. unfold revoked, revoke_failed, dropped, keys_kept in *. rewrite Hf in E.
    destruct E as [E|[E|E]]; [left|left|by right; right]; exists p, w1; (split; [done|]); right; auto.
  - apply method_cases in E as [E|E]; [|by right; right]. apply handleProvisionKey_cases in E as [[Hp (org & Ho & [Hm|[Hm|Hm]])]|Hk]; [right; left..|by right; right|by right; right];
      (split; [done|]); (split; [done|]); exists org; auto.
Qed.

(** Minting adds a key of the organisation, answered or not. *)
Lemma minted_adds org w x w' : minted org w x w' \/ create_failed org w x w' ->
  exists rec, Auth.OrgID rec = org /\ Status rec = StatusActive /\ view w' = <[KeyID rec := rec]> (view w).
Proof using KeyAdminSpec0.
  intros [(env & tier & sh & g & w0 & w1 & t & wc & Hg & Hv & Hc & _)|[(rec & Ho & Hst & _ & Hv) _]]; [|by exists rec].
  destruct (new_record_shape _ _ _ sh _ _ _ Hg) as (Ho & _ & Hst). exists (with_Shadow sh (gk_Record g)). split; [done|]. split; [done|].
  pose proof (admin_create (with_Shadow sh (gk_Record g)) t wc) as Ha. rewrite Hc, Hv in Ha. exact Ha.
Qed.

Lemma revoked_drops org id w x w' : revoked org id w x w' \/ revoke_failed org id w x w' -> dropped org id w w' view.
Proof using Type. by intros [(info & Hd & _)|[Hd _]]. Qed.


(** C18: An issued secret works.  If a request to a key endpoint is answered with
    a secret, the caller passed the gate as the organisation the answer names or
    presented the platform token; exactly one record was added, active; a
    listing of the organisation shows the key as it was answered, with the
    creation time the store keeps; and while the record is stored, every request
    its holder signs with the secret authenticates, whenever the store answers,
    as the principal the answer describes. *)
Theorem issued_key_authenticates e c r w x w' v secret (He : key_endpoint e) (E : route s e c r w = (Some x, w'))
  (Hx : resp_Body x = PControl (PCreatedKey v secret)) :
  ((exists p w1, passes_gate s r p w w1 /\ pr_OrgID p = kv_OrgID v) \/ provisioned r) /\
  (exists rec, view w' = <[kv_ID v := rec]> (view w) /\ kv_IsActive v = true /\ kv_RevokedAt v = None) /\
  (forall l w'', ka_ListKeys admin (kv_OrgID v) w' = (Ok l, w'') ->
     exists ki t, ki ∈ l /\ ki_CreatedAt ki = stamp t /\ v = viewOf {| ki_KeyID := ki_KeyID ki; ki_OrgID := ki_OrgID ki; ki_Tier := ki_Tier ki; ki_Env := ki_Env ki;
       ki_Status := ki_Status ki; ki_Shadow := ki_Shadow ki; ki_CreatedAt := t; ki_RevokedAt := ki_RevokedAt ki |}) /\
  forall (a : Authenticator W) ts nonce m p b w2 t w4 w5,
    KeyReads (keys a) view -> view w2 !! kv_ID v = view w' !! kv_ID v -> is_ok (LookupByID (keys a) (kv_ID v) w2).1 = true ->
    now (LookupByID (keys a) (kv_ID v) w2).2 = (t, w4) -> in_int64 ts = true -> skew_of t (time_Unix ts) <= maxSkew a ->
    8 <= Z.of_nat (String.length nonce) <= 128 -> Remember (nonces a) (kv_ID v) nonce (nonceTTL a) w4 = (Ok true, w5) ->
    Authenticate a m p (client_headers secret m p ts nonce b) b w2 =
    (Ok {| pr_OrgID := kv_OrgID v; pr_KeyID := kv_ID v; pr_Tier := kv_Tier v; pr_Env := kv_Env v; pr_Shadow := kv_Shadow v |}, w5).
Proof using All.
  assert (Hm : exists org, minted org w x w' /\ ((exists p w1, passes_gate s r p w w1 /\ pr_OrgID p = org) \/ provisioned r)).
  { assert (Hsil : forall P : Prop, silent_answer x -> P) by (intros P; unfold silent_answer; by rewrite Hx).
    destruct (key_request_cases e c r w x w' He E) as [(p & w1 & Hp & [[_ [Hmi|[_ Hb]]]|[_ [(info & _ & _ & _ & Hb)|[_ Hb]]]])|[(_ & Htok & org & _ & [Hmi|[_ Hb]])|[_ Hb]]];
      try by apply Hsil.
    - exists (pr_OrgID p). split; [done|]. left. eauto.
    - by rewrite Hx in Hb.
    - exists org. split; [done|]. by right. }
  destruct Hm as (org & Hmint & Hwho). pose proof Hmint as (env & tier & sh & g & w0 & w1 & t & wc & Hg & Hv & Hc & Hb). rewrite Hx in Hb. injection Hb as -> ->.
  destruct (new_record_shape _ _ _ sh _ _ _ Hg) as (Ho & Ht & Hst). set (rec := with_Shadow sh (gk_Record g)) in *.
  assert (Hs : view w' = <[KeyID rec := rec]> (view w)) by (pose proof (admin_create rec t wc) as Ha; by rewrite Hc, Hv in Ha).
  unfold viewOf. cbn [kv_OrgID kv_ID kv_Tier kv_Env kv_Shadow kv_IsActive kv_RevokedAt ki_OrgID ki_KeyID ki_Tier ki_Env ki_Shadow ki_Status ki_RevokedAt ki_CreatedAt]. change (KeyID (gk_Record g)) with (KeyID rec).
  split; [done|]. split.
  { exists rec. rewrite Hs. split; [done|]. split; [|done]. cbn in Hst |- *. by rewrite Hst. }
  split.
  { intros l w'' Hl. exists (info_at rec (stamp t) None), t. split; [eapply admin_created; [exact Hc|by rewrite Ho]|]. split; [done|]. unfold info_at. cbn [ki_KeyID ki_OrgID ki_Tier ki_Env ki_Status ki_Shadow ki_CreatedAt ki_RevokedAt]. by rewrite Ho, Ht. }
  intros a ts nonce m p b w2 t2 w4 w5 Hreads Hk Hok Hnow Hts Hskew Hn Hfresh.
  assert (Hlook : LookupByID (keys a) (KeyID rec) w2 = (Ok rec, (LookupByID (keys a) (KeyID rec) w2).2)).
  { pose proof (reads_record (store:=keys a) (view:=view) (KeyID rec) w2) as Hr. rewrite Hk, Hs, lookup_insert_eq in Hr.
    destruct (LookupByID (keys a) (KeyID rec) w2) as [[rec'|er] w3]; [|done]. cbn in Hr |- *. by injection Hr as ->. }
  rewrite (signed_authenticates a env org tier g w0 w1 rec ts nonce m p b w2 (LookupByID (keys a) (KeyID rec) w2).2 t2 w4 w5); try done.
  unfold principal_of. by rewrite Ho, Ht.
Qed.
End keys.

(** * Revocation *)

(** A property that lookups, the clock and the nonce store keep is kept by a
    request. *)
Lemma Authenticate_keeps {W} `{Sha256} `{Runtime W} (P : W -> Prop) (a : Authenticator W) m p h b w :
  (forall id w, P w -> P (LookupByID (keys a) id w).2) -> (forall w, P w -> P (now w).2) ->
  (forall k n ttl w, P w -> P (Remember (nonces a) k n ttl w).2) -> P w -> P (Authenticate a m p h b w).2.
Proof.
  intros Hl Hn Hr Hw. destruct (Authenticate_cases a m p h b w) as [(e & _ & [-> |(id & [-> | ->])])|(rec & t & w2 & Hd & _ & ->)]; auto.
  destruct Hd as (rk & id & hh & w1 & _ & _ & El & En). unfold check_nonce. rewrite bind_let. cbn [fst snd mret io_ret]. apply Hr.
  specialize (Hn w1). rewrite En in Hn. apply Hn. specialize (Hl id w Hw). by rewrite El in Hl.
Qed.

(** The record under every id has that id, as a creation leaves it. *)
Definition keys_wf (m : gmap string KeyRecord) : Prop := map_Forall (fun id rec => KeyID rec = id) m.

Section revocation.
Context {W : Type} `{Runtime W} `{Sha256Laws} `{Jcs} `{RequestDecoder} `{ControlDecoder} `{KeyCodec}.
Context (admin : KeyAdmin W) (origin : KeyStore W) (view : W -> gmap string KeyRecord) (stamp : time -> time).
Context `{!KeyAdminSpec admin view stamp} `{!KeyReads origin view} `{!Frame view}.
Context (getc : W -> redis_kv) (putc : redis_kv -> W -> W) `{!Lens getc putc} `{!Frame getc}.
Context (view_putc : forall x w, view (putc x w) = view w) (origin_getc : forall id w, getc (LookupByID origin id w).2 = getc w).
Context (ttl : duration) (a : Authenticator W).

Definition cached_keys : CachedKeyStore W := {| cache := RedisKeyCache getc putc; source := origin; cache_ttl := ttl |}.

Context (Hkeys : LookupByID (keys a) = Cached_LookupByID cached_keys).
Context (Hnonces : forall k n t w, view (Remember (nonces a) k n t w).2 = view w /\ getc (Remember (nonces a) k n t w).2 = getc w).
Context (Hstatus : forall rec rec', unmarshal_key (marshal_key rec) = Some rec' -> Status rec = StatusRevoked -> Status rec' = StatusRevoked).

(** The cache has no other word than revoked for the key, but for an entry that
    is gone by [u], if there is one. *)
Definition entry_dead (id : string) (u : option Z) (s : redis_kv) : Prop :=
  forall v ex rec, kv_keys s !! (keyCachePrefix +:+ id) = Some (v, ex) -> unmarshal_key v = Some rec ->
    Status rec = StatusRevoked \/ exists t, u = Some t /\ (0 < ttl -> exists e, ex = Some e /\ e <= t).

(** The key is revoked at the source, and such is the cache. *)
Definition dead (id : string) (u : option Z) (w : W) : Prop :=
  keys_wf (view w) /\ (exists rec, view w !! id = Some rec /\ Status rec = StatusRevoked) /\ entry_dead id u (getc w).

(** That entry is gone. *)
Definition over (u : option Z) (s : redis_kv) : Prop := match u with None => True | Some t => 0 < ttl /\ t <= kv_now s end.

(** The later of the two. *)
Definition until_after (u : option Z) (t : Z) : option Z := Some (match u with None => t | Some t0 => Z.max t0 t end).

(** A record of the key from before its revocation. *)
Definition stale (id : string) (rec : KeyRecord) : bool := String.eqb (KeyID rec) id && negb (String.eqb (Status rec) StatusRevoked).

(** A world, the records that lookups in flight have read from the source and not
    written to the cache yet, and the instant by which the last entry that such a
    lookup wrote with a stale record has expired. *)
Record flight := { fl_world : W; fl_reads : list KeyRecord; fl_until : option Z }.

(** What may happen to a key after its revocation: a request, with any key; the
    two halves of a lookup, with anything in between; and anything that leaves
    this record alone and writes nothing to the cache, such as the passing of time,
    evictions, a failing server, and calls that issue or revoke other keys. *)
Inductive meanwhile (id : string) (f : flight) : flight -> Prop :=
| meanwhile_request m p h b :
    meanwhile id f {| fl_world := (Authenticate a m p h b (fl_world f)).2; fl_reads := fl_reads f; fl_until := fl_until f |}
| meanwhile_read id' rec w' : LookupByID origin id' (fl_world f) = (Ok rec, w') ->
    meanwhile id f {| fl_world := w'; fl_reads := rec :: fl_reads f; fl_until := fl_until f |}
| meanwhile_write l1 rec l2 : fl_reads f = l1 ++ rec :: l2 ->
    meanwhile id f {| fl_world := (cache_Set (cache cached_keys) rec ttl (fl_world f)).2; fl_reads := l1 ++ l2;
                      fl_until := if stale id rec then until_after (fl_until f) (kv_now (getc (fl_world f)) + ttl_ms ttl) else fl_until f |}
| meanwhile_other w' :
    keys_wf (view w') -> view w' !! id = view (fl_world f) !! id -> kv_now (getc (fl_world f)) <= kv_now (getc w') ->
    (forall k x, kv_keys (getc w') !! k = Some x -> kv_keys (getc (fl_world f)) !! k = Some x) ->
    meanwhile id f {| fl_world := w'; fl_reads := fl_reads f; fl_until := fl_until f |}.

Lemma cache_key_inj x y : keyCachePrefix +:+ x = keyCachePrefix +:+ y -> x = y.
Proof using Type. intros E. apply (f_equal (strip_prefix keyCachePrefix)) in E. rewrite !strip_prefix_app in E. by injection E. Qed.

Lemma cache_Get_eq id w : cache_Get (cache cached_keys) id w = (KeyCache_Get id (getc w), putc (getc w) w).
Proof using Type. apply (zoom_eq getc putc). Qed.
Lemma cache_Set_eq rec w : cache_Set (cache cached_keys) rec ttl w = ((KeyCache_Set rec ttl (getc w)).1, putc (KeyCache_Set rec ttl (getc w)).2 w).
Proof using Type. apply (zoom_eq getc putc). Qed.

(** Only the keys and the cache count. *)
Lemma dead_ext id u w w' : view w' = view w -> getc w' = getc w -> dead id u w -> dead id u w'.
Proof using Type. unfold dead. by intros -> ->. Qed.

Lemma getc_putc x w : getc (putc x w) = x.
Proof using Lens0. apply (get_put (get:=getc)). Qed.

(** A write that is not of a stale record keeps the entry dead. *)
Lemma dead_write id u rec s : stale id rec = false -> entry_dead id u s -> entry_dead id u (KeyCache_Set rec ttl s).2.
Proof using Hstatus.
  intros Hs Hd. unfold KeyCache_Set. destruct (negb (kv_up s)); [done|]. cbn [snd]. intros v ex rec' Hv Hu. cbn [kv_set kv_keys] in Hv.
  destruct (decide (KeyID rec = id)) as [Hid|Hid].
  - rewrite Hid, lookup_insert_eq in Hv. injection Hv as <- <-. left. unfold stale in Hs. rewrite Hid, String.eqb_refl in Hs. cbn [andb] in Hs.
    apply negb_false_iff, String.eqb_eq in Hs. by eapply Hstatus.
  - rewrite lookup_insert_ne in Hv by (intros E; by apply cache_key_inj in E). by eapply Hd.
Qed.

Lemma until_weakens id u t s : entry_dead id u s -> entry_dead id (until_after u t) s.
Proof using Type.
  intros Hd v ex rec Hv Hu. destruct (Hd _ _ _ Hv Hu) as [?|(t0 & -> & Ht)]; [by left|]. right. eexists. split; [done|].
  intros Hpos. destruct (Ht Hpos) as (e & -> & He). exists e. split; [done|]. lia.
Qed.

(** A write of a stale one, too, once it expires. *)
Lemma stale_write id u rec s : entry_dead id u s -> entry_dead id (until_after u (kv_now s + ttl_ms ttl)) (KeyCache_Set rec ttl s).2.
Proof using Type.
  intros Hd. unfold KeyCache_Set. destruct (negb (kv_up s)); [by apply until_weakens|]. cbn [snd]. intros v ex rec' Hv Hu. cbn [kv_set kv_keys] in Hv.
  destruct (decide (KeyID rec = id)) as [Hid|Hid].
  - rewrite Hid, lookup_insert_eq in Hv. injection Hv as <- <-. right. eexists. split; [done|]. intros Ht. rewrite (proj2 (Z.ltb_lt 0 ttl) Ht).
    eexists. split; [done|]. destruct u; lia.
  - rewrite lookup_insert_ne in Hv by (intros E; by apply cache_key_inj in E). by eapply (until_weakens id u).
Qed.

Lemma KeyCache_Set_now rec s : kv_now (KeyCache_Set rec ttl s).2 = kv_now s.
Proof using Type. unfold KeyCache_Set. by destruct (negb (kv_up s)). Qed.

(** What the source answers about a revoked key is not stale. *)
Lemma source_fresh id u id' w rec w' : dead id u w -> LookupByID origin id' w = (Ok rec, w') -> stale id rec = false.
Proof using KeyReads0.
  intros (Hwf & (r0 & Hr0 & Hst) & _) E. pose proof (reads_record (store:=origin) (view:=view) id' w) as Hr. rewrite E in Hr. cbn in Hr.
  unfold stale. destruct (String.eqb_spec (KeyID rec) id) as [Hid|]; [|done]. cbn [andb]. apply negb_false_iff, String.eqb_eq.
  assert (id' = id) as -> by (rewrite <- Hid; symmetry; by apply Hwf). congruence.
Qed.

Definition dead_at (id : string) (u : option Z) (n : Z) (w : W) : Prop := dead id u w /\ kv_now (getc w) = n.

Lemma dead_read id u n id' w : dead_at id u n w -> dead_at id u n (LookupByID origin id' w).2.
Proof using All.
  intros [Hd Hn]. pose proof (reads_keep (store:=origin) (view:=view) id' w) as Hk. pose proof (origin_getc id' w) as Hg.
  split; [by apply (dead_ext _ _ w)|by rewrite Hg].
Qed.

(** A lookup writes no other record than a revoked one. *)
Lemma dead_lookup id u n id' w : dead_at id u n w -> dead_at id u n (LookupByID (keys a) id' w).2.
Proof using All.
  intros Hd. rewrite Hkeys. unfold Cached_LookupByID. rewrite !bind_let, !cache_Get_eq. cbn [fst snd].
  assert (Hd1 : dead_at id u n (putc (getc w) w)).
  { split; [apply (dead_ext _ _ w); [apply view_putc | apply getc_putc | apply Hd] | rewrite getc_putc; apply Hd]. }
  set (wp := putc (getc w) w) in *. destruct (KeyCache_Get id' (getc w)) as [[rec|]|e]; [done| |done].
  rewrite bind_let. change (source cached_keys) with origin. pose proof (dead_read id u n id' wp Hd1) as Hd2.
  destruct (LookupByID origin id' wp) as [[rec|e] w1] eqn:El; cbn [fst snd] in *; [|done].
  apply (source_fresh id u) in El; [|apply Hd1]. rewrite bind_let. change (cache_ttl cached_keys) with ttl. rewrite cache_Set_eq. cbn [fst snd mret io_ret].
  destruct Hd2 as ((Hwf & Hs & Hc) & Hn). split; [split_and!; [by rewrite view_putc | by rewrite view_putc|] | by rewrite getc_putc, KeyCache_Set_now].
  rewrite getc_putc. by apply dead_write.
Qed.

(** Once no stale entry is left, it answers with a revoked record only. *)
Lemma dead_answers id u w rec : dead id u w -> over u (getc w) -> (LookupByID (keys a) id w).1 = Ok rec -> Status rec = StatusRevoked.
Proof using All.
  intros (Hwf & (r0 & Hr0 & Hst) & Hc) Hover. rewrite Hkeys. unfold Cached_LookupByID. rewrite !bind_let, !cache_Get_eq. cbn [fst snd].
  unfold KeyCache_Get. change (source cached_keys) with origin. set (wp := putc (getc w) w).
  assert (Hvp : view wp = view w) by apply view_putc. pose proof (reads_record (store:=origin) (view:=view) id wp) as Hr. rewrite Hvp, Hr0 in Hr.
  assert (Hsrc : match (LookupByID origin id wp).1 with Ok rec0 => Status rec0 = StatusRevoked | Err _ => True end).
  { destruct (LookupByID origin id wp) as [[rec0|e] w1]; cbn in *; [by injection Hr as <-|done]. }
  destruct (negb _); [done|]. destruct (kv_get (getc w) _ ≫= _) as [rec0|] eqn:Ec.
  - intros [= <-]. unfold kv_get in Ec. destruct (kv_keys (getc w) !! _) as [[v ex]|] eqn:Ek; [|done].
    destruct ex as [e|]; [destruct (Z.leb_spec e (kv_now (getc w))); [done|]|];
      cbn in Ec; (destruct (Hc _ _ _ Ek Ec) as [?|(t & -> & Ht)]; [done|]); destruct Hover as [Hpos Hle]; destruct (Ht Hpos) as (e' & [= ->] & He); lia.
  - rewrite ?bind_let. destruct (LookupByID origin id wp) as [[rec0|e] w1]; cbn [fst snd] in *; rewrite ?bind_let; cbn [fst snd mret io_ret]; [by intros [= <-]|done].
Qed.

(** The invariant of a revoked key. *)
Definition settling (id : string) (f : flight) : Prop :=
  dead id (fl_until f) (fl_world f) /\ forall t, fl_until f = Some t -> t <= kv_now (getc (fl_world f)) + ttl_ms ttl.

Lemma settling_request id m p h b f : settling id f ->
  settling id {| fl_world := (Authenticate a m p h b (fl_world f)).2; fl_reads := fl_reads f; fl_until := fl_until f |}.
Proof using All.
  intros [Hd Ht]. assert (Hat : dead_at id (fl_until f) (kv_now (getc (fl_world f))) (Authenticate a m p h b (fl_world f)).2).
  { apply (Authenticate_keeps (dead_at id (fl_until f) (kv_now (getc (fl_world f))))); [intros id' v Hv; by apply dead_lookup | | |done]; unfold dead_at, dead.
    - intros v Hv. by rewrite !now_frame.
    - intros k n t v Hv. by destruct (Hnonces k n t v) as [-> ->]. }
  destruct Hat as [Hd' Hn]. split; [done|]. cbn [fl_world fl_until]. by rewrite Hn.
Qed.

Lemma settling_step id f f' : settling id f -> meanwhile id f f' -> settling id f'.
Proof using All.
  intros Hset [m p h b|id' rec w' E|l1 rec l2 E|w' Hwf Hk Hn Hc]; [by apply settling_request|..]; destruct Hset as [Hd Ht].
  - pose proof (dead_read id (fl_until f) _ id' _ (conj Hd eq_refl)) as [Hd' Hn]. rewrite E in Hd', Hn. cbn [snd] in *.
    split; [done|]. cbn [fl_world fl_until]. by rewrite Hn.
  - rewrite cache_Set_eq. destruct Hd as (Hwf & Hs & Hc). cbn [snd]. split.
    + cbn [fl_world fl_until]. split_and!; [by rewrite view_putc | by rewrite view_putc|]. rewrite getc_putc.
      destruct (stale id rec) eqn:Es; [by apply stale_write|by apply dead_write].
    + cbn [fl_world fl_until]. rewrite getc_putc, KeyCache_Set_now. destruct (stale id rec); [|done].
      intros t. unfold until_after. intros [= <-]. destruct (fl_until f) as [t0|]; [specialize (Ht t0 eq_refl)|]; lia.
  - destruct Hd as (_ & Hs & Hd). split; cbn [fl_world fl_until].
    + split_and!; [done | by rewrite Hk|]. intros v ex rec Hv. by apply (Hd v ex rec), Hc.
    + intros t Eu. specialize (Ht t Eu). lia.
Qed.

Lemma settling_later id f f' : settling id f -> rtc (meanwhile id) f f' -> settling id f'.
Proof using All. intros Hd Hs. induction Hs as [f|f1 f2 f3 Hstep _ IH]; [done|]. apply IH. by eapply settling_step. Qed.

(** Without a lookup in flight that has a stale record, none is written. *)
Lemma calm_later id f f' : settling id f -> rtc (meanwhile id) f f' ->
  Forall (fun rec => stale id rec = false) (fl_reads f) -> fl_until f = None -> fl_until f' = None.
Proof using All.
  intros Hd Hs. induction Hs as [f|f1 f2 f3 Hstep _ IH]; [done|]. intros Hl Hu. pose proof (settling_step _ _ _ Hd Hstep) as Hd2. specialize (IH Hd2).
  destruct Hstep as [m p h b|id' rec w' E|l1 rec l2 E|w' Hwf Hk Hn Hc]; apply IH; cbn [fl_reads fl_until]; try done.
  - constructor; [|done]. eapply source_fresh; [apply Hd|exact E].
  - rewrite E in Hl. apply Forall_app in Hl as [Hl1 Hl2]. apply Forall_cons_iff in Hl2 as [_ Hl2]. by apply Forall_app.
  - rewrite E in Hl. apply Forall_app in Hl as [_ Hl2]. apply Forall_cons_iff in Hl2 as [-> _]. done.
Qed.

Lemma dead_refused id u w m p h b rawKey hh : dead id u w -> over u (getc w) -> bearerKey h = Ok rawKey -> parseKey rawKey = Ok (id, hh) ->
  exists e, Authenticate a m p h b w = (Err e, (LookupByID (keys a) id w).2) /\ refusal e.
Proof using All.
  intros Hd Hover Hb Hp. pose proof (dead_answers id u w) as Hr. destruct (LookupByID (keys a) id w) as [[rec|e] w1] eqn:El; cbn [fst snd] in *.
  - destruct (revoked_record_refused a m p h b w rawKey id hh rec w1 Hb Hp El (Hr rec Hd Hover eq_refl)) as (e & Ha & _). exists e. split; [done|].
    pose proof (Authenticate_refusal a m p h b w e) as Hf. rewrite Ha in Hf. auto.
  - unfold Authenticate. rewrite Hb, Hp, bind_let, El. cbn [fst snd]. unfold refusal. destruct e; eexists; (split; [reflexivity|]); cbn; tauto.
Qed.

Context (s : Server W) (Hadmin : c_keyAdmin (s_control s) = Some admin) (Hquiet : quiet_gate view s).
Context (Hevict : c_keyCacheInvalidate (s_control s) = Some (RedisKeyCache_Invalidate getc putc)).

Lemma evict_leaves f id w : c_keyCacheInvalidate (s_control s) = Some f -> view (f id w).2 = view w.
Proof using All. rewrite Hevict. intros [= <-]. unfold RedisKeyCache_Invalidate. rewrite zoom_eq. apply view_putc. Qed.

(** An answered revocation ends with the eviction. *)
Lemma revoke_evicts c r w x w' v :
  route s EpRevoke c r w = (Some x, w') -> resp_Body x = PControl (PKey v) ->
  exists w2, w' = (RedisKeyCache_Invalidate getc putc (rq_ID r) w2).2.
Proof using All.
  unfold route. cbn [mounted]. rewrite Hadmin. cbn [negb]. unfold revoke_endpoint, method. destruct (negb _); [intros [= <- <-]; done|].
  destruct (gate_cases s c r w) as [(p & w1 & Hp)|(y & w1 & Hs & _ & (pb & Hb) & _)].
  2:{ rewrite Hs. intros [= <- <-]. by rewrite Hb. }
  rewrite (passes_protected _ _ _ _ _ _ _ Hp). unfold handleRevokeKey, keyAdminReady, with_org. rewrite Hadmin. cbn [principalOf authed ctx_Principal].
  rewrite !bind_let. destruct (ka_RevokeKey _ _ _ _ _) as [[info|[]] w2]; cbn [fst snd]; [|intros [= <- <-]; done..].
  unfold evict_key. rewrite Hevict, !bind_let. cbn [fst snd mret io_ret]. intros [= <- <-] _. by exists w2.
Qed.

(** C13: A revocation that is answered is in force.  Over any key store that
    keeps its promise: after [POST /v1/keys/{id}/revoke] has answered with the
    key, and the cache server has taken the eviction, every request that
    presents the key is refused, before its signature or nonce is looked at,
    whatever requests, halves of lookups, time and failures come in between,
    provided that no lookup which had read the record before the revocation
    writes it to the cache after the eviction; and if one does, once the entry
    it wrote has expired, at most one lifetime of the cache after the last. *)
Theorem revocation_is_immediate c r w x w' v
  (Hwf : keys_wf (view w)) (E : route s EpRevoke c r w = (Some x, w')) (Hx : resp_Body x = PControl (PKey v)) (Hup : kv_up (getc w') = true) :
  kv_ID v = rq_ID r /\ kv_IsActive v = false /\
  forall reads f, rtc (meanwhile (rq_ID r)) {| fl_world := w'; fl_reads := reads; fl_until := None |} f ->
    (Forall (fun rec => stale (rq_ID r) rec = false) reads -> fl_until f = None) /\
    (forall t, fl_until f = Some t -> t <= kv_now (getc (fl_world f)) + ttl_ms ttl) /\
    forall m p h b rawKey hh, over (fl_until f) (getc (fl_world f)) -> bearerKey h = Ok rawKey -> parseKey rawKey = Ok (rq_ID r, hh) ->
      exists e, Authenticate a m p h b (fl_world f) = (Err e, (LookupByID (keys a) (rq_ID r) (fl_world f)).2) /\ refusal e.
Proof using All.
  assert (Hrv : exists org, revoked view org (rq_ID r) w x w').
  { assert (Hsil : forall P : Prop, silent_answer x -> P) by (intros P; unfold silent_answer; by rewrite Hx).
    destruct (key_request_cases admin view stamp s Hadmin Hquiet evict_leaves EpRevoke c r w x w') as [(p & w1 & _ & [[? _]|[_ [Hr|[_ Hb]]]])|[[? _]|[_ Hb]]];
      [by right; left | done | done | by eexists | by apply Hsil | done | by apply Hsil]. }
  destruct Hrv as (org & info & (rec & Hr & _ & Hv) & Hst & Hid & Hb). rewrite Hx in Hb. injection Hb as ->.
  destruct (revoke_evicts c r w x w' (viewOf info) E Hx) as (wr & Hw'). pose proof (Hwf _ _ Hr) as Hrid.
  assert (Hd : dead (rq_ID r) None w').
  { split_and!.
    - rewrite Hv. by apply map_Forall_insert_2.
    - exists (set_status StatusRevoked rec). rewrite Hv. by rewrite lookup_insert_eq.
    - assert (Hc : getc w' = (KeyCache_Invalidate (rq_ID r) (getc wr)).2) by (rewrite Hw'; unfold RedisKeyCache_Invalidate; rewrite zoom_eq; cbn [fst snd]; by rewrite getc_putc).
      intros val ex rec' Hk. exfalso. rewrite Hc in Hup, Hk. unfold KeyCache_Invalidate in *.
      destruct (kv_up (getc wr)) eqn:Eu; cbn in *; [by rewrite lookup_delete_eq in Hk | congruence]. }
  split; [by rewrite <- Hrid, <- (Hid _ Hr)|]. split; [cbn; by rewrite Hst|]. intros reads f Hsteps.
  assert (Hset : settling (rq_ID r) {| fl_world := w'; fl_reads := reads; fl_until := None |}) by done.
  split; [intros Hl; by eapply calm_later|]. pose proof (settling_later _ _ _ Hset Hsteps) as [Hd2 Ht]. split; [done|].
  intros m p h b rawKey hh Hover. by eapply dead_refused.
Qed.
End revocation.

(** * Activation *)

(** What the policy service promises: a call does to the store what the model
    of [Policyctl.v] does, at some readings of the clock. *)
Class PolicyServiceSpec `{BigRat} `{Unicode} `{Sha256} `{Jcs} `{PolicySchema} `{Ed25519} {W} (signer : Signer) (svc : PolicyService W)
    (get : W -> Policyctl.MemStore) := {
  svc_Publish_spec org id author w : exists t0 t1 t2,
    (svc_Publish svc org id author w).1 = (Publish signer t0 t1 t2 org id author (get w)).1 /\
    get (svc_Publish svc org id author w).2 = (Publish signer t0 t1 t2 org id author (get w)).2;
  svc_Rollback_spec org id hash w : exists t1 t2,
    (svc_Rollback svc org id hash w).1 = (Rollback t1 t2 org id hash (get w)).1 /\
    get (svc_Rollback svc org id hash w).2 = (Rollback t1 t2 org id hash (get w)).2
}.

Section active.
Context `{BigRat} `{Unicode} `{Sha256} `{Jcs} `{PolicySchema} `{Ed25519}.

(** The organisation's bundle is the version, stored under its hash, and other
    organisations' bundles are as they were. *)
Definition activates (org id : string) (v : Version) (m m' : Policyctl.MemStore) : Prop :=
  (exists ref, GetActiveBundle org m' = Ok ref /\ b_OrgID ref = org /\ b_PolicyID ref = id /\ b_VersionHash ref = v_VersionHash v) /\
  GetVersion org id (v_VersionHash v) m' = Ok v /\
  forall o, o <> org -> GetActiveBundle o m' = GetActiveBundle o m.

Definition plain_orgs (m : Policyctl.MemStore) : Prop := map_Forall (fun _ p => no_char "|" (p_OrgID p) = true) (policies m).

(** A working copy under the key of an organisation and an id has them. *)
Lemma found_policy pub org id p m :
  store_wf pub m -> plain_orgs m -> no_char "|" org = true -> policies m !! Policyctl.key org id = Some p -> p_OrgID p = org /\ p_ID p = id.
Proof using Type. intros Hw Hp Ho E. destruct (wf_policy _ _ Hw _ _ E) as [Hk _]. apply policy_key_inj in Hk; [done | exact (Hp _ _ E) | done]. Qed.

(** Updating a stored working copy, then pointing the bundle. *)
Lemma point_activates org id p v t m m1 :
  p_OrgID p = org -> p_ID p = id -> UpdatePolicy p m = (Ok tt, m1) -> GetVersion org id (v_VersionHash v) m = Ok v ->
  activates org id v m (SetActiveBundle {| b_OrgID := org; b_PolicyID := id; b_VersionHash := v_VersionHash v; b_UpdatedAt := t |} m1).
Proof using Type.
  intros Ho Hi Hu Hv. unfold UpdatePolicy in Hu. destruct (policies m !! _) as [p0|]; [|done]. injection Hu as <-. split_and!.
  - eexists. unfold GetActiveBundle. cbn. rewrite lookup_insert_eq. by split_and!.
  - exact Hv.
  - intros o Hne. unfold GetActiveBundle. cbn. by rewrite lookup_insert_ne.
Qed.

Lemma update_present p m : policies m !! Policyctl.key (p_OrgID p) (p_ID p) <> None -> exists m1, UpdatePolicy p m = (Ok tt, m1).
Proof using Type. unfold UpdatePolicy. intros Hp. destruct (policies m !! _); [by eexists|done]. Qed.

Lemma activate_activates org id p v t1 t2 m m' r :
  p_OrgID p = org -> p_ID p = id -> policies m !! Policyctl.key org id <> None -> GetVersion org id (v_VersionHash v) m = Ok v ->
  activate p v t1 t2 m = (r, m') -> r = Ok v /\ activates org id v m m'.
Proof using Type.
  intros Ho Hi Hp Hv. unfold activate, rbind, setActive, pointOrgBundle, pure.
  destruct (update_present (with_active (v_VersionHash v) t1 p) m) as [m1 Hu]; [cbn; by rewrite Ho, Hi|]. rewrite Hu. intros [= <- <-]. split; [done|].
  rewrite Ho, Hi. refine (point_activates _ _ _ _ _ _ _ _ _ Hu Hv); done.
Qed.

Lemma Publish_activates signer pub t0 t1 t2 org id author m v m' :
  store_wf pub m -> plain_orgs m -> no_char "|" org = true -> Publish signer t0 t1 t2 org id author m = (Ok v, m') -> activates org id v m m'.
Proof using Type.
  intros Hw Hp Ho. unfold Publish, rbind, Policyctl.reads, GetPolicy, pure. destruct (policies m !! Policyctl.key org id) as [p|] eqn:Ep; [|done].
  destruct (found_policy pub org id p m Hw Hp Ho Ep) as [Hpo Hpi]. destruct (Validate _ _ _ _) as [[]|e]; [|done].
  destruct (CanonicalMessage _ _ _ _ _) as [msg|e]; [|done]. destruct (ContentHash _ _ _ _ _) as [hash|e]; [|done].
  unfold GetVersion. destruct (seen_of m (Policyctl.key org id) !! hash) as [v0|] eqn:Ev.
  - destruct (wf_seen _ _ Hw _ _ _ Ev) as (Hh & _). intros E. eapply activate_activates in E as [[= ->] Ha]; [exact Ha | done | done | by rewrite Ep|].
    unfold GetVersion. by rewrite Hh, Ev.
  - cbv zeta. set (v1 := {| v_VersionHash := hash |}). unfold PutVersion. change (v_OrgID v1) with (p_OrgID p). change (v_PolicyID v1) with (p_ID p).
    change (v_VersionHash v1) with hash. rewrite Hpo, Hpi, Ev. intros E.
    eapply (activate_activates org id) in E as [[= ->] Ha]; [exact Ha | done | done | cbn; by rewrite Ep|].
    unfold GetVersion, seen_of. cbn. rewrite lookup_insert_eq. cbn. by rewrite lookup_insert_eq.
Qed.

Lemma Rollback_activates pub t1 t2 org id hash m v m' :
  store_wf pub m -> plain_orgs m -> no_char "|" org = true -> Rollback t1 t2 org id hash m = (Ok v, m') -> activates org id v m m'.
Proof using Type.
  intros Hw Hp Ho. unfold Rollback, rbind, Policyctl.reads, GetPolicy, GetVersion, pure, pointOrgBundle.
  destruct (policies m !! Policyctl.key org id) as [p|] eqn:Ep; [|done]. destruct (found_policy pub org id p m Hw Hp Ho Ep) as [Hpo Hpi].
  destruct (seen_of m (Policyctl.key org id) !! hash) as [v0|] eqn:Ev; [|done]. destruct (wf_seen _ _ Hw _ _ _ Ev) as (Hh & _).
  match goal with |- context [UpdatePolicy ?q m] => destruct (update_present q m) as [m1 Hu] end; [cbn; rewrite Hpo, Hpi; by rewrite Ep|].
  rewrite Hu. cbn [p_OrgID p_ID]. rewrite Hpo, Hpi. intros [= <- <-]. eapply point_activates; [| |exact Hu|]; [done..|]. unfold GetVersion. by rewrite Hh, Ev.
Qed.
End active.

Section activation.
Context `{BigRat} `{Unicode} `{Sha256} `{Jcs} `{PolicySchema} `{Ed25519} `{RequestDecoder} `{ControlDecoder} {W : Type} `{Runtime W}.
Context (get : W -> Policyctl.MemStore) (put : Policyctl.MemStore -> W -> W) `{!Lens get put} `{!Frame get}.
Context (getb : W -> gmap string entry) (putb : gmap string entry -> W -> W) `{!Lens getb putb} `{!Frame getb}.
Context (get_putb : forall x w, get (putb x w) = get w) (getb_put : forall x w, getb (put x w) = getb w).
Context (signer : Signer) (svc : PolicyService W) `{!PolicyServiceSpec signer svc get}.
Context (Hsvc : forall w org id y, getb (svc_Publish svc org id y w).2 = getb w /\ getb (svc_Rollback svc org id y w).2 = getb w).

(** The store as the bundle provider reads it, and the provider's cache as the
    server invalidates it. *)
Definition store_source : Source W :=
  {| src_GetActiveBundle org := zoom get put (fun m => (GetActiveBundle org m, m));
     src_GetVersion org id h := zoom get put (fun m => (GetVersion org id h m, m)) |}.

Definition provider_Invalidate (org : string) : io W (result bundle_error unit) := fun w =>
  let '((r, cache), w) := Invalidate store_source org (getb w) w in (r, putb cache w).

Context (s : Server W) (Hps : c_policySvc (s_control s) = Some svc) (Hinv : c_bundleInvalidator (s_control s) = Some provider_Invalidate).
Context (Hq : quiet_gate get s) (Hqb : quiet_gate getb s).

(** Invalidation brings in the version the store names, if it compiles. *)
Lemma invalidate_loads org ref v w :
  GetActiveBundle org (get w) = Ok ref -> b_OrgID ref = org -> GetVersion org (b_PolicyID ref) (b_VersionHash ref) (get w) = Ok v ->
  get (provider_Invalidate org w).2 = get w /\
  getb (provider_Invalidate org w).2 =
    match Compile v with Ok pol => <[org := {| en_hash := b_VersionHash ref; en_pol := pol |}]> (getb w) | Err _ => getb w end.
Proof using All.
  intros Hr Ho Hv. unfold provider_Invalidate, Invalidate, load. rewrite !bind_let. cbn [store_source src_GetActiveBundle]. rewrite zoom_eq, Hr. cbn [fst snd].
  unfold compileRef. rewrite !bind_let. cbn [store_source src_GetVersion]. rewrite zoom_eq, Ho, get_put, Hv. cbn [fst snd mret io_ret].
  destruct (Compile v) as [pol|e]; cbn; by rewrite get_putb, !get_put.
Qed.

(** An activation that is answered. *)
Lemma activated_serves org call c r w x w' v :
  activated s org call c r w = (Some x, w') -> resp_Body x = PControl (PVersion v) ->
  (call w).1 = Ok v /\ w' = (provider_Invalidate org (call w).2).2.
Proof using All.
  unfold activated. rewrite bind_let. destruct (call w) as [[v0|e] w1]; cbn [fst snd].
  - rewrite bind_let. unfold invalidateBundle. rewrite Hinv, bind_let. cbn [fst snd mret io_ret]. intros [= <- <-] [= <-]. done.
  - intros [= <- _]. unfold writePolicyError. by destruct e.
Qed.

Definition activation_endpoint (e : endpoint) : Prop := e = EpPublish \/ e = EpRollback.

(** Past the gate, the service activated the version for the principal's
    organisation, and then the cache was invalidated. *)
Lemma activation_cases pub e c r w x w' v :
  activation_endpoint e -> route s e c r w = (Some x, w') -> resp_Body x = PControl (PVersion v) ->
  store_wf pub (get w) -> plain_orgs (get w) ->
  exists p w1 w2, passes_gate s r p w w1 /\ getb w2 = getb w /\ w' = (provider_Invalidate (pr_OrgID p) w2).2 /\
    (no_char "|" (pr_OrgID p) = true -> activates (pr_OrgID p) (rq_ID r) v (get w) (get w2)).
Proof using All.
  intros He E Hx Hw Hp. assert (Hr : exists h, route s e = method "POST" (protected s h) /\ (h = handlePublishPolicy s \/ h = handleRollbackPolicy s)).
  { destruct He as [-> | ->]; unfold route; cbn [mounted]; rewrite Hps; eexists; (split; [reflexivity|]); auto. }
  destruct Hr as (h & Hr & Hh). rewrite Hr in E. unfold method in E. destruct (negb _); [by injection E as <- <-|].
  destruct (gate_cases s c r w) as [(p & w1 & Hg)|(y & w1 & Hs & _ & (pb & Hb) & _)].
  2:{ rewrite Hs in E. injection E as <- <-. by rewrite Hb in Hx. }
  rewrite (passes_protected _ _ _ _ _ _ _ Hg) in E. assert (Hf : get w1 = get w) by (by eapply passes_frame).
  assert (Hfb : getb w1 = getb w) by (by eapply (passes_frame getb)).
  exists p, w1. destruct Hh as [-> | ->].
  - unfold handlePublishPolicy, with_service in E. rewrite Hps in E. unfold with_org in E. cbn [principalOf authed ctx_Principal] in E. cbv zeta in E.
    eapply activated_serves in E as [Hv Hw']; [|exact Hx]. eexists. split; [done|]. split; [|split; [exact Hw'|]].
    { rewrite <- Hfb. by apply Hsvc. }
    intros Ho. match goal with Hv : (svc_Publish svc ?o ?i ?y w1).1 = _ |- _ => destruct (svc_Publish_spec o i y w1) as (t0 & t1 & t2 & Hr1 & Hr2) end.
    rewrite Hv, Hf in Hr1. rewrite Hf in Hr2. eapply (Publish_activates signer pub); [exact Hw | exact Hp | exact Ho |].
    rewrite Hr2. symmetry in Hr1. apply injective_projections; [exact Hr1 | reflexivity].
  - unfold handleRollbackPolicy, with_service in E. rewrite Hps in E. unfold with_org in E. cbn [principalOf authed ctx_Principal] in E. unfold with_body in E.
    destruct (decodePolicyBody _ _ _) as [hash|y] eqn:Ed.
    2:{ unfold decodePolicyBody in Ed. injection E as <- <-. destruct (match rq_Body r with Some _ => _ | None => _ end) as [|[|]]; [done|by injection Ed as <-..]. }
    destruct (String.eqb _ _); [by injection E as <- <-|].
    eapply activated_serves in E as [Hv Hw']; [|exact Hx]. eexists. split; [done|]. split; [|split; [exact Hw'|]].
    { rewrite <- Hfb. by apply Hsvc. }
    intros Ho. destruct (svc_Rollback_spec (pr_OrgID p) (rq_ID r) hash w1) as (t1 & t2 & Hr1 & Hr2).
    rewrite Hv, Hf in Hr1. rewrite Hf in Hr2. eapply (Rollback_activates pub); [exact Hw | exact Hp | exact Ho |].
    rewrite Hr2. symmetry in Hr1. apply injective_projections; [exact Hr1 | reflexivity].
Qed.

End activation.
