(* ===== verification/Boot.v ===== *)
(** What the process does before and after it serves ([cmd/authorize-svc]): the
    seeds it decodes, the key ring, the boot policy, the encryptor of the audit
    log, and the wiring of the engine, the authenticator and the server from the
    configuration; then how it ends.

    The database pool, the Redis client, the tracer and the network are outside:
    [Platform] has their answers and the stores that the constructors of the
    other components build over them. *)

From S2P Require Import Prelude GoStrings GoTime Money RateLimit AuditLog Policyctl BundleProv Auth AuthRedis Contracts Base64 Runtime Signing Engine Hold HoldStore Counter Reserver PolicyLoad PolicyFile Idempotency ControlTypes Server Settle.
From S2P Require Metrics Config Sha2.

(** * Seeds *)

Definition no_url_letter (c : Ascii.ascii) : bool := negb (Ascii.eqb c "-" || Ascii.eqb c "_").

(** [base64.RawStdEncoding]: the standard alphabet without padding. *)
Definition RawStdEncode (s : string) : string := str_map std_char (EncodeToString s).
Definition RawStdDecode (s : string) : option string :=
  let s := drop_newlines s in
  if str_all no_url_letter s then decode_quads (str_map url_char s) else None.

Definition seed_decoders : list (string -> option string) := [StdDecode; RawStdDecode; DecodeString; hex_decode].

(** The loop: the first decoding that gives 32 bytes. *)
Fixpoint first_seed (decs : list (string -> option string)) (s : string) : option string :=
  match decs with
  | [] => None
  | dec :: decs =>
    match dec s with
    | Some b => if (String.length b =? 32)%nat then Some b else first_seed decs s
    | None => first_seed decs s
    end
  end.

Definition decodeSeed (s : string) : option string := first_seed seed_decoders s.

(** * Building a server ([server.New] and its [With] methods) *)

Definition set_control {W} (f : Control W -> Control W) (s : Server W) : Server W :=
  {| s_authz := s_authz s; s_authn := s_authn s; s_limiter := s_limiter s; s_tiers := s_tiers s; s_auditWriter := s_auditWriter s;
     s_auditStore := s_auditStore s; s_verifyDecision := s_verifyDecision s; s_retentionFor := s_retentionFor s; s_idem := s_idem s;
     s_budget := s_budget s; s_metrics := s_metrics s; s_control := f (s_control s) |}.

Section build.
Context {W : Type}.
Implicit Types (s : Server W).

(** [m] is the registry [metrics.New] makes. *)
Definition New_server (build : BuildInfo) (authz : string -> AuthorizeRequest -> bool -> io W (result engine_error Decision)) (authn : Authenticator W)
    (limiter : string -> Limits -> io W (result string RateLimit.Decision)) (tiers : TierTable) (m : Server.Metrics W)
    (checks : list (string * io W (result string unit))) : Server W :=
  {| s_authz := authz; s_authn := authn; s_limiter := limiter; s_tiers := tiers; s_auditWriter := None; s_auditStore := None;
     s_verifyDecision := None; s_retentionFor := None; s_idem := None; s_budget := None; s_metrics := Some m;
     s_control :=
       {| c_policySvc := None; c_bundleInvalidator := None; c_simulator := None; c_keyAdmin := None; c_keyCacheInvalidate := None;
          c_provisionToken := ""; c_keysJWKS := None; c_checks := checks; c_build := build |} |}.

Definition WithKeys (fn : io W (list JWK)) : Server W -> Server W :=
  set_control (fun c =>
    {| c_policySvc := c_policySvc c; c_bundleInvalidator := c_bundleInvalidator c; c_simulator := c_simulator c; c_keyAdmin := c_keyAdmin c;
       c_keyCacheInvalidate := c_keyCacheInvalidate c; c_provisionToken := c_provisionToken c; c_keysJWKS := Some fn; c_checks := c_checks c;
       c_build := c_build c |}).

Definition WithAudit (writer : Record_ -> io W unit) (store : AuditStore W) (verify : Decision -> result sign_error unit)
    (retentionFor : string -> duration) s : Server W :=
  {| s_authz := s_authz s; s_authn := s_authn s; s_limiter := s_limiter s; s_tiers := s_tiers s; s_auditWriter := Some writer;
     s_auditStore := Some store; s_verifyDecision := Some verify; s_retentionFor := Some retentionFor; s_idem := s_idem s;
     s_budget := s_budget s; s_metrics := s_metrics s; s_control := s_control s |}.

Definition WithIdempotency (store : IdempotencyStore W) s : Server W :=
  {| s_authz := s_authz s; s_authn := s_authn s; s_limiter := s_limiter s; s_tiers := s_tiers s; s_auditWriter := s_auditWriter s;
     s_auditStore := s_auditStore s; s_verifyDecision := s_verifyDecision s; s_retentionFor := s_retentionFor s; s_idem := Some store;
     s_budget := s_budget s; s_metrics := s_metrics s; s_control := s_control s |}.

Definition WithBudget (lifecycle : budgetLifecycle W) s : Server W :=
  {| s_authz := s_authz s; s_authn := s_authn s; s_limiter := s_limiter s; s_tiers := s_tiers s; s_auditWriter := s_auditWriter s;
     s_auditStore := s_auditStore s; s_verifyDecision := s_verifyDecision s; s_retentionFor := s_retentionFor s; s_idem := s_idem s;
     s_budget := Some lifecycle; s_metrics := s_metrics s; s_control := s_control s |}.

Definition WithControlPlane (svc : PolicyService W) (invalidator : string -> io W (result bundle_error unit))
    (sim : string -> string -> string -> list AuthorizeRequest -> io W (result sim_error (string * list Decision))) : Server W -> Server W :=
  set_control (fun c =>
    {| c_policySvc := Some svc; c_bundleInvalidator := Some invalidator; c_simulator := Some sim; c_keyAdmin := c_keyAdmin c;
       c_keyCacheInvalidate := c_keyCacheInvalidate c; c_provisionToken := c_provisionToken c; c_keysJWKS := c_keysJWKS c; c_checks := c_checks c;
       c_build := c_build c |}).

Definition WithKeyAdmin (admin : KeyAdmin W) (invalidate : string -> io W (result string unit)) : Server W -> Server W :=
  set_control (fun c =>
    {| c_policySvc := c_policySvc c; c_bundleInvalidator := c_bundleInvalidator c; c_simulator := c_simulator c; c_keyAdmin := Some admin;
       c_keyCacheInvalidate := Some invalidate; c_provisionToken := c_provisionToken c; c_keysJWKS := c_keysJWKS c; c_checks := c_checks c;
       c_build := c_build c |}).

Definition WithProvisioning (token : string) : Server W -> Server W :=
  set_control (fun c =>
    {| c_policySvc := c_policySvc c; c_bundleInvalidator := c_bundleInvalidator c; c_simulator := c_simulator c; c_keyAdmin := c_keyAdmin c;
       c_keyCacheInvalidate := c_keyCacheInvalidate c; c_provisionToken := token; c_keysJWKS := c_keysJWKS c; c_checks := c_checks c;
       c_build := c_build c |}).

(** The registry of [metrics.go], kept in a part of the world. *)
Definition registry (get : W -> Metrics.Metrics) (put : Metrics.Metrics -> W -> W) `{Unicode} : Server.Metrics W :=
  {| RecordDecision v l := fun w => (tt, put (Metrics.RecordDecision v l (get w)) w);
     RecordRateLimited := fun w => (tt, put (Metrics.RecordRateLimited (get w)) w);
     WriteText := fun w => (Metrics.WriteText (get w), w) |}.
End build.

(** * The platform *)

Record Platform (W : Type) := {
  pf_LookupEnv : string -> option string;
  pf_build : BuildInfo;
  pf_tracing : result string unit;
  pf_postgres : string -> result string unit;
  pf_redis : string -> result string unit;
  pf_ReadFile : string -> result string string;
  pf_pg_Ping : io W (result string unit);
  pf_redis_Ping : io W (result string unit);
  pf_holds : HoldStore W;
  pf_counter : Counter W;
  pf_policies : Signer -> PolicyService W;
  pf_provider : duration -> BundleProvider W;
  pf_Invalidate : string -> io W (result bundle_error unit);
  pf_Simulate : string -> string -> string -> list AuthorizeRequest -> io W (result sim_error (string * list Decision));
  pf_keys : KeyStore W;
  pf_keyAdmin : KeyAdmin W;
  pf_keyCache : KeyCache W;
  pf_keyCache_Invalidate : string -> io W (result string unit);
  pf_nonces : NonceStore W;
  pf_limiter : string -> Limits -> io W (result string RateLimit.Decision);
  pf_audit : Encryptor W -> AuditStore W;
  pf_Enqueue : Encryptor W -> Z -> Record_ -> io W unit;
  pf_idem : duration -> IdempotencyStore W;
  pf_metrics : string -> Server.Metrics W
}.
Arguments pf_LookupEnv {W} _ _.
Arguments pf_build {W} _.
Arguments pf_tracing {W} _.
Arguments pf_postgres {W} _ _.
Arguments pf_redis {W} _ _.
Arguments pf_ReadFile {W} _ _.
Arguments pf_pg_Ping {W} _ _.
Arguments pf_redis_Ping {W} _ _.
Arguments pf_holds {W} _.
Arguments pf_counter {W} _.
Arguments pf_policies {W} _ _.
Arguments pf_provider {W} _ _.
Arguments pf_Invalidate {W} _ _.
Arguments pf_Simulate {W} _ _ _ _ _.
Arguments pf_keys {W} _.
Arguments pf_keyAdmin {W} _.
Arguments pf_keyCache {W} _.
Arguments pf_keyCache_Invalidate {W} _ _.
Arguments pf_nonces {W} _.
Arguments pf_limiter {W} _ _ _.
Arguments pf_audit {W} _ _.
Arguments pf_Enqueue {W} _ _ _ _.
Arguments pf_idem {W} _ _.
Arguments pf_metrics {W} _ _.

(** Why the process exits before it serves. *)
Inductive boot_error :=
| TracingInit (msg : string)
| PostgresConnect (msg : string)
| RedisConnect (msg : string)
| SigningKeyDecode
| SigningKeyLoad (e : sign_error)
| SignerUnavailable (e : sign_error)
| PolicyLoadFailed (e : source_error)
| AuditKeyDecode
| AuditInit (e : audit_error).

(** What serves, and what runs beside it. *)
Record booted (W : Type) := {
  bt_config : Config.Config;
  bt_keyring : Keyring;
  bt_signer : Signer;
  bt_engine : Engine W;
  bt_reserver : Reserver W;
  bt_reconciler : Reconciler W;
  bt_encryptor : Encryptor W;
  bt_server : Server W
}.
Arguments bt_config {W} _.
Arguments bt_keyring {W} _.
Arguments bt_signer {W} _.
Arguments bt_engine {W} _.
Arguments bt_reserver {W} _.
Arguments bt_reconciler {W} _.
Arguments bt_encryptor {W} _.
Arguments bt_server {W} _.

Section boot.
Context {W : Type} `{Runtime W} `{Ed25519} `{Sha256} `{Jcs} `{BigRat} `{Unicode} `{Aead} `{PolicyDecoder} (pf : Platform W).

Definition fails {E A} (e : E -> boot_error) (r : result E A) : result boot_error A := match r with Ok a => Ok a | Err x => Err (e x) end.

(** The tracer and the stores, in order. *)
Definition connect (cfg : Config.Config) : result boot_error unit :=
  _ ← fails TracingInit (pf_tracing pf);
  _ ← fails PostgresConnect (pf_postgres pf (Config.DatabaseURL cfg));
  fails RedisConnect (pf_redis pf (Config.RedisURL cfg)).

(** The signing key of the configuration, or a fresh one. *)
Definition boot_keyring (cfg : Config.Config) : io W (result boot_error Keyring) :=
  if negb (String.eqb (Config.SigningPrivateKey cfg) "") then
    mret match decodeSeed (Config.SigningPrivateKey cfg) with
         | None => Err SigningKeyDecode
         | Some seed => fails SigningKeyLoad (SetActive (Config.SigningKeyID cfg) seed NewKeyring)
         end
  else
    bs ← rand_Read SeedSize;
    mret (Ok (GenerateActive (Sha2.of_bytes bs) NewKeyring).2).

Definition boot_policy (cfg : Config.Config) : result boot_error Engine.Policy :=
  fails PolicyLoadFailed
    (if negb (String.eqb (Config.PolicyFile cfg) "") then PolicyFile.Load (pf_ReadFile pf) (Config.PolicyFile cfg) else Default).

Definition boot_encryptor (cfg : Config.Config) : result boot_error (Encryptor W) :=
  if negb (String.eqb (Config.AuditEncryptionKey cfg) "") then
    match decodeSeed (Config.AuditEncryptionKey cfg) with
    | None => Err AuditKeyDecode
    | Some key => fails AuditInit (NewAESGCM key)
    end
  else Ok NopEncryptor.

Definition boot_engine (cfg : Config.Config) (signer : Signer) (pol : Engine.Policy) (r : Reserver W) : Engine W :=
  let e := WithReserver (Some (as_BudgetReserver r))
             (WithHoldTTL (Config.HoldTTL cfg) (WithSigner (Some signer) (NewEngine pol (sgn_keyID signer)))) in
  if Config.ControlPlaneEnabled cfg then WithProvider (Some (pf_provider pf (Config.BundleLoadTimeout cfg))) e else e.

Definition boot_authn (cfg : Config.Config) : Authenticator W :=
  let keyStore := {| cache := pf_keyCache pf; source := pf_keys pf; cache_ttl := Config.KeyCacheTTL cfg |} in
  Auth.New {| LookupByID := Cached_LookupByID keyStore |} (pf_nonces pf)
    {| cfg_MaxSkew := Config.HMACMaxSkew cfg; cfg_NonceTTL := Config.NonceTTL cfg |}.

Definition boot_server (cfg : Config.Config) (k : Keyring) (signer : Signer) (e : Engine W) (r : Reserver W) (enc : Encryptor W) : Server W :=
  let srv :=
    New_server (pf_build pf) (Authorize e) (boot_authn cfg) (pf_limiter pf) DefaultTiers (pf_metrics pf (bi_Version (pf_build pf)))
      [("postgres", pf_pg_Ping pf); ("redis", pf_redis_Ping pf)] in
  let srv := WithKeys (mret (JWKS k)) srv in
  let srv := WithAudit (pf_Enqueue pf enc (Config.AuditQueueSize cfg)) (pf_audit pf enc) (VerifyDecision k) (Config.RetentionFor cfg) srv in
  let srv := WithIdempotency (pf_idem pf (NewRedis (Config.IdempotencyTTL cfg))) srv in
  let srv := if Config.ControlPlaneEnabled cfg then WithControlPlane (pf_policies pf signer) (pf_Invalidate pf) (pf_Simulate pf) srv else srv in
  let srv := WithKeyAdmin (pf_keyAdmin pf) (pf_keyCache_Invalidate pf) srv in
  let srv := if negb (String.eqb (Config.ProvisionToken cfg) "") then WithProvisioning (Config.ProvisionToken cfg) srv else srv in
  WithBudget (lifecycle_of r) srv.

(** After the key ring. *)
Definition wire (cfg : Config.Config) (k : Keyring) : result boot_error (booted W) :=
  signer ← fails SignerUnavailable (Keyring_Signer k);
  pol ← boot_policy cfg;
  enc ← boot_encryptor cfg;
  let r := NewReserver (pf_counter pf) (pf_holds pf) (Config.HoldTTL cfg) in
  let e := boot_engine cfg signer pol r in
  Ok {| bt_config := cfg; bt_keyring := k; bt_signer := signer; bt_engine := e; bt_reserver := r;
        bt_reconciler := NewReconciler (pf_counter pf) (pf_holds pf) 0; bt_encryptor := enc; bt_server := boot_server cfg k signer e r enc |}.

Definition boot : io W (result boot_error (booted W)) :=
  let cfg := Config.Load (pf_LookupEnv pf) in
  match connect cfg with
  | Err e => mret (Err e)
  | Ok _ =>
    k ← boot_keyring cfg;
    mret (k ← k; wire cfg k)
  end.
End boot.

(** * The end of the process *)

(** The listener fails, or a signal arrives; then the server drains within its
    time or not, and the audit queue too. *)
Inductive stop := ListenFailed | Signalled (drained : bool) (flushed : bool).

(** The exit code, and whether the audit writer was closed. *)
Definition shutdown (s : stop) : Z * bool :=
  match s with
  | ListenFailed => (1, false)
  | Signalled false _ => (1, false)
  | Signalled true _ => (0, true)
  end.
