(* ===== verification/BootProps.v ===== *)
(** What booting guarantees: seeds read back in the encodings operators use, the
    service starts exactly when its configuration is usable, it never runs with
    weaker settings than the code promises, its decisions verify under the key
    set it publishes, and the capture deadline it states is one it keeps. *)

From S2P Require Import Prelude GoStrings GoTime Money RateLimit AuditLog AuditProps Policyctl BundleProv Auth AuthRedis Contracts Base64 Runtime Signing Engine Hold HoldStore Counter Reserver PolicyLoad PolicyFile Idempotency ControlTypes Server ServerCtl ServerProps AuthzVerify Settle Boot.
From S2P Require Metrics Config Sha2.

(** * Seeds *)

Lemma encode_size s : (4 * String.length s <= 3 * String.length (EncodeToString s) <= 4 * String.length s + 2)%nat.
Proof. induction s as [|a|a b|a b c r IH] using blocks_ind; cbn [EncodeToString String.length] in *; lia. Qed.

(** Strings by blocks of four characters, as the decoder reads them. *)
Lemma quads_ind (P : string -> Prop) :
  P EmptyString -> (forall a, P (String a EmptyString)) -> (forall a b, P (String a (String b EmptyString))) ->
  (forall a b c, P (String a (String b (String c EmptyString)))) ->
  (forall a b c d r, P r -> P (String a (String b (String c (String d r))))) ->
  forall s, P s.
Proof. intros H0 H1 H2 H3 H4. fix F 1. intros [|a [|b [|c [|d r]]]]; [apply H0|apply H1|apply H2|apply H3|apply H4, F]. Qed.

Lemma decode_size s x : decode_quads s = Some x -> (4 * String.length x <= 3 * String.length s <= 4 * String.length x + 2)%nat.
Proof.
  revert x. induction s as [|a|a b|a b c|a b c d r IH] using quads_ind; cbn [decode_quads]; intros x E.
  - injection E as <-. cbn. lia.
  - discriminate.
  - destruct (b64_val a), (b64_val b); try discriminate. injection E as <-. cbn. lia.
  - destruct (b64_val a), (b64_val b), (b64_val c); try discriminate. injection E as <-. cbn. lia.
  - destruct (b64_val a), (b64_val b), (b64_val c), (b64_val d); try discriminate. cbn [mbind option_bind] in E.
    destruct (decode_quads r) as [t|]; [|discriminate]. injection E as <-. specialize (IH t eq_refl). cbn [String.length]. lia.
Qed.

Lemma first_seed_hit dec decs s b : dec s = Some b -> String.length b = 32%nat -> first_seed (dec :: decs) s = Some b.
Proof. intros Hd Hb. cbn. rewrite Hd, Hb. done. Qed.

Lemma first_seed_skip dec decs s : (forall b, dec s = Some b -> String.length b <> 32%nat) -> first_seed (dec :: decs) s = first_seed decs s.
Proof. intros Hd. cbn. destruct (dec s) as [b|]; [|done]. specialize (Hd b eq_refl). apply Nat.eqb_neq in Hd. by rewrite Hd. Qed.

Lemma no_newlines p s : (forall c, p c = true -> is_newline c = false) -> str_all p s = true -> drop_newlines s = s.
Proof. intros Hp Hs. apply drop_newlines_none. eapply str_all_impl; [|exact Hs]. intros c Hc. cbn. by rewrite (Hp c Hc). Qed.

(** The padded decoder refuses a length that is not a multiple of four. *)
Lemma StdDecode_length s b : drop_newlines s = s -> StdDecode s = Some b -> (String.length s mod 4 = 0)%nat.
Proof. unfold StdDecode. intros ->. by destruct (Nat.eqb_spec (String.length s mod 4) 0). Qed.

Lemma b64_not_newline c : is_b64 c = true -> is_newline c = false.
Proof. destruct c as [[] [] [] [] [] [] [] []]; vm_compute; congruence. Qed.

Lemma std_ok_not_newline c : std_ok c = true -> is_newline c = false.
Proof. unfold std_ok. destruct (is_newline c); [|done]. by rewrite andb_false_r. Qed.

Lemma std_ok_no_url c : std_ok c = true -> no_url_letter c = true.
Proof. unfold std_ok, no_url_letter. by intros [_ ?]%andb_true_iff. Qed.

Lemma url_char_b64 s : str_all is_b64 s = true -> str_map url_char s = s.
Proof.
  induction s as [|c s IH]; [done|]. cbn. intros [Hc Hs]%andb_true_iff. rewrite IH by done. f_equal.
  revert Hc. destruct c as [[] [] [] [] [] [] [] []]; vm_compute; congruence.
Qed.

Lemma RawStdDecode_RawStdEncode s : RawStdDecode (RawStdEncode s) = Some s.
Proof.
  destruct (b64_encode_shape s) as [Hb _]. destruct (std_map_ok _ Hb) as [Hok Hback]. unfold RawStdDecode, RawStdEncode.
  rewrite (no_newlines std_ok) by (done || apply std_ok_not_newline). rewrite (str_all_impl std_ok) by (done || apply std_ok_no_url).
  rewrite Hback. apply decode_quads_encode.
Qed.

Definition is_hex (c : Ascii.ascii) : bool := match hex_val c with Some _ => true | None => false end.

Lemma hex_is_hex s : str_all is_hex (hex_encode s) = true.
Proof.
  assert (Hc : forall d, 0 <= d < 16 -> is_hex (hex_char d) = true) by (intros d Hd; unfold is_hex; by rewrite hex_val_char).
  induction s as [|c s IH]; [done|]. pose proof (byte_val_range c). cbn [hex_encode str_all]. rewrite !Hc, IH by zlia. done.
Qed.

(** A string of hex digits holds no base64 seed: of 64 characters it decodes to
    48 bytes. *)
Lemma hex_is_std c : is_hex c = true -> std_ok c = true.
Proof. destruct c as [[] [] [] [] [] [] [] []]; vm_compute; congruence. Qed.

Lemma drop_pad_none s : str_all std_ok s = true -> (drop_pad s).1 = s.
Proof. intros Hs. rewrite <- (str_app_nil_r s) at 1. by apply drop_pad_app; [|left]. Qed.

(** A seed reads back.  Every 32-byte seed is decoded to itself from standard
    base64 with and without padding, from base64url without padding and from
    hexadecimal, although a text in one encoding is often also a text in
    another; and whatever decodes has 32 bytes, so it is a usable key. *)
Theorem decodeSeed_reads_back b (Hb : String.length b = 32%nat) :
  decodeSeed (StdEncode b) = Some b /\ decodeSeed (RawStdEncode b) = Some b /\ decodeSeed (EncodeToString b) = Some b /\
  decodeSeed (hex_encode b) = Some b /\ forall s x, decodeSeed s = Some x -> String.length x = 32%nat.
Proof.
  pose proof (encode_size b) as He. rewrite Hb in He. destruct (b64_encode_shape b) as [Hb64 _]. destruct (std_map_ok _ Hb64) as [Hok _].
  assert (Hraw : forall x, StdDecode (RawStdEncode b) = Some x -> String.length x <> 32%nat).
  { intros x Hx%StdDecode_length; [|by apply (no_newlines std_ok); [apply std_ok_not_newline|]]. unfold RawStdEncode in Hx. rewrite str_map_length in Hx.
    assert (String.length (EncodeToString b) = 43%nat) as E by lia. by rewrite E in Hx. }
  assert (Hurl : forall x, StdDecode (EncodeToString b) = Some x -> String.length x <> 32%nat).
  { intros x Hx%StdDecode_length; [|by apply (no_newlines is_b64); [apply b64_not_newline|]].
    assert (String.length (EncodeToString b) = 43%nat) as E by lia. by rewrite E in Hx. }
  unfold decodeSeed, seed_decoders. split_and!.
  - apply first_seed_hit; [apply StdDecode_StdEncode|done].
  - rewrite first_seed_skip by done. apply first_seed_hit; [apply RawStdDecode_RawStdEncode|done].
  - rewrite first_seed_skip by done. destruct (RawStdDecode (EncodeToString b)) as [x|] eqn:Ex.
    + assert (x = b) as ->; [|by apply first_seed_hit].
      unfold RawStdDecode in Ex. rewrite (no_newlines is_b64) in Ex by (done || apply b64_not_newline). destruct (str_all no_url_letter _); [|done].
      rewrite url_char_b64, decode_quads_encode in Ex by done. by injection Ex.
    + rewrite first_seed_skip by (intros y Hy; congruence). apply first_seed_hit; [apply DecodeString_EncodeToString|done].
  - pose proof (hex_is_hex b) as Hh. assert (Hs : str_all std_ok (hex_encode b) = true) by (eapply str_all_impl; [apply hex_is_std|exact Hh]).
    assert (Hn : drop_newlines (hex_encode b) = hex_encode b) by (apply (no_newlines std_ok); [apply std_ok_not_newline|done]).
    assert (Hq : forall f x, (forall s, String.length (str_map f s) = String.length s) -> decode_quads (str_map f (hex_encode b)) = Some x -> String.length x <> 32%nat).
    { intros f x Hf Hx%decode_size. rewrite Hf, hex_encode_length, Hb in Hx. lia. }
    rewrite first_seed_skip; [rewrite first_seed_skip; [rewrite first_seed_skip; [apply first_seed_hit; [apply hex_decode_encode|done]|]|]|]; intros x Hx.
    + unfold DecodeString in Hx. rewrite Hn in Hx. apply decode_size in Hx. rewrite hex_encode_length, Hb in Hx. lia.
    + unfold RawStdDecode in Hx. rewrite Hn in Hx. destruct (str_all no_url_letter _); [|done]. by apply (Hq url_char); [apply str_map_length|].
    + unfold StdDecode in Hx. rewrite Hn in Hx. destruct (negb _); [done|]. rewrite drop_pad_none in Hx by done.
      match type of Hx with (if ?c then _ else _) = _ => destruct c end; [|done]. by apply (Hq url_char); [apply str_map_length|].
  - intros s x. generalize [StdDecode; RawStdDecode; DecodeString; hex_decode]. intros decs. induction decs as [|dec decs IH]; [done|]. cbn.
    destruct (dec s) as [y|]; [|done]. destruct (Nat.eqb_spec (String.length y) 32); [|done]. by intros [= <-].
Qed.

(** * When the service starts *)

Lemma decodeSeed_size s b : decodeSeed s = Some b -> String.length b = 32%nat.
Proof.
  unfold decodeSeed. generalize seed_decoders. intros decs. induction decs as [|dec decs IH]; [done|]. cbn.
  destruct (dec s) as [y|]; [|done]. destruct (Nat.eqb_spec (String.length y) 32); [|done]. by intros [= <-].
Qed.

Section boot.
Context {W : Type} `{Runtime W} `{Ed25519} `{Sha256} `{Jcs} `{BigRat} `{Unicode} `{Aead} `{PolicyDecoder} (pf : Platform W).

(** A key is not configured, or is a seed. *)
Definition usable_key (s : string) : Prop := s = "" \/ is_Some (decodeSeed s).

(** The policy file, when one is named, holds a policy; the shipped one has a
    content version. *)
Definition usable_policy (cfg : Config.Config) : Prop :=
  if String.eqb (Config.PolicyFile cfg) "" then is_ok (contentVersion (f_Predicates default_file)) = true
  else exists raw f, pf_ReadFile pf (Config.PolicyFile cfg) = Ok raw /\ decode_file raw = Ok f /\ is_ok (Parse f) = true.

Lemma boot_policy_usable cfg : is_ok (boot_policy pf cfg) = true <-> usable_policy cfg.
Proof using Type.
  unfold boot_policy, usable_policy. destruct (String.eqb (Config.PolicyFile cfg) ""); cbn [negb].
  - rewrite Default_spec. by destruct (contentVersion _).
  - unfold PolicyFile.Load, Parse_text. split.
    + destruct (pf_ReadFile pf _) as [raw|]; [|done]. destruct (decode_file raw) as [f|] eqn:Ef; [|done]. intros Hp. exists raw, f.
      split_and!; [done..|]. by destruct (Parse f).
    + intros (raw & f & -> & -> & Hp). by destruct (Parse f).
Qed.

Lemma boot_encryptor_usable cfg : is_ok (boot_encryptor (W:=W) cfg) = true <-> usable_key (Config.AuditEncryptionKey cfg).
Proof using Type.
  unfold boot_encryptor, usable_key. destruct (String.eqb_spec (Config.AuditEncryptionKey cfg) "") as [->|Hk]; cbn [negb]; [by split; [left|]|].
  destruct (decodeSeed _) as [key|] eqn:Ed.
  - unfold NewAESGCM. rewrite (decodeSeed_size _ _ Ed). cbn. split; [by right|done].
  - split; [done|]. intros [?|[? ?]]; done.
Qed.

Lemma boot_keyring_usable cfg w : is_ok (boot_keyring cfg w).1 = true <-> usable_key (Config.SigningPrivateKey cfg).
Proof using Type.
  unfold boot_keyring, usable_key. destruct (String.eqb_spec (Config.SigningPrivateKey cfg) "") as [->|Hk]; cbn [negb]; [split; [by left|]; intros _; by rewrite bind_let|].
  cbn [fst mret io_ret]. destruct (decodeSeed _) as [seed|] eqn:Ed.
  - unfold SetActive, SeedSize. rewrite (decodeSeed_size _ _ Ed). cbn. split; [by right|done].
  - split; [done|]. intros [?|[? ?]]; done.
Qed.

(** The booted key ring has one key, and its signer. *)
Lemma boot_keyring_ok cfg w k w1 : boot_keyring cfg w = (Ok k, w1) ->
  rotates NewKeyring k /\ exists s, Keyring_Signer k = Ok s.
Proof using Type.
  unfold boot_keyring. destruct (negb _).
  - intros E. destruct (decodeSeed _) as [seed|]; [|done]. destruct (SetActive _ seed NewKeyring) as [k'|] eqn:Es; [|done]. injection E as <- _.
    split; [eexists; by eapply kr_SetActive|]. unfold SetActive in Es. destruct (negb _); [done|]. injection Es as <-.
    eexists. unfold Keyring_Signer, install_active. cbn. by rewrite lookup_insert_eq.
  - rewrite bind_let. intros [= <- _]. split; [eexists; by eapply kr_GenerateActive|].
    eexists. unfold Keyring_Signer, GenerateActive, install_active. cbn. by rewrite lookup_insert_eq.
Qed.

Lemma fails_ok {E A} (e : E -> boot_error) (r : result E A) : is_ok (fails e r) = is_ok r.
Proof using Type. by destruct r. Qed.

Lemma connect_ok cfg :
  is_ok (connect pf cfg) = true <->
  is_ok (pf_tracing pf) = true /\ is_ok (pf_postgres pf (Config.DatabaseURL cfg)) = true /\ is_ok (pf_redis pf (Config.RedisURL cfg)) = true.
Proof using Type.
  unfold connect. destruct (pf_tracing pf) as [[]|]; [|split; [done|intros (? & _); done]]. cbn [fails mbind result_bind].
  destruct (pf_postgres pf _) as [[]|]; [|split; [done|intros (_ & ? & _); done]]. cbn [fails mbind result_bind]. rewrite fails_ok. tauto.
Qed.

Lemma wire_ok cfg k s :
  Keyring_Signer k = Ok s -> is_ok (wire pf cfg k) = true <-> is_ok (boot_policy pf cfg) = true /\ is_ok (boot_encryptor (W:=W) cfg) = true.
Proof using Type.
  intros Hs. unfold wire. rewrite Hs. cbn [fails mbind result_bind]. destruct (boot_policy pf cfg) as [pol|]; [|split; [done|intros [? _]; done]].
  cbn [mbind result_bind]. destruct (boot_encryptor cfg) as [enc|]; [|split; [done|intros [_ ?]; done]]. done.
Qed.

(** What a booted service was built from. *)
Lemma boot_inv w b w1 : boot pf w = (Ok b, w1) ->
  let cfg := Config.Load (pf_LookupEnv pf) in
  exists k signer pol enc, boot_keyring cfg w = (Ok k, w1) /\ Keyring_Signer k = Ok signer /\ boot_policy pf cfg = Ok pol /\
    boot_encryptor cfg = Ok enc /\
    let r := NewReserver (pf_counter pf) (pf_holds pf) (Config.HoldTTL cfg) in
    let e := boot_engine pf cfg signer pol r in
    b = {| bt_config := cfg; bt_keyring := k; bt_signer := signer; bt_engine := e; bt_reserver := r;
           bt_reconciler := NewReconciler (pf_counter pf) (pf_holds pf) 0; bt_encryptor := enc; bt_server := boot_server pf cfg k signer e r enc |}.
Proof using Type.
  unfold boot. cbv zeta. set (cfg := Config.Load _). destruct (connect pf cfg) as [[]|]; [|done]. rewrite bind_let.
  destruct (boot_keyring cfg w) as [[k|e] w2] eqn:Ek; cbn [fst snd]; [|done]. intros E. injection E as Ew <-. cbn [mbind result_bind] in Ew.
  unfold wire in Ew. destruct (Keyring_Signer k) as [signer|] eqn:Es; [|done]. cbn [fails mbind result_bind] in Ew.
  destruct (boot_policy pf cfg) as [pol|] eqn:Ep; [|done]. cbn [mbind result_bind] in Ew. destruct (boot_encryptor cfg) as [enc|] eqn:Ee; [|done].
  injection Ew as <-. by exists k, signer, pol, enc.
Qed.
End boot.

(** C36: The service starts exactly when its configuration is usable.  It serves
    if the tracer, Postgres and Redis answer, the signing key and the audit key
    are unset or decode to 32 bytes, and the policy file, if one is named, reads
    and parses, every predicate in it valid; in every other case the process
    exits, so it never runs with a key or a policy it could not read. *)
Theorem boot_serves_iff {W} `{Runtime W} `{Ed25519} `{Sha256} `{Jcs} `{BigRat} `{Unicode} `{Aead} `{PolicyDecoder} (pf : Platform W) w :
  let cfg := Config.Load (pf_LookupEnv pf) in
  is_ok (boot pf w).1 = true <->
  (is_ok (pf_tracing pf) = true /\ is_ok (pf_postgres pf (Config.DatabaseURL cfg)) = true /\ is_ok (pf_redis pf (Config.RedisURL cfg)) = true) /\
  usable_key (Config.SigningPrivateKey cfg) /\ usable_policy pf cfg /\ usable_key (Config.AuditEncryptionKey cfg).
Proof.
  cbv zeta. unfold boot. set (cfg := Config.Load _). rewrite <- connect_ok, <- (boot_keyring_usable cfg w), <- boot_policy_usable, <- (boot_encryptor_usable (W:=W)).
  destruct (connect pf cfg) as [[]|]; [|split; [done|intros [? _]; done]]. rewrite bind_let.
  destruct (boot_keyring cfg w) as [[k|e] w2] eqn:Ek; cbn [fst snd mret io_ret mbind result_bind]; [|split; [done|intros (_ & ? & _); done]].
  destruct (boot_keyring_ok _ _ _ _ Ek) as [_ [s Hs]]. rewrite (wire_ok pf cfg k s Hs). tauto.
Qed.

(** * Its decisions verify *)

(** A decision of an engine with a signer was signed by it. *)
Lemma Authorize_signed {W} `{Runtime W} `{Ed25519} `{Jcs} `{BigRat} `{Unicode} (e : Engine W) orgID req shadow w d w' s :
  e_Signer e = Some s -> Authorize e orgID req shadow w = (Ok d, w') ->
  exists d0 d1, Sign s d0 = Ok d1 /\ signedView d = signedView d0 /\ dec_Signature d = dec_Signature d1.
Proof.
  intros Hs. unfold Authorize. rewrite !bind_let. destruct (resolve_policy e orgID (now w).2) as [[pol|er] w2]; cbn [fst snd]; [|done].
  rewrite bind_let. destruct (evalLocal _ _) as [rs ms]. rewrite bind_let. destruct (budget_step _ _ _ _ _ _ _ _ _) as [[[rs' ms'] held] w3]. cbn [fst snd].
  rewrite bind_let. unfold seal. rewrite Hs. set (d0 := set_Signature _ _). destruct (Sign s d0) as [d1|] eqn:Es; [|done]. rewrite bind_let. intros [= <- _].
  exists d0, d1. split; [done|]. unfold Sign in Es. apply result_bind_ok in Es as (msg & _ & [= <-]). done.
Qed.

Lemma boot_server_fields {W} `{Runtime W} `{Ed25519} `{Sha256} `{Jcs} `{BigRat} `{Unicode} (pf : Platform W) cfg k signer e r enc :
  let s := boot_server pf cfg k signer e r enc in
  s_authz s = Authorize e /\ s_authn s = boot_authn pf cfg /\ s_verifyDecision s = Some (VerifyDecision k) /\
  s_budget s = Some (lifecycle_of r) /\ s_idem s = Some (pf_idem pf (NewRedis (Config.IdempotencyTTL cfg))) /\
  s_auditWriter s = Some (pf_Enqueue pf enc (Config.AuditQueueSize cfg)) /\ c_keysJWKS (s_control s) = Some (mret (JWKS k)) /\
  c_provisionToken (s_control s) = Config.ProvisionToken cfg /\ mounted s EpPublish = Config.ControlPlaneEnabled cfg /\
  mounted s EpProvision = negb (String.eqb (Config.ProvisionToken cfg) "") /\ mounted s EpKeysPublic = true.
Proof.
  unfold boot_server. destruct (Config.ControlPlaneEnabled cfg) eqn:Ec, (String.eqb (Config.ProvisionToken cfg) "") eqn:Et; cbn -[String.eqb]; rewrite ?Et;
    split_and!; try done; by apply String.eqb_eq in Et.
Qed.

Lemma boot_engine_signer {W} `{Runtime W} (pf : Platform W) cfg signer pol r :
  e_Signer (boot_engine pf cfg signer pol r) = Some signer /\ e_SigningKeyID (boot_engine pf cfg signer pol r) = sgn_keyID signer /\
  e_HoldTTL (boot_engine pf cfg signer pol r) = Config.HoldTTL cfg /\ e_Reserver (boot_engine pf cfg signer pol r) = Some (as_BudgetReserver r) /\
  e_Policy (boot_engine pf cfg signer pol r) = pol /\ (Config.ControlPlaneEnabled cfg = false -> e_Provider (boot_engine pf cfg signer pol r) = None).
Proof. unfold boot_engine. by destruct (Config.ControlPlaneEnabled cfg). Qed.

(** C35: Every decision of a booted service verifies.  A decision it answers to
    [/v1/authorize] verifies under its key ring; and a third party that has only
    the decision and what [/v1/keys/public] answers can check it: given that key
    set, [authz-verify] exits with 0.  This holds for a configured key and for
    one generated at boot. *)
Theorem booted_decisions_verify {W} `{Runtime W} `{Ed25519Laws} `{Sha256} `{Jcs} `{BigRat} `{Unicode} `{Aead} `{PolicyDecoder} `{RequestDecoder}
  `{ControlDecoder} `{VerifyDecoder} (pf : Platform W) w b w1 c r w2 x w3 d
  (Hboot : boot pf w = (Ok b, w1)) (Hrun : authorize_endpoint (bt_server b) c r w2 = (Some x, w3))
  (Hd : resp_Body x = PDecision d) (Hfresh : resp_Header x !! "X-Idempotent-Replay" = None) :
  VerifyDecision (bt_keyring b) d = Ok tt /\
  forall c' r' w', rq_Method r' = "GET" ->
    exists y set, (route (bt_server b) EpKeysPublic c' r' w').1 = Some y /\ resp_Body y = PControl (PJwks set) /\
      forall out path url, loadDecision out path = Ok d -> key_set out "" url = Ok set -> verify_main out path "" url "" = 0.
Proof.
  apply boot_inv in Hboot as (k & signer & pol & enc & Hk & Hs & _ & _ & ->). cbn [bt_server bt_keyring].
  destruct (boot_keyring_ok _ _ _ _ Hk) as [Hrot _]. set (cfg := Config.Load _) in *. set (e := boot_engine pf cfg signer pol _) in *.
  pose proof (boot_server_fields pf cfg k signer e (NewReserver (pf_counter pf) (pf_holds pf) (Config.HoldTTL cfg)) enc) as (Haz & _ & _ & _ & _ & _ & Hj & _ & _ & _ & Hm).
  assert (Hreach : reachable (eq NewKeyring) rotates k) by (eapply reach_step; [by apply reach_init|done]).
  assert (Hv : VerifyDecision k d = Ok tt).
  { destruct (authorize_endpoint_run _ _ _ _ _ _ Hrun) as [x w' pb Hb _|p req st w4 d' w' _ _ _|p req w4 w5 x w' _ _ Ef].
    - congruence.
    - done.
    - destruct (fresh_response _ _ (authed c p) r p _ _ _ _ eq_refl Ef Hd) as (w6 & Ea & _). cbn [bt_server] in Ea. rewrite Haz in Ea.
      destruct (Authorize_signed e _ _ _ _ _ _ signer (proj1 (boot_engine_signer _ _ _ _ _)) Ea) as (d0 & d1 & Hsig & Hview & Hsg).
      destruct (Signer_spec _ _ (reachable_keyring_wf _ Hreach) Hs) as (seed & Hpriv & Hpub).
      pose proof Hsig as Hd1. unfold Signing.Sign in Hd1. apply result_bind_ok in Hd1 as (msg & _ & [= <-]).
      unfold VerifyDecision. rewrite Hsg. cbn [dec_Signature set_Signature sig_KeyID SignDetached]. rewrite Hpub.
      eapply (Verify_signed signer d0); [exact Hsig | apply public_size | | exact Hview | exact Hsg]. intros m. rewrite Hpriv. apply sign_verifies. }
  split; [done|]. intros c' r' w' Hget. unfold route. rewrite Hm. cbn [negb]. unfold keysPublic_endpoint, method. rewrite Hget. change (negb (String.eqb "GET" "GET")) with false. cbv iota.
  unfold handleKeysPublic. rewrite Hj. cbv iota. rewrite bind_let. eexists _, (JWKS k). split; [reflexivity|]. split; [reflexivity|]. intros out path url Hl Hset.
  unfold verify_main, run, resolveKey. rewrite Hl. cbn [mbind result_bind negb String.eqb]. rewrite Hset. cbn [mbind result_bind].
  unfold VerifyDecision in Hv. pose proof (published_key k (sig_KeyID (dec_Signature d)) Hreach) as Hp.
  destruct (find_first _ (JWKS k)) as [j|]; [destruct Hp as (p & -> & Hpk)|]; [|rewrite Hp in Hv; done]. rewrite Hpk in Hv. cbn. by rewrite Hv.
Qed.

(** * Its settings *)

(** C34: A booted service keeps the settings the code promises.  Whatever the
    environment holds: every duration and the queue size fit [int64]; if the
    accepted clock skew is under 2^62 ns (146 years; twice of it fits [int64]), a
    nonce is remembered for at least twice that long; the engine states the
    lifetime that the reserver gives a hold, and it is positive; the lifetime of
    a cached decision, the reconciler's interval and its batch are positive (the
    lifetime of a cached key is taken as it is); the control plane and the provisioning endpoint are mounted
    exactly when they are enabled; and the audit log stores plaintext only when
    no key is configured. *)
Theorem booted_settings {W} `{Runtime W} `{Ed25519} `{Sha256} `{Jcs} `{BigRat} `{Unicode} `{Aead} `{PolicyDecoder} (pf : Platform W) w b w1
  (Hboot : boot pf w = (Ok b, w1)) :
  let cfg := Config.Load (pf_LookupEnv pf) in let s := bt_server b in
  Forall (fun d => in_int64 d = true) (Config.durations_of cfg) /\ in_int64 (Config.AuditQueueSize cfg) = true /\
  (Z.abs (Config.HMACMaxSkew cfg) < 2 ^ 62 -> 2 * maxSkew (s_authn s) <= nonceTTL (s_authn s)) /\
  s_authz s = Authorize (bt_engine b) /\ e_Reserver (bt_engine b) = Some (as_BudgetReserver (bt_reserver b)) /\
  holdTTL (bt_engine b) = r_holdTTL (bt_reserver b) /\ 0 < holdTTL (bt_engine b) /\
  0 < NewRedis (Config.IdempotencyTTL cfg) /\ 0 < run_interval (Config.BudgetReconcileInterval cfg) /\ 0 < rc_batch (bt_reconciler b) /\
  mounted s EpPublish = Config.ControlPlaneEnabled cfg /\ mounted s EpProvision = negb (String.eqb (Config.ProvisionToken cfg) "") /\
  (if String.eqb (Config.AuditEncryptionKey cfg) "" then bt_encryptor b = NopEncryptor
   else exists key, decodeSeed (Config.AuditEncryptionKey cfg) = Some key /\ NewAESGCM key = Ok (bt_encryptor b)).
Proof.
  cbv zeta. apply boot_inv in Hboot as (k & signer & pol & enc & _ & _ & _ & He & ->). set (cfg := Config.Load _) in *.
  cbn [bt_server bt_engine bt_reserver bt_reconciler bt_encryptor]. set (r := NewReserver _ _ _). set (e := boot_engine _ _ _ _ _).
  destruct (boot_server_fields pf cfg k signer e r enc) as (-> & -> & _ & _ & _ & _ & _ & _ & -> & -> & _).
  destruct (boot_engine_signer pf cfg signer pol r) as (_ & _ & Httl & Hres & _). destruct (Config.Load_range (pf_LookupEnv pf)) as [Hd Hq].
  split; [done|]. split; [done|]. split.
  { intros Hs. cbn [boot_authn Auth.New maxSkew nonceTTL cfg_MaxSkew cfg_NonceTTL]. assert (mul64 2 (Config.HMACMaxSkew cfg) = 2 * Config.HMACMaxSkew cfg) as ->.
    { unfold mul64. apply wrap64_small, in_int64_spec. lia. }
    destruct (Z.ltb_spec (Config.NonceTTL cfg) (2 * Config.HMACMaxSkew cfg)); lia. }
  destruct (same_TTL e (pf_counter pf) (pf_holds pf) (Config.HoldTTL cfg) Httl) as [Hsame Hpos].
  split; [done|]. split; [done|]. split; [done|]. split; [done|]. split; [|split; [|split; [|split; [done|split; [done|]]]]].
  - unfold NewRedis, Hour, Minute, Second, nanos. destruct (Z.leb_spec (Config.IdempotencyTTL cfg) 0); lia.
  - unfold run_interval, Minute, Second, nanos. destruct (Z.leb_spec (Config.BudgetReconcileInterval cfg) 0); lia.
  - done.
  - unfold boot_encryptor in He. destruct (String.eqb _ ""); cbn [negb] in He; [by injection He|].
    destruct (decodeSeed _) as [key|]; [|done]. exists key. split; [done|]. by destruct (NewAESGCM key) as [?|]; [injection He as ->|].
Qed.
