(* ===== verification/Router.v ===== *)
(** The routes of the service ([Handler] of [server.go]): the patterns it
    registers, how [http.ServeMux] picks one for a path, and what of the service
    can be reached without credentials.

    A path is its segments, unescaped, as the multiplexer sees them: the ones
    after the leading slash, the last empty when it ends in a slash.  A path
    that is not clean ([//], [..]) is redirected before it gets here. *)

From S2P Require Import Prelude GoStrings Runtime Auth Signing Contracts ControlTypes Server ServerCtl ServerProps.

Inductive seg := Lit (s : string) | Wild.

(** In the order of registration; [Wild] is the [{id}]. *)
Definition routes : list (list seg * endpoint) :=
  [ ([Lit "v1"; Lit "authorize"], EpAuthorize);
    ([Lit "v1"; Lit "authorize"; Wild; Lit "capture"], EpCapture);
    ([Lit "v1"; Lit "authorize"; Wild; Lit "void"], EpVoid);
    ([Lit "v1"; Lit "decisions"; Wild], EpGetDecision);
    ([Lit "v1"; Lit "decisions"], EpListDecisions);
    ([Lit "v1"; Lit "policies"], EpPolicies);
    ([Lit "v1"; Lit "policies"; Lit "active"], EpActiveBundle);
    ([Lit "v1"; Lit "policies"; Wild], EpPolicyItem);
    ([Lit "v1"; Lit "policies"; Wild; Lit "publish"], EpPublish);
    ([Lit "v1"; Lit "policies"; Wild; Lit "rollback"], EpRollback);
    ([Lit "v1"; Lit "policies"; Wild; Lit "versions"], EpVersions);
    ([Lit "v1"; Lit "policies"; Wild; Lit "simulate"], EpSimulate);
    ([Lit "v1"; Lit "keys"], EpKeys);
    ([Lit "v1"; Lit "keys"; Wild; Lit "revoke"], EpRevoke);
    ([Lit "v1"; Lit "provision"; Lit "keys"], EpProvision);
    ([Lit "v1"; Lit "keys"; Lit "public"], EpKeysPublic);
    ([Lit "v1"; Lit "health"], EpHealth);
    ([Lit "health"], EpHealth);
    ([Lit "metrics"], EpMetrics) ].

(** * The multiplexer *)

(** What is left of the patterns after a segment: those that name it, and those
    that take any. *)
Definition advance_lit {A} (x : string) (pats : list (list seg * A)) : list (list seg * A) :=
  omap (fun p => match p with (Lit y :: l, a) => if String.eqb x y then Some (l, a) else None | _ => None end) pats.
Definition advance_wild {A} (pats : list (list seg * A)) : list (list seg * A) :=
  omap (fun p => match p with (Wild :: l, a) => Some (l, a) | _ => None end) pats.
Definition finished {A} (pats : list (list seg * A)) : option A :=
  head (omap (fun p => match p with ([], a) => Some a | _ => None end) pats).

(** [matchPath] of the routing tree: a literal child first, then the wildcard,
    which takes no empty segment; the values it took in order. *)
Fixpoint match_path {A} (pats : list (list seg * A)) (path : list string) : option (A * list string) :=
  match path with
  | [] => a ← finished pats; Some (a, [])
  | x :: path =>
    match match_path (advance_lit x pats) path with
    | Some r => Some r
    | None =>
      if String.eqb x "" then None
      else '(a, ids) ← match_path (advance_wild pats) path; Some (a, x :: ids)
    end
  end.

(** A pattern filled in with values. *)
Fixpoint fills (pat : list seg) (ids path : list string) : Prop :=
  match pat, path with
  | [], [] => ids = []
  | Lit y :: pat, x :: path => x = y /\ fills pat ids path
  | Wild :: pat, x :: path => x <> "" /\ match ids with i :: ids => i = x /\ fills pat ids path | [] => False end
  | _, _ => False
  end.

Lemma match_path_sound {A} (pats : list (list seg * A)) path a ids :
  match_path pats path = Some (a, ids) -> exists pat, (pat, a) ∈ pats /\ fills pat ids path.
Proof.
  revert pats ids. induction path as [|x path IH]; intros pats ids; cbn [match_path].
  - unfold finished. destruct (head _) as [a'|] eqn:Eh; [|done]. intros [= <- <-]. apply head_Some_elem_of, list_elem_of_omap in Eh as ([pat a2] & Hin & Hp).
    destruct pat; [injection Hp as ->|done]. by exists [].
  - destruct (match_path (advance_lit x pats) path) as [[a' ids']|] eqn:El.
    + intros [= <- <-]. apply IH in El as (pat & Hin & Hf). apply list_elem_of_omap in Hin as ([pat' a2] & Hin & Hp).
      destruct pat' as [|[y|] pat']; try done. destruct (String.eqb_spec x y) as [->|]; [|done]. injection Hp as -> ->. by exists (Lit y :: pat).
    + destruct (String.eqb_spec x ""); [done|]. destruct (match_path (advance_wild pats) path) as [[a' ids']|] eqn:Ew; [|done].
      intros [= <- <-]. apply IH in Ew as (pat & Hin & Hf). apply list_elem_of_omap in Hin as ([pat' a2] & Hin & Hp).
      destruct pat' as [|[y|] pat']; try done. injection Hp as -> ->. by exists (Wild :: pat).
Qed.

Lemma match_path_complete {A} (pats : list (list seg * A)) path pat a ids :
  (pat, a) ∈ pats -> fills pat ids path -> is_Some (match_path pats path).
Proof.
  revert pats pat ids. induction path as [|x path IH]; intros pats pat ids Hin Hf; cbn [match_path].
  - destruct pat as [|[y|] pat]; [|done..]. unfold finished. destruct (head _) as [a'|] eqn:Eh; [by eexists|].
    apply head_None in Eh. assert (He : a ∈ omap (fun p => match p with ([], a) => Some a | _ => None end) pats).
    { apply list_elem_of_omap. by exists ([], a). }
    rewrite Eh in He. by apply not_elem_of_nil in He.
  - destruct (match_path (advance_lit x pats) path) as [r|] eqn:El; [by eexists|].
    destruct pat as [|[y|] pat]; cbn in Hf; [done|..].
    + destruct Hf as [-> Hf]. assert (Hl : (pat, a) ∈ advance_lit y pats).
      { apply list_elem_of_omap. exists (Lit y :: pat, a). by rewrite String.eqb_refl. }
      destruct (IH _ _ _ Hl Hf) as [r Hr]. congruence.
    + destruct Hf as [Hx Hf]. destruct ids as [|i ids]; [done|]. destruct Hf as [-> Hf]. apply String.eqb_neq in Hx. rewrite Hx.
      assert (Hl : (pat, a) ∈ advance_wild pats) by (apply list_elem_of_omap; by exists (Wild :: pat, a)).
      destruct (IH _ _ _ Hl Hf) as [[a' ids'] ->]. by eexists.
Qed.

(** * The handler of the service *)

#[export] Instance endpoint_eq_dec : EqDecision endpoint.
Proof. solve_decision. Defined.

Section handler.
Context {W : Type} `{Runtime W} `{Sha256} `{Jcs} `{RequestDecoder} `{ControlDecoder}.
Implicit Types (s : Server W).

(** The routes that are mounted. *)
Definition registered s : list (list seg * endpoint) := filter (fun p => mounted s p.2 = true) routes.

(** The endpoint for a path and its path value; the catch-all answers the rest. *)
Definition dispatch s (path : list string) : endpoint * string :=
  match match_path (registered s) path with
  | Some (e, ids) => (e, default "" (head ids))
  | None => (EpNotFound, "")
  end.

Definition at_id (id : string) (r : http_request) : http_request :=
  {| rq_Method := rq_Method r; rq_Path := rq_Path r; rq_Header := rq_Header r; rq_Body := rq_Body r; rq_ID := id; rq_Query := rq_Query r |}.

Definition mux s (path : list string) : handler W := fun c r => let '(e, id) := dispatch s path in route s e c (at_id id r).

Definition Handler s (path : list string) : handler W := chain (mux s path).

(** Where an endpoint is: its pattern, and the pattern filled in. *)
Definition pattern_of (e : endpoint) : list seg :=
  match find_first (fun p => bool_decide (p.2 = e)) routes with Some p => p.1 | None => [] end.

Definition path_of (e : endpoint) (id : string) : list string := (fun g => match g with Lit x => x | Wild => id end) <$> pattern_of e.

Definition takes_id (e : endpoint) : bool :=
  match e with
  | EpCapture | EpVoid | EpGetDecision | EpPolicyItem | EpPublish | EpRollback | EpVersions | EpSimulate | EpRevoke => true
  | _ => false
  end.

(** The values an endpoint can be addressed with. *)
Definition id_ok (e : endpoint) (id : string) : Prop :=
  if takes_id e then id <> "" /\ (e = EpPolicyItem -> id <> "active") else id = "".

(** The routes mounted with and without the policy service, the key store and
    the token. *)
Definition mounts (policies keys token : bool) (e : endpoint) : bool :=
  match e with
  | EpPolicies | EpActiveBundle | EpPolicyItem | EpPublish | EpRollback | EpVersions | EpSimulate => policies
  | EpKeys | EpRevoke => keys
  | EpProvision => token && keys
  | _ => true
  end.

Lemma registered_cases s :
  exists policies keys token, (forall e, mounted s e = mounts policies keys token e) /\
    registered s = filter (fun p => mounts policies keys token p.2 = true) routes.
Proof using Type.
  exists (match c_policySvc (s_control s) with Some _ => true | None => false end), (match c_keyAdmin (s_control s) with Some _ => true | None => false end),
    (negb (String.eqb (c_provisionToken (s_control s)) "")).
  assert (Hm : forall e, mounted s e = mounts (match c_policySvc (s_control s) with Some _ => true | None => false end)
    (match c_keyAdmin (s_control s) with Some _ => true | None => false end) (negb (String.eqb (c_provisionToken (s_control s)) "")) e) by (by intros []).
  split; [done|]. unfold registered. apply list_filter_iff. intros [pat e]. cbn. by rewrite Hm.
Qed.

(** A literal beats the wildcard. *)
Lemma active_is_literal s ids : match_path (registered s) ["v1"; "policies"; "active"] <> Some (EpPolicyItem, ids).
Proof using Type. destruct (registered_cases s) as (p & k & t & _ & ->). destruct p, k, t; vm_compute; discriminate. Qed.

(** Read a filled pattern off. *)
Ltac read_path Hf :=
  cbn in Hf;
  repeat first
    [ done
    | match type of Hf with
      | match ?l with _ => _ end => destruct l
      | _ = _ /\ _ => destruct Hf as [-> Hf]
      | _ <> _ /\ _ => let Hx := fresh "Hx" in destruct Hf as [Hx Hf]
      | _ = _ => subst
      end ].

Lemma dispatch_sound s path e id : dispatch s path = (e, id) -> e <> EpNotFound ->
  mounted s e = true /\ (path = path_of e id \/ e = EpHealth /\ path = ["health"]) /\ id_ok e id.
Proof using Type.
  unfold dispatch. destruct (match_path (registered s) path) as [[e' ids]|] eqn:Em; [|by intros [= <- _]]. intros [= -> <-] Hne.
  pose proof (match_path_sound _ _ _ _ Em) as (pat & Hin & Hf). apply list_elem_of_filter in Hin as [Hm Hin]. cbn in Hm. split; [done|].
  unfold routes in Hin.
  repeat (apply elem_of_cons in Hin as [Hin|Hin]; [injection Hin as -> ->; read_path Hf|]); [..|by apply not_elem_of_nil in Hin];
    cbn [head default]; (split; [first [by left|by right]|]); unfold id_ok; cbn [takes_id]; first [done|split; [done|]; try done].
  intros _ Ha. cbn in Ha. subst. by apply (active_is_literal s ["active"]).
Qed.

(** Paths of different endpoints differ, but for [active]. *)
Lemma path_of_inj e id e' id' : path_of e id = path_of e' id' -> e <> EpNotFound -> e' <> EpNotFound -> id_ok e id -> id_ok e' id' -> (e, id) = (e', id').
Proof using Type.
  intros Heq Hne Hne' Hid Hid'. destruct e; try done; destruct e'; try done; vm_compute in Heq; try discriminate Heq; unfold id_ok in *; cbn [takes_id] in *;
    first [by rewrite Hid, Hid' | injection Heq as Heq; subst; first [done | by destruct Hid as [_ Hid]; destruct (Hid eq_refl) | by destruct Hid' as [_ Hid']; destruct (Hid' eq_refl)]].
Qed.

Lemma path_not_alias e id : e <> EpNotFound -> path_of e id <> ["health"].
Proof using Type. intros Hne Heq. destruct e; try done; vm_compute in Heq; discriminate Heq. Qed.

(** C40: The routes.  Every endpoint that is mounted is reached by its path and
    only by its path (health by an alias too), with the path's value, whatever
    the value is: [active] names the active bundle and is never a policy, and a
    path value is never empty.  Every other path is answered by the catch-all,
    and an endpoint that is not mounted cannot be reached. *)
Theorem dispatch_spec s path e id (Hne : e <> EpNotFound) :
  dispatch s path = (e, id) <->
  mounted s e = true /\ (path = path_of e id \/ e = EpHealth /\ path = ["health"]) /\ id_ok e id.
Proof using Type.
  split; [intros Hd; by apply dispatch_sound|]. intros (Hm & Hp & Hid).
  assert (Hs : is_Some (match_path (registered s) path)).
  { assert (Hr : exists pat ids, (pat, e) ∈ routes /\ fills pat ids path).
    { destruct Hp as [-> |[-> ->]]; [|exists [Lit "health"], []; split; [unfold routes; apply list_elem_of_In; cbn; tauto|done]].
      unfold id_ok in Hid. exists (pattern_of e), (if takes_id e then [id] else []). split.
      - destruct e; try done; unfold routes; apply list_elem_of_In; cbn; tauto.
      - destruct e; cbn [takes_id] in *; try done; cbn; split_and!; try done; by destruct Hid. }
    destruct Hr as (pat & ids & Hin & Hf). eapply match_path_complete; [|exact Hf]. by apply list_elem_of_filter. }
  destruct (dispatch s path) as [e' id'] eqn:Ed. assert (Hne' : e' <> EpNotFound).
  { unfold dispatch in Ed. destruct Hs as [[e2 ids] Hs]. rewrite Hs in Ed. injection Ed as -> _. apply match_path_sound in Hs as (pat & Hin & _).
    apply list_elem_of_filter in Hin as [_ Hin]. intros ->. apply list_elem_of_In in Hin. unfold routes in Hin. cbn in Hin.
    by repeat destruct Hin as [Hin|Hin]. }
  apply dispatch_sound in Ed as (_ & Hp' & Hid'); [|done].
  destruct Hp as [-> |[-> ->]], Hp' as [Heq|[-> Heq]].
  - by apply path_of_inj.
  - by apply path_not_alias in Heq.
  - symmetry in Heq. by apply path_not_alias in Heq.
  - unfold id_ok in Hid, Hid'. cbn [takes_id] in Hid, Hid'. by rewrite Hid, Hid'.
Qed.

(** * Without credentials *)

(** Endpoints that answer anyone. *)
Definition open (e : endpoint) : bool := match e with EpKeysPublic | EpHealth | EpMetrics | EpNotFound => true | _ => false end.

(** What is behind the gate of an endpoint, and the method it insists on. *)
Definition inner s (e : endpoint) : option string * handler W :=
  match e with
  | EpAuthorize => (Some "POST", handleAuthorize s)
  | EpCapture => (Some "POST", handleCapture s)
  | EpVoid => (Some "POST", handleVoid s)
  | EpGetDecision => (Some "GET", handleGetDecision s)
  | EpListDecisions => (Some "GET", handleListDecisions s)
  | EpPolicies => (None, handlePolicies s)
  | EpActiveBundle => (Some "GET", handleActiveBundle s)
  | EpPolicyItem => (None, handlePolicyItem s)
  | EpPublish => (Some "POST", handlePublishPolicy s)
  | EpRollback => (Some "POST", handleRollbackPolicy s)
  | EpVersions => (Some "GET", handleListVersions s)
  | EpSimulate => (Some "POST", handleSimulate s)
  | EpKeys => (None, handleKeys s)
  | EpRevoke => (Some "POST", handleRevokeKey s)
  | _ => (None, handleNotFound)
  end.

Lemma route_inner s e : mounted s e = true -> open e = false -> e <> EpProvision ->
  route s e = match inner s e with (Some m, h) => method m (protected s h) | (None, h) => protected s h end.
Proof using Type. intros Hm Ho Hp. unfold route. rewrite Hm. by destruct e. Qed.

(** C6: Nothing but the public endpoints answers without credentials.  Whatever
    the path, a request is served by a handler other than those of the health
    check, the metrics, the public keys and the catch-all only past the gate,
    under the principal it authenticated, with the method the route asks for;
    or, for provisioning, with the configured token, which is not empty.
    Otherwise it is refused or told the method, and nothing behind [view] has
    changed. *)
Theorem unauthenticated_surface {V} (view : W -> V) `{!Frame view} s path c r w x w' (Hq : quiet_gate view s)
  (Hrun : mux s path c r w = (Some x, w')) :
  let '(e, id) := dispatch s path in
  open e = true \/
  (e = EpProvision /\ c_provisionToken (s_control s) <> "" /\ Header_Get (rq_Header r) "X-Provision-Token" = c_provisionToken (s_control s)) \/
  (exists p w1, passes_gate s r p w w1 /\ view w1 = view w /\ (forall m, (inner s e).1 = Some m -> rq_Method r = m) /\
     (inner s e).2 (authed c p) (at_id id r) w1 = (Some x, w')) \/
  ((refused x \/ resp_Status x = 401 \/ resp_Status x = 405) /\ view w' = view w).
Proof using Type.
  unfold mux in Hrun. destruct (dispatch s path) as [e id] eqn:Ed. destruct (open e) eqn:Eo; [by left|right].
  assert (Hm : mounted s e = true) by (apply dispatch_sound in Ed as (? & _); [done|by intros ->]).
  destruct (decide (e = EpProvision)) as [->|Hp].
  - unfold route in Hrun. rewrite Hm in Hrun. cbn [negb] in Hrun. unfold provision_endpoint, method in Hrun.
    destruct (negb _); [injection Hrun as <- <-; right; right; split; [by right; right|done]|].
    unfold handleProvisionKey in Hrun. cbn [rq_Header at_id] in Hrun.
    destruct (String.eqb_spec (c_provisionToken (s_control s)) "") as [|Ht]; cbn [orb] in Hrun.
    { injection Hrun as <- <-. right; right. split; [by right; left|done]. }
    destruct (String.eqb_spec (Header_Get (rq_Header r) "X-Provision-Token") (c_provisionToken (s_control s))) as [Hh|]; cbn [negb] in Hrun; [by left|].
    injection Hrun as <- <-. right; right. split; [by right; left|done].
  - right. rewrite (route_inner s e Hm Eo Hp) in Hrun. destruct (inner s e) as [m h] eqn:Ei.
    assert (Hcase : (forall m', m = Some m' -> rq_Method r = m') /\ protected s h c (at_id id r) w = (Some x, w') \/ resp_Status x = 405 /\ w' = w).
    { destruct m as [m|]; [|by left]. unfold method in Hrun. cbn [rq_Method at_id] in Hrun. destruct (String.eqb_spec (rq_Method r) m) as [<-|]; cbn [negb] in Hrun.
      - left. split; [by intros m' [= <-]|done].
      - injection Hrun as <- <-. by right. }
    destruct Hcase as [[Hmm Hpr]|[Hs ->]]; [|right; split; [by right; right|done]].
    destruct (gate_cases s c (at_id id r) w) as [(p & w1 & Hpass)|(y & w1 & Hst & Href & _ & Hv)].
    + left. exists p, w1. cbn [fst snd]. rewrite (passes_protected _ _ _ _ _ _ _ Hpass) in Hpr. split_and!; [done | by eapply passes_frame | done | done].
    + right. rewrite (Hst h) in Hpr. injection Hpr as -> ->. split; [by left|by apply Hv].
Qed.
End handler.
