(* ===== verification/ServerMem.v ===== *)
(** The service assembled in memory: an authenticator, a limiter, an idempotency
    cache, an engine with a budget, and an audit queue in one world.  Concrete
    requests exercise the properties of [ServerProps.v]. *)

From S2P Require Import Prelude ControlTypes GoStrings GoTime Base64 Ulid Money Runtime RateLimit Predicates Signing Samples Sha2 Auth AuthProps AuditLog AuditProps AuditMem Hold Engine EngineProps Idempotency Contracts Server ServerProps.

#[local] Existing Instances sha2 sha2_laws sample_bigrat sample_unicode toy_ed25519 toy_jcs.

Record hworld := {
  hw_keys : MemKeyStore;
  hw_nonces : MemNonces;
  hw_limits : MemLimiter;
  hw_idem : Idempotency.Mem;
  hw_spent : Z;
  hw_queue : list Record_
}.

(** The clock stands still. *)
#[local] Instance hw_runtime : Runtime hworld := {| now w := (t0, w); rand_Read n w := (repeat 7 n, w) |}.

Definition hw_with_nonces (x : MemNonces) (w : hworld) : hworld :=
  {| hw_keys := hw_keys w; hw_nonces := x; hw_limits := hw_limits w; hw_idem := hw_idem w; hw_spent := hw_spent w; hw_queue := hw_queue w |}.
Definition hw_with_limits (x : MemLimiter) (w : hworld) : hworld :=
  {| hw_keys := hw_keys w; hw_nonces := hw_nonces w; hw_limits := x; hw_idem := hw_idem w; hw_spent := hw_spent w; hw_queue := hw_queue w |}.
Definition hw_with_idem (x : Idempotency.Mem) (w : hworld) : hworld :=
  {| hw_keys := hw_keys w; hw_nonces := hw_nonces w; hw_limits := hw_limits w; hw_idem := x; hw_spent := hw_spent w; hw_queue := hw_queue w |}.
Definition hw_with_spent (x : Z) (w : hworld) : hworld :=
  {| hw_keys := hw_keys w; hw_nonces := hw_nonces w; hw_limits := hw_limits w; hw_idem := hw_idem w; hw_spent := x; hw_queue := hw_queue w |}.
Definition hw_with_queue (x : list Record_) (w : hworld) : hworld :=
  {| hw_keys := hw_keys w; hw_nonces := hw_nonces w; hw_limits := hw_limits w; hw_idem := hw_idem w; hw_spent := hw_spent w; hw_queue := x |}.

Definition hw_authn : Authenticator hworld :=
  Auth.New {| LookupByID id w := (Mem_LookupByID id (hw_keys w), w) |}
    {| Remember k n ttl w := let '(fresh, seen) := Mem_Remember t0 k n ttl (hw_nonces w) in (Ok fresh, hw_with_nonces seen w) |}
    {| cfg_MaxSkew := 5 * Minute; cfg_NonceTTL := 11 * Minute |}.

Definition hw_limiter (k : string) (l : Limits) (w : hworld) : result string RateLimit.Decision * hworld :=
  let '(d, m) := RateLimit.Allow t0 k l (hw_limits w) in (Ok d, hw_with_limits m w).

Definition hw_store : IdempotencyStore hworld :=
  {| idem_Lookup org k w := (Ok (Mem_Lookup org k (hw_idem w)), w);
     idem_Save org k d w := (Ok tt, hw_with_idem (Mem_Save org k d (hw_idem w)) w) |}.

#[local] Instance hw_store_spec : IdempotencySpec hw_store (fun w k => hw_idem w !! k) (fun _ => True).
Proof.
  split; cbn; unfold Mem_Lookup, Mem_Save.
  - done.
  - by intros org k w r [= <-].
  - intros org k d w _ _. apply lookup_insert_eq.
  - intros org k d w k' Hne. by rewrite lookup_insert_ne.
Defined.

(** A reserver that counts reservations, up to three. *)
Definition hw_reserver : BudgetReserver hworld :=
  {| Reserve _ _ _ _ w :=
       if hw_spent w <? 3
       then ({| br_Outcome := BudgetWithinLimit; br_SpendToDate := "0"; br_Limit := "3"; br_WindowKey := "w" |}, hw_with_spent (hw_spent w + 1) w)
       else ({| br_Outcome := BudgetExceeded; br_SpendToDate := "3"; br_Limit := "3"; br_WindowKey := "w" |}, w) |}.

#[local] Instance hw_reserver_spec : ReserverSpec hw_spent hw_reserver.
Proof. split. intros org id req b w. cbn. by destruct (hw_spent w <? 3). Defined.

Definition hw_engine : Engine hworld :=
  WithReserver (Some hw_reserver) (WithSigner (Some {| sgn_keyID := "k1"; sgn_priv := seed_a |}) (NewEngine sample_policy "k1")).

Definition hw_server : Server hworld :=
  {| s_authz := Authorize hw_engine; s_authn := hw_authn; s_limiter := hw_limiter; s_tiers := DefaultTiers;
     s_auditWriter := Some (fun rec w => (tt, hw_with_queue (hw_queue w ++ [rec]) w)); s_auditStore := None;
     s_verifyDecision := None; s_retentionFor := Some (fun _ => 24 * Hour); s_idem := Some hw_store; s_budget := None; s_metrics := None; s_control := no_control |}.

(** A body is an amount, a request for it under a fixed key. *)
Definition body_request (amount : string) : AuthorizeRequest :=
  {| req_AgentID := "a"; req_Action := "pay"; req_Amount := amount; req_Currency := "USD";
     req_Target := {| tgt_Type := TargetVendor; tgt_ID := "acme" |}; req_Jurisdiction := "US"; req_Context := ∅;
     req_IdempotencyKey := "retry-key-1"; req_EvaluatedAt := ""; req_CounterSnapshot := None |}.

#[local] Instance sample_decoder : RequestDecoder :=
  {| decode_request body := if String.eqb body "" then Err JsonEOF else Ok (body_request body, false) |}.

(** An enforcing key. *)
Definition hk : GeneratedKey := new_key prefixLive EnvLive "org1" "pro" (repeat 7 32).
Definition hk_record : KeyRecord :=
  {| KeyID := KeyID (gk_Record hk); KeyHashHex := KeyHashHex (gk_Record hk); Auth.OrgID := "org1"; Tier := "pro"; Env := EnvLive;
     Status := StatusActive; Auth.Shadow := false |}.
Definition hw0 : hworld :=
  {| hw_keys := CreateKey hk_record t0 {| ms_keys := ∅; ms_info := ∅ |}; hw_nonces := ∅; hw_limits := NewMemLimiter; hw_idem := ∅;
     hw_spent := 0; hw_queue := [] |}.

Definition post (nonce body : string) : http_request :=
  {| rq_Method := "POST"; rq_Path := "/v1/authorize";
     rq_Header := client_headers (gk_Plaintext hk) "POST" "/v1/authorize" 1772445600 nonce body; rq_Body := Some body; rq_ID := ""; rq_Query := ∅ |}.

Definition c0 : ctx := {| ctx_ReqID := "req1"; ctx_Principal := None |}.
Definition serve (r : http_request) : io hworld (option response) := authorize_endpoint hw_server c0 r.

(** Verdict and id of a decision, or the status of a problem. *)
Definition summary (x : option response) : string * Z :=
  match x with
  | Some y => (match resp_Body y with PDecision d => dec_Verdict d | PProblem p => prob_Code p | _ => "" end, resp_Status y)
  | None => ("panic", 0)
  end.

Definition r1 : http_request := post "nonce-001" "25".
Definition r2 : http_request := post "nonce-002" "2500".

(** The state after the first request, its answer and its decision. *)
Definition w1 : hworld := (serve r1 hw0).2.
Definition x1 : response := default (writeJSON 0 (PDecision sample_decision)) (serve r1 hw0).1.
Definition d1 : Contracts.Decision := match resp_Body x1 with PDecision d => d | _ => sample_decision end.

Example first_request : summary (serve (post "nonce-001" "25") hw0).1 = ("APPROVE", 200) /\ hw_spent w1 = 1 /\ length (hw_queue w1) = 1%nat.
Proof. vm_compute. done. Qed.

(** The same key with a hundred times the amount is answered with the first
    approval. *)
Example reused_key_ignores_amount :
  (serve r2 w1).1 = Some (replay_response d1) /\
  summary (serve (post "nonce-003" "2500") hw0).1 = ("DENY", 200).
Proof. vm_compute. done. Qed.

Example refusals :
  summary (serve (post "nonce-001" "25") w1).1 = ("replay_detected", 401) /\
  summary (serve (post "short" "25") hw0).1 = ("unauthorized", 401) /\
  summary (serve (post "nonce-004" "") hw0).1 = ("validation_failed", 400) /\
  summary (serve (post "nonce-005" "1e3") hw0).1 = ("validation_failed", 400).
Proof. vm_compute. done. Qed.

(** Two requests with one idempotency key that both look before either saves
    reserve twice. *)
Example concurrent_retry_reserves_twice :
  let c := authed c0 (principal_of hk_record) in
  let req := body_request "25" in
  let '(miss1, v1) := idempotentReplay hw_server c req hw0 in
  let '(miss2, v2) := idempotentReplay hw_server c req v1 in
  let '(x1, v3) := authorize_fresh hw_server req c (post "nonce-001" "25") v2 in
  let '(x2, v4) := authorize_fresh hw_server req c (post "nonce-002" "25") v3 in
  miss1 = None /\ miss2 = None /\ summary x1 = ("APPROVE", 200) /\ summary x2 = ("APPROVE", 200) /\ hw_spent v4 = 2.
Proof. vm_compute. done. Qed.

(** * Witnesses *)

Lemma hw_quiet {V} (view : hworld -> V) :
  (forall x w, view (hw_with_nonces x w) = view w) -> (forall x w, view (hw_with_limits x w) = view w) -> quiet_gate view hw_server.
Proof.
  intros Hn Hl. split.
  - done.
  - intros k n ttl w. cbn. destruct (Mem_Remember t0 k n ttl (hw_nonces w)). apply Hn.
  - intros k l w. cbn. unfold hw_limiter. destruct (RateLimit.Allow t0 k l (hw_limits w)). apply Hl.
  - done.
Defined.

#[local] Instance hw_frame_spent : Frame hw_spent.
Proof. by split. Defined.
#[local] Instance hw_frame_queue : Frame hw_queue.
Proof. by split. Defined.

Definition principal0 : Principal := principal_of hk_record.
Definition gated (r : http_request) (w : hworld) : hworld :=
  (hw_limiter (pr_KeyID principal0) (Resolve DefaultTiers "pro") (Authenticate hw_authn "POST" "/v1/authorize" (rq_Header r) (default "" (rq_Body r)) w).2).2.

Lemma post_accepted nonce body w :
  (Z.of_nat (String.length body) <=? maxBodyBytes) = true -> String.eqb body "" = false -> validateAuthorizeRequest (body_request body) = [] ->
  (Authenticate hw_authn "POST" "/v1/authorize" (rq_Header (post nonce body)) body w).1 = Ok principal0 ->
  (match (hw_limiter (pr_KeyID principal0) (Resolve DefaultTiers "pro") (Authenticate hw_authn "POST" "/v1/authorize" (rq_Header (post nonce body)) body w).2).1
   with Ok d => rl_Allowed d | Err _ => true end) = true ->
  accepted hw_server (post nonce body) principal0 (body_request body) w (gated (post nonce body) w).
Proof.
  intros Hlen%Z.leb_le Hne Hv Ha Hl. split_and!; [done| | |done].
  - eexists body, _, _. split_and!; [done | done | apply injective_projections; [exact Ha | reflexivity] | apply surjective_pairing|].
    cbn [s_limiter hw_server s_tiers]. destruct (hw_limiter _ _ _).1; [exact Hl|done].
  - cbn. by rewrite Hne.
Defined.

Lemma accepted_r1 : accepted hw_server r1 principal0 (body_request "25") hw0 (gated r1 hw0).
Proof. apply post_accepted; vm_compute; reflexivity. Defined.

Lemma accepted_r2 : accepted hw_server r2 principal0 (body_request "2500") w1 (gated r2 w1).
Proof. apply post_accepted; vm_compute; reflexivity. Defined.

Lemma served_r1 : serve r1 hw0 = (Some x1, w1).
Proof.
  assert (Hs : match (serve r1 hw0).1 with Some _ => true | None => false end = true) by (vm_compute; reflexivity).
  unfold x1, w1. destruct (serve r1 hw0) as [[x|] w]; [reflexivity|discriminate Hs].
Defined.

Lemma answered_r1 : resp_Body x1 = PDecision d1.
Proof. vm_compute. reflexivity. Defined.

Lemma gate_spec_witness :
  (exists p w', passes_gate hw_server r1 p hw0 w' /\ hw_spent w' = hw_spent hw0 /\
     protected hw_server (handleAuthorize hw_server) c0 r1 hw0 = handleAuthorize hw_server (authed c0 p) r1 w') \/
  (exists x w', protected hw_server (handleAuthorize hw_server) c0 r1 hw0 = (Some x, w') /\ refused x /\ hw_spent w' = hw_spent hw0).
Proof. exact (gate_spec hw_spent hw_server (handleAuthorize hw_server) c0 r1 hw0 (hw_quiet hw_spent ltac:(done) ltac:(done))). Defined.

Lemma authorize_endpoint_spends_witness :
  hw_spent w1 = hw_spent hw0 + 1 /\
  exists p req v id, accepted hw_server r1 p req hw0 v /\ pr_Shadow p = false /\ reserved_by hw_spent hw_engine (pr_OrgID p) (clear_EvaluatedAt req) id hw0 w1 /\
    ((exists d, x1 = with_header "X-Decision-Id" id (writeJSON 200 (PDecision d)) /\ dec_DecisionID d = id /\ held_approval d) \/
     resp_Status x1 = 503).
Proof.
  assert (He : hw_spent w1 = hw_spent hw0 + 1) by (vm_compute; reflexivity).
  assert (Hne : hw_spent w1 <> hw_spent hw0) by (vm_compute; discriminate). split; [exact He|].
  destruct (authorize_endpoint_spends hw_spent hw_server hw_engine c0 r1 hw0 x1 w1
    ltac:(split; [by intros R [= <-]; apply hw_reserver_spec | done]) eq_refl (hw_quiet hw_spent ltac:(done) ltac:(done))
    ltac:(by intros st [= <-]) ltac:(by intros st [= <-]) ltac:(done) ltac:(by intros f [= <-]) served_r1)
    as [H|(p & req & v & id & Ha & Hs & _ & Hr & Hx)]; [by destruct (Hne H)|].
  exists p, req, v, id. split; [exact Ha|]. split; [exact Hs|]. split; [exact Hr|].
  destruct Hx as [Hd|(sg & dec & se & _ & _ & _ & _ & Hx)]; [left; exact Hd|right; rewrite Hx; reflexivity].
Defined.

Lemma retry_returns_decision_witness :
  exists w4, serve r2 w1 = (Some (replay_response d1), w4) /\
    forall V (view : hworld -> V), Frame view -> quiet_gate view hw_server -> quiet_lookup view hw_server -> view w4 = view w1.
Proof.
  exact (retry_returns_decision hw_server hw_store (fun w k => hw_idem w !! k) (fun _ => True) c0 r1 hw0 x1 w1 d1 principal0 (body_request "25") (gated r1 hw0)
    c0 r2 w1 principal0 (body_request "2500") (gated r2 w1)
    eq_refl ltac:(done) I ltac:(done) ltac:(by split) ltac:(intros k; apply hw_quiet; done) ltac:(done) ltac:(by intros k f [= <-])
    served_r1 answered_r1 accepted_r1 accepted_r2 eq_refl eq_refl eq_refl).
Defined.

Lemma hw_engine_queue org req sh w : hw_queue (s_authz hw_server org req sh w).2 = hw_queue w.
Proof.
  apply (Authorize_frame hw_queue); [split; intros R [= <-]; split|intros R org' id rq b v [= <-]]; intros; cbn; by destruct (hw_spent _ <? 3).
Defined.

Lemma every_decision_audited_witness :
  (exists d p req v rec, resp_Body x1 = PDecision d /\ resp_Header x1 !! "X-Idempotent-Replay" = None /\
     accepted hw_server r1 p req hw0 v /\ hw_queue w1 = hw_queue hw0 ++ [rec] /\
     set_RetainUntil zero_time rec = RecordFromDecision (pr_OrgID p) (pr_KeyID p) (clear_EvaluatedAt req) d) \/
  (hw_queue w1 = hw_queue hw0 /\ forall d, resp_Body x1 = PDecision d -> resp_Header x1 !! "X-Idempotent-Replay" = Some "true").
Proof.
  exact (every_decision_audited hw_server hw_queue _ c0 r1 hw0 x1 w1 eq_refl ltac:(done) (hw_quiet hw_queue ltac:(done) ltac:(done))
    ltac:(by intros st [= <-]) ltac:(by intros st [= <-]) ltac:(done) hw_engine_queue served_r1).
Defined.

(** A page that ends at row 42, asked for with a verdict and a size. *)
Definition list_query : http_request :=
  {| rq_Method := "GET"; rq_Path := "/v1/decisions"; rq_Header := ∅; rq_Body := Some ""; rq_ID := "";
     rq_Query := {["verdict" := ["APPROVE"]; "limit" := ["10"]]} |}.

Lemma next_cursor_resumes_witness :
  lp_NextCursor (to_listPage hw_server {| Records := []; NextCursor := 42 |}) = Some (encodeCursor 42) /\
  parseListFilter (next_query (encodeCursor 42) list_query) =
    ({| f_AgentID := ""; f_Verdict := VerdictApprove; f_From := f_From (parseListFilter list_query).1; f_To := f_To (parseListFilter list_query).1;
        f_Limit := 10; f_Cursor := 42 |}, []) /\ (10 = 0 \/ 1 <= 10 <= MaxListLimit).
Proof.
  split; [reflexivity|].
  destruct (next_cursor_resumes hw_server list_query _ {| Records := []; NextCursor := 42 |} (encodeCursor 42)
    (eq_refl : parseListFilter list_query = ((parseListFilter list_query).1, [])) eq_refl ltac:(vm_compute; discriminate)) as (E & L & _).
  split; [exact E | exact L].
Defined.

(** The log is the queue written out, then a later decision; the verifier is a
    keyring that has rotated since. *)
Definition audited_record : Record_ := RecordFromDecision "org1" (KeyID hk_record) (clear_EvaluatedAt (body_request "25")) d1.
Definition later_record : Record_ := RecordFromDecision "org1" "azk_later" (clear_EvaluatedAt (body_request "26")) sample_decision.
Definition retained : time := t0 + 24 * Hour.
Definition appended : result audit_error Record_ * AuditLog.MemStore := (AuditLog.Append NopEncryptor (set_RetainUntil retained audited_record) AuditLog.NewMemStore w1).1.
Definition receipt_row : Record_ := match appended.1 with Ok rec => rec | Err _ => audited_record end.
Definition later_log (w : hworld) : AuditLog.MemStore := (append_all NopEncryptor (hw_queue w ++ [later_record]) AuditLog.NewMemStore w).1.
Definition hw_reader : Server hworld :=
  {| s_authz := Authorize hw_engine; s_authn := hw_authn; s_limiter := hw_limiter; s_tiers := DefaultTiers;
     s_auditWriter := None; s_auditStore := Some (mem_audit later_log NopEncryptor);
     s_verifyDecision := Some (VerifyDecision ring_b); s_retentionFor := None; s_idem := None; s_budget := None; s_metrics := None; s_control := no_control |}.
Definition get_d1 : http_request :=
  {| rq_Method := "GET"; rq_Path := "/v1/decisions/" +:+ dec_DecisionID d1; rq_Header := ∅; rq_Body := Some ""; rq_ID := dec_DecisionID d1; rq_Query := ∅ |}.

Lemma w1_queue : hw_queue w1 = [set_RetainUntil retained audited_record].
Proof. vm_compute. reflexivity. Defined.

Lemma appended_ok : appended = (Ok receipt_row, appended.2).
Proof.
  assert (Ha : is_ok appended.1 = true) by (vm_compute; reflexivity).
  unfold receipt_row. destruct appended as [[rec|er] m]; [reflexivity | discriminate Ha].
Defined.

(** Verification reads the signed content and the signature only. *)
Lemma VerifyDecision_ext k d d2 :
  signedView d2 = signedView d -> dec_Signature d2 = dec_Signature d -> VerifyDecision k d2 = VerifyDecision k d.
Proof.
  intros Hv Hs. unfold VerifyDecision. rewrite Hs. destruct (PublicKey _ _) as [pub|]; [|done].
  unfold Verify, CanonicalMessage. by rewrite Hv, Hs.
Defined.

Lemma d1_verifies : VerifyDecision ring_b d1 = Ok tt.
Proof. vm_compute. reflexivity. Defined.

Lemma receipt_good org id amount d : HasPrefix amount cipherPrefix = false -> good_record unmarked (RecordFromDecision org id (clear_EvaluatedAt (body_request amount)) d).
Proof. intros Ha. split_and!; [exact Ha | done | done]. Defined.

Lemma append_one {W} `{Runtime W} (enc : Encryptor W) r rs m w :
  append_all enc (r :: rs) m w = append_all enc rs (AuditLog.Append enc r m w).1.2 (AuditLog.Append enc r m w).2.
Proof. cbn. by destruct (AuditLog.Append enc r m w) as [[? ?] ?]. Defined.

Lemma receipt_reads_back_witness :
  exists d, (handleGetDecision hw_reader (authed c0 principal0) get_d1 w1).1 = Some (writeJSON 200 (PDecision d)) /\
    dec_DecisionID d = dec_DecisionID d1 /\ dec_RecordHash d = RecordHash receipt_row /\ dec_SignatureVerified d = Some true.
Proof.
  assert (Hver : forall d2, signedView d2 = signedView d1 -> dec_Signature d2 = dec_Signature d1 -> VerifyDecision ring_b d2 = Ok tt)
    by (intros d2 Hv Hs; rewrite (VerifyDecision_ext ring_b d1 d2 Hv Hs); exact d1_verifies).
  assert (Hlog : later_log w1 = (append_all NopEncryptor [later_record] appended.2
    (AuditLog.Append NopEncryptor (set_RetainUntil retained audited_record) AuditLog.NewMemStore w1).2).1).
  { unfold later_log. rewrite w1_queue. exact (f_equal fst (append_one NopEncryptor _ [later_record] AuditLog.NewMemStore w1)). }
  assert (Hid : reULID (dec_DecisionID d1) = true) by (vm_compute; reflexivity).
  eexists. split; [refine (receipt_reads_back hw_reader NopEncryptor unmarked later_log (VerifyDecision ring_b) [] "org1" (KeyID hk_record)
    (clear_EvaluatedAt (body_request "25")) d1 retained receipt_row AuditLog.NewMemStore w1 appended.2 w1 [later_record] w1
    (authed c0 principal0) get_d1 principal0 _ _ eq_refl _ _ appended_ok Hlog eq_refl eq_refl Hver eq_refl eq_refl eq_refl Hid)|].
  - by constructor.
  - constructor; [exact (receipt_good "org1" "azk_later" "26" sample_decision eq_refl)|constructor].
  - exact (receipt_good "org1" (KeyID hk_record) "25" d1 eq_refl).
  - by apply not_elem_of_nil.
  - exact (conj eq_refl (conj eq_refl eq_refl)).
Defined.
