(* ===== verification/SettleMem.v ===== *)
(** The service with its budget subsystem over Postgres, in one world: a payment
    is approved, settled in time, too late, both ways, and over a connection that
    breaks.  The witness of [Settle.v]; and the subsystem in memory keeps the same
    interface. *)

From S2P Require Import Prelude Base64 Ulid Idempotency GoStrings GoTime Money Contracts Predicates Verdict Runtime RedisKv RateLimit Signing Samples Sha2 Auth AuthProps AuthMem Engine EngineProps Pg Hold HoldStore HoldPg Budget Counter Reserver Spend BudgetMem ControlTypes Server ServerCtl ServerProps ServerMem Settle.

#[local] Existing Instances sha2 sha2_laws sample_bigrat sample_unicode toy_ed25519 toy_jcs sample_decoder.

#[local] Instance settle_bodies : ControlDecoder :=
  {| dec_policy _ _ := Err (BodyMalformed JsonEOF); dec_publish _ := ""; dec_rollback _ _ := Err (BodyMalformed JsonEOF);
     dec_simulate _ _ := Err (BodyMalformed JsonEOF); dec_createKey _ _ := Err (BodyMalformed JsonEOF);
     dec_provision _ _ := Err (BodyMalformed JsonEOF) |}.

Definition ten_minutes : duration := 10 * Minute.

(** The fates of the statements to come; a statement without one succeeds. *)
Record pay_world := {
  pw_clock : time;
  pw_gate : MemNonces * MemLimiter;
  pw_idem : Idempotency.Mem;
  pw_vals : MemVals;
  pw_rows : Rows;
  pw_fates : list fault
}.

Definition pw_at (t : time) (w : pay_world) : pay_world :=
  {| pw_clock := t; pw_gate := pw_gate w; pw_idem := pw_idem w; pw_vals := pw_vals w; pw_rows := pw_rows w; pw_fates := pw_fates w |}.
Definition pw_with_gate (x : MemNonces * MemLimiter) (w : pay_world) : pay_world :=
  {| pw_clock := pw_clock w; pw_gate := x; pw_idem := pw_idem w; pw_vals := pw_vals w; pw_rows := pw_rows w; pw_fates := pw_fates w |}.
Definition pw_with_idem (x : Idempotency.Mem) (w : pay_world) : pay_world :=
  {| pw_clock := pw_clock w; pw_gate := pw_gate w; pw_idem := x; pw_vals := pw_vals w; pw_rows := pw_rows w; pw_fates := pw_fates w |}.
Definition pw_with_vals (x : MemVals) (w : pay_world) : pay_world :=
  {| pw_clock := pw_clock w; pw_gate := pw_gate w; pw_idem := pw_idem w; pw_vals := x; pw_rows := pw_rows w; pw_fates := pw_fates w |}.
Definition pw_with_rows (x : Rows) (w : pay_world) : pay_world :=
  {| pw_clock := pw_clock w; pw_gate := pw_gate w; pw_idem := pw_idem w; pw_vals := pw_vals w; pw_rows := x; pw_fates := pw_fates w |}.
Definition pw_with_fates (x : list fault) (w : pay_world) : pay_world :=
  {| pw_clock := pw_clock w; pw_gate := pw_gate w; pw_idem := pw_idem w; pw_vals := pw_vals w; pw_rows := pw_rows w; pw_fates := x |}.

(** A reading of the clock takes a second. *)
#[local] Instance pw_runtime : Runtime pay_world := {| now w := (pw_clock w, pw_at (pw_clock w + Second) w); rand_Read n w := (repeat 7 n, w) |}.
#[local] Instance pw_monotone : Monotone pw_clock.
Proof. split; intros; cbn; unfold Second, nanos; lia. Defined.
#[local] Instance pw_rows_lens : Lens pw_rows pw_with_rows. Proof. done. Defined.
#[local] Instance pw_rows_frame : Frame pw_rows. Proof. done. Defined.

Definition pw_fate (w : pay_world) : fault * pay_world :=
  match pw_fates w with [] => (Live, w) | f :: l => (f, pw_with_fates l w) end.

Definition pw_counter : Counter pay_world :=
  {| counter_Reserve k a l t s w := let '(x, m) := counter_Reserve MemCounter k a l t s (pw_vals w) in (x, pw_with_vals m w);
     counter_Release k a w := let '(x, m) := counter_Release MemCounter k a (pw_vals w) in (x, pw_with_vals m w);
     counter_Set k c t w := let '(x, m) := counter_Set MemCounter k c t (pw_vals w) in (x, pw_with_vals m w);
     counter_Get k w := let '(x, m) := counter_Get MemCounter k (pw_vals w) in (x, pw_with_vals m w) |}.

Definition pw_value (w : pay_world) : string -> Z := mem_val (pw_vals w).
#[local] Instance pw_value_frame : Frame pw_value. Proof. done. Defined.

#[local] Instance pw_counter_spec : CounterSpec pw_counter pw_value mem_cap.
Proof.
  split.
  - intros key amount limit ttl sticky w Hv Ha Hl Ht. cbn [counter_Reserve pw_counter].
    pose proof (reserve_law (C:=MemCounter) key amount limit ttl sticky (pw_vals w) Hv Ha Hl Ht) as H.
    by destruct (counter_Reserve MemCounter key amount limit ttl sticky (pw_vals w)) as [x m].
  - intros key amount w Hv Ha. by pose proof (release_law (C:=MemCounter) key amount (pw_vals w) Hv Ha).
  - intros key cents ttl w Ht. by pose proof (set_law (C:=MemCounter) key cents ttl (pw_vals w) Ht).
  - intros key w. cbn. split; [|done]. by destruct w.
Defined.

#[local] Instance pw_beside : CounterBeside pw_counter pw_rows pw_clock.
Proof. split; [intros k a l t s w; cbn; unfold Mem_Reserve; by case_match | done]. Defined.

Lemma pw_takes_releases : takes_releases pw_counter.
Proof. done. Defined.

Definition pw_reserver : BudgetReserver pay_world := pg_reserver micros pw_rows pw_with_rows pw_fate pw_counter ten_minutes.
Definition pw_lifecycle : budgetLifecycle pay_world := pg_lifecycle micros pw_rows pw_with_rows pw_fate pw_counter.
Definition pw_row : pay_world -> string -> string -> option Hold := pg_row pw_rows.

Lemma micros_mono a b : a <= b -> micros a <= micros b.
Proof. unfold micros. zlia. Defined.
Lemma micros_whole d : whole d -> micros d = d.
Proof. unfold whole, micros, nanos. intros [q ->]. zlia. Defined.

#[local] Instance pw_budget_spec :
  BudgetSpec pw_reserver pw_lifecycle pw_row pw_value pw_clock (pg_ttl ten_minutes) mem_cap (takes_releases pw_counter).
Proof.
  apply pg_budget_spec; try apply _; try done.
  - intros w. unfold pw_fate. destruct (pw_fates w); cbn; split_and!; done || lia.
  - exact micros_mono.
  - exact micros_whole.
Defined.

(** * The service *)

Definition pw_authn : Authenticator pay_world :=
  Auth.New {| LookupByID id w := (Mem_LookupByID id (hw_keys hw0), w) |}
    {| Remember k n ttl w := let '(fresh, seen) := Mem_Remember (pw_clock w) k n ttl (pw_gate w).1 in (Ok fresh, pw_with_gate (seen, (pw_gate w).2) w) |}
    {| cfg_MaxSkew := 5 * Minute; cfg_NonceTTL := 11 * Minute |}.

Definition pw_limiter (k : string) (l : Limits) (w : pay_world) : result string RateLimit.Decision * pay_world :=
  let '(d, m) := RateLimit.Allow (pw_clock w) k l (pw_gate w).2 in (Ok d, pw_with_gate ((pw_gate w).1, m) w).

Definition pw_store : IdempotencyStore pay_world :=
  {| idem_Lookup org k w := (Ok (Mem_Lookup org k (pw_idem w)), w);
     idem_Save org k d w := (Ok tt, pw_with_idem (Mem_Save org k d (pw_idem w)) w) |}.

Definition pw_engine : Engine pay_world :=
  WithReserver (Some pw_reserver) (WithHoldTTL ten_minutes (WithSigner (Some {| sgn_keyID := "k1"; sgn_priv := seed_a |}) (NewEngine sample_policy "k1"))).

Definition pw_server : Server pay_world :=
  {| s_authz := Authorize pw_engine; s_authn := pw_authn; s_limiter := pw_limiter; s_tiers := DefaultTiers;
     s_auditWriter := None; s_auditStore := None; s_verifyDecision := None; s_retentionFor := None; s_idem := Some pw_store;
     s_budget := Some pw_lifecycle; s_metrics := None; s_control := no_control |}.

Definition pw0 : pay_world := {| pw_clock := t0; pw_gate := (∅, NewMemLimiter); pw_idem := ∅; pw_vals := ∅; pw_rows := ∅; pw_fates := [] |}.

(** A request for 25.00, approved at ten o'clock. *)
Definition pay_run : option response * pay_world := authorize_endpoint pw_server c0 r1 pw0.
Definition pw1 : pay_world := pay_run.2.
Definition pay_answer : response := default (writeJSON 0 (PDecision sample_decision)) pay_run.1.
Definition pay_decision : Contracts.Decision := match resp_Body pay_answer with PDecision d => d | _ => sample_decision end.
Definition pay_id : string := dec_DecisionID pay_decision.
Definition pay_obligation : Obligation :=
  match dec_Obligations pay_decision with o :: _ => o | [] => {| ob_Type := ""; ob_Detail := ""; ob_Params := ∅ |} end.

(** A signed request to settle it, some seconds after ten. *)
Definition settle_request (verb nonce : string) (seconds : Z) : http_request :=
  {| rq_Method := "POST"; rq_Path := "/v1/authorize/" +:+ pay_id +:+ "/" +:+ verb;
     rq_Header := client_headers (gk_Plaintext hk) "POST" ("/v1/authorize/" +:+ pay_id +:+ "/" +:+ verb) (1772445600 + seconds) nonce ""; rq_Body := Some "";
     rq_ID := pay_id; rq_Query := ∅ |}.
Definition settle_at (ep : endpoint) (nonce : string) (seconds : Z) (w : pay_world) : option response * pay_world :=
  route pw_server ep c0 (settle_request (match ep with EpVoid => "void" | _ => "capture" end) nonce seconds) (pw_at (t0 + seconds * Second) w).

(** Status of the answer and of the hold, and what the window has spent. *)
Definition pay_key : string := counterKey "org1" "b1" "2026-03-02".
Definition pay_summary (x : option response * pay_world) : Z * option State * Z :=
  (match x.1 with Some y => resp_Status y | None => 0 end, h_State <$> pw_row x.2 "org1" pay_id, pw_value x.2 pay_key).

(** Asked again the other way, or after the deadline: a conflict.  Over a broken
    connection a settlement may have happened although the caller was told that
    the store failed; the retry finds the hold settled.  A void that is lost this
    way has not given the amount back. *)
Example settlements :
  let captured := settle_at EpCapture "nonce-002" 300 pw1 in
  let voided := settle_at EpVoid "nonce-002" 300 pw1 in
  let broken := pw_with_fates [Live; Lost "broken pipe"] pw1 in
  (summary pay_run.1 = ("APPROVE", 200) /\ pay_summary pay_run = (200, Some StateHeld, 2500)) /\
  (pay_summary captured = (200, Some StateCaptured, 2500) /\ pay_summary (settle_at EpVoid "nonce-003" 700 captured.2) = (409, Some StateCaptured, 2500)) /\
  (pay_summary voided = (200, Some StateVoided, 0) /\ pay_summary (settle_at EpCapture "nonce-003" 700 voided.2) = (409, Some StateVoided, 0)) /\
  pay_summary (settle_at EpCapture "nonce-002" 700 pw1) = (409, Some StateHeld, 2500) /\
  (let lost := settle_at EpCapture "nonce-002" 300 broken in
   pay_summary lost = (503, Some StateCaptured, 2500) /\ pay_summary (settle_at EpCapture "nonce-003" 400 lost.2) = (200, Some StateCaptured, 2500)) /\
  (let lost := settle_at EpVoid "nonce-002" 300 broken in
   pay_summary lost = (503, Some StateVoided, 2500) /\ pay_summary (settle_at EpVoid "nonce-003" 400 lost.2) = (200, Some StateVoided, 2500)).
Proof. vm_compute. done. Qed.

(** * The witness *)

Lemma pw_quiet {V} (view : pay_world -> V) : (forall x w, view (pw_with_gate x w) = view w) -> quiet_gate view pw_server.
Proof.
  intros Hn. split.
  - done.
  - intros k n ttl w. cbn. destruct (Mem_Remember _ k n ttl _). apply Hn.
  - intros k l w. cbn. unfold pw_limiter. destruct (RateLimit.Allow _ k l _). apply Hn.
  - done.
Defined.

#[local] Instance pw_row_frame org id : Frame (row_of pw_row org id).
Proof. done. Defined.

Lemma pw_gate_clock r p w w' : passes_gate pw_server r p w w' -> pw_clock w <= pw_clock w'.
Proof.
  apply (passes_mono pw_clock pw_server).
  - intros id u. cbn. lia.
  - intros k n ttl u. cbn. destruct (Mem_Remember _ k n ttl _). cbn. lia.
  - intros k l u. cbn. unfold pw_limiter. destruct (RateLimit.Allow _ k l _). cbn. lia.
Defined.

Lemma pay_run_eq : authorize_endpoint pw_server c0 r1 pw0 = (Some pay_answer, pw1).
Proof.
  assert (Hs : match pay_run.1 with Some _ => true | None => false end = true) by (vm_compute; reflexivity).
  unfold pay_answer, pw1. fold pay_run. destruct pay_run as [[x|] w]; [reflexivity|discriminate Hs].
Defined.

(** A signed body passes when the authenticator and the limiter say so. *)
Definition gate_world (r : http_request) (w : pay_world) : pay_world :=
  (pw_limiter (pr_KeyID principal0) (Resolve DefaultTiers "pro") (Authenticate pw_authn "POST" (rq_Path r) (rq_Header r) (default "" (rq_Body r)) w).2).2.

Lemma passes r body w :
  rq_Method r = "POST" -> rq_Body r = Some body -> (Z.of_nat (String.length body) <=? maxBodyBytes) = true ->
  (Authenticate pw_authn "POST" (rq_Path r) (rq_Header r) body w).1 = Ok principal0 ->
  (match (pw_limiter (pr_KeyID principal0) (Resolve DefaultTiers "pro") (Authenticate pw_authn "POST" (rq_Path r) (rq_Header r) body w).2).1
   with Ok d => rl_Allowed d | Err _ => true end) = true ->
  passes_gate pw_server r principal0 w (gate_world r w).
Proof.
  intros Hm Hb Hlen%Z.leb_le Ha Hl. unfold gate_world. rewrite Hb. cbn [default]. eexists body, _, _.
  split_and!; [done | done | rewrite Hm; apply injective_projections; [exact Ha | reflexivity] | apply surjective_pairing|].
  cbn [s_limiter pw_server s_tiers]. destruct (pw_limiter _ _ _).1; [exact Hl|done].
Defined.

Lemma pay_accepted : accepted pw_server r1 principal0 (body_request "25") pw0 (gate_world r1 pw0).
Proof. split_and!; [reflexivity | apply (passes _ "25"); vm_compute; reflexivity | reflexivity | vm_compute; reflexivity]. Defined.

Lemma pay_obligation_in : pay_obligation ∈ dec_Obligations pay_decision.
Proof.
  assert (Hne : match dec_Obligations pay_decision with [] => false | _ => true end = true) by (vm_compute; reflexivity).
  unfold pay_obligation. destruct (dec_Obligations pay_decision); [discriminate|by left].
Defined.

Lemma pay_dated : dated (pg_ttl ten_minutes) pw_server c0 principal0 (body_request "25") (gate_world r1 pw0) /\ parse_rfc3339 "2026-03-02T10:10:01Z" = Some (t0 + 601 * Second) /\
  ob_Params pay_obligation !! "expires_at" = Some (JStr "2026-03-02T10:10:01Z").
Proof. vm_compute. split_and!; try reflexivity; discriminate. Defined.

(** Five minutes after the decision. *)
Definition later : pay_world := pw_at (t0 + 300 * Second) pw1.
Lemma at_row t w org id : pw_row (pw_at t w) org id = pw_row w org id.
Proof. reflexivity. Defined.
Lemma later_row org id : pw_row later org id = pw_row pw1 org id.
Proof. exact (at_row _ _ _ _). Defined.
Definition capture_request : http_request := settle_request "capture" "nonce-002" 300.
Definition void_request : http_request := settle_request "void" "nonce-002" 300.

Lemma capture_settlement : settlement pw_server (pr_OrgID principal0) (dec_DecisionID pay_decision) capture_request later.
Proof.
  split; [reflexivity|]. split; [reflexivity|]. split; [vm_compute; reflexivity|].
  eexists principal0, _. split; [|reflexivity]. apply (passes _ ""); vm_compute; reflexivity.
Defined.

Lemma void_settlement : settlement pw_server (pr_OrgID principal0) (dec_DecisionID pay_decision) void_request later.
Proof.
  split; [reflexivity|]. split; [reflexivity|]. split; [vm_compute; reflexivity|].
  eexists principal0, _. split; [|reflexivity]. apply (passes _ ""); vm_compute; reflexivity.
Defined.

(** The hold of the decision as the table has it, and the runs of the two requests. *)
Definition pay_hold : option Hold := pw_row pw1 (pr_OrgID principal0) (dec_DecisionID pay_decision).
Definition capture_run : option response * pay_world := route pw_server EpCapture c0 capture_request later.
Definition void_run : option response * pay_world := route pw_server EpVoid c0 void_request later.

Lemma runs_in_time : pw_clock capture_run.2 < t0 + 601 * Second /\ pw_clock void_run.2 < t0 + 601 * Second.
Proof. vm_compute. done. Defined.

Lemma later_in_range h : pay_hold = Some h -> in_range mem_cap h (pw_value later).
Proof.
  intros Hh.
  assert (Hv : pw_vals later = {[ pay_key := 2500 ]}) by (vm_compute; reflexivity).
  assert (Hr : match pay_hold with Some h => release_of h | None => [] end = [(pay_key, 2500)]) by (vm_compute; reflexivity).
  rewrite Hh in Hr. clear Hh. unfold pw_value. rewrite Hv. clear Hv. split.
  - intros k. unfold mem_val. destruct (decide (k = pay_key)) as [->|Hk]; [rewrite lookup_singleton_eq|rewrite lookup_singleton_ne by done]; by vm_compute.
  - intros key a Hin. rewrite Hr in Hin. apply list_elem_of_singleton in Hin. injection Hin as -> ->. by vm_compute.
Defined.

(** What the witness has to show of the service. *)
Lemma pay_fresh : resp_Body pay_answer = PDecision pay_decision /\ resp_Header pay_answer !! "X-Idempotent-Replay" = None.
Proof. split; vm_compute; reflexivity. Defined.
Lemma pay_new : pw_row pw0 (pr_OrgID principal0) (dec_DecisionID pay_decision) = None.
Proof. vm_compute. reflexivity. Defined.
Lemma pw_quiet_stores org id :
  quiet_lookup (row_of pw_row org id) pw_server /\ quiet_save (row_of pw_row org id) pw_server /\
  quiet_metrics (row_of pw_row org id) pw_server /\ quiet_audit (row_of pw_row org id) pw_server.
Proof. split_and!; [by intros st [= <-] | by intros st [= <-] | done | done]. Defined.
Lemma pw_lookup_clock st : s_idem pw_server = Some st -> forall org k w, pw_clock w <= pw_clock (idem_Lookup st org k w).2.
Proof. intros [= <-] org k w. cbn. lia. Defined.

Lemma approved_payment_settles_witness :
  exists h, pay_hold = Some h /\ h_State h = StateHeld /\ h_Amount h = "25" /\
    (exists y, capture_run.1 = Some y /\ told pw_row StateCaptured h (pr_OrgID principal0) (dec_DecisionID pay_decision) y capture_run.2) /\
    (exists y, void_run.1 = Some y /\ told pw_row StateVoided h (pr_OrgID principal0) (dec_DecisionID pay_decision) y void_run.2).
Proof.
  pose proof pay_dated as (Hdated & Hparse & Hexp).
  pose proof (approved_payment_settles pw_clock pw_reserver pw_lifecycle pw_row pw_value (pg_ttl ten_minutes) mem_cap (takes_releases pw_counter) pw_row_frame
    pw_engine eq_refl eq_refl ltac:(intros P [=]) pw_server eq_refl eq_refl (fun org id => pw_quiet (row_of pw_row org id) (fun _ _ => eq_refl)) (pw_quiet pw_value (fun _ _ => eq_refl))
    (fun org id => proj1 (pw_quiet_stores org id)) (fun org id => proj1 (proj2 (pw_quiet_stores org id))) (fun org id => proj1 (proj2 (proj2 (pw_quiet_stores org id))))
    (fun org id => proj2 (proj2 (proj2 (pw_quiet_stores org id)))) pw_gate_clock pw_lookup_clock) as Hgen.
  destruct (Hgen c0 r1 pw0 pay_answer pw1 pay_decision principal0 (body_request "25") (gate_world r1 pw0) pay_obligation
    pay_run_eq (proj1 pay_fresh) (proj2 pay_fresh) pay_accepted Hdated pay_obligation_in pay_new)
    as (h & text & deadline & Hrow & Hst & _ & _ & Ham & _ & _ & Ht & Hd & _ & Hsettle & _).
  rewrite Hexp in Ht. injection Ht as <-. rewrite Hparse in Hd. injection Hd as <-.
  pose proof (later_in_range h Hrow) as Hin. rewrite <- later_row in Hrow.
  destruct runs_in_time as [Hc Hv]. destruct (Hsettle c0 capture_request later capture_settlement Hrow) as [Hcap _].
  destruct (Hsettle c0 void_request later void_settlement Hrow) as [_ Hvoid]. change (route pw_server EpCapture c0 capture_request later) with capture_run in Hcap.
  change (route pw_server EpVoid c0 void_request later) with void_run in Hvoid.
  destruct capture_run as [ox w3], void_run as [ov w4]. exists h. split; [rewrite later_row in Hrow; exact Hrow|]. split; [exact Hst|]. split; [exact Ham|].
  split; [exact (proj1 Hcap Hc)|]. destruct (Hvoid Hv Hin) as (y & Ey & Hy & _). exists y. split; [exact Ey|exact Hy].
Defined.

(** * In memory *)

#[local] Instance bw_monotone : Monotone bw_clock.
Proof. split; intros; cbn; lia. Defined.
#[local] Instance bw_lens : Lens bw_holds put_holds. Proof. done. Defined.
#[local] Instance bw_beside : CounterBeside lift_counter bw_holds bw_clock.
Proof. split; [intros k a l t s w; cbn; unfold Mem_Reserve; by case_match | done]. Defined.

#[local] Instance bw_value_frame : Frame (fun w => mem_val (bw_other w)). Proof. done. Defined.

(** The subsystem of [BudgetMem.v] keeps the interface too. *)
Lemma bw_budget_spec :
  BudgetSpec (as_BudgetReserver bw_reserver) (lifecycle_of bw_reserver) (mem_row bw_holds) (fun w => mem_val (bw_other w)) bw_clock
    (r_holdTTL bw_reserver) mem_cap (takes_releases lift_counter).
Proof. exact (mem_budget_spec bw_clock bw_holds put_holds bw_order lift_counter (fun w => mem_val (bw_other w)) mem_cap (fun _ _ => eq_refl) (fun _ _ => eq_refl) 0). Defined.

Definition holding_reserver : Reserver bworld := NewReserver lift_counter bw_store ten_minutes.
Definition holding_engine : Engine bworld :=
  WithReserver (Some (as_BudgetReserver holding_reserver)) (WithHoldTTL ten_minutes (NewEngine sample_policy "k1")).

Definition held_run : result engine_error Contracts.Decision * bworld := Authorize holding_engine "org" (sample_request "a" "25") false bw0.
Definition held_decision : Contracts.Decision := ok_decision held_run.1.
Definition held_obligation : Obligation :=
  match dec_Obligations held_decision with o :: _ => o | [] => {| ob_Type := ""; ob_Detail := ""; ob_Params := ∅ |} end.

Lemma held_run_eq : Authorize holding_engine "org" (sample_request "a" "25") false bw0 = (Ok held_decision, held_run.2).
Proof.
  assert (Hok : match held_run.1 with Ok _ => true | Err _ => false end = true) by (vm_compute; reflexivity).
  unfold held_decision, held_run in *. destruct (Authorize _ _ _ _ _) as [[d|er] w]; [done|discriminate].
Qed.

Lemma held_obligation_in : held_obligation ∈ dec_Obligations held_decision.
Proof.
  assert (Hne : match dec_Obligations held_decision with [] => false | _ => true end = true) by (vm_compute; reflexivity).
  unfold held_obligation. destruct (dec_Obligations held_decision); [discriminate|by left].
Qed.

(** Told at 10:00:00 to settle by 10:10:00. *)
Lemma stated_deadline_is_kept_witness :
  ob_Params held_obligation !! "expires_at" = Some (JStr "2026-03-02T10:10:00Z") /\
  exists h u v deadline, store_Place bw_store h u = (Ok tt, v) /\ h_DecisionID h = dec_DecisionID held_decision /\
    parse_rfc3339 "2026-03-02T10:10:00Z" = Some deadline /\ deadline <= h_ExpiresAt h.
Proof.
  assert (He : ob_Params held_obligation !! "expires_at" = Some (JStr "2026-03-02T10:10:00Z")) by (vm_compute; reflexivity). split; [exact He|].
  destruct (stated_deadline_is_kept bw_clock holding_engine lift_counter bw_store ten_minutes "org" (sample_request "a" "25") false bw0 held_decision
    held_run.2 held_obligation eq_refl eq_refl eq_refl ltac:(vm_compute; split; discriminate) ltac:(vm_compute; split; discriminate) ltac:(discriminate)
    held_run_eq held_obligation_in) as (h & u & v & text & deadline & Hp & Hid & _ & _ & _ & _ & Ht & Hd & _ & Hle).
  rewrite He in Ht. injection Ht as <-. exists h, u, v, deadline. split; [exact Hp|]. split; [exact Hid|]. split; [exact Hd|exact Hle].
Defined.
