(* ===== verification/CommandsMem.v ===== *)
(** The commands and the boot on concrete data: a service booted from an
    environment with a key in hexadecimal and a policy file, in the world of
    [ServerMem.v]; the verifier on its decisions; a key minted by the key
    generator. *)

From S2P Require Import Prelude GoStrings GoTime Base64 Money RateLimit Samples Sha2 AuditLog Policyctl BundleProv Auth AuthProps AuthRedis Pg AuthPg Keygen AuthzVerify.
From S2P Require Import Contracts Runtime Signing Hold HoldStore Counter Reserver Engine PolicyLoad PolicyFile Idempotency ControlTypes Server ServerCtl ServerMem Boot BootProps.

#[local] Existing Instances sha2 sha2_laws sample_bigrat sample_unicode toy_ed25519 toy_laws toy_jcs hw_runtime sample_decoder.

#[local] Instance plain_aead : Aead := {| Seal _ _ pt := pt; Open _ _ ct := Some ct |}.

(** * A boot *)

Definition limit_file : file :=
  {| f_Version := "pol_boot";
     f_Predicates := [ {| d_ID := "limit"; d_Type := "per_transaction_limit"; d_Agents := []; d_Max := "100"; d_Currency := "USD"; d_Vendors := [];
                          d_AllowedActions := []; d_AllowedTargets := []; d_StartMinute := None; d_EndMinute := None; d_Weekdays := []; d_Allowed := ∅ |} ] |}.

#[local] Instance named_file : PolicyDecoder := {| decode_file raw := if String.eqb raw "limit" then Ok limit_file else Err "unexpected EOF" |}.
#[local] Instance no_bodies : ControlDecoder :=
  {| dec_policy _ _ := Err (BodyMalformed JsonEOF); dec_publish _ := ""; dec_rollback _ _ := Err (BodyMalformed JsonEOF);
     dec_simulate _ _ := Err (BodyMalformed JsonEOF); dec_createKey _ _ := Err (BodyMalformed JsonEOF);
     dec_provision _ _ := Err (BodyMalformed JsonEOF) |}.

(** Stores that accept everything and remember nothing; the keys, the nonces,
    the limiter, the cache and the queue are those of [ServerMem.v]. *)
Definition deaf_policies : PolicyService hworld :=
  {| svc_Create _ _ _ _ w := (Err ErrPolicyNotFound, w); svc_Get _ _ w := (Err ErrPolicyNotFound, w); svc_List _ w := (Ok [], w);
     svc_Update _ _ _ _ _ w := (Err ErrPolicyNotFound, w); svc_Publish _ _ _ w := (Err ErrPolicyNotFound, w);
     svc_Rollback _ _ _ w := (Err ErrPolicyNotFound, w); svc_ListVersions _ _ w := (Ok [], w); svc_ActiveBundle _ w := (Err ErrBundleNotFound, w) |}.

Definition hw_platform (LookupEnv : string -> option string) : Platform hworld :=
  {| pf_LookupEnv := LookupEnv; pf_build := {| bi_Version := "v"; bi_Commit := "c"; bi_Date := "d" |};
     pf_tracing := Ok tt; pf_postgres _ := Ok tt; pf_redis _ := Ok tt;
     pf_ReadFile path := if String.eqb path "policy.json" then Ok "limit" else Err "no such file";
     pf_pg_Ping w := (Ok tt, w); pf_redis_Ping w := (Ok tt, w);
     pf_holds := {| store_Place _ w := (Ok tt, w); store_Capture _ _ w := (Err ErrNotFound, w); store_Void _ _ w := (Err ErrNotFound, w);
                    store_Get _ _ w := (Err ErrNotFound, w); store_ExpireDue _ _ w := (Ok [], w); store_ListActiveByWindow _ _ _ w := (Ok [], w) |};
     pf_counter := {| counter_Reserve _ _ _ _ _ w := (Ok (true, 0), w); counter_Release _ _ w := (Ok tt, w); counter_Set _ _ _ w := (Ok tt, w);
                      counter_Get _ w := (Ok 0, w) |};
     pf_policies _ := deaf_policies; pf_provider _ := {| Active _ w := (Err Engine.ErrNoActiveBundle, w) |};
     pf_Invalidate _ w := (Ok tt, w); pf_Simulate _ _ _ _ w := (Ok ("", []), w);
     pf_keys := keys hw_authn;
     pf_keyAdmin := {| ka_CreateKey _ _ w := (Ok tt, w); ka_ListKeys _ w := (Ok [], w); ka_RevokeKey _ _ _ w := (Err ErrKeyNotFound, w) |};
     pf_keyCache := {| cache_Get _ w := (Ok None, w); cache_Set _ _ w := (Ok tt, w) |}; pf_keyCache_Invalidate _ w := (Ok tt, w);
     pf_nonces := nonces hw_authn; pf_limiter := hw_limiter;
     pf_audit _ := {| au_Get _ _ w := (Err AuditNotFound, w); au_List _ _ w := (Ok {| AuditLog.Records := []; AuditLog.NextCursor := 0 |}, w) |};
     pf_Enqueue _ _ rec w := (tt, hw_with_queue (hw_queue w ++ [rec]) w);
     pf_idem _ := hw_store;
     pf_metrics _ := {| RecordDecision _ _ w := (tt, w); RecordRateLimited w := (tt, w); WriteText w := ("", w) |} |}.

Definition boot_env (k : string) : option string :=
  if String.eqb k "AUTHZ_SIGNING_PRIVATE_KEY" then Some (hex_encode seed_a)
  else if String.eqb k "AUTHZ_POLICY_FILE" then Some "policy.json"
  else if String.eqb k "AUTHZ_CONTROL_PLANE_ENABLED" then Some "false" else None.

Definition boot_pf : Platform hworld := hw_platform boot_env.

Definition booted_b : result boot_error (booted hworld) := (boot boot_pf hw0).1.

(** A key that is not a seed, a missing policy file, a policy for the wrong
    deployment: the process exits. *)
Example bad_boots :
  let err env := match (boot (hw_platform env) hw0).1 with Ok _ => None | Err e => Some e end in
  err (fun k => if String.eqb k "AUTHZ_SIGNING_PRIVATE_KEY" then Some "secret" else None) = Some SigningKeyDecode /\
  err (fun k => if String.eqb k "AUTHZ_POLICY_FILE" then Some "other.json" else None) = Some (PolicyLoadFailed (ReadPolicy "other.json" "no such file")) /\
  err (fun k => if String.eqb k "AUTHZ_AUDIT_ENCRYPTION_KEY" then Some "secret" else boot_env k) = Some AuditKeyDecode.
Proof. vm_compute. done. Qed.

(** A seed in base64url with padding is refused, although padded standard
    base64 and unpadded base64url are read. *)
Example padded_url_seed_is_refused :
  let seed := String (chr 251) (String.substring 0 31 seed_a) in
  let padded := EncodeToString seed +:+ "=" in
  String.length seed = 32%nat /\ String.length padded = 44%nat /\ decodeSeed padded = None /\ is_Some (decodeSeed (EncodeToString seed)).
Proof. vm_compute. split_and!; [done..|by eexists]. Qed.

Lemma decodeSeed_reads_back_witness : decodeSeed (hex_encode seed_a) = Some seed_a.
Proof. exact (proj1 (proj2 (proj2 (proj2 (decodeSeed_reads_back seed_a eq_refl))))). Defined.

Lemma boots : boot boot_pf hw0 = (booted_b, hw0).
Proof. unfold booted_b. assert (Hw : (boot boot_pf hw0).2 = hw0) by (vm_compute; reflexivity). rewrite <- Hw at 3. by destruct (boot boot_pf hw0). Qed.

Lemma boots_ok : exists b, boot boot_pf hw0 = (Ok b, hw0).
Proof.
  pose proof boots as Hb. assert (Hok : is_ok booted_b = true) by (vm_compute; reflexivity). destruct booted_b as [b|e]; [by exists b|discriminate].
Qed.

Lemma booted_settings_witness :
  exists b, boot boot_pf hw0 = (Ok b, hw0) /\ holdTTL (bt_engine b) = 15 * Minute /\ holdTTL (bt_engine b) = r_holdTTL (bt_reserver b) /\
    mounted (bt_server b) EpPublish = false /\ bt_encryptor b = NopEncryptor.
Proof.
  destruct boots_ok as [b Hb]. exists b. split; [exact Hb|].
  destruct (booted_settings boot_pf hw0 b hw0 Hb) as (_ & _ & _ & _ & _ & Ht & _ & _ & _ & _ & Hm & _ & He).
  assert (Hr : r_holdTTL (bt_reserver b) = 15 * Minute).
  { apply boot_inv in Hb as (k & signer & pol & enc & _ & _ & _ & _ & ->). vm_compute. reflexivity. }
  split; [by rewrite Ht|]. split; [exact Ht|]. split; [rewrite Hm; vm_compute; reflexivity|]. exact He.
Defined.

(** The first request of [ServerMem.v] to the booted service. *)
Definition first_answer : option (Contracts.Decision * option string) :=
  match booted_b with
  | Ok b => match (authorize_endpoint (bt_server b) c0 r1 hw0).1 with
            | Some x => match resp_Body x with PDecision d => Some (d, resp_Header x !! "X-Idempotent-Replay") | _ => None end
            | None => None
            end
  | Err _ => None
  end.

Lemma first_answer_approves : match first_answer with Some (d, None) => dec_Verdict d = VerdictApprove | _ => False end.
Proof. vm_compute. reflexivity. Qed.

Lemma booted_run : exists b d x w1, boot boot_pf hw0 = (Ok b, hw0) /\ authorize_endpoint (bt_server b) c0 r1 hw0 = (Some x, w1) /\
  resp_Body x = PDecision d /\ resp_Header x !! "X-Idempotent-Replay" = None /\ dec_Verdict d = VerdictApprove.
Proof.
  pose proof first_answer_approves as Ha. pose proof boots as Hb. revert Hb. generalize (boot boot_pf hw0). intros rb Hb.
  unfold first_answer in Ha. destruct booted_b as [b|e]; [|destruct Ha].
  destruct (authorize_endpoint (bt_server b) c0 r1 hw0) as [[x|] w1] eqn:Er; cbn [fst] in Ha; [|destruct Ha].
  destruct (resp_Body x) as [d| | | | |] eqn:Ed; [|destruct Ha..].
  destruct (resp_Header x !! "X-Idempotent-Replay") eqn:Ex; [destruct Ha|].
  exists b, d, x, w1. split; [exact Hb|]. split; [exact Er|]. split; [exact Ed|]. split; [exact Ex|exact Ha].
Qed.

#[local] Instance id_verify_decoder : VerifyDecoder :=
  {| parse_decision raw := if String.eqb raw "signed" then Some sample_signed else None;
     parse_jwks raw := if String.eqb raw "ring_a" then Some (JWKS ring_a) else None;
     decode_jwks raw := if String.eqb raw "ring_a" then Some (JWKS ring_a) else None |}.

Lemma booted_decisions_verify_witness :
  exists b d, boot boot_pf hw0 = (Ok b, hw0) /\ dec_Verdict d = VerdictApprove /\ VerifyDecision (bt_keyring b) d = Ok tt.
Proof.
  destruct booted_run as (b & d & x & w1 & Hb & Hr & Hd & Hf & Hv). exists b, d. split; [exact Hb|]. split; [exact Hv|].
  exact (proj1 (booted_decisions_verify boot_pf hw0 b hw0 c0 r1 hw0 x w1 d Hb Hr Hd Hf)).
Defined.

(** * The verifier *)

(** A decision file, and a key set on the disk, at a URL, and missing. *)
Definition files : outside :=
  {| stdin := Ok "signed"; file_at p := if String.eqb p "jwks.json" then Ok "ring_a" else Err "no such file";
     http_get u := if String.eqb u "http://localhost/v1/keys/public" then Ok (200, "ring_a") else Ok (503, "") |}.

Example verify_exits :
  verify_main files "-" "jwks.json" "" "" = 0 /\ verify_main files "-" "" "http://localhost/v1/keys/public" "" = 0 /\
  verify_main files "-" "" "http://down" "" = 1 /\ verify_main files "missing.json" "jwks.json" "" "" = 1 /\ verify_main files "-" "" "" "" = 1.
Proof. vm_compute. done. Qed.

Definition k1_pub : string := Public (NewKeyFromSeed seed_a).

Lemma ring_a_rotated : reachable (eq NewKeyring) rotates ring_a.
Proof. eapply reach_step; [by apply reach_init|]. exists "k1". by apply (kr_SetActive "k1" seed_a). Qed.

Lemma verify_command_agrees_witness :
  (verify_main files "-" "jwks.json" "" "" = 0 <-> VerifyDecision ring_a sample_signed = Ok tt) /\
  (verify_main files "-" "jwks.json" "" (EncodeToString k1_pub) = 0 <-> Verify sample_signed k1_pub = Ok tt).
Proof.
  pose proof (verify_command_agrees files ring_a sample_signed "-" "jwks.json" "" k1_pub ring_a_rotated) as Hv.
  specialize (Hv eq_refl eq_refl eq_refl). split; [exact (proj1 Hv)|exact (proj1 (proj2 Hv))].
Defined.

(** * The key generator *)

Abbreviation gworld := (sworld KeyRows).
#[local] Instance gruntime : Runtime gworld := sample_runtime _.

Definition gen_flags : flags := {| fl_env := EnvLive; fl_org := "org1"; fl_tier := "pro"; fl_insert := true; fl_enforce := true |}.
Definition generated : ended := (keygen micros gen_flags "postgres://db" true Live t0 ∅ (world0 ∅)).1.
Definition gen_authn : Authenticator gworld :=
  Auth.New (pg_key_store sw_store (fun _ => Live)) {| Remember k n ttl w := (Ok true, w) |} {| cfg_MaxSkew := 5 * Minute; cfg_NonceTTL := 11 * Minute |}.

Lemma keygen_key_works_witness :
  exists gk rec w', nth_error (stdout generated) 1 = Some ("  " +:+ gk_Plaintext gk) /\
    Authenticate gen_authn "POST" "/v1/authorize" (client_headers (gk_Plaintext gk) "POST" "/v1/authorize" 1772445600 "nonce-001" "{}") "{}" (world0 (table generated)) =
      (Ok {| pr_OrgID := "org1"; pr_KeyID := KeyID rec; pr_Tier := "pro"; pr_Env := "live"; pr_Shadow := false |}, w').
Proof.
  assert (Hk : keygen micros gen_flags "postgres://db" true Live t0 ∅ (world0 ∅) = (generated, (keygen micros gen_flags "postgres://db" true Live t0 ∅ (world0 ∅)).2)).
  { unfold generated. by destruct (keygen _ _ _ _ _ _ _ _). }
  assert (Hok : exit_code generated = 0) by (vm_compute; reflexivity). set (w2 := world0 (table generated)).
  assert (Hskew : skew_of t0 (time_Unix 1772445600) <= maxSkew gen_authn) by (vm_compute; discriminate).
  assert (Hnow : now w2 = (t0, (now w2).2)) by reflexivity.
  destruct (keygen_key_works micros gen_flags "postgres://db" true Live t0 ∅ (world0 ∅) generated _ gen_authn sw_store 1772445600 "nonce-001" "POST" "/v1/authorize" "{}"
    w2 t0 (now w2).2 (now w2).2 Hk Hok eq_refl eq_refl eq_refl Hnow eq_refl Hskew ltac:(vm_compute; split; discriminate) (fun _ => eq_refl))
    as (gk & rec & Hn & _ & _ & _ & Ha).
  exists gk, rec, (now w2).2. split; [exact Hn|exact Ha].
Defined.
