(* ===== verification/RouterMem.v ===== *)
(** The routes on the service of [ServerMem.v]: the witnesses of [Router.v]. *)

From S2P Require Import Prelude GoStrings GoTime Samples Sha2 Auth Runtime Signing Contracts ControlTypes Server ServerCtl ServerProps ServerMem Router.

#[local] Existing Instances sha2 sample_bigrat sample_unicode toy_ed25519 toy_jcs hw_runtime sample_decoder hw_frame_spent.

#[local] Instance no_bodies : ControlDecoder :=
  {| dec_policy _ _ := Err (BodyMalformed JsonEOF); dec_publish _ := ""; dec_rollback _ _ := Err (BodyMalformed JsonEOF);
     dec_simulate _ _ := Err (BodyMalformed JsonEOF); dec_createKey _ _ := Err (BodyMalformed JsonEOF);
     dec_provision _ _ := Err (BodyMalformed JsonEOF) |}.

(** The memory service has no control plane: its paths fall through. *)
Example dispatches :
  map (dispatch hw_server) [["v1"; "authorize"]; ["v1"; "authorize"; "42"; "void"]; ["v1"; "authorize"; ""; "void"]; ["v1"; "policies"; "active"]; ["health"]; [""]] =
  [(EpAuthorize, ""); (EpVoid, "42"); (EpNotFound, ""); (EpNotFound, ""); (EpHealth, ""); (EpNotFound, "")].
Proof. vm_compute. reflexivity. Qed.

Lemma dispatch_spec_witness : dispatch hw_server ["v1"; "decisions"; "active"] = (EpGetDecision, "active").
Proof.
  apply (dispatch_spec hw_server ["v1"; "decisions"; "active"] EpGetDecision "active"); [discriminate|].
  split; [reflexivity|]. split; [left; vm_compute; reflexivity|]. split; discriminate.
Defined.

(** Without a key nothing is spent. *)
Definition keyless : http_request :=
  {| rq_Method := "POST"; rq_Path := "/v1/authorize"; rq_Header := ∅; rq_Body := Some "25"; rq_ID := ""; rq_Query := ∅ |}.

Lemma unauthenticated_surface_witness :
  exists x w', mux hw_server ["v1"; "authorize"] c0 keyless hw0 = (Some x, w') /\ hw_spent w' = hw_spent hw0 /\ resp_Status x = 401.
Proof.
  destruct (mux hw_server ["v1"; "authorize"] c0 keyless hw0) as [[x|] w'] eqn:Er; [|vm_compute in Er; discriminate]. exists x, w'. split; [reflexivity|].
  assert (Hs : match (mux hw_server ["v1"; "authorize"] c0 keyless hw0).1 with Some x => resp_Status x =? 401 | None => false end = true) by (vm_compute; reflexivity).
  rewrite Er in Hs. apply Z.eqb_eq in Hs. split; [|exact Hs].
  pose proof (unauthenticated_surface hw_spent hw_server ["v1"; "authorize"] c0 keyless hw0 x w' ltac:(by apply hw_quiet) Er) as Hu.
  assert (Hd : dispatch hw_server ["v1"; "authorize"] = (EpAuthorize, "")) by (vm_compute; reflexivity). rewrite Hd in Hu.
  destruct Hu as [Ho|[(He & _)|[(p & w1 & Hp & _)|(_ & Hv)]]]; [discriminate|discriminate| |exact Hv].
  exfalso. destruct Hp as (body & u & d & Hb & _ & Ha & _). injection Hb as <-. vm_compute in Ha. discriminate.
Defined.
