(* ===== verification/ServerCtlMem.v ===== *)
(** The control plane assembled in memory: the key store behind its Redis cache,
    the policy service, and the bundle provider's cache in one world.  Concrete
    requests exercise the properties of [ServerCtlProps.v]. *)

From S2P Require Import Prelude GoStrings GoTime Money Contracts Runtime Signing Samples Sha2 AuditMem Policyctl PolicyctlProps BundleProv PolicyMem DryRun ControlTypes RedisKv RateLimit Auth AuthProps AuthRedis KeyStores Engine Server ServerCtl ServerProps ServerCtlProps.

#[local] Existing Instances sha2 sha2_laws toy_ed25519 toy_laws sample_jcs sample_bigrat sample_unicode type_schema.

Record cworld := {
  cw_keys : MemKeyStore;
  cw_kv : redis_kv;
  cw_nonces : MemNonces;
  cw_policies : Policyctl.MemStore;
  cw_bundles : gmap string entry
}.

#[local] Instance cw_runtime : Runtime cworld := {| now w := (t0, w); rand_Read n w := (repeat 9 n, w) |}.

Definition with_keys (x : MemKeyStore) (w : cworld) : cworld :=
  {| cw_keys := x; cw_kv := cw_kv w; cw_nonces := cw_nonces w; cw_policies := cw_policies w; cw_bundles := cw_bundles w |}.
Definition with_kv (x : redis_kv) (w : cworld) : cworld :=
  {| cw_keys := cw_keys w; cw_kv := x; cw_nonces := cw_nonces w; cw_policies := cw_policies w; cw_bundles := cw_bundles w |}.
Definition with_seen (x : MemNonces) (w : cworld) : cworld :=
  {| cw_keys := cw_keys w; cw_kv := cw_kv w; cw_nonces := x; cw_policies := cw_policies w; cw_bundles := cw_bundles w |}.
Definition with_policies (x : Policyctl.MemStore) (w : cworld) : cworld :=
  {| cw_keys := cw_keys w; cw_kv := cw_kv w; cw_nonces := cw_nonces w; cw_policies := x; cw_bundles := cw_bundles w |}.
Definition with_bundles (x : gmap string entry) (w : cworld) : cworld :=
  {| cw_keys := cw_keys w; cw_kv := cw_kv w; cw_nonces := cw_nonces w; cw_policies := cw_policies w; cw_bundles := x |}.

#[local] Instance keys_lens : Lens cw_keys with_keys. Proof. done. Defined.
#[local] Instance kv_lens : Lens cw_kv with_kv. Proof. done. Defined.
#[local] Instance policies_lens : Lens cw_policies with_policies. Proof. done. Defined.
#[local] Instance bundles_lens : Lens cw_bundles with_bundles. Proof. done. Defined.
#[local] Instance keys_frame : Frame (mem_view cw_keys). Proof. done. Defined.
#[local] Instance kv_frame : Frame cw_kv. Proof. done. Defined.
#[local] Instance policies_frame : Frame cw_policies. Proof. done. Defined.
#[local] Instance bundles_frame : Frame cw_bundles. Proof. done. Defined.

(** Fields on lines, the status first. *)
Definition key_line (rec : KeyRecord) : string :=
  Status rec +:+ nl +:+ KeyID rec +:+ nl +:+ KeyHashHex rec +:+ nl +:+ Auth.OrgID rec +:+ nl +:+ Tier rec +:+ nl +:+ Env rec +:+ nl +:+
  (if Auth.Shadow rec then "1" else "0").

Definition cut1 (x : string) : string * string := (Cut newline x).1.

Definition line_key (x : string) : option KeyRecord :=
  let '(st, x) := cut1 x in let '(id, x) := cut1 x in let '(hx, x) := cut1 x in let '(org, x) := cut1 x in
  let '(tr, x) := cut1 x in let '(env, x) := cut1 x in
  Some {| KeyID := id; KeyHashHex := hx; Auth.OrgID := org; Tier := tr; Env := env; Status := st; Auth.Shadow := String.eqb x "1" |}.

#[local] Instance line_codec : KeyCodec := {| marshal_key := key_line; unmarshal_key := line_key |}.

Lemma line_status rec rec' : unmarshal_key (marshal_key rec) = Some rec' -> Status rec = StatusRevoked -> Status rec' = StatusRevoked.
Proof.
  intros E Hs. cbn [unmarshal_key marshal_key line_codec] in E. unfold line_key, key_line, cut1 in E. rewrite Hs in E. unfold nl in E at 1.
  match type of E with context [StatusRevoked +:+ String newline EmptyString +:+ ?r] => change (StatusRevoked +:+ String newline EmptyString +:+ r) with (StatusRevoked +:+ String newline r) in E; rewrite (Cut_found newline StatusRevoked r) in E by reflexivity end.
  cbn [fst snd] in E. repeat case_match; by injection E as <-.
Qed.

Definition ckeys : CachedKeyStore cworld := cached_keys (mem_key_store cw_keys with_keys) cw_kv with_kv (5 * Minute).

Definition c_nonces : NonceStore cworld :=
  {| Remember k n ttl w := let '(fresh, seen) := Mem_Remember t0 k n ttl (cw_nonces w) in (Ok fresh, with_seen seen w) |}.

Definition c_cfg : Config := {| cfg_MaxSkew := 5 * Minute; cfg_NonceTTL := 11 * Minute |}.
Definition c_authn : Authenticator cworld := Auth.New {| LookupByID := Cached_LookupByID ckeys |} c_nonces c_cfg.

(** The same without a cache. *)
Definition plain_authn : Authenticator cworld := Auth.New (mem_key_store cw_keys with_keys) c_nonces c_cfg.

Definition mem_policies : PolicyService cworld :=
  {| svc_Create org name ag rules := id ← ulid_New; t ← now; zoom cw_policies with_policies (Create (idPrefix +:+ id) t org name ag rules);
     svc_Get org id := zoom cw_policies with_policies (fun m => (GetPolicy org id m, m));
     svc_List org := zoom cw_policies with_policies (fun m => (Ok (ListPolicies org m), m));
     svc_Update org id name ag rules := t ← now; zoom cw_policies with_policies (Update t org id name ag rules);
     svc_Publish org id author := t ← now; zoom cw_policies with_policies (Publish signer1 t t t org id author);
     svc_Rollback org id hash := t ← now; zoom cw_policies with_policies (Rollback t t org id hash);
     svc_ListVersions org id := zoom cw_policies with_policies (Service_ListVersions org id);
     svc_ActiveBundle org := zoom cw_policies with_policies (fun m => (GetActiveBundle org m, m)) |}.

#[local] Instance mem_policies_spec : PolicyServiceSpec signer1 mem_policies cw_policies.
Proof.
  split.
  - intros org id author w. exists t0, t0, t0. cbn [mem_policies svc_Publish]. rewrite bind_let, zoom_eq. split; reflexivity.
  - intros org id hash w. exists t0, t0. cbn [mem_policies svc_Rollback]. rewrite bind_let, zoom_eq. split; reflexivity.
Defined.

Lemma mem_policies_bundles w org id y :
  cw_bundles (svc_Publish mem_policies org id y w).2 = cw_bundles w /\ cw_bundles (svc_Rollback mem_policies org id y w).2 = cw_bundles w.
Proof. cbn [mem_policies svc_Publish svc_Rollback]. rewrite !bind_let, !zoom_eq. done. Qed.

Definition c_server : Server cworld :=
  {| s_authz _ _ _ w := (Err (ErrProvider "off"), w); s_authn := c_authn; s_limiter _ _ w := (Err "off", w); s_tiers := DefaultTiers;
     s_auditWriter := None; s_auditStore := None; s_verifyDecision := None; s_retentionFor := None; s_idem := None; s_budget := None; s_metrics := None;
     s_control :=
       {| c_policySvc := Some mem_policies;
          c_bundleInvalidator := Some (provider_Invalidate cw_policies with_policies cw_bundles with_bundles);
          c_simulator := Some (Simulate (mem_sim_source cw_policies with_policies)); c_keyAdmin := Some (mem_key_admin cw_keys with_keys);
          c_keyCacheInvalidate := Some (RedisKeyCache_Invalidate cw_kv with_kv);
          c_provisionToken := "platform"; c_keysJWKS := None; c_checks := []; c_build := {| bi_Version := "v"; bi_Commit := "c"; bi_Date := "d" |} |} |}.

(** The body of a rollback is the hash; other bodies are fixed. *)
#[local] Instance fixed_decoder : ControlDecoder :=
  {| dec_policy _ _ := Err (BodyMalformed JsonEOF); dec_publish b := default "" b; dec_rollback b _ := Ok (default "" b);
     dec_simulate b _ := Ok {| sr_VersionHash := default "" b; sr_Requests := batch |};
     dec_createKey _ _ := Ok {| ck_Env := EnvLive; ck_Tier := "pro"; ck_Shadow := Some false |};
     dec_provision _ _ := Ok {| pk_OrgID := "org2"; pk_Env := EnvTest; pk_Tier := ""; pk_Shadow := None |} |}.
#[local] Instance no_requests : RequestDecoder := {| decode_request _ := Err JsonEOF |}.

(** * A running service *)

(** Two keys of one organisation, and a policy that is not published yet. *)
Definition gk1 : GeneratedKey := new_key prefixLive EnvLive "org1" "pro" (repeat 7 32).
Definition gk2 : GeneratedKey := new_key prefixLive EnvLive "org1" "pro" (repeat 8 32).
Definition id2 : string := KeyID (gk_Record gk2).

Definition drafted : Policyctl.MemStore := foldl (fun m o => exec signer1 o m) Policyctl.NewMemStore [OpCreate "pol_1" 1 "org1" "spend" [] rules2].

Definition cw0 : cworld :=
  {| cw_keys := NewMemKeyStore [(gk_Record gk1, t0); (gk_Record gk2, t0)]; cw_kv := {| kv_keys := ∅; kv_now := 0; kv_up := true |};
     cw_nonces := ∅; cw_policies := drafted; cw_bundles := ∅ |}.

Definition signed (g : GeneratedKey) (path id nonce body : string) : http_request :=
  {| rq_Method := "POST"; rq_Path := path; rq_Header := client_headers (gk_Plaintext g) "POST" path 1772445600 nonce body;
     rq_Body := Some body; rq_ID := id; rq_Query := ∅ |}.

Definition req_create : http_request := signed gk1 "/v1/keys" "" "nonce-101" "{}".
Definition req_revoke : http_request := signed gk1 "/v1/keys/2/revoke" id2 "nonce-102" "".
Definition req_publish : http_request := signed gk1 "/v1/policies/1/publish" "pol_1" "nonce-103" "".
Definition req_provision : http_request :=
  {| rq_Method := "POST"; rq_Path := "/v1/provision/keys"; rq_Header := {["X-Provision-Token" := ["platform"]]}; rq_Body := Some "{}"; rq_ID := ""; rq_Query := ∅ |}.

Definition cc : ctx := {| ctx_ReqID := "req"; ctx_Principal := None |}.
Definition sent (e : endpoint) (r : http_request) (w : cworld) : response := default (writeJSON 0 (PControl (PJwks []))) (route c_server e cc r w).1.
Definition after (e : endpoint) (r : http_request) (w : cworld) : cworld := (route c_server e cc r w).2.

(** Use the second key. *)
Definition use2 (nonce : string) (w : cworld) : result Error Principal * cworld :=
  Authenticate c_authn "POST" "/v1/authorize" (client_headers (gk_Plaintext gk2) "POST" "/v1/authorize" 1772445600 nonce "{}") "{}" w.

Example revoked_after_use :
  let w1 := (use2 "nonce-201" cw0).2 in
  is_ok (use2 "nonce-201" cw0).1 = true /\ is_ok (use2 "nonce-202" w1).1 = true /\
  (use2 "nonce-202" (after EpRevoke req_revoke w1)).1 = Err (errForbidden "This API key has been revoked.").
Proof. vm_compute. done. Qed.

(** A lookup that misses the cache and has read the store, but not yet written
    the cache, when the key is revoked: it puts the active record back after
    the eviction, and the revoked key is accepted until the entry expires. *)
Example revoked_key_recached :
  let miss := cache_Get (cache ckeys) id2 cw0 in
  let found := LookupByID (source ckeys) id2 miss.2 in
  let w1 := after EpRevoke req_revoke found.2 in
  miss.1 = Ok None /\
  match found.1, resp_Body (sent EpRevoke req_revoke found.2) with
  | Ok rec, PControl (PKey v) =>
    kv_ID v = id2 /\ is_ok (use2 "nonce-203" w1).1 = false /\
    is_ok (use2 "nonce-203" (cache_Set (cache ckeys) rec (5 * Minute) w1).2).1 = true
  | _, _ => False
  end.
Proof. vm_compute. done. Qed.

(** The draft is previewed over HTTP; no version of it is stored yet. *)
Definition req_simulate (body nonce : string) : http_request := signed gk1 "/v1/policies/1/simulate" "pol_1" nonce body.

Example draft_previewed :
  match resp_Body (sent EpSimulate (req_simulate "" "nonce-105") cw0) with
  | PControl (PSimulation label true ds) => label = "draft:pol_1" /\ map dec_Verdict ds = [VerdictApprove; VerdictDeny]
  | _ => False
  end /\
  resp_Status (sent EpSimulate (req_simulate "none" "nonce-106") cw0) = 404.
Proof. vm_compute. done. Qed.

(** * Witnesses *)

(** What lookups through the cache and nonces leave alone. *)
Lemma c_lookup_frame {V} (view : cworld -> V) id w :
  (forall x w, view (with_kv x w) = view w) -> (forall w, view (with_keys (cw_keys w) w) = view w) ->
  view (LookupByID (keys c_authn) id w).2 = view w.
Proof.
  intros Hkv Hk. change (LookupByID (keys c_authn) id w) with (Cached_LookupByID ckeys id w). unfold Cached_LookupByID, ckeys.
  rewrite bind_let, cache_Get_eq. cbn [fst snd]. destruct (KeyCache_Get id (cw_kv w)) as [[rec|]|e]; [apply Hkv| |apply Hkv].
  rewrite bind_let. change (source (cached_keys (mem_key_store cw_keys with_keys) cw_kv with_kv (5 * Minute))) with (mem_key_store cw_keys with_keys).
  cbn [mem_key_store LookupByID]. rewrite zoom_eq. cbn [fst snd]. destruct (Mem_LookupByID _ _) as [rec|e]; [|etransitivity; [apply Hk|apply Hkv]].
  rewrite bind_let. change (cache_ttl (cached_keys (mem_key_store cw_keys with_keys) cw_kv with_kv (5 * Minute))) with (5 * Minute). rewrite cache_Set_eq. cbn [fst snd mret io_ret].
  rewrite Hkv. etransitivity; [apply Hk|apply Hkv].
Defined.

Lemma c_nonce_frame {V} (view : cworld -> V) k n ttl w : (forall x w, view (with_seen x w) = view w) -> view (Remember c_nonces k n ttl w).2 = view w.
Proof. intros Hs. cbn. destruct (Mem_Remember t0 k n ttl (cw_nonces w)). apply Hs. Defined.

Lemma c_quiet {V} (view : cworld -> V) :
  (forall x w, view (with_kv x w) = view w) -> (forall w, view (with_keys (cw_keys w) w) = view w) -> (forall x w, view (with_seen x w) = view w) ->
  quiet_gate view c_server.
Proof. intros Hkv Hk Hs. split; [intros; by apply c_lookup_frame | intros; by apply c_nonce_frame | done | done]. Defined.

Lemma keys_quiet : quiet_gate (mem_view cw_keys) c_server. Proof. by apply c_quiet. Defined.
Lemma policies_quiet : quiet_gate cw_policies c_server. Proof. by apply c_quiet. Defined.
Lemma bundles_quiet : quiet_gate cw_bundles c_server. Proof. by apply c_quiet. Defined.

Lemma c_evict f id w : c_keyCacheInvalidate (s_control c_server) = Some f -> mem_view cw_keys (f id w).2 = mem_view cw_keys w.
Proof. intros [= <-]. unfold RedisKeyCache_Invalidate. by rewrite zoom_eq. Defined.

Definition answered (e : endpoint) (r : http_request) (w : cworld) : bool := match (route c_server e cc r w).1 with Some _ => true | None => false end.

Lemma sent_ok e r w : answered e r w = true -> route c_server e cc r w = (Some (sent e r w), after e r w).
Proof. unfold answered, sent, after. destruct (route c_server e cc r w) as [[x|] w']; [done | discriminate]. Defined.

Definition view_of (x : response) : apiKeyView * string :=
  match resp_Body x with
  | PControl (PCreatedKey v k) => (v, k)
  | PControl (PKey v) => (v, "")
  | _ => (viewOf (infoOf (cw_keys cw0) "" (gk_Record gk1)), "")
  end.

Definition key3 : string := kv_ID (view_of (sent EpKeys req_create cw0)).1.


Definition created : apiKeyView * string := view_of (sent EpProvision req_provision cw0).
Definition cw1 : cworld := after EpProvision req_provision cw0.

Lemma created_sent : resp_Body (sent EpProvision req_provision cw0) = PControl (PCreatedKey created.1 created.2).
Proof.
  assert (Hc : match resp_Body (sent EpProvision req_provision cw0) with PControl (PCreatedKey _ _) => true | _ => false end = true) by (vm_compute; reflexivity).
  unfold created, view_of. destruct (resp_Body (sent EpProvision req_provision cw0)) as [ | | | | |[]]; try discriminate Hc. reflexivity.
Defined.

(** The new organisation's first request. *)
Lemma issued_key_authenticates_witness :
  exists w, Authenticate plain_authn "POST" "/v1/authorize" (client_headers created.2 "POST" "/v1/authorize" 1772445600 "nonce-301" "{}") "{}" cw1 =
    (Ok {| pr_OrgID := kv_OrgID created.1; pr_KeyID := kv_ID created.1; pr_Tier := kv_Tier created.1; pr_Env := kv_Env created.1;
           pr_Shadow := kv_Shadow created.1 |}, w).
Proof.
  destruct (issued_key_authenticates (mem_key_admin cw_keys with_keys) (mem_view cw_keys) id c_server eq_refl keys_quiet c_evict EpProvision cc req_provision cw0
    (sent EpProvision req_provision cw0) cw1 created.1 created.2 (or_intror (or_intror eq_refl)) (sent_ok EpProvision req_provision cw0 ltac:(vm_compute; reflexivity)) created_sent)
    as (_ & _ & _ & Hauth).
  assert (Hfound : is_ok (LookupByID (keys plain_authn) (kv_ID created.1) cw1).1 = true) by (vm_compute; reflexivity).
  set (w4 := (now (LookupByID (keys plain_authn) (kv_ID created.1) cw1).2).2).
  assert (Hfresh : (Remember (nonces plain_authn) (kv_ID created.1) "nonce-301" (nonceTTL plain_authn) w4).1 = Ok true) by (vm_compute; reflexivity).
  exists (Remember (nonces plain_authn) (kv_ID created.1) "nonce-301" (nonceTTL plain_authn) w4).2.
  refine (Hauth plain_authn 1772445600 "nonce-301" "POST" "/v1/authorize" "{}" cw1 t0 w4 _ (mem_key_reads cw_keys with_keys) eq_refl Hfound eq_refl eq_refl _ _ _).
  - vm_compute; discriminate.
  - split; vm_compute; discriminate.
  - apply injective_projections; [exact Hfresh | reflexivity].
Defined.

(** The second key. *)
Lemma key2_carried nonce : bearerKey (client_headers (gk_Plaintext gk2) "POST" "/v1/authorize" 1772445600 nonce "{}") = Ok (gk_Plaintext gk2).
Proof. vm_compute. reflexivity. Defined.

Lemma keys_wf_check m : forallb (fun p => String.eqb (KeyID p.2) p.1) (map_to_list m) = true -> keys_wf m.
Proof.
  intros Hb id rec Hr. rewrite forallb_forall in Hb. apply String.eqb_eq. apply (Hb (id, rec)). apply list_elem_of_In. by apply elem_of_map_to_list.
Defined.

(** The draft is published. *)
Definition published : response := sent EpPublish req_publish cw0.
Definition version0 : Version := match resp_Body published with PControl (PVersion v) => v | _ => {| v_VersionHash := ""; v_PolicyID := ""; v_OrgID := ""; v_Name := ""; v_Agents := []; v_Rules := []; v_Signature := SignDetached signer1 "" ""; v_Author := ""; v_ParentHash := ""; v_PublishedAt := 0 |} end.

Lemma published_sent : resp_Body published = PControl (PVersion version0).
Proof.
  assert (Hc : match resp_Body published with PControl (PVersion _) => true | _ => false end = true) by (vm_compute; reflexivity).
  unfold version0. destruct (resp_Body published) as [ | | | | |[]]; try discriminate Hc. reflexivity.
Defined.

Lemma drafted_wf : store_wf (Public (NewKeyFromSeed seed_a)) (cw_policies cw0).
Proof. apply (run_ok signer1 seed_a); [reflexivity | apply NewMemStore_wf]. Defined.

Lemma drafted_plain : plain_orgs (cw_policies cw0).
Proof. unfold plain_orgs. apply (bool_decide_unpack _). vm_compute. exact I. Defined.

