(* ===== verification/KeysPgMem.v ===== *)
(** The control plane over the key store as deployed: rows in Postgres behind
    the Redis cache.  A revocation whose answer is lost is in force only once
    its retry has been answered. *)

From stdpp Require Import relations.
From S2P Require Import Prelude GoStrings GoTime Money Contracts Runtime Signing Samples Sha2 AuditMem PolicyMem ControlTypes RedisKv RateLimit Auth AuthProps AuthRedis Pg AuthPg KeyStores Engine Server ServerCtl ServerProps ServerCtlProps ServerCtlMem.

#[local] Existing Instances sha2 sha2_laws toy_ed25519 sample_jcs sample_bigrat sample_unicode line_codec fixed_decoder no_requests.

(** [pw_how] is what becomes of the statements. *)
Record pworld := {
  pw_rows : KeyRows;
  pw_kv : redis_kv;
  pw_nonces : MemNonces;
  pw_how : fault
}.

#[local] Instance pw_runtime : Runtime pworld := {| now w := (t0, w); rand_Read n w := (repeat 9 n, w) |}.

Definition with_rows (x : KeyRows) (w : pworld) : pworld := {| pw_rows := x; pw_kv := pw_kv w; pw_nonces := pw_nonces w; pw_how := pw_how w |}.
Definition with_pkv (x : redis_kv) (w : pworld) : pworld := {| pw_rows := pw_rows w; pw_kv := x; pw_nonces := pw_nonces w; pw_how := pw_how w |}.
Definition with_pseen (x : MemNonces) (w : pworld) : pworld := {| pw_rows := pw_rows w; pw_kv := pw_kv w; pw_nonces := x; pw_how := pw_how w |}.
Definition with_how (f : fault) (w : pworld) : pworld := {| pw_rows := pw_rows w; pw_kv := pw_kv w; pw_nonces := pw_nonces w; pw_how := f |}.

#[local] Instance rows_lens : Lens pw_rows with_rows. Proof. done. Defined.
#[local] Instance pkv_lens : Lens pw_kv with_pkv. Proof. done. Defined.
#[local] Instance rows_frame : Frame (pg_view pw_rows). Proof. done. Defined.
#[local] Instance pkv_frame : Frame pw_kv. Proof. done. Defined.

Definition whole_table (w : pworld) : list string := map fst (map_to_list (pw_rows w)).

Lemma whole_table_covers w id : is_Some (pw_rows w !! id) -> id ∈ whole_table w.
Proof. intros [row Hr]. apply list_elem_of_fmap. exists (id, row). split; [done|]. by apply elem_of_map_to_list. Defined.

Definition pkeys : KeyStore pworld := pg_key_store pw_rows pw_how.
Definition padmin : KeyAdmin pworld := pg_key_admin micros pw_rows with_rows pw_how whole_table.

#[local] Instance pkeys_reads : KeyReads pkeys (pg_view pw_rows).
Proof. apply pg_key_reads. Defined.
#[local] Instance padmin_spec : KeyAdminSpec padmin (pg_view pw_rows) micros.
Proof. exact (pg_admin_spec micros pw_rows with_rows pw_how whole_table whole_table_covers). Defined.

Definition p_cached : CachedKeyStore pworld := cached_keys pkeys pw_kv with_pkv (5 * Minute).

Definition p_nonces : NonceStore pworld :=
  {| Remember k n ttl w := let '(fresh, seen) := Mem_Remember t0 k n ttl (pw_nonces w) in (Ok fresh, with_pseen seen w) |}.

Definition p_authn : Authenticator pworld := Auth.New {| LookupByID := Cached_LookupByID p_cached |} p_nonces c_cfg.

Definition p_server : Server pworld :=
  {| s_authz _ _ _ w := (Err (ErrProvider "off"), w); s_authn := p_authn; s_limiter _ _ w := (Err "off", w); s_tiers := DefaultTiers;
     s_auditWriter := None; s_auditStore := None; s_verifyDecision := None; s_retentionFor := None; s_idem := None; s_budget := None; s_metrics := None;
     s_control :=
       {| c_policySvc := None; c_bundleInvalidator := None; c_simulator := None; c_keyAdmin := Some padmin;
          c_keyCacheInvalidate := Some (RedisKeyCache_Invalidate pw_kv with_pkv);
          c_provisionToken := "platform"; c_keysJWKS := None; c_checks := []; c_build := {| bi_Version := "v"; bi_Commit := "c"; bi_Date := "d" |} |} |}.

Definition row_at_t0 (g : GeneratedKey) : key_row := {| kr_rec := gk_Record g; kr_created := t0; kr_revoked := None |}.

Definition pw0 : pworld :=
  {| pw_rows := {[KeyID (gk_Record gk1) := row_at_t0 gk1; id2 := row_at_t0 gk2]}; pw_kv := {| kv_keys := ∅; kv_now := 0; kv_up := true |};
     pw_nonces := ∅; pw_how := Live |}.

Definition p_sent (e : endpoint) (r : http_request) (w : pworld) : response := default (writeJSON 0 (PControl (PJwks []))) (route p_server e cc r w).1.
Definition p_after (e : endpoint) (r : http_request) (w : pworld) : pworld := (route p_server e cc r w).2.

(** Use the second key. *)
Definition p_use2 (nonce : string) (w : pworld) : result Error Principal * pworld :=
  Authenticate p_authn "POST" "/v1/authorize" (client_headers (gk_Plaintext gk2) "POST" "/v1/authorize" 1772445600 nonce "{}") "{}" w.

(** Both keys have been used, so both are cached. *)
Definition pw1 : pworld := p_after EpRevoke (signed gk1 "/v1/keys/none/revoke" "none" "nonce-100" "") (p_use2 "nonce-201" pw0).2.
Definition req_retry : http_request := signed gk1 "/v1/keys/2/revoke" id2 "nonce-104" "".

(** The row is revoked, the caller is told that it could not be, nothing is
    evicted, and the key is accepted from the cache; the retry is answered, and
    the key is refused. *)
Example revocation_answer_lost :
  let w2 := with_how Live (p_after EpRevoke req_revoke (with_how (Lost "connection reset") pw1)) in
  let w3 := p_after EpRevoke req_retry w2 in
  resp_Status (p_sent EpRevoke req_revoke (with_how (Lost "connection reset") pw1)) = 503 /\
  (Status <$> pg_view pw_rows w2 !! id2) = Some StatusRevoked /\
  is_ok (p_use2 "nonce-202" w2).1 = true /\
  resp_Status (p_sent EpRevoke req_retry w2) = 200 /\
  (p_use2 "nonce-203" w3).1 = Err (errForbidden "This API key has been revoked.").
Proof. vm_compute. done. Qed.

(** * Witness *)

Lemma p_lookup_frame {V} (view : pworld -> V) id w : (forall x w, view (with_pkv x w) = view w) -> view (LookupByID (keys p_authn) id w).2 = view w.
Proof.
  intros Hkv. change (LookupByID (keys p_authn) id w) with (Cached_LookupByID p_cached id w). unfold Cached_LookupByID, p_cached.
  rewrite bind_let, cache_Get_eq. cbn [fst snd]. destruct (KeyCache_Get id (pw_kv w)) as [[rec|]|e]; [apply Hkv| |apply Hkv].
  rewrite bind_let. change (source (cached_keys pkeys pw_kv with_pkv (5 * Minute))) with pkeys. cbn [pkeys pg_key_store LookupByID fst snd].
  destruct (Pg_LookupByID _ _ _) as [rec|e]; [|apply Hkv].
  rewrite bind_let. change (cache_ttl (cached_keys pkeys pw_kv with_pkv (5 * Minute))) with (5 * Minute). rewrite cache_Set_eq. cbn [fst snd mret io_ret].
  rewrite Hkv. apply Hkv.
Defined.

Lemma p_nonce_frame {V} (view : pworld -> V) k n ttl w : (forall x w, view (with_pseen x w) = view w) -> view (Remember p_nonces k n ttl w).2 = view w.
Proof. intros Hs. cbn. destruct (Mem_Remember t0 k n ttl (pw_nonces w)). apply Hs. Defined.

Lemma p_quiet : quiet_gate (pg_view pw_rows) p_server.
Proof. split; [intros; by apply p_lookup_frame | intros; by apply p_nonce_frame | done | done]. Defined.

(** The retry of the revocation whose answer was lost. *)
Definition pw2 : pworld := with_how Live (p_after EpRevoke req_revoke (with_how (Lost "connection reset") pw1)).
Definition revocation : apiKeyView := (view_of (p_sent EpRevoke req_retry pw2)).1.

Lemma revocation_sent : resp_Body (p_sent EpRevoke req_retry pw2) = PControl (PKey revocation).
Proof.
  assert (Hc : match resp_Body (p_sent EpRevoke req_retry pw2) with PControl (PKey _) => true | _ => false end = true) by (vm_compute; reflexivity).
  unfold revocation, view_of. destruct (resp_Body (p_sent EpRevoke req_retry pw2)) as [ | | | | |[]]; try discriminate Hc. reflexivity.
Defined.

Lemma revocation_routed : route p_server EpRevoke cc req_retry pw2 = (Some (p_sent EpRevoke req_retry pw2), p_after EpRevoke req_retry pw2).
Proof.
  assert (Ha : match (route p_server EpRevoke cc req_retry pw2).1 with Some _ => true | None => false end = true) by (vm_compute; reflexivity).
  unfold p_sent, p_after. destruct (route p_server EpRevoke cc req_retry pw2) as [[x|] w']; [done | discriminate].
Defined.

Lemma store_keys_wf : keys_wf (pg_view pw_rows pw2).
Proof. apply keys_wf_check. vm_compute. reflexivity. Defined.

Lemma key2_retried : parseKey (gk_Plaintext gk2) = Ok (rq_ID req_retry, KeyHashHex (gk_Record gk2)).
Proof. vm_compute. reflexivity. Defined.

Lemma nonces_leave k n ttl w : pg_view pw_rows (Remember (nonces p_authn) k n ttl w).2 = pg_view pw_rows w /\ pw_kv (Remember (nonces p_authn) k n ttl w).2 = pw_kv w.
Proof. split; by apply (p_nonce_frame _ k n ttl w). Defined.

(** The revoked world, the same with the record of a lookup that was in flight
    written back, and five minutes later. *)
Definition pw3 : pworld := p_after EpRevoke req_retry pw2.
Definition active2 : KeyRecord := gk_Record gk2.
Definition pw4 : pworld := (cache_Set (cache p_cached) active2 (5 * Minute) pw3).2.
Definition later (ms : Z) (w : pworld) : pworld :=
  with_pkv {| kv_keys := kv_keys (pw_kv w); kv_now := kv_now (pw_kv w) + ms; kv_up := kv_up (pw_kv w) |} w.

Lemma later_keys_wf : keys_wf (pg_view pw_rows (later 300000 pw4)).
Proof. apply keys_wf_check. vm_compute. reflexivity. Defined.

#[local] Abbreviation pw_meanwhile := (meanwhile pkeys (pg_view pw_rows) pw_kv with_pkv (5 * Minute) p_authn (rq_ID req_retry)).

(** The lookup in flight writes, and time passes. *)
Lemma lookup_lands :
  rtc pw_meanwhile {| fl_world := pw3; fl_reads := [active2]; fl_until := None |}
    {| fl_world := later 300000 pw4; fl_reads := []; fl_until := Some 300000 |}.
Proof.
  eapply rtc_l. { apply (meanwhile_write _ _ _ _ _ _ _ _ [] active2 []). reflexivity. }
  assert (Hu : (if stale (rq_ID req_retry) active2 then until_after None (kv_now (pw_kv pw3) + ttl_ms (5 * Minute)) else None) = Some 300000) by (vm_compute; reflexivity).
  cbn [fl_world fl_reads fl_until]. rewrite Hu. apply rtc_once.
  apply (meanwhile_other _ _ _ _ _ _ _ {| fl_world := pw4; fl_reads := []; fl_until := Some 300000 |} (later 300000 pw4));
    [exact later_keys_wf | reflexivity | cbn [fl_world later with_pkv pw_kv kv_now]; lia | done].
Defined.

Example stale_entry_accepted : is_ok (p_use2 "nonce-202" pw4).1 = true.
Proof. vm_compute. reflexivity. Qed.

(** Refused at once, and again after another request with the key; and refused
    five minutes after a lookup in flight had put the active record back. *)
Lemma revocation_is_immediate_witness :
  (exists e, (p_use2 "nonce-203" (p_use2 "nonce-202" pw3).2).1 = Err e /\ refusal e) /\
  (exists e, (p_use2 "nonce-203" (later 300000 pw4)).1 = Err e /\ refusal e).
Proof.
  assert (Hup : kv_up (pw_kv pw3) = true) by (vm_compute; reflexivity).
  destruct (revocation_is_immediate padmin pkeys (pg_view pw_rows) micros pw_kv with_pkv ltac:(reflexivity) ltac:(reflexivity) (5 * Minute) p_authn eq_refl nonces_leave line_status
    p_server eq_refl p_quiet eq_refl cc req_retry pw2 (p_sent EpRevoke req_retry pw2) pw3 revocation store_keys_wf
    revocation_routed revocation_sent Hup) as (_ & _ & Hafter). split.
  - destruct (Hafter [] _ (rtc_once _ _ (meanwhile_request _ _ _ _ _ _ _ _ "POST" "/v1/authorize"
      (client_headers (gk_Plaintext gk2) "POST" "/v1/authorize" 1772445600 "nonce-202" "{}") "{}"))) as (_ & _ & Hno).
    destruct (Hno "POST" "/v1/authorize" (client_headers (gk_Plaintext gk2) "POST" "/v1/authorize" 1772445600 "nonce-203" "{}") "{}" (gk_Plaintext gk2) _
      I (key2_carried _) key2_retried) as (e & Ha & He).
    exists e. split; [|exact He]. unfold p_use2. cbn [fl_world] in Ha. by rewrite Ha.
  - destruct (Hafter _ _ lookup_lands) as (_ & _ & Hno).
    assert (Hover : over (5 * Minute) (Some 300000) (pw_kv (later 300000 pw4))) by (split; vm_compute; congruence).
    destruct (Hno "POST" "/v1/authorize" (client_headers (gk_Plaintext gk2) "POST" "/v1/authorize" 1772445600 "nonce-203" "{}") "{}" (gk_Plaintext gk2) _
      Hover (key2_carried _) key2_retried) as (e & Ha & He).
    exists e. split; [|exact He]. unfold p_use2. cbn [fl_world] in Ha. by rewrite Ha.
Defined.
